(** * Italian Law MCP: citation grammar, crawl client and ingestion helpers

  A shallow embedding of the TypeScript sources of the repository
    - src/citation/parser.ts, src/citation/formatter.ts,
      src/citation/validator.ts and src/utils/statute-id.ts;
    - the session client scripts/lib/fetcher.ts (rateLimit, fetchWithSession,
      extractArticleUrls, fetchAllArticles), which the ingestion scripts import;
    - the database builder scripts/build-db.ts (normalizeWhitespace,
      pickPreferredProvision, dedupeProvisions, normalizeEuYear);
    - the article parsers of scripts/lib/parser.ts (parseArticleHtml,
      parseAttachmentArticleHtml), as far as the provision they return;
    - the two article-by-article ingestion scripts (ingestAct), the one over
      the table KEY_LAWS and the census-driven one;
  together with the properties the specification states about them.

  Conventions.  A JavaScript string is a Rocq [string]; its characters stand
  for UTF-16 code units below 256.  A JavaScript number that holds an integer
  is a [Z]; the model is exact where JavaScript is, that is below 2^53.
  [undefined] and [null] are [None].  A function that can throw returns a
  [result]. *)

From Stdlib Require Import Strings.String Strings.Ascii Lists.List.
From Stdlib Require Import ZArith NArith Arith Bool Lia.
From Stdlib Require Import Numbers.DecimalString Sorting.Sorted Sorting.Permutation.
Import ListNotations.

Open Scope list_scope.
Open Scope string_scope.

(* ------------------------------------------------------------------------- *)
(** ** JavaScript strings *)
(* ------------------------------------------------------------------------- *)

Module Js.

Definition code (a : ascii) : nat := nat_of_ascii a.

(** [\d] *)
Definition is_digit (a : ascii) : bool :=
  (48 <=? code a)%nat && (code a <=? 57)%nat.

(** [\s] (and the characters [trim] strips): TAB, LF, VT, FF, CR, SP, NBSP. *)
Definition is_space (a : ascii) : bool :=
  ((9 <=? code a)%nat && (code a <=? 13)%nat)
  || (code a =? 32)%nat || (code a =? 160)%nat.

Definition is_upper (a : ascii) : bool :=
  (65 <=? code a)%nat && (code a <=? 90)%nat.

Definition is_lower (a : ascii) : bool :=
  (97 <=? code a)%nat && (code a <=? 122)%nat.

(** [\w] = [A-Za-z0-9_] *)
Definition is_word (a : ascii) : bool :=
  is_upper a || is_lower a || is_digit a || (code a =? 95)%nat.

(** Lower-casing of one code unit: A-Z, and the Latin-1 capitals
    U+00C0..U+00DE except the multiplication sign U+00D7. *)
Definition lower_char (a : ascii) : ascii :=
  if is_upper a then ascii_of_nat (code a + 32)
  else if (192 <=? code a)%nat && (code a <=? 222)%nat
          && negb (code a =? 215)%nat
       then ascii_of_nat (code a + 32)
       else a.

(** Canonicalisation used by a regular expression with flag [i] and without
    flag [u]: a character is compared through its upper-case form, and a
    non-ASCII character never canonicalises to an ASCII one.  For an ASCII
    pattern letter this is equality up to ASCII case. *)
Definition ascii_fold (a : ascii) : ascii :=
  if is_lower a then ascii_of_nat (code a - 32) else a.

Definition eq_ci (c a : ascii) : bool := Ascii.eqb (ascii_fold c) (ascii_fold a).

Fixpoint map_string (f : ascii -> ascii) (s : string) : string :=
  match s with
  | EmptyString => EmptyString
  | String a s' => String (f a) (map_string f s')
  end.

Definition toLowerCase : string -> string := map_string lower_char.

Fixpoint forallb_string (p : ascii -> bool) (s : string) : bool :=
  match s with
  | EmptyString => true
  | String a s' => p a && forallb_string p s'
  end.

Fixpoint trimStart (s : string) : string :=
  match s with
  | String a s' => if is_space a then trimStart s' else s
  | EmptyString => EmptyString
  end.

Fixpoint trimEnd (s : string) : string :=
  match s with
  | EmptyString => EmptyString
  | String a s' =>
      match trimEnd s' with
      | EmptyString => if is_space a then EmptyString else String a EmptyString
      | t => String a t
      end
  end.

(** [String.prototype.trim] *)
Definition trim (s : string) : string := trimEnd (trimStart s).

(** [s.startsWith(p)] *)
Fixpoint startsWith (p s : string) : bool :=
  match p, s with
  | EmptyString, _ => true
  | String a p', String b s' => Ascii.eqb a b && startsWith p' s'
  | String _ _, EmptyString => false
  end.

(** [s.includes(p)] *)
Fixpoint includes (p s : string) : bool :=
  startsWith p s
  || match s with
     | EmptyString => false
     | String _ s' => includes p s'
     end.

(** [s.split(sep)[0]] for a one-character separator: the text before the
    first occurrence of [sep], or all of [s]. *)
Fixpoint before (sep : ascii) (s : string) : string :=
  match s with
  | EmptyString => EmptyString
  | String a s' => if Ascii.eqb a sep then EmptyString else String a (before sep s')
  end.

(** [l.join(sep)] *)
Fixpoint join (sep : string) (l : list string) : string :=
  match l with
  | [] => EmptyString
  | [x] => x
  | x :: l' => x ++ sep ++ join sep l'
  end.

(** [text.replace(/\s+/g, ' ')]: every maximal run of white space becomes one
    space.  [in_run] tells that the previous character was white space. *)
Fixpoint collapse_from (in_run : bool) (s : string) : string :=
  match s with
  | EmptyString => EmptyString
  | String a s' =>
      if is_space a
      then if in_run then collapse_from true s'
           else String " " (collapse_from true s')
      else String a (collapse_from false s')
  end.

Definition collapse_spaces (s : string) : string := collapse_from false s.

(** The double-quote character, and a text between double quotes. *)
Definition dquote : ascii := ascii_of_nat 34.

Definition quoted (s : string) : string :=
  String dquote (s ++ String dquote EmptyString).

(** A JavaScript number as far as this program uses them: not a number, or
    an integer that is a double. *)
Inductive number : Type :=
| NaN
| Num (z : Z).

(** The double nearest to a natural number: the number itself below 2^53;
    from there on the number rounded to 53 significant bits, a tie going to
    the even neighbour.  What lies past the largest double rounds to
    infinity, for which 2^1024 stands. *)
Definition to_double (z : Z) : Z :=
  if (z <? 2 ^ 53)%Z then z
  else
    let e := (Z.log2 z - 52)%Z in
    let q := Z.shiftr z e in
    let r := (z - Z.shiftl q e)%Z in
    let half := Z.shiftl 1 (e - 1) in
    let q' := if (half <? r)%Z || ((r =? half)%Z && Z.odd q)
              then (q + 1)%Z else q in
    let v := Z.shiftl q' e in
    if (2 ^ 1024 <=? v)%Z then (2 ^ 1024)%Z else v.

Definition digit_value (a : ascii) : Z := Z.of_nat (code a - 48).

Fixpoint digits_value (acc : Z) (s : string) : Z :=
  match s with
  | String a s' => if is_digit a then digits_value (10 * acc + digit_value a) s' else acc
  | EmptyString => acc
  end.

Definition starts_with_digit (s : string) : bool :=
  match s with
  | String a _ => is_digit a
  | EmptyString => false
  end.

(** [parseInt(s, 10)]: leading white space is skipped, one sign is read, the
    longest run of decimal digits is the value, as a double; no digit gives
    [NaN]. *)
Definition parseInt (s : string) : number :=
  match trimStart s with
  | String "-" s' =>
      if starts_with_digit s' then Num (- to_double (digits_value 0 s'))
      else NaN
  | String "+" s' =>
      if starts_with_digit s' then Num (to_double (digits_value 0 s')) else NaN
  | s' => if starts_with_digit s' then Num (to_double (digits_value 0 s'))
          else NaN
  end.

(** [Number(s)] on the strings this program passes to it (decimal digits or
    the empty string, which converts to 0). *)
Definition Number_of (s : string) : Z := to_double (digits_value 0 s).

(** Template-literal rendering of a number: its decimal digits, which is
    what JavaScript prints for an integer below 10^21.  From 10^21 on
    JavaScript prints an exponent, which is not modelled: the properties that
    speak of a printed number are stated for numbers below that. *)
Definition number_to_string (n : number) : string :=
  match n with
  | NaN => "NaN"
  | Num z => NilZero.string_of_int (Z.to_int z)
  end.

(** Truthiness of a number: neither [NaN] nor zero. *)
Definition truthy_number (n : option number) : bool :=
  match n with
  | Some (Num z) => negb (z =? 0)%Z
  | _ => false
  end.

(** Truthiness of an optional string: present and not empty. *)
Definition truthy_string (s : option string) : bool :=
  match s with
  | Some (String _ _) => true
  | _ => false
  end.

(** [x || undefined] on an optional string. *)
Definition or_undefined (s : option string) : option string :=
  if truthy_string s then s else None.

End Js.

(* ------------------------------------------------------------------------- *)
(** ** Regular expressions *)
(* ------------------------------------------------------------------------- *)

(** A backtracking matcher in continuation-passing style, after the way
  ECMAScript defines pattern semantics: a matcher takes the rest of the input,
  the captures so far and a continuation; alternatives are tried left to
  right, quantifiers are greedy, and the first success is the result. *)
Module Regex.

Inductive regex : Type :=
| Eps
| Cls (p : ascii -> bool)        (* one character of a class *)
| Seq (r1 r2 : regex)
| Alt (r1 r2 : regex)            (* r1|r2 *)
| Star (r : regex)               (* r*, greedy *)
| Grp (i : nat) (r : regex)      (* capture group number i *)
| Eos.                           (* $ *)

Definition caps : Type := list (nat * string).

Fixpoint group (c : caps) (i : nat) : option string :=
  match c with
  | [] => None
  | (j, v) :: c' => if (j =? i)%nat then Some v else group c' i
  end.

Definition answer : Type := option (string * caps).
Definition cont : Type := string -> caps -> answer.
Definition matcher : Type := string -> caps -> cont -> answer.

(** The part of [s] in front of its suffix [s']. *)
Definition consumed (s s' : string) : string :=
  substring 0 (String.length s - String.length s') s.

(** Iteration of a greedy star.  An iteration that consumes nothing is
    rejected, so [length s] iterations always suffice. *)
Fixpoint star_loop (body : matcher) (fuel : nat) (s : string) (c : caps)
         (k : cont) : answer :=
  match fuel with
  | O => k s c
  | S fuel' =>
      match body s c (fun s' c' =>
               if (String.length s' <? String.length s)%nat
               then star_loop body fuel' s' c' k else None) with
      | Some x => Some x
      | None => k s c
      end
  end.

Fixpoint rmatch (r : regex) : matcher :=
  fun s c k =>
  match r with
  | Eps => k s c
  | Cls p =>
      match s with
      | String a s' => if p a then k s' c else None
      | EmptyString => None
      end
  | Seq r1 r2 => rmatch r1 s c (fun s' c' => rmatch r2 s' c' k)
  | Alt r1 r2 =>
      match rmatch r1 s c k with
      | Some x => Some x
      | None => rmatch r2 s c k
      end
  | Star r1 => star_loop (rmatch r1) (String.length s) s c k
  | Grp i r1 => rmatch r1 s c (fun s' c' => k s' ((i, consumed s s') :: c'))
  | Eos =>
      match s with
      | EmptyString => k s c
      | String _ _ => None
      end
  end.

Definition accept : cont := fun s c => Some (s, c).

(** A pattern that starts with [^]: it is tried at offset 0 only.  The
    answer is the unmatched rest of the input and the captures. *)
Definition match_start (r : regex) (s : string) : answer :=
  rmatch r s [] accept.

(** A pattern without [^]: the leftmost offset at which it matches. *)
Fixpoint search (r : regex) (s : string) : answer :=
  match match_start r s with
  | Some x => Some x
  | None =>
      match s with
      | EmptyString => None
      | String _ s' => search r s'
      end
  end.

(** The pattern matches all of [s] ([^...$]). *)
Definition match_whole (r : regex) (s : string) : bool :=
  match rmatch r s [] (fun s' c => match s' with
                                   | EmptyString => Some (s', c)
                                   | String _ _ => None
                                   end) with
  | Some _ => true
  | None => false
  end.

(** The loop [while ((m = re.exec(s)) !== null)] of a pattern with flag [g]
    whose matches are never empty: the captures of the successive matches,
    each search resuming where the previous match ended. *)
Fixpoint scan_from (r : regex) (fuel : nat) (s : string) : list caps :=
  match fuel with
  | O => []
  | S fuel' =>
      match search r s with
      | Some (rest, c) => c :: scan_from r fuel' rest
      | None => []
      end
  end.

Definition scan (r : regex) (s : string) : list caps :=
  scan_from r (S (String.length s)) s.

(** Derived forms. *)
Definition opt (r : regex) : regex := Alt r Eps.          (* r? *)
Definition plus (r : regex) : regex := Seq r (Star r).    (* r+ *)
Definition chr (a : ascii) : regex := Cls (Ascii.eqb a).
Definition chr_i (a : ascii) : regex := Cls (Js.eq_ci a). (* under flag i *)
Definition dg : regex := Cls Js.is_digit.                 (* \d *)
Definition ws : regex := Cls Js.is_space.                 (* \s *)
Definition wd : regex := Cls Js.is_word.                  (* \w *)

Fixpoint lit (s : string) : regex :=
  match s with
  | EmptyString => Eps
  | String a EmptyString => chr a
  | String a s' => Seq (chr a) (lit s')
  end.

(** A literal under flag [i]. *)
Fixpoint lit_i (s : string) : regex :=
  match s with
  | EmptyString => Eps
  | String a EmptyString => chr_i a
  | String a s' => Seq (chr_i a) (lit_i s')
  end.

Fixpoint alts (l : list regex) : regex :=
  match l with
  | [] => Cls (fun _ => false)
  | [r] => r
  | r :: l' => Alt r (alts l')
  end.

Fixpoint seqs (l : list regex) : regex :=
  match l with
  | [] => Eps
  | [r] => r
  | r :: l' => Seq r (seqs l')
  end.

(** [sets i r]: every successful match of [r] records capture [i]. *)
Fixpoint sets (i : nat) (r : regex) : bool :=
  match r with
  | Seq r1 r2 => sets i r1 || sets i r2
  | Alt r1 r2 => sets i r1 && sets i r2
  | Grp j r1 => (j =? i)%nat || sets i r1
  | _ => false
  end.

Definition defined (c : caps) (i : nat) : bool :=
  match group c i with Some _ => true | None => false end.

End Regex.

(* ------------------------------------------------------------------------- *)
(** ** Exceptions *)
(* ------------------------------------------------------------------------- *)

(** A computation that returns a value or throws. *)
Inductive result (A : Type) : Type :=
| Ok (a : A)
| Throw (msg : string).

Arguments Ok {A} a.
Arguments Throw {A} msg.

Definition bind {A B : Type} (m : result A) (f : A -> result B) : result B :=
  match m with
  | Ok a => f a
  | Throw msg => Throw msg
  end.

Notation "x <- m ;; f" := (bind m (fun x => f))
  (at level 61, m at next level, right associativity).

(** Reading a property of [undefined] is a TypeError. *)
Definition defined_or_throw (o : option string) : result string :=
  match o with
  | Some v => Ok v
  | None => Throw "TypeError: cannot read properties of undefined"
  end.

(* ------------------------------------------------------------------------- *)
(** ** src/citation/parser.ts *)
(* ------------------------------------------------------------------------- *)

Module Citation.
Import Regex.

Inductive ItalianDocumentType : Type :=
| legge | dlgs | dl | dpr | rd | codice | unknown.

Definition type_name (t : ItalianDocumentType) : string :=
  match t with
  | legge => "legge" | dlgs => "dlgs" | dl => "dl" | dpr => "dpr"
  | rd => "rd" | codice => "codice" | unknown => "unknown"
  end.

Definition type_eqb (a b : ItalianDocumentType) : bool :=
  String.eqb (type_name a) (type_name b).

Record ParsedCitation : Type := {
  valid : bool;
  type : ItalianDocumentType;
  title : option string;
  year : option Js.number;
  number : option Js.number;
  article : option string;
  comma : option string;
  suffix : option string;
  document_id : option string;
  error : option string
}.

(** Document type abbreviation mapping *)
Definition TYPE_MAP : list (string * ItalianDocumentType) :=
  [ ("decreto legislativo", dlgs);
    ("d.lgs.", dlgs);
    ("d.lgs", dlgs);
    ("dlgs", dlgs);
    ("decreto-legge", dl);
    ("decreto legge", dl);
    ("d.l.", dl);
    ("d.l", dl);
    ("dl", dl);
    ("legge", legge);
    ("l.", legge);
    ("d.p.r.", dpr);
    ("dpr", dpr);
    ("r.d.", rd);
    ("rd", rd);
    ("regio decreto", rd);
    ("codice", codice) ].

Fixpoint lookup {V : Type} (k : string) (m : list (string * V)) : option V :=
  match m with
  | [] => None
  | (k', v) :: m' => if String.eqb k' k then Some v else lookup k m'
  end.

(** Article suffix patterns (bis, ter, quater, etc.) *)
Definition ARTICLE_SUFFIXES : list string :=
  ["bis"; "ter"; "quater"; "quinquies"; "sexies"; "septies"; "octies";
   "novies"; "decies"].

(** [(?:bis|ter|quater|quinquies|sexies|septies|octies|novies|decies)] *)
Definition SUFFIX : regex := alts (map lit_i ARTICLE_SUFFIXES).

(** [\d+(?:-(?:bis|...|decies))?] *)
Definition ARTNUM : regex := Seq (plus dg) (opt (Seq (chr "-") SUFFIX)).

(** [^Art\.?\s+] *)
Definition ART : regex := seqs [lit_i "Art"; opt (chr "."); plus ws].

(** The optional paragraph part shared by three grammars, in the source
    [\s*(?:,\s*(?:comma\s+(\d+)\s*,\s* )?)?(?:,\s* )?]. *)
Definition OPT_COMMA : regex :=
  seqs [ Star ws;
         opt (seqs [ chr ","; Star ws;
                     opt (seqs [ lit_i "comma"; plus ws; Grp 2 (plus dg);
                                 Star ws; chr ","; Star ws ]) ]);
         opt (Seq (chr ",") (Star ws)) ].

(** [D\.Lgs\.?|D\.L\.?|L\.?|D\.P\.R\.?|R\.D\.?|Legge|Decreto\s+legislativo|Decreto-legge] *)
Definition SHORT_TYPES : regex :=
  alts [ Seq (lit_i "D.Lgs") (opt (chr "."));
         Seq (lit_i "D.L") (opt (chr "."));
         Seq (lit_i "L") (opt (chr "."));
         Seq (lit_i "D.P.R") (opt (chr "."));
         Seq (lit_i "R.D") (opt (chr "."));
         lit_i "Legge";
         seqs [lit_i "Decreto"; plus ws; lit_i "legislativo"];
         lit_i "Decreto-legge" ].

(** [Decreto\s+legislativo|Decreto-legge|Decreto\s+legge|Legge|Regio\s+decreto|D\.P\.R\.?] *)
Definition FULL_TYPES : regex :=
  alts [ seqs [lit_i "Decreto"; plus ws; lit_i "legislativo"];
         lit_i "Decreto-legge";
         seqs [lit_i "Decreto"; plus ws; lit_i "legge"];
         lit_i "Legge";
         seqs [lit_i "Regio"; plus ws; lit_i "decreto"];
         Seq (lit_i "D.P.R") (opt (chr ".")) ].

Definition MONTHS : regex :=
  alts (map lit_i ["gennaio"; "febbraio"; "marzo"; "aprile"; "maggio"; "giugno";
                   "luglio"; "agosto"; "settembre"; "ottobre"; "novembre";
                   "dicembre"]).

(** [\d{4}] *)
Definition DIGITS4 : regex := seqs [dg; dg; dg; dg].

(** [\s+(?:n\.?\s* )?(\d+)\s*\/\s*(\d{4})], the two groups numbered [i], [j] *)
Definition NUMBER_SLASH_YEAR (i j : nat) : regex :=
  seqs [ plus ws;
         opt (seqs [chr_i "n"; opt (chr "."); Star ws]);
         Grp i (plus dg); Star ws; chr "/"; Star ws; Grp j DIGITS4 ].

Definition NUMBER_YEAR : regex := NUMBER_SLASH_YEAR 4 5.

(** Full citation: "Art. 1, Decreto legislativo 30 giugno 2003, n. 196" *)
Definition FULL_CITATION : regex :=
  seqs [ ART; Grp 1 ARTNUM; OPT_COMMA; Grp 3 FULL_TYPES;
         plus ws; Grp 4 (Seq dg (opt dg));
         plus ws; Grp 5 MONTHS;
         plus ws; Grp 6 DIGITS4;
         Star ws; opt (chr ","); Star ws; chr_i "n"; opt (chr "."); Star ws;
         Grp 7 (plus dg) ].

(** Short citation: "Art. 1, D.Lgs. 196/2003" *)
Definition SHORT_CITATION : regex :=
  seqs [ ART; Grp 1 ARTNUM; OPT_COMMA; Grp 3 SHORT_TYPES; NUMBER_YEAR ].

(** With comma/paragraph: "Art. 1, comma 1, D.Lgs. 196/2003" *)
Definition COMMA_CITATION : regex :=
  seqs [ ART; Grp 1 ARTNUM;
         Star ws; chr ","; Star ws; lit_i "comma"; plus ws; Grp 2 (plus dg);
         Star ws; chr ","; Star ws;
         Grp 3 SHORT_TYPES; NUMBER_YEAR ].

(** ID-based: "dlgs-196-2003, art. 1" or "dlgs-196-2003, art. 4-bis" *)
Definition ID_BASED_CITATION : regex :=
  seqs [ Grp 1 (alts (map lit_i ["legge"; "dlgs"; "dl"; "dpr"; "rd"]));
         chr "-"; Grp 2 (plus dg); chr "-"; Grp 3 DIGITS4;
         Star ws; opt (chr ","); Star ws; lit_i "art"; opt (chr "."); Star ws;
         Grp 4 ARTNUM;
         opt (seqs [ Star ws; opt (chr ","); Star ws; lit_i "comma"; plus ws;
                     Grp 5 (plus dg) ]) ].

(** Codice-style: "Art. 615-ter, Codice Penale" or "Art. 1, Codice Civile" *)
Definition CODICE_CITATION : regex :=
  seqs [ ART; Grp 1 ARTNUM; OPT_COMMA;
         Grp 3 (seqs [ lit_i "Codice"; plus ws; plus wd;
                       opt (Seq (plus ws) (plus wd)) ]) ].

(** [/^(\d+)-(bis|...|decies)$/i] *)
Definition ARTICLE_REF : regex :=
  seqs [ Grp 1 (plus dg); chr "-"; Grp 2 SUFFIX; Eos ].

Definition parseArticleRef (raw : string) : result (string * option string) :=
  match match_start ARTICLE_REF raw with
  | Some (_, m) =>
      a <- defined_or_throw (group m 1) ;;
      x <- defined_or_throw (group m 2) ;;
      Ok (a, Some (Js.toLowerCase x))
  | None => Ok (raw, None)
  end.

Definition resolveDocType (raw : string) : ItalianDocumentType :=
  let lower := Js.trim (Js.collapse_spaces (Js.toLowerCase raw)) in
  match lookup lower TYPE_MAP with
  | Some t => t
  | None => unknown
  end.

Definition buildDocumentId (t : ItalianDocumentType) (n y : Js.number) : string :=
  type_name t ++ "-" ++ Js.number_to_string n ++ "-" ++ Js.number_to_string y.

(** [parseInt(match[i], 10)]; an absent group reads as "undefined". *)
Definition parseIntGroup (m : caps) (i : nat) : Js.number :=
  match group m i with
  | Some v => Js.parseInt v
  | None => Js.NaN
  end.

(** The cast [match[1].toLowerCase() as ItalianDocumentType]: group 1 of the
    pattern is one of the five identifier prefixes. *)
Definition docTypeOfPrefix (s : string) : ItalianDocumentType :=
  if String.eqb s "legge" then legge
  else if String.eqb s "dlgs" then dlgs
  else if String.eqb s "dl" then dl
  else if String.eqb s "dpr" then dpr
  else if String.eqb s "rd" then rd
  else unknown.

Definition numbered (docType : ItalianDocumentType) (art : string)
           (sfx comma : option string) (n y : Js.number) : ParsedCitation :=
  {| valid := true; type := docType; title := None;
     year := Some y; number := Some n;
     article := Some art; comma := comma; suffix := sfx;
     document_id := Some (buildDocumentId docType n y); error := None |}.

Definition invalid (trimmed : string) : ParsedCitation :=
  {| valid := false; type := unknown; title := None; year := None;
     number := None; article := None; comma := None; suffix := None;
     document_id := None;
     error := Some ("Could not parse Italian citation: " ++ Js.quoted trimmed) |}.

Definition fromComma (m : caps) : result ParsedCitation :=
  raw <- defined_or_throw (group m 1) ;;
  ref <- parseArticleRef raw ;;
  let comma := group m 2 in
  t <- defined_or_throw (group m 3) ;;
  let docType := resolveDocType t in
  let number := parseIntGroup m 4 in
  let year := parseIntGroup m 5 in
  Ok (numbered docType (fst ref) (snd ref) comma number year).

Definition fromIdBased (m : caps) : result ParsedCitation :=
  t <- defined_or_throw (group m 1) ;;
  let docType := docTypeOfPrefix (Js.toLowerCase t) in
  let number := parseIntGroup m 2 in
  let year := parseIntGroup m 3 in
  raw <- defined_or_throw (group m 4) ;;
  ref <- parseArticleRef raw ;;
  let comma := Js.or_undefined (group m 5) in
  Ok (numbered docType (fst ref) (snd ref) comma number year).

Definition fromCodice (m : caps) : result ParsedCitation :=
  raw <- defined_or_throw (group m 1) ;;
  ref <- parseArticleRef raw ;;
  let comma := Js.or_undefined (group m 2) in
  t <- defined_or_throw (group m 3) ;;
  let title := Js.trim t in
  Ok {| valid := true; type := codice; title := Some title;
        year := None; number := None;
        article := Some (fst ref); comma := comma; suffix := snd ref;
        document_id := None; error := None |}.

Definition fromFull (m : caps) : result ParsedCitation :=
  raw <- defined_or_throw (group m 1) ;;
  ref <- parseArticleRef raw ;;
  let comma := Js.or_undefined (group m 2) in
  t <- defined_or_throw (group m 3) ;;
  let docType := resolveDocType t in
  let number := parseIntGroup m 7 in
  let year := parseIntGroup m 6 in
  Ok (numbered docType (fst ref) (snd ref) comma number year).

Definition fromShort (m : caps) : result ParsedCitation :=
  raw <- defined_or_throw (group m 1) ;;
  ref <- parseArticleRef raw ;;
  let comma := Js.or_undefined (group m 2) in
  t <- defined_or_throw (group m 3) ;;
  let docType := resolveDocType t in
  let number := parseIntGroup m 4 in
  let year := parseIntGroup m 5 in
  Ok (numbered docType (fst ref) (snd ref) comma number year).

Definition parseCitation (citation : string) : result ParsedCitation :=
  let trimmed := Js.trim citation in
  (* Try comma citation first (most specific) *)
  match match_start COMMA_CITATION trimmed with
  | Some (_, m) => fromComma m
  | None =>
  (* Try ID-based citation *)
  match match_start ID_BASED_CITATION trimmed with
  | Some (_, m) => fromIdBased m
  | None =>
  (* Try codice-style citation *)
  match match_start CODICE_CITATION trimmed with
  | Some (_, m) => fromCodice m
  | None =>
  (* Try full citation *)
  match match_start FULL_CITATION trimmed with
  | Some (_, m) => fromFull m
  | None =>
  (* Try short citation *)
  match match_start SHORT_CITATION trimmed with
  | Some (_, m) => fromShort m
  | None => Ok (invalid trimmed)
  end end end end end.

(* ------------------------------------------------------------------------- *)
(** ** src/citation/formatter.ts *)
(* ------------------------------------------------------------------------- *)

Inductive CitationFormat : Type := full | short | pinpoint.

(** Map document type to full Italian name *)
Definition TYPE_FULL_NAME : list (string * string) :=
  [ ("dlgs", "Decreto legislativo");
    ("dl", "Decreto-legge");
    ("legge", "Legge");
    ("dpr", "Decreto del Presidente della Repubblica");
    ("rd", "Regio decreto");
    ("codice", "") ].

(** Map document type to short abbreviation *)
Definition TYPE_SHORT_NAME : list (string * string) :=
  [ ("dlgs", "D.Lgs.");
    ("dl", "D.L.");
    ("legge", "L.");
    ("dpr", "D.P.R.");
    ("rd", "R.D.");
    ("codice", "") ].

Definition buildArticleRef (parsed : ParsedCitation) : string :=
  let ref := match article parsed with Some a => a | None => "" end in
  match suffix parsed with
  | Some (String _ _ as x) => ref ++ "-" ++ x
  | _ => ref
  end.

(** [TABLE[parsed.type] ?? parsed.type] *)
Definition type_label (table : list (string * string)) (t : ItalianDocumentType)
  : string :=
  match lookup (type_name t) table with
  | Some name => name
  | None => type_name t
  end.

(** [parsed.type === 'codice' && parsed.title] *)
Definition codice_title (parsed : ParsedCitation) : option string :=
  if type_eqb (type parsed) codice then Js.or_undefined (title parsed) else None.

(** [parsed.number && parsed.year] *)
Definition number_year (parsed : ParsedCitation) : option (Js.number * Js.number) :=
  match number parsed, year parsed with
  | Some n, Some y =>
      if Js.truthy_number (Some n) && Js.truthy_number (Some y)
      then Some (n, y) else None
  | _, _ => None
  end.

Definition formatCitation (parsed : ParsedCitation) (format : CitationFormat)
  : string :=
  if negb (valid parsed) || negb (Js.truthy_string (article parsed)) then ""
  else
    let articleRef := buildArticleRef parsed in
    let commaRef :=
      match comma parsed with
      | Some (String _ _ as x) => ", comma " ++ x
      | _ => ""
      end in
    match format with
    | full =>
        match codice_title parsed with
        | Some t => "Art. " ++ articleRef ++ commaRef ++ ", " ++ t
        | None =>
            let typeName := type_label TYPE_FULL_NAME (type parsed) in
            match number_year parsed with
            | Some (n, y) =>
                Js.trim ("Art. " ++ articleRef ++ commaRef ++ ", " ++ typeName
                         ++ " n. " ++ Js.number_to_string n ++ "/"
                         ++ Js.number_to_string y)
            | None => "Art. " ++ articleRef ++ commaRef
            end
        end
    | short =>
        match codice_title parsed with
        | Some t => "Art. " ++ articleRef ++ commaRef ++ ", " ++ t
        | None =>
            let typeAbbrev := type_label TYPE_SHORT_NAME (type parsed) in
            match number_year parsed with
            | Some (n, y) =>
                Js.trim ("Art. " ++ articleRef ++ commaRef ++ ", " ++ typeAbbrev
                         ++ " " ++ Js.number_to_string n ++ "/"
                         ++ Js.number_to_string y)
            | None => "Art. " ++ articleRef ++ commaRef
            end
        end
    | pinpoint => "Art. " ++ articleRef ++ commaRef
    end.

End Citation.

(* ------------------------------------------------------------------------- *)
(** ** The document store, as far as the validator queries it *)
(* ------------------------------------------------------------------------- *)

Module Db.

(** Table [legal_documents]: [id] is the primary key, [title] and [status] are
    NOT NULL, [short_name] may be NULL. *)
Record legal_document : Type := {
  id : string;
  title : string;
  short_name : option string;
  status : string
}.

(** Table [legal_provisions]: all three columns are NOT NULL. *)
Record legal_provision : Type := {
  document_id : string;
  provision_ref : string;
  section : string
}.

Record Database : Type := {
  legal_documents : list legal_document;
  legal_provisions : list legal_provision
}.

(** SQL [LOWER]: ASCII letters only. *)
Definition sql_lower_char (a : ascii) : ascii :=
  if Js.is_upper a then ascii_of_nat (Js.code a + 32) else a.

Definition LOWER : string -> string := Js.map_string sql_lower_char.

(** SQL [text LIKE pattern]: [%] is any run of characters, [_] is any one
    character, every other character matches up to ASCII case. *)
Fixpoint LIKE_from (pattern : string) : string -> bool :=
  match pattern with
  | EmptyString => fun text => match text with EmptyString => true | _ => false end
  | String "%" pattern' =>
      fix any (text : string) : bool :=
        LIKE_from pattern' text
        || match text with
           | EmptyString => false
           | String _ text' => any text'
           end
  | String "_" pattern' =>
      fun text =>
        match text with
        | String _ text' => LIKE_from pattern' text'
        | EmptyString => false
        end
  | String c pattern' =>
      fun text =>
        match text with
        | String d text' => Js.eq_ci c d && LIKE_from pattern' text'
        | EmptyString => false
        end
  end.

Definition LIKE (text pattern : string) : bool := LIKE_from pattern text.

(** A NULL operand makes a comparison unknown, which a WHERE clause rejects. *)
Definition on_nullable (p : string -> bool) (v : option string) : bool :=
  match v with
  | Some x => p x
  | None => false
  end.

(** [SELECT ... WHERE cond LIMIT 1] *)
Definition select_first (cond : legal_document -> bool) (db : Database)
  : option legal_document :=
  find cond (legal_documents db).

(** [SELECT ... WHERE cond ORDER BY LENGTH(title) ASC LIMIT 1]; among titles of
    the same length the earlier row is returned. *)
Fixpoint shortest_title (best : option legal_document) (rows : list legal_document)
  : option legal_document :=
  match rows with
  | [] => best
  | d :: rows' =>
      match best with
      | None => shortest_title (Some d) rows'
      | Some b =>
          if (String.length (title d) <? String.length (title b))%nat
          then shortest_title (Some d) rows'
          else shortest_title best rows'
      end
  end.

Definition select_shortest (cond : legal_document -> bool) (db : Database)
  : option legal_document :=
  shortest_title None (filter cond (legal_documents db)).

End Db.

(* ------------------------------------------------------------------------- *)
(** ** src/utils/statute-id.ts *)
(* ------------------------------------------------------------------------- *)

Module StatuteId.
Import Regex Db.

(** Document type abbreviation mapping *)
Definition TYPE_ABBREVIATIONS : list (string * string) :=
  [ ("d.lgs.", "dlgs");
    ("d.lgs", "dlgs");
    ("dlgs", "dlgs");
    ("decreto legislativo", "dlgs");
    ("d.l.", "dl");
    ("d.l", "dl");
    ("dl", "dl");
    ("decreto-legge", "dl");
    ("decreto legge", "dl");
    ("l.", "legge");
    ("legge", "legge");
    ("d.p.r.", "dpr");
    ("dpr", "dpr");
    ("r.d.", "rd");
    ("rd", "rd");
    ("regio decreto", "rd") ].

(** [/^(legge|dlgs|dl|dpr|rd)-\d+-\d{4}$/] *)
Definition CANONICAL_ID : regex :=
  seqs [ Grp 1 (alts (map lit ["legge"; "dlgs"; "dl"; "dpr"; "rd"]));
         chr "-"; plus dg; chr "-"; Citation.DIGITS4; Eos ].

(** "D.Lgs. 196/2003" or "D.Lgs. n. 196/2003" *)
Definition SHORT_ID : regex :=
  seqs [ Grp 1 (Alt Citation.SHORT_TYPES
                    (seqs [lit_i "Decreto"; plus ws; lit_i "legge"]));
         Citation.NUMBER_SLASH_YEAR 2 3 ].

(** "D.Lgs. 196/2003 (Codice Privacy)" *)
Definition PAREN_ID : regex :=
  seqs [ Grp 1 Citation.SHORT_TYPES; Citation.NUMBER_SLASH_YEAR 2 3;
         Star ws; chr "(" ].

(** [typeRaw.replace(/[.\s]/g, '')] *)
Fixpoint strip_dots_spaces (s : string) : string :=
  match s with
  | EmptyString => EmptyString
  | String a s' =>
      if Ascii.eqb a "." || Js.is_space a then strip_dots_spaces s'
      else String a (strip_dots_spaces s')
  end.

Definition canonical_from (m : caps) : result string :=
  t <- defined_or_throw (group m 1) ;;
  let typeRaw := Js.trim (Js.collapse_spaces (Js.toLowerCase t)) in
  let type :=
    match Citation.lookup typeRaw TYPE_ABBREVIATIONS with
    | Some x => x
    | None => strip_dots_spaces typeRaw
    end in
  let render (o : option string) :=
    match o with Some v => v | None => "undefined" end in
  Ok (type ++ "-" ++ render (group m 2) ++ "-" ++ render (group m 3)).

Definition normalizeDocumentIdentifier (input : string) : result (option string) :=
  let trimmed := Js.trim input in
  (* Already in canonical form: type-number-year *)
  if match_whole CANONICAL_ID trimmed then Ok (Some trimmed)
  else
    match match_start SHORT_ID trimmed with
    | Some (_, m) => x <- canonical_from m ;; Ok (Some x)
    | None =>
        match match_start PAREN_ID trimmed with
        | Some (_, m) => x <- canonical_from m ;; Ok (Some x)
        | None => Ok None
        end
    end.

Definition by_id (x : string) (d : legal_document) : bool := String.eqb (id d) x.

Definition resolveExistingStatuteId (db : Database) (inputId : string)
  : result (option string) :=
  (* Try exact match first *)
  match select_first (by_id inputId) db with
  | Some exact => Ok (Some (id exact))
  | None =>
      (* Try normalized form *)
      normalized <- normalizeDocumentIdentifier inputId ;;
      let normMatch :=
        match normalized with
        | Some (String _ _ as n) => select_first (by_id n) db
        | _ => None
        end in
      match normMatch with
      | Some d => Ok (Some (id d))
      | None =>
          (* Try exact title match first (case-insensitive) *)
          let low := LOWER inputId in
          match select_first
                  (fun d => String.eqb (LOWER (title d)) low
                            || on_nullable (fun n => String.eqb (LOWER n) low)
                                           (short_name d)) db with
          | Some exactTitle => Ok (Some (id exactTitle))
          | None =>
              (* Try LIKE match on title or short_name, preferring shorter titles *)
              let pattern := "%" ++ inputId ++ "%" in
              match select_shortest
                      (fun d => LIKE (title d) pattern
                                || on_nullable (fun n => LIKE n pattern)
                                               (short_name d)) db with
              | Some byTitle => Ok (Some (id byTitle))
              | None => Ok None
              end
          end
      end
  end.

End StatuteId.

(* ------------------------------------------------------------------------- *)
(** ** src/citation/validator.ts *)
(* ------------------------------------------------------------------------- *)

Module Validator.
Import Db.

Record ValidationResult : Type := {
  citation : Citation.ParsedCitation;
  document_exists : bool;
  provision_exists : bool;
  document_title : option string;
  doc_status : option string;
  warnings : list string
}.

Definition not_found (parsed : Citation.ParsedCitation) (what : string)
  : ValidationResult :=
  {| citation := parsed; document_exists := false; provision_exists := false;
     document_title := None; doc_status := None;
     warnings := ["Document " ++ Js.quoted what ++ " not found in database"] |}.

Definition render_number (n : option Js.number) : string :=
  match n with
  | Some x => Js.number_to_string x
  | None => "undefined"
  end.

(** The lookup of a provision of document [doc]: [provision_ref] or [section]
    equal to the "art"-prefixed token or to the raw token. *)
Definition provision_row (doc provRef articleRef : string) (p : legal_provision)
  : bool :=
  String.eqb (document_id p) doc
  && (String.eqb (provision_ref p) provRef
      || String.eqb (section p) articleRef
      || String.eqb (provision_ref p) articleRef
      || String.eqb (section p) provRef).

(** The resolution of the document: by the derived identifier, then by the
    title. *)
Definition resolve_document (db : Database) (parsed : Citation.ParsedCitation)
  : result (option string) :=
  docId <- match Citation.document_id parsed with
           | Some (String _ _ as d) => StatuteId.resolveExistingStatuteId db d
           | _ => Ok None
           end ;;
  if Js.truthy_string docId then Ok docId
  else match Citation.title parsed with
       | Some (String _ _ as t) => StatuteId.resolveExistingStatuteId db t
       | _ => Ok docId
       end.

(** [parsed.suffix ? `${parsed.article}-${parsed.suffix}` : parsed.article] *)
Definition article_ref (art : string) (suffix : option string) : string :=
  match suffix with
  | Some (String _ _ as x) => art ++ "-" ++ x
  | _ => art
  end.

Definition validateCitation (db : Database) (citation : string)
  : result ValidationResult :=
  parsed <- Citation.parseCitation citation ;;
  if negb (Citation.valid parsed) then
    Ok {| citation := parsed; document_exists := false;
          provision_exists := false; document_title := None;
          doc_status := None;
          warnings := [match Citation.error parsed with
                       | Some e => e
                       | None => "Invalid citation format"
                       end] |}
  else
    (* Resolve document *)
    docId <- resolve_document db parsed ;;
    match docId with
    | Some (String _ _ as docId) =>
        match select_first (StatuteId.by_id docId) db with
        | None => Ok (not_found parsed docId)
        | Some doc =>
            let warnings0 :=
              if String.eqb (status doc) "repealed"
              then ["This law has been repealed"] else [] in
            (* Check provision existence *)
            match Citation.article parsed with
            | Some (String _ _ as art) =>
                let articleRef := article_ref art (Citation.suffix parsed) in
                let provRef := "art" ++ articleRef in
                let provisionExists :=
                  existsb (provision_row (id doc) provRef articleRef)
                          (legal_provisions db) in
                Ok {| citation := parsed; document_exists := true;
                      provision_exists := provisionExists;
                      document_title := Some (title doc);
                      doc_status := Some (status doc);
                      warnings :=
                        if provisionExists then warnings0
                        else app warnings0 ["Article " ++ articleRef
                                            ++ " not found in " ++ title doc] |}
            | _ =>
                Ok {| citation := parsed; document_exists := true;
                      provision_exists := false;
                      document_title := Some (title doc);
                      doc_status := Some (status doc);
                      warnings := warnings0 |}
            end
        end
    | _ =>
        let searchTerm :=
          match Citation.document_id parsed with
          | Some d => d
          | None =>
              match Citation.title parsed with
              | Some t => t
              | None => Citation.type_name (Citation.type parsed) ++ "-"
                        ++ render_number (Citation.number parsed) ++ "-"
                        ++ render_number (Citation.year parsed)
              end
          end in
        Ok (not_found parsed searchTerm)
    end.

End Validator.

(* ------------------------------------------------------------------------- *)
(** ** An insertion-ordered map with string keys (JavaScript [Map]) *)
(* ------------------------------------------------------------------------- *)

Module JsMap.

Definition t (V : Type) : Type := list (string * V).

Fixpoint get {V : Type} (m : t V) (k : string) : option V :=
  match m with
  | [] => None
  | (k', v) :: m' => if String.eqb k' k then Some v else get m' k
  end.

(** [m.set(k, v)]: a present key keeps its place, a new key goes last. *)
Fixpoint set {V : Type} (m : t V) (k : string) (v : V) : t V :=
  match m with
  | [] => [(k, v)]
  | (k', v') :: m' =>
      if String.eqb k' k then (k', v) :: m' else (k', v') :: set m' k v
  end.

Definition keys {V : Type} (m : t V) : list string := map fst m.
Definition values {V : Type} (m : t V) : list V := map snd m.

End JsMap.

(* ------------------------------------------------------------------------- *)
(** ** scripts/build-db.ts: the helpers of the database builder *)
(* ------------------------------------------------------------------------- *)

Module BuildDb.

Record ProvisionSeed : Type := {
  provision_ref : string;
  chapter : option string;
  section : string;
  title : option string;
  content : string;
  metadata : option string
}.

Record ProvisionDedupStats : Type := {
  duplicate_refs : nat;
  conflicting_duplicates : nat
}.

Definition normalizeWhitespace (text : string) : string :=
  Js.trim (Js.collapse_spaces text).

(** [a ?? b] *)
Definition nullish {A : Type} (a b : option A) : option A :=
  match a with
  | Some _ => a
  | None => b
  end.

Definition with_title (p : ProvisionSeed) (t : option string) : ProvisionSeed :=
  {| provision_ref := provision_ref p; chapter := chapter p;
     section := section p; title := t; content := content p;
     metadata := metadata p |}.

Definition with_ref (p : ProvisionSeed) (ref : string) : ProvisionSeed :=
  {| provision_ref := ref; chapter := chapter p;
     section := section p; title := title p; content := content p;
     metadata := metadata p |}.

Definition pickPreferredProvision (existing incoming : ProvisionSeed)
  : ProvisionSeed :=
  let existingContent := normalizeWhitespace (content existing) in
  let incomingContent := normalizeWhitespace (content incoming) in
  if (String.length existingContent <? String.length incomingContent)%nat
  then with_title incoming (nullish (title incoming) (title existing))
  else with_title existing (nullish (title existing) (title incoming)).

Definition dedupe_step (acc : JsMap.t ProvisionSeed * ProvisionDedupStats)
           (provision : ProvisionSeed)
  : JsMap.t ProvisionSeed * ProvisionDedupStats :=
  let (byRef, stats) := acc in
  let ref := Js.trim (provision_ref provision) in
  match JsMap.get byRef ref with
  | None => (JsMap.set byRef ref (with_ref provision ref), stats)
  | Some existing =>
      let conflicting :=
        negb (String.eqb (normalizeWhitespace (content existing))
                         (normalizeWhitespace (content provision))) in
      (JsMap.set byRef ref (pickPreferredProvision existing provision),
       {| duplicate_refs := S (duplicate_refs stats);
          conflicting_duplicates :=
            if conflicting then S (conflicting_duplicates stats)
            else conflicting_duplicates stats |})
  end.

Definition dedupeProvisions (provisions : list ProvisionSeed)
  : list ProvisionSeed * ProvisionDedupStats :=
  let (byRef, stats) :=
    fold_left dedupe_step provisions
              ([], {| duplicate_refs := 0; conflicting_duplicates := 0 |}) in
  (JsMap.values byRef, stats).

Definition normalizeEuYear (rawYear : string) : Z :=
  match Js.parseInt rawYear with
  | Js.NaN => 0
  | Js.Num parsed =>
      if (String.length rawYear =? 2)%nat
      then if (50 <=? parsed)%Z then 1900 + parsed else 2000 + parsed
      else parsed
  end.

End BuildDb.

(* ------------------------------------------------------------------------- *)
(** ** scripts/lib/fetcher.ts: the session client *)
(* ------------------------------------------------------------------------- *)

Module Fetcher.
Import Regex.

Definition MIN_DELAY_MS : Z := 150.
Definition BASE_URL : string := "https://www.normattiva.it".
Definition ARTICLE_CONCURRENCY : nat := 4.

(** What the network gives back for one request: the promise of [fetch]
    rejects, or it resolves to a response. *)
Record Response : Type := {
  resp_status : nat;
  resp_text : string;
  resp_content_type : option string;
  resp_set_cookie : list string
}.

Inductive outcome : Type :=
| Rejected (reason : string)
| Responded (r : Response).

Record FetchResult : Type := {
  status : nat;
  body : string;
  contentType : string
}.

Record ArticleFetchResult : Type := {
  a_url : string;
  a_html : string;
  a_status : nat
}.

(** What a call does to the outside, in order. *)
Inductive event : Type :=
| RateLimit                                   (* await rateLimit() *)
| Request (url : string) (cookie : option string)
| Backoff (ms : nat).                         (* setTimeout(resolve, backoff) *)

(** The module-level state of a crawl and the trace of its effects. *)
Record session : Type := {
  sessionCookies : list string;
  trace : list event
}.

Definition emit (e : event) (st : session) : session :=
  {| sessionCookies := sessionCookies st; trace := app (trace st) [e] |}.

(** Capture set-cookie headers for session management: replace an existing
    cookie with the same name. *)
Definition store_cookie (cookies : list string) (sc : string) : list string :=
  let name := Js.before "=" sc in
  app (filter (fun c => negb (Js.startsWith (name ++ "=") c)) cookies)
      [Js.before ";" sc].

Definition capture_cookies (r : Response) (st : session) : session :=
  {| sessionCookies := fold_left store_cookie (resp_set_cookie r) (sessionCookies st);
     trace := trace st |}.

Definition cookie_header (st : session) : option string :=
  match sessionCookies st with
  | [] => None
  | cs => Some (Js.join "; " cs)
  end.

(** [response.status === 429 || response.status >= 500] *)
Definition transient (code : nat) : bool :=
  (code =? 429)%nat || (500 <=? code)%nat.

(** [Math.pow(2, attempt + 1) * 1000] *)
Definition backoff (attempt : nat) : nat := 2 ^ (attempt + 1) * 1000.

(** The loop [for (attempt = 0; attempt <= maxRetries; attempt++)]; [fuel] is
    the number of iterations left, and the statement after the loop is reached
    when none is left.  [world i] is what the network answers to the request
    of iteration [i]. *)
Fixpoint attempts (fuel attempt maxRetries : nat) (url : string)
         (world : nat -> outcome) (st : session) : result FetchResult * session :=
  match fuel with
  | O =>
      (Throw ("Failed to fetch " ++ url ++ " after "
              ++ Js.number_to_string (Js.Num (Z.of_nat maxRetries)) ++ " retries"),
       st)
  | S fuel' =>
      let st := emit (Request url (cookie_header st)) st in
      match world attempt with
      | Rejected reason => (Throw reason, st)
      | Responded response =>
          let st := capture_cookies response st in
          if transient (resp_status response) && (attempt <? maxRetries)%nat
          then attempts fuel' (S attempt) maxRetries url world
                        (emit (Backoff (backoff attempt)) st)
          else (Ok {| status := resp_status response;
                      body := resp_text response;
                      contentType := match resp_content_type response with
                                     | Some x => x
                                     | None => ""
                                     end |}, st)
      end
  end.

(** Fetch a URL with rate limiting, session cookies, and retry logic. *)
Definition fetchWithSession (url : string) (maxRetries : nat)
           (world : nat -> outcome) (st : session)
  : result FetchResult * session :=
  attempts (S maxRetries) 0 maxRetries url world (emit RateLimit st).

(** The pattern with flag [g] that finds the fetch directives: the literal
    [caricaArticolo?] followed by a captured run of one or more characters
    other than apostrophe, double quote, closing parenthesis and white space. *)
Definition param_char (a : ascii) : bool :=
  negb (Ascii.eqb a "'" || Ascii.eqb a Js.dquote || Ascii.eqb a ")"
        || Js.is_space a).

Definition urlPattern : regex :=
  Seq (lit "caricaArticolo?") (Grp 1 (plus (Cls param_char))).

(** [/art\.idArticolo=(\d+)/] and its two siblings *)
Definition param_number (name : string) : regex :=
  Seq (lit name) (Grp 1 (plus dg)).

(** [params.match(re)?.[1]] *)
Definition first_group (r : regex) (params : string) : option string :=
  match search r params with
  | Some (_, m) => group m 1
  | None => None
  end.

Definition or_else (o : option string) (d : string) : string :=
  match o with
  | Some v => v
  | None => d
  end.

Definition idArticolo_of (params : string) : string :=
  or_else (first_group (param_number "art.idArticolo=") params) "".

Definition idSottoArticolo_of (params : string) : string :=
  or_else (first_group (param_number "art.idSottoArticolo=") params) "".

Definition version_of (params : string) : Js.number :=
  Js.parseInt (or_else (first_group (param_number "art.versione=") params) "0").

Definition key_of (params : string) : string :=
  idArticolo_of params ++ ":" ++ idSottoArticolo_of params.

Definition historical (params : string) : bool :=
  Js.includes "imUpdate=true" params.

(** [params.replace(/&$/, '')] *)
Fixpoint strip_final_amp (s : string) : string :=
  match s with
  | EmptyString => EmptyString
  | String a EmptyString => if Ascii.eqb a "&" then EmptyString else s
  | String a s' => String a (strip_final_amp s')
  end.

(** [s.replace(/ /g, '%20')] *)
Fixpoint escape_spaces (s : string) : string :=
  match s with
  | EmptyString => EmptyString
  | String a s' =>
      if Ascii.eqb a " " then "%20" ++ escape_spaces s'
      else String a (escape_spaces s')
  end.

Definition cleanParams (params : string) : string :=
  escape_spaces (strip_final_amp params).

Record entry : Type := {
  url : string;
  version : Js.number
}.

(** [a > b] on numbers; a comparison with [NaN] is false. *)
Definition number_gt (a b : Js.number) : bool :=
  match a, b with
  | Js.Num x, Js.Num y => (y <? x)%Z
  | _, _ => false
  end.

(** One turn of the [while ((match = urlPattern.exec(html)) !== null)] loop. *)
Definition see (seen : JsMap.t entry) (params : string) : JsMap.t entry :=
  (* Skip historical versions *)
  if historical params then seen
  else
    let version := version_of params in
    let key := key_of params in
    let fresh :=
      match JsMap.get seen key with
      | None => true
      | Some existing => number_gt version (Fetcher.version existing)
      end in
    if fresh
    then JsMap.set seen key
           {| url := BASE_URL ++ "/atto/caricaArticolo?" ++ cleanParams params;
              version := version |}
    else seen.

(** The text after the first [sep] of [s]. *)
Fixpoint after (sep : ascii) (s : string) : string :=
  match s with
  | EmptyString => EmptyString
  | String a s' => if Ascii.eqb a sep then s' else after sep s'
  end.

(** [key.split(':').map(Number)], for a key made of two digit strings. *)
Definition key_numbers (key : string) : Z * Z :=
  (Js.Number_of (Js.before ":" key), Js.Number_of (after ":" key)).

(** The comparator [aArt - bArt || aSub - bSub]. *)
Definition compare_keys (a b : string) : Z :=
  let (aArt, aSub) := key_numbers a in
  let (bArt, bSub) := key_numbers b in
  if (aArt - bArt =? 0)%Z then aSub - bSub else aArt - bArt.

(** [Array.prototype.sort] with a comparator: a stable sort. *)
Fixpoint insert_sorted {A : Type} (cmp : A -> A -> Z) (x : A) (l : list A)
  : list A :=
  match l with
  | [] => [x]
  | y :: l' =>
      if (cmp x y <=? 0)%Z then x :: l else y :: insert_sorted cmp x l'
  end.

Definition sort {A : Type} (cmp : A -> A -> Z) (l : list A) : list A :=
  fold_right (insert_sorted cmp) [] l.

(** The captures of [urlPattern] over the page, in order. *)
Definition scan_params (html : string) : list string :=
  map (fun m => or_else (group m 1) "") (scan urlPattern html).

Definition seen_entries (html : string) : JsMap.t entry :=
  fold_left see (scan_params html) [].

Definition sorted_entries (html : string) : list (string * entry) :=
  sort (fun a b => compare_keys (fst a) (fst b)) (seen_entries html).

(** Extract unique article URLs from the landing page HTML. *)
Definition extractArticleUrls (html : string) : list string :=
  map (fun kv => url (snd kv)) (sorted_entries html).

(** One URL of a batch: the [try]/[catch] around [fetchWithSession]. *)
Definition fetch_article (world : string -> nat -> outcome) (u : string)
           (st : session) : option ArticleFetchResult * session :=
  match fetchWithSession u 3 (world u) st with
  | (Ok result, st') =>
      if (status result =? 200)%nat && (100 <? String.length (body result))%nat
      then (Some {| a_url := u; a_html := body result; a_status := status result |}, st')
      else (None, st')
  | (Throw _, st') => (None, st')
  end.

(** [Promise.all(batch.map(...))]: the results come back in the order of the
    batch.  The callers are run one after the other here; their interleaving
    changes the cookies a request carries and the times of the requests, not
    the answers of [world]. *)
Fixpoint fetch_batch (world : string -> nat -> outcome) (batch : list string)
         (st : session) : list (option ArticleFetchResult) * session :=
  match batch with
  | [] => ([], st)
  | u :: batch' =>
      let (r, st1) := fetch_article world u st in
      let (rs, st2) := fetch_batch world batch' st1 in
      (r :: rs, st2)
  end.

Definition successes (rs : list (option ArticleFetchResult))
  : list ArticleFetchResult :=
  flat_map (fun r => match r with Some x => [x] | None => [] end) rs.

(** [for (let i = 0; i < articleUrls.length; i += ARTICLE_CONCURRENCY)] *)
Fixpoint fetch_batches (fuel : nat) (world : string -> nat -> outcome)
         (urls : list string) (results : list ArticleFetchResult) (st : session)
  : list ArticleFetchResult * session :=
  match fuel, urls with
  | S fuel', _ :: _ =>
      let batch := firstn ARTICLE_CONCURRENCY urls in
      let (batchResults, st') := fetch_batch world batch st in
      fetch_batches fuel' world (skipn ARTICLE_CONCURRENCY urls)
                    (app results (successes batchResults)) st'
  | _, _ => (results, st)
  end.

(** Fetch all articles for a given act, article by article. *)
Definition fetchAllArticles (urn : string) (world : string -> nat -> outcome)
           (st : session) : result (list ArticleFetchResult) * session :=
  (* Reset session for each act *)
  let st := {| sessionCookies := []; trace := trace st |} in
  (* Step 1: Fetch landing page (establishes session, gets TOC) *)
  let landing_url := BASE_URL ++ "/uri-res/N2Ls?" ++ urn in
  match fetchWithSession landing_url 3 (world landing_url) st with
  | (Throw e, st') => (Throw e, st')
  | (Ok landing, st') =>
      if negb (status landing =? 200)%nat
      then (Throw ("Landing page returned HTTP "
                   ++ Js.number_to_string (Js.Num (Z.of_nat (status landing)))), st')
      else
        (* Step 2: Extract article URLs *)
        let articleUrls := extractArticleUrls (body landing) in
        match articleUrls with
        | [] => (Ok [], st')
        | _ =>
            (* Step 3: Fetch articles in concurrent batches of 4 *)
            let (results, st'') :=
              fetch_batches (List.length articleUrls) world articleUrls [] st' in
            (Ok results, st'')
        end
  end.

End Fetcher.

(* ------------------------------------------------------------------------- *)
(** ** rateLimit under the event loop *)
(* ------------------------------------------------------------------------- *)

(** [rateLimit] reads the clock, may suspend on a timer, and only afterwards
    writes [lastRequestTime].  The callers of one batch are started by
    [batch.map] in one synchronous run, so each of them executes the part of
    [rateLimit] before its [await] before any of them executes the part after
    it.  The model follows the event loop: synchronous code takes no time,
    a timer fires when it is due, timers that are due together fire in the
    order in which they were set, and a resolved promise is resumed before
    the next timer fires. *)
Module Gate.

Definition MIN_DELAY_MS : Z := Fetcher.MIN_DELAY_MS.

(** Where a caller of [fetchWithSession] stands. *)
Inductive task : Type :=
| Waiting (due : Z)     (* suspended in rateLimit on setTimeout *)
| Resolved              (* rateLimit has returned, the caller is to be resumed *)
| Issued (time : Z).    (* fetch(url) has been called *)

Record loop : Type := {
  clock : Z;               (* Date.now() *)
  lastRequestTime : Z
}.

(** [rateLimit] up to its [await], or to its end when it does not wait. *)
Definition enter (st : loop) : loop * task :=
  let now := clock st in
  let elapsed := (now - lastRequestTime st)%Z in
  if (elapsed <? MIN_DELAY_MS)%Z
  then (st, Waiting (now + (MIN_DELAY_MS - elapsed)))
  else ({| clock := clock st; lastRequestTime := clock st |}, Resolved).

(** [rateLimit] after its [await]: [lastRequestTime = Date.now()]. *)
Definition leave (st : loop) : loop :=
  {| clock := clock st; lastRequestTime := clock st |}.

(** [batch.map(async (url) => ...)]: every caller runs to its first [await]. *)
Fixpoint start_all (n : nat) (st : loop) : loop * list task :=
  match n with
  | O => (st, [])
  | S n' =>
      let (st1, t) := enter st in
      let (st2, ts) := start_all n' st1 in
      (st2, t :: ts)
  end.

(** The resumption of the callers whose [rateLimit] has returned: each calls
    [fetch]. *)
Definition resume (st : loop) (ts : list task) : list task :=
  map (fun t => match t with Resolved => Issued (clock st) | _ => t end) ts.

(** The timer that fires next: the earliest due, the first set among equals. *)
Fixpoint next_due (ts : list task) : option Z :=
  match ts with
  | [] => None
  | Waiting due :: ts' =>
      match next_due ts' with
      | Some d => Some (if (d <? due)%Z then d else due)
      | None => Some due
      end
  | _ :: ts' => next_due ts'
  end.

Fixpoint fire (due : Z) (ts : list task) : list task :=
  match ts with
  | [] => []
  | Waiting d :: ts' => if (d =? due)%Z then Resolved :: ts' else Waiting d :: fire due ts'
  | t :: ts' => t :: fire due ts'
  end.

(** The turns of the event loop until no timer is left; there is at most one
    timer for each caller. *)
Fixpoint run (fuel : nat) (st : loop) (ts : list task) : list task :=
  match fuel with
  | O => ts
  | S fuel' =>
      match next_due ts with
      | None => ts
      | Some due =>
          let st1 := leave {| clock := Z.max (clock st) due;
                              lastRequestTime := lastRequestTime st |} in
          run fuel' st1 (resume st1 (fire due ts))
      end
  end.

(** A batch of [n] concurrent callers started at time [now]. *)
Definition batch (n : nat) (now last : Z) : list task :=
  let (st, ts) := start_all n {| clock := now; lastRequestTime := last |} in
  run n st (resume st ts).

Fixpoint issue_times (ts : list task) : list Z :=
  match ts with
  | [] => []
  | Issued time :: ts' => time :: issue_times ts'
  | _ :: ts' => issue_times ts'
  end.

(** Every two requests are at least [MIN_DELAY_MS] apart. *)
Fixpoint paced (times : list Z) : bool :=
  match times with
  | [] => true
  | t :: times' =>
      forallb (fun u => (MIN_DELAY_MS <=? Z.abs (u - t))%Z) times' && paced times'
  end.

End Gate.

(* ------------------------------------------------------------------------- *)
(** ** scripts/lib/parser.ts: the provision read from an article page

    Of [parseArticleHtml] and [parseAttachmentArticleHtml] the model keeps
    how the provision is put together: the pattern that reads the article
    number, the reference built from it, and the tests that return null.
    What the two functions cut out of the page (tags, entities, amendment
    markers) is a function of the page, given by the variables of the
    section. *)
(* ------------------------------------------------------------------------- *)

Module Parser.
Import Regex.

Record ParsedProvision : Type := {
  provision_ref : string;
  section : string;
  title : string;
  content : string
}.

Definition ORDINALS : list string :=
  ["bis"; "ter"; "quater"; "quinquies"; "sexies"; "septies"; "octies";
   "novies"; "decies"; "undecies"; "duodecies"; "terdecies"; "quaterdecies";
   "quindecies"].

(** Group 1 of both patterns, [(\d+(?:-(?:bis|ter|...|quindecies))?)]. *)
Definition ARTICLE_NUM : regex :=
  Grp 1 (Seq (plus dg) (opt (Seq (chr "-") (alts (map lit_i ORDINALS))))).

(** [/Art\.\s*(...)/i]; group 0 is the whole match. *)
Definition ARTICLE_LABEL : regex :=
  Grp 0 (seqs [lit_i "Art."; Star ws; ARTICLE_NUM]).

(** [/Art\.\s*(...)\s*\./i] *)
Definition ATTACHMENT_LABEL : regex :=
  Grp 0 (seqs [lit_i "Art."; Star ws; ARTICLE_NUM; Star ws; chr "."]).

Section Slices.

(** [stripHtml(numMatch[1]).trim()], the text of the heading of class
    article-num-akn inside the div of class bodyTesto; [None] when the page
    has no such div or no such heading. *)
Variable article_label : string -> option string.
(** [heading], from the div of class article-heading-akn, or the empty string. *)
Variable article_heading : string -> string.
(** [content] after its last [replace(/\s+/g, ' ').trim()], from the first of
    the three structures that gives a text. *)
Variable article_content : string -> string.

(** [attachMatch[1]], the inside of the span of class attachment-just-text;
    [None] when the page has none. *)
Variable attachment_raw : string -> option string.
(** [heading], from the first parenthesis of [raw], or the empty string. *)
Variable attachment_heading : string -> string.
(** [content] after its last [replace(/\s+/g, ' ').trim()], a function of
    [raw] and of [artMatch[0]]. *)
Variable attachment_content : string -> string -> string.

Definition parseArticleHtml (html : string) : option ParsedProvision :=
  match article_label html with
  | None => None
  | Some articleLabel =>
      (* Parse "Art. 1", "Art. 1-bis", "Art. 2-ter" etc. *)
      match search ARTICLE_LABEL articleLabel with
      | None => None
      | Some (_, artNumMatch) =>
          match group artNumMatch 1 with
          | None => None       (* group 1 is not optional *)
          | Some articleNum =>
              let text := article_content html in
              if (String.length text <? 5)%nat then None
              else Some {| provision_ref := "art" ++ articleNum;
                           section := articleNum;
                           title := article_heading html;
                           content := text |}
          end
      end
  end.

Definition parseAttachmentArticleHtml (html : string) : option ParsedProvision :=
  match attachment_raw html with
  | None => None
  | Some raw =>
      (* Extract article number from centered div: "Art. 85." or "Art. 640-bis." *)
      match search ATTACHMENT_LABEL raw with
      | None => None
      | Some (_, artMatch) =>
          match group artMatch 1, group artMatch 0 with
          | Some articleNum, Some whole =>
              let text := attachment_content raw whole in
              if (String.length text <? 5)%nat then None
              else Some {| provision_ref := "art" ++ articleNum;
                           section := articleNum;
                           title := attachment_heading raw;
                           content := text |}
          | _, _ => None       (* groups 0 and 1 are not optional *)
          end
      end
  end.

End Slices.

End Parser.

(* ------------------------------------------------------------------------- *)
(** ** scripts/ingest.ts: the orchestrator, in its two versions *)
(* ------------------------------------------------------------------------- *)

Module Ingest.
Export Parser.

Inductive lifecycle : Type :=
| in_force | amended | repealed | not_yet_in_force.

Record ParsedAct : Type := {
  act_id : string;
  act_type : string;
  act_title : string;
  act_short_name : string;
  act_status : lifecycle;
  act_issued_date : string;
  act_url : string;
  act_provisions : list ParsedProvision
}.

(** An entry of census.json (the fields [ingestAct] reads). *)
Record CensusLaw : Type := {
  law_id : string;
  law_title : string;
  law_type : string;
  law_number : Z;
  law_year : Z;
  law_date : string;
  law_urn : string;
  law_url : string
}.

(** An entry of the KEY_LAWS table of the first ingestion script. *)
Record ActIndexEntry : Type := {
  idx_title : string;
  idx_type : string;
  idx_number : Z;
  idx_year : Z;
  idx_date : string;
  idx_urn : string;
  idx_url : string
}.

Record IngestOutcome : Type := {
  provisions : nat;
  failed : bool
}.

(** [fs.writeFileSync(seedFile, JSON.stringify(seed, null, 2))] *)
Record SeedWrite : Type := {
  seedFile : string;
  seed : ParsedAct
}.

Definition num (z : Z) : string := Js.number_to_string (Js.Num z).

Definition seed_path (type : string) (number year : Z) : string :=
  "data/seed/" ++ type ++ "_" ++ num number ++ "_" ++ num year ++ ".json".

(** What build-db.ts reads back from the seed file. *)
Definition to_seed (p : ParsedProvision) : BuildDb.ProvisionSeed :=
  {| BuildDb.provision_ref := provision_ref p;
     BuildDb.chapter := None;
     BuildDb.section := section p;
     BuildDb.title := Some (title p);
     BuildDb.content := content p;
     BuildDb.metadata := None |}.

Section WithParsers.

(** The two article parsers; the orchestrator uses nothing of them but their
    results, so it is defined over any two parsers. *)
Variable parseArticleHtml : string -> option ParsedProvision.
Variable parseAttachmentArticleHtml : string -> option ParsedProvision.

(** [parseArticleHtml(html) ?? parseAttachmentArticleHtml(html)] *)
Definition parse_article (html : string) : option ParsedProvision :=
  match parseArticleHtml html with
  | Some p => Some p
  | None => parseAttachmentArticleHtml html
  end.

(** [seenRefs.has(ref)] *)
Definition has (seenRefs : list string) (ref : string) : bool :=
  existsb (String.eqb ref) seenRefs.

(** The loop [for (const article of articles)] over the two accumulators. *)
Fixpoint parse_each (articles : list Fetcher.ArticleFetchResult)
         (provisions : list ParsedProvision) (seenRefs : list string)
  : list ParsedProvision :=
  match articles with
  | [] => provisions
  | article :: articles' =>
      (* Try AKN parser first (modern laws), then attachment parser *)
      match parse_article (Fetcher.a_html article) with
      | Some parsed =>
          if negb (has seenRefs (provision_ref parsed))
          then parse_each articles' (app provisions [parsed])
                          (app seenRefs [provision_ref parsed])
          else parse_each articles' provisions seenRefs
      | None => parse_each articles' provisions seenRefs
      end
  end.

Definition parse_articles (articles : list Fetcher.ArticleFetchResult)
  : list ParsedProvision :=
  parse_each articles [] [].

(** The body shared by the two versions of [ingestAct]: [ident] is the seed's
    id, the other arguments are the fields of the act. *)
Definition ingest (ident type title date urn url : string) (number year : Z)
           (world : string -> nat -> Fetcher.outcome) (st : Fetcher.session)
  : IngestOutcome * SeedWrite * Fetcher.session :=
  let file := seed_path type number year in
  let emptySeed :=
    {| act_id := ident; act_type := type; act_title := title;
       act_short_name := title; act_status := in_force;
       act_issued_date := date; act_url := url; act_provisions := [] |} in
  match Fetcher.fetchAllArticles urn world st with
  | (Ok [], st') =>
      (* WARNING: No articles fetched, writing empty seed *)
      ({| provisions := 0; failed := true |},
       {| seedFile := file; seed := emptySeed |}, st')
  | (Ok articles, st') =>
      let provs := parse_articles articles in
      ({| provisions := List.length provs; failed := false |},
       {| seedFile := file;
          seed := {| act_id := ident; act_type := type; act_title := title;
                     act_short_name := title; act_status := in_force;
                     act_issued_date := date; act_url := url;
                     act_provisions := provs |} |}, st')
  | (Throw _, st') =>
      (* Write empty seed so we don't block the build *)
      ({| provisions := 0; failed := true |},
       {| seedFile := file; seed := emptySeed |}, st')
  end.

(** [ingestAct] of the census-driven script. *)
Definition ingestAct (law : CensusLaw) :=
  ingest (law_id law) (law_type law) (law_title law) (law_date law)
         (law_urn law) (law_url law) (law_number law) (law_year law).

(** [ingestAct] of the script over KEY_LAWS. *)
Definition ingestAct_key_laws (act : ActIndexEntry) :=
  ingest (idx_type act ++ "-" ++ num (idx_number act) ++ "-" ++ num (idx_year act))
         (idx_type act) (idx_title act) (idx_date act)
         (idx_urn act) (idx_url act) (idx_number act) (idx_year act).

End WithParsers.

End Ingest.
(* ------------------------------------------------------------------------- *)
(** ** scripts/census.ts: the types of acts and the census file *)
(* ------------------------------------------------------------------------- *)

Module Census.

Record TypeInfo : Type := {
  code : string;
  urnType : string;
  label : string
}.

(** Map from display name (on Normattiva pages) to internal type code *)
Definition TYPE_MAP : list (string * TypeInfo) :=
  [ ("LEGGE", {| code := "legge"; urnType := "legge"; label := "Legge" |});
    ("LEGGE COSTITUZIONALE",
     {| code := "lc"; urnType := "legge.costituzionale";
        label := "Legge Costituzionale" |});
    ("DECRETO LEGISLATIVO",
     {| code := "dlgs"; urnType := "decreto.legislativo";
        label := "Decreto Legislativo" |});
    ("DECRETO-LEGGE",
     {| code := "dl"; urnType := "decreto-legge"; label := "Decreto-Legge" |});
    ("DECRETO DEL PRESIDENTE DELLA REPUBBLICA",
     {| code := "dpr"; urnType := "decreto.del.presidente.della.repubblica";
        label := "D.P.R." |});
    ("DECRETO DEL PRESIDENTE DEL CONSIGLIO DEI MINISTRI",
     {| code := "dpcm";
        urnType := "decreto.del.presidente.del.consiglio.dei.ministri";
        label := "D.P.C.M." |});
    ("REGIO DECRETO",
     {| code := "rd"; urnType := "regio.decreto"; label := "Regio Decreto" |});
    ("REGIO DECRETO-LEGGE",
     {| code := "rdl"; urnType := "regio.decreto-legge"; label := "R.D.L." |});
    ("REGIO DECRETO LEGISLATIVO",
     {| code := "rdlgs"; urnType := "regio.decreto.legislativo";
        label := "R.D.Lgs." |});
    ("DECRETO", {| code := "decreto"; urnType := "decreto"; label := "Decreto" |});
    ("DECRETO LEGISLATIVO DEL CAPO PROVVISORIO DELLO STATO",
     {| code := "dlcps";
        urnType := "decreto.legislativo.del.capo.provvisorio.dello.stato";
        label := "D.L.C.P.S." |});
    ("DECRETO LEGISLATIVO LUOGOTENENZIALE",
     {| code := "dll"; urnType := "decreto.legislativo.luogotenenziale";
        label := "D.L.L." |});
    ("DECRETO LUOGOTENENZIALE",
     {| code := "dluo"; urnType := "decreto.luogotenenziale"; label := "D.Luo." |});
    ("DECRETO DEL CAPO DEL GOVERNO",
     {| code := "dcg"; urnType := "decreto.del.capo.del.governo";
        label := "D.C.G." |});
    ("COSTITUZIONE",
     {| code := "cost"; urnType := "costituzione"; label := "Costituzione" |});
    ("DELIBERAZIONE",
     {| code := "del"; urnType := "deliberazione"; label := "Deliberazione" |});
    ("ORDINANZA", {| code := "ord"; urnType := "ordinanza"; label := "Ordinanza" |});
    ("REGOLAMENTO",
     {| code := "reg"; urnType := "regolamento"; label := "Regolamento" |}) ].

(** Types to include in census. *)
Definition INCLUDED_TYPES : list string :=
  [ "LEGGE";
    "LEGGE COSTITUZIONALE";
    "DECRETO LEGISLATIVO";
    "DECRETO-LEGGE";
    "DECRETO DEL PRESIDENTE DELLA REPUBBLICA";
    "DECRETO DEL PRESIDENTE DEL CONSIGLIO DEI MINISTRI";
    "REGIO DECRETO";
    "REGIO DECRETO-LEGGE";
    "REGIO DECRETO LEGISLATIVO";
    "DECRETO";
    "DECRETO LEGISLATIVO DEL CAPO PROVVISORIO DELLO STATO";
    "DECRETO LEGISLATIVO LUOGOTENENZIALE";
    "DECRETO LUOGOTENENZIALE";
    "DECRETO DEL CAPO DEL GOVERNO";
    "COSTITUZIONE";
    "DELIBERAZIONE";
    "ORDINANZA";
    "REGOLAMENTO" ].

Inductive classification : Type :=
| ingestable | excluded | pre_republic.

Definition classification_eqb (a b : classification) : bool :=
  match a, b with
  | ingestable, ingestable | excluded, excluded | pre_republic, pre_republic => true
  | _, _ => false
  end.

(** [set.has(x)] *)
Definition has (set : list string) (x : string) : bool :=
  existsb (String.eqb x) set.

Definition classifyAct (tipo_display : string) : classification * option string :=
  if negb (has INCLUDED_TYPES tipo_display) then
    (* Check for partial matches (some types have extra text) *)
    if existsb (fun included => Js.startsWith included tipo_display) INCLUDED_TYPES
    then (ingestable, None)
    else (excluded, Some ("Unknown act type: " ++ tipo_display))
  else (ingestable, None).

(** The property names that every object literal inherits from
    [Object.prototype]: [TYPE_MAP[name]] is defined, and truthy, for them
    although they are not entries of the table. *)
Definition OBJECT_PROTOTYPE : list string :=
  [ "constructor"; "__defineGetter__"; "__defineSetter__"; "hasOwnProperty";
    "__lookupGetter__"; "__lookupSetter__"; "isPrototypeOf";
    "propertyIsEnumerable"; "toString"; "valueOf"; "__proto__";
    "toLocaleString" ].

(** What [resolveType] returns: an entry of the table, a member of
    [Object.prototype], or null. *)
Inductive resolved : Type :=
| Entry (info : TypeInfo)
| Inherited (name : string)
| Null.

Fixpoint first_prefix (entries : list (string * TypeInfo)) (tipo_display : string)
  : resolved :=
  match entries with
  | [] => Null
  | (key, value) :: entries' =>
      if Js.startsWith key tipo_display then Entry value
      else first_prefix entries' tipo_display
  end.

Definition resolveType (tipo_display : string) : resolved :=
  (* Exact match first *)
  match Citation.lookup tipo_display TYPE_MAP with
  | Some info => Entry info
  | None =>
      if has OBJECT_PROTOTYPE tipo_display then Inherited tipo_display
      else
        (* Prefix match *)
        first_prefix TYPE_MAP tipo_display
  end.

Definition buildId (typeCode : string) (number year : Js.number) : string :=
  typeCode ++ "-" ++ Js.number_to_string number ++ "-" ++ Js.number_to_string year.

Record CensusLaw : Type := {
  id : string;
  title : string;
  type : string;
  number : Z;
  year : Z;
  date : string;
  urn : string;
  url : string;
  codice_redazionale : string;
  category : string;
  law_classification : classification;
  exclusion_reason : option string;
  ingested : bool;
  provision_count : Z;
  ingestion_date : option string
}.

Record TypeStat : Type := {
  stat_type : string;
  stat_label : string;
  total : Z;
  stat_ingestable : Z;
  stat_excluded : Z
}.

Record CensusSummary : Type := {
  total_laws : nat;
  sum_ingestable : nat;
  sum_excluded : nat;
  sum_pre_republic : nat;
  sum_ingested : nat;
  by_type : list TypeStat
}.

Record CensusFile : Type := {
  schema_version : string;
  jurisdiction : string;
  jurisdiction_name : string;
  portal : string;
  census_date : string;
  agent : string;
  year_range : Z * Z;
  summary : CensusSummary;
  laws : list CensusLaw
}.

(** One turn of the loop that builds the type stats. *)
Definition count_type (typeMap : JsMap.t TypeStat) (law : CensusLaw)
  : JsMap.t TypeStat :=
  let key := type law in
  let stat :=
    match JsMap.get typeMap key with
    | Some s => s
    | None => {| stat_type := type law; stat_label := category law;
                 total := 0; stat_ingestable := 0; stat_excluded := 0 |}
    end in
  let is_excluded := classification_eqb (law_classification law) excluded in
  JsMap.set typeMap key
    {| stat_type := stat_type stat; stat_label := stat_label stat;
       total := total stat + 1;
       stat_ingestable := if is_excluded then stat_ingestable stat
                          else stat_ingestable stat + 1;
       stat_excluded := if is_excluded then stat_excluded stat + 1
                        else stat_excluded stat |}.

(** [laws.filter(p).length] *)
Definition count {A : Type} (p : A -> bool) (l : list A) : nat :=
  List.length (filter p l).

(** Sort by year desc, then by number desc *)
Definition compare_laws (a b : CensusLaw) : Z :=
  if negb (year a =? year b)%Z then year b - year a else number b - number a.

(** What [saveCensus] writes to census.json; [today] is the date of the
    clock, [new Date().toISOString().slice(0, 10)]. *)
Definition saveCensus (allLaws : JsMap.t CensusLaw) (fromYear toYear : Z)
           (today : string) : CensusFile :=
  let laws := JsMap.values allLaws in
  (* Build type stats *)
  let typeMap := fold_left count_type laws [] in
  let ingestable :=
    count (fun l => negb (classification_eqb (law_classification l) excluded)) laws in
  let excluded :=
    count (fun l => classification_eqb (law_classification l) excluded) laws in
  let preRepublic :=
    count (fun l => classification_eqb (law_classification l) pre_republic) laws in
  let ingested := count ingested laws in
  {| schema_version := "1.0";
     jurisdiction := "IT";
     jurisdiction_name := "Italy";
     portal := "https://www.normattiva.it";
     census_date := today;
     agent := "census.ts";
     year_range := (fromYear, toYear);
     summary :=
       {| total_laws := List.length laws;
          sum_ingestable := ingestable;
          sum_excluded := excluded;
          sum_pre_republic := preRepublic;
          sum_ingested := ingested;
          by_type := Fetcher.sort (fun a b => (total b - total a)%Z)
                                  (JsMap.values typeMap) |};
     laws := Fetcher.sort compare_laws laws |}.

End Census.

(* ------------------------------------------------------------------------- *)
(** ** scripts/ingest.ts, census-driven: the command line, the selection of
    the acts and the update of the census *)
(* ------------------------------------------------------------------------- *)

Module CensusIngest.
Import Census.

Record CliArgs : Type := {
  limit : option Js.number;
  force : bool;
  arg_type : option string;
  arg_id : option string;
  fromYear : option Js.number
}.

Definition no_args : CliArgs :=
  {| limit := None; force := false; arg_type := None; arg_id := None;
     fromYear := None |}.

(** The loop [for (let i = 0; i < args.length; i++)] of [parseArgs]: an
    option that takes a value consumes the next argument when there is one
    and it is not the empty string. *)
Fixpoint parse_from (args : list string) (acc : CliArgs) : CliArgs :=
  match args with
  | [] => acc
  | a :: rest =>
      let value := match rest with v :: _ => Js.truthy_string (Some v) | [] => false end in
      match rest with
      | v :: rest' =>
          if String.eqb a "--limit" && value then
            parse_from rest' {| limit := Some (Js.parseInt v); force := force acc;
                                arg_type := arg_type acc; arg_id := arg_id acc;
                                fromYear := fromYear acc |}
          else if String.eqb a "--force" then
            parse_from rest {| limit := limit acc; force := true;
                               arg_type := arg_type acc; arg_id := arg_id acc;
                               fromYear := fromYear acc |}
          else if String.eqb a "--type" && value then
            parse_from rest' {| limit := limit acc; force := force acc;
                                arg_type := Some v; arg_id := arg_id acc;
                                fromYear := fromYear acc |}
          else if String.eqb a "--id" && value then
            parse_from rest' {| limit := limit acc; force := force acc;
                                arg_type := arg_type acc; arg_id := Some v;
                                fromYear := fromYear acc |}
          else if String.eqb a "--from" && value then
            parse_from rest' {| limit := limit acc; force := force acc;
                                arg_type := arg_type acc; arg_id := arg_id acc;
                                fromYear := Some (Js.parseInt v) |}
          else parse_from rest acc
      | [] =>
          if String.eqb a "--force" then
            {| limit := limit acc; force := true;
               arg_type := arg_type acc; arg_id := arg_id acc;
               fromYear := fromYear acc |}
          else acc
      end
  end.

(** [parseArgs()] on [process.argv.slice(2)] *)
Definition parseArgs (args : list string) : CliArgs := parse_from args no_args.

(** [a >= b] on numbers; a comparison with [NaN] is false. *)
Definition number_ge (a b : Js.number) : bool :=
  match a, b with
  | Js.Num x, Js.Num y => (y <=? x)%Z
  | _, _ => false
  end.

(** [l.slice(0, n)]: a negative [n] counts from the end. *)
Definition slice0 {A : Type} (l : list A) (n : Z) : list A :=
  if (n <? 0)%Z then firstn (Z.to_nat (Z.of_nat (List.length l) + n)) l
  else firstn (Z.to_nat n) l.

(** Sort: newer acts first (more relevant), then smaller acts first (faster) *)
Definition compare_acts (a b : CensusLaw) : Z :=
  if negb (year a =? year b)%Z then year b - year a else number a - number b.

(** The acts that [main] processes, in the order in which it processes them. *)
Definition toProcess (args : CliArgs) (laws : list CensusLaw) : list CensusLaw :=
  (* Filter acts to process *)
  let toProcess :=
    filter (fun l => classification_eqb (law_classification l) ingestable
                     || classification_eqb (law_classification l) pre_republic)
           laws in
  let toProcess :=
    match arg_id args with
    | Some (String _ _ as id') => filter (fun l => String.eqb (id l) id') toProcess
    | _ => toProcess
    end in
  let toProcess :=
    match arg_type args with
    | Some (String _ _ as type') => filter (fun l => String.eqb (type l) type') toProcess
    | _ => toProcess
    end in
  let toProcess :=
    if Js.truthy_number (fromYear args)
    then filter (fun l => match fromYear args with
                          | Some y => number_ge (Js.Num (year l)) y
                          | None => false
                          end) toProcess
    else toProcess in
  let toProcess := Fetcher.sort compare_acts toProcess in
  if Js.truthy_number (limit args)
  then match limit args with
       | Some (Js.Num n) => slice0 toProcess n
       | _ => toProcess
       end
  else toProcess.

(** [census.laws.find(l => l.id === lawId)] and the three assignments to the
    law found. *)
Fixpoint update_first (lawId : string) (provisionCount : Z) (today : string)
         (laws : list CensusLaw) : list CensusLaw :=
  match laws with
  | [] => []
  | l :: laws' =>
      if String.eqb (id l) lawId
      then {| id := id l; title := title l; type := type l; number := number l;
              year := year l; date := date l; urn := urn l; url := url l;
              codice_redazionale := codice_redazionale l;
              category := category l;
              law_classification := law_classification l;
              exclusion_reason := exclusion_reason l;
              ingested := (0 <? provisionCount)%Z;
              provision_count := provisionCount;
              ingestion_date := Some today |} :: laws'
      else l :: update_first lawId provisionCount today laws'
  end.

(** [updateCensus]; [today] is [new Date().toISOString().slice(0, 10)]. *)
Definition updateCensus (census : CensusFile) (lawId : string)
           (provisionCount : Z) (today : string) : CensusFile :=
  let laws' := update_first lawId provisionCount today (laws census) in
  let s := summary census in
  {| schema_version := schema_version census;
     jurisdiction := jurisdiction census;
     jurisdiction_name := jurisdiction_name census;
     portal := portal census;
     census_date := census_date census;
     agent := agent census;
     year_range := year_range census;
     summary :=
       (* Update summary counts *)
       {| total_laws := total_laws s; sum_ingestable := sum_ingestable s;
          sum_excluded := sum_excluded s; sum_pre_republic := sum_pre_republic s;
          sum_ingested := count ingested laws';
          by_type := by_type s |};
     laws := laws' |}.

End CensusIngest.

(* ------------------------------------------------------------------------- *)
(** ** parseItalianDate, in src/citation/parser.ts and in scripts/lib/parser.ts *)
(* ------------------------------------------------------------------------- *)

Module ItalianDate.
Import Regex.

(** [/^(\d{1,2})\s+(gennaio|...|dicembre)\s+(\d{4})$/i] *)
Definition ITALIAN_DATE : regex :=
  seqs [ Grp 1 (Seq dg (opt dg)); plus ws; Grp 2 Citation.MONTHS; plus ws;
         Grp 3 Citation.DIGITS4; Eos ].

(** [s.padStart(2, '0')] *)
Definition padStart2 (s : string) : string :=
  match String.length s with
  | 0 => "00"
  | 1 => "0" ++ s
  | _ => s
  end.

(** [a < b] on numbers; a comparison with [NaN] is false. *)
Definition number_lt (a b : Js.number) : bool :=
  match a, b with
  | Js.Num x, Js.Num y => (x <? y)%Z
  | _, _ => false
  end.

(** Italian month names for date parsing (src/citation/parser.ts) *)
Definition ITALIAN_MONTHS : list (string * Js.number) :=
  [ ("gennaio", Js.Num 1); ("febbraio", Js.Num 2); ("marzo", Js.Num 3);
    ("aprile", Js.Num 4); ("maggio", Js.Num 5); ("giugno", Js.Num 6);
    ("luglio", Js.Num 7); ("agosto", Js.Num 8); ("settembre", Js.Num 9);
    ("ottobre", Js.Num 10); ("novembre", Js.Num 11); ("dicembre", Js.Num 12) ].

(** Parse an Italian date string like "30 giugno 2003" into ISO format
    (src/citation/parser.ts). *)
Definition parseItalianDate (dateStr : string) : result (option string) :=
  match match_start ITALIAN_DATE (Js.trim dateStr) with
  | None => Ok None
  | Some (_, m) =>
      let day := Citation.parseIntGroup m 1 in
      monthName <- defined_or_throw (group m 2) ;;
      let month := Citation.lookup (Js.toLowerCase monthName) ITALIAN_MONTHS in
      let year := Citation.parseIntGroup m 3 in
      if negb (Js.truthy_number month)
         || number_lt day (Js.Num 1) || number_lt (Js.Num 31) day
      then Ok None
      else
        match month with
        | Some mo =>
            Ok (Some (Js.number_to_string year ++ "-"
                      ++ padStart2 (Js.number_to_string mo) ++ "-"
                      ++ padStart2 (Js.number_to_string day)))
        | None => Ok None
        end
  end.

(** Italian month names for date construction (scripts/lib/parser.ts) *)
Definition ITALIAN_MONTHS_LIB : list (string * string) :=
  [ ("gennaio", "01"); ("febbraio", "02"); ("marzo", "03"); ("aprile", "04");
    ("maggio", "05"); ("giugno", "06"); ("luglio", "07"); ("agosto", "08");
    ("settembre", "09"); ("ottobre", "10"); ("novembre", "11");
    ("dicembre", "12") ].

(** Parse Italian date "30 giugno 2003" to ISO "2003-06-30"
    (scripts/lib/parser.ts). *)
Definition parseItalianDate_lib (dateStr : string) : result (option string) :=
  match match_start ITALIAN_DATE (Js.trim dateStr) with
  | None => Ok None
  | Some (_, m) =>
      d <- defined_or_throw (group m 1) ;;
      let day := padStart2 d in
      monthName <- defined_or_throw (group m 2) ;;
      let month := Citation.lookup (Js.toLowerCase monthName) ITALIAN_MONTHS_LIB in
      match month with
      | Some (String _ _ as mo) =>
          let year := match group m 3 with Some y => y | None => "undefined" end in
          Ok (Some (year ++ "-" ++ mo ++ "-" ++ day))
      | _ => Ok None
      end
  end.

End ItalianDate.

(* ------------------------------------------------------------------------- *)
(** ** scripts/census.ts: the pages of a year *)
(* ------------------------------------------------------------------------- *)

Module CensusFetch.
Import Regex Fetcher.

Definition num (n : nat) : string := Js.number_to_string (Js.Num (Z.of_nat n)).

(** The loop of [fetchPage]; [fuel] is the number of iterations left, and the
    statement after the loop is reached when none is left.  The client keeps
    its cookies as the session client of the article fetcher does. *)
Fixpoint page_attempts (fuel attempt maxRetries : nat) (url : string)
         (world : nat -> outcome) (st : session) : result string * session :=
  match fuel with
  | O =>
      (Throw ("Failed to fetch " ++ url ++ " after " ++ num maxRetries
              ++ " retries"), st)
  | S fuel' =>
      let st := emit (Request url (cookie_header st)) st in
      match world attempt with
      | Rejected reason => (Throw reason, st)
      | Responded response =>
          let st := capture_cookies response st in
          if transient (resp_status response) && (attempt <? maxRetries)%nat
          then page_attempts fuel' (S attempt) maxRetries url world
                             (emit (Backoff (backoff attempt)) st)
          else if negb (resp_status response =? 200)%nat
          then (Throw ("HTTP " ++ num (resp_status response) ++ " for " ++ url),
                st)
          else (Ok (resp_text response), st)
      end
  end.

Definition fetchPage (url : string) (maxRetries : nat)
           (world : nat -> outcome) (st : session) : result string * session :=
  page_attempts (S maxRetries) 0 maxRetries url world (emit RateLimit st).

(** [/Sono stati trovati\s+([\d.]+)\s+atti/] *)
Definition digit_or_dot (a : ascii) : bool := Js.is_digit a || Ascii.eqb a ".".

Definition TOTAL_COUNT : regex :=
  seqs [ lit "Sono stati trovati"; plus ws; Grp 1 (plus (Cls digit_or_dot));
         plus ws; lit "atti" ].

(** [s.replace(/\./g, '')] *)
Fixpoint remove_dots (s : string) : string :=
  match s with
  | EmptyString => EmptyString
  | String a s' =>
      if Ascii.eqb a "." then remove_dots s' else String a (remove_dots s')
  end.

(** Extract total results count from the listing page. *)
Definition extractTotalCount (html : string) : result Js.number :=
  match search TOTAL_COUNT html with
  | None => Ok (Js.Num 0)
  | Some (_, m) =>
      g <- defined_or_throw (group m 1) ;;
      Ok (Js.parseInt (remove_dots g))
  end.

Section Pages.

(** The entries of a listing page are read by [parseYearPage].  (The
    pagination links that [fetchYearActs] extracts from the first page are
    not used by it.) *)
Variable RawActEntry : Type.
Variable parseYearPage : string -> list RawActEntry.

Definition page_url (pageIdx : nat) : string :=
  BASE_URL ++ "/ricerca/elencoPerData/" ++ num pageIdx.

(** The loop [for (pageIdx = 0; pageIdx < totalPages - 1; pageIdx++)] with
    its two [break]s; [fuel] bounds the iterations. *)
Fixpoint more_pages (fuel pageIdx : nat) (totalPages : Z)
         (world : string -> nat -> outcome)
         (allEntries : list RawActEntry) (st : session)
  : list RawActEntry * session :=
  match fuel with
  | O => (allEntries, st)
  | S fuel' =>
      if (Z.of_nat pageIdx <? totalPages - 1)%Z
      then
        match fetchPage (page_url pageIdx) 3 (world (page_url pageIdx)) st with
        | (Ok pageHtml, st') =>
            let pageEntries := parseYearPage pageHtml in
            let allEntries := app allEntries pageEntries in
            match pageEntries with
            | [] => (allEntries, st')
            | _ => more_pages fuel' (S pageIdx) totalPages world allEntries st'
            end
        | (Throw _, st') => (allEntries, st')
        end
      else (allEntries, st)
  end.

(** [totalCount > firstPageEntries.length]; false for [NaN]. *)
Definition more_than (totalCount : Js.number) (n : nat) : bool :=
  match totalCount with
  | Js.Num t => (Z.of_nat n <? t)%Z
  | Js.NaN => false
  end.

(** [Math.ceil(totalCount / perPage)] for a count above zero. *)
Definition ceil_div (t perPage : Z) : Z := ((t + perPage - 1) / perPage)%Z.

Definition fetchYearActs (year : Z) (world : string -> nat -> outcome)
           (st : session) : result (list RawActEntry) * session :=
  (* Reset session for each year to avoid stale cookies *)
  let st := {| sessionCookies := []; trace := trace st |} in
  (* Fetch first page *)
  let first_url := BASE_URL ++ "/ricerca/elencoPerData/anno/"
                   ++ Js.number_to_string (Js.Num year) in
  match fetchPage first_url 3 (world first_url) st with
  | (Throw e, st') => (Throw e, st')
  | (Ok firstPageHtml, st') =>
      match extractTotalCount firstPageHtml with
      | Throw e => (Throw e, st')
      | Ok totalCount =>
          let firstPageEntries := parseYearPage firstPageHtml in
          (* If there are more pages, fetch them *)
          if more_than totalCount (List.length firstPageEntries)
          then
            let perPage := match List.length firstPageEntries with
                           | O => 20%Z
                           | n => Z.of_nat n
                           end in
            let totalPages :=
              match totalCount with
              | Js.Num t => ceil_div t perPage
              | Js.NaN => 0%Z
              end in
            let (allEntries, st'') :=
              more_pages (Z.to_nat totalPages) 0 totalPages world
                         firstPageEntries st' in
            (Ok allEntries, st'')
          else (Ok firstPageEntries, st')
      end
  end.

End Pages.

End CensusFetch.

(* ------------------------------------------------------------------------- *)
(** ** src/tools/get-provision.ts *)
(* ------------------------------------------------------------------------- *)

Module GetProvision.
Import Db.

Record GetProvisionInput : Type := {
  in_document_id : option string;
  in_article : option string;
  in_section : option string;
  in_provision_ref : option string
}.

(** A row of [legal_provisions] joined with its document; the columns of the
    answer are read off the two rows. *)
Definition ProvisionRow : Type := (legal_provision * legal_document)%type.

Inductive answer : Type :=
| One (row : ProvisionRow)
| All (rows : list ProvisionRow)
| Truncated (provisions : list ProvisionRow) (total : nat)
| Null.

Definition MAX_ALL_PROVISIONS : nat := 200.

(** [FROM legal_provisions lp JOIN legal_documents ld ON ld.id = lp.document_id
    WHERE lp.document_id = ? AND cond]: [id] is the primary key of the
    documents, and the provisions come in the order of their row id. *)
Definition joined (db : Database) (docId : string)
           (cond : legal_provision -> bool) : list ProvisionRow :=
  flat_map (fun lp =>
              if String.eqb (document_id lp) docId && cond lp
              then match find (StatuteId.by_id (document_id lp))
                              (legal_documents db) with
                   | Some ld => [(lp, ld)]
                   | None => []
                   end
              else [])
           (legal_provisions db).

(** [lp.provision_ref = ? OR lp.section = ?] *)
Definition exactly (variant : string) (lp : legal_provision) : bool :=
  String.eqb (provision_ref lp) variant || String.eqb (section lp) variant.

(** [lp.provision_ref LIKE ? OR lp.section LIKE ?] *)
Definition like (pattern : string) (lp : legal_provision) : bool :=
  LIKE (provision_ref lp) pattern || LIKE (section lp) pattern.

(** Try exact match with each variant *)
Fixpoint first_variant (db : Database) (docId : string) (variants : list string)
  : option ProvisionRow :=
  match variants with
  | [] => None
  | variant :: variants' =>
      match joined db docId (exactly variant) with
      | row :: _ => Some row
      | [] => first_variant db docId variants'
      end
  end.

Definition getProvision (db : Database) (input : GetProvisionInput)
  : result answer :=
  match in_document_id input with
  | Some (String _ _ as document_id_in) =>
      resolved <- StatuteId.resolveExistingStatuteId db document_id_in ;;
      let resolvedDocumentId :=
        match resolved with Some x => x | None => document_id_in end in
      (* Determine the provision reference to search for *)
      let provisionRef :=
        BuildDb.nullish (in_provision_ref input)
                        (BuildDb.nullish (in_article input) (in_section input)) in
      match provisionRef with
      | Some (String _ _ as provisionRef) =>
          (* Build multiple search variants for Italian article references *)
          let searchVariants :=
            [ provisionRef; "art" ++ provisionRef; "Art. " ++ provisionRef ] in
          match first_variant db resolvedDocumentId searchVariants with
          | Some row => Ok (One row)
          | None =>
              (* Try LIKE match for partial references *)
              match joined db resolvedDocumentId
                           (like ("%" ++ provisionRef ++ "%")) with
              | likeRow :: _ => Ok (One likeRow)
              | [] => Ok Null
              end
          end
      | _ =>
          let total :=
            List.length (filter (fun lp => String.eqb (document_id lp)
                                                      resolvedDocumentId)
                                (legal_provisions db)) in
          let rows :=
            firstn MAX_ALL_PROVISIONS
                   (joined db resolvedDocumentId (fun _ => true)) in
          if (MAX_ALL_PROVISIONS <? total)%nat
          then Ok (Truncated rows total)
          else Ok (All rows)
      end
  | _ => Throw "document_id is required"
  end.

End GetProvision.

(* ------------------------------------------------------------------------- *)
(** ** src/utils/fts-query.ts *)
(* ------------------------------------------------------------------------- *)

Module Fts.

Definition MAX_QUERY_LENGTH : nat := 1000.

Record FtsQueryVariants : Type := {
  primary : string;
  fallback : option string
}.

Definition starts_word (s : string) : bool :=
  match s with
  | String a _ => Js.is_word a
  | EmptyString => false
  end.

Fixpoint drop (n : nat) (s : string) : string :=
  match n, s with
  | S n', String _ s' => drop n' s'
  | _, _ => s
  end.

(** [/\bW\b/.test(s)] for a word [W] of letters: [W] occurs with no word
    character before it and none after it.  [prev] tells that the previous
    character is a word character. *)
Fixpoint has_word_from (w : string) (prev : bool) (s : string) : bool :=
  (negb prev && Js.startsWith w s
   && negb (starts_word (drop (String.length w) s)))
  || match s with
     | EmptyString => false
     | String a s' => has_word_from w (Js.is_word a) s'
     end.

Definition has_word (w s : string) : bool := has_word_from w false s.

Fixpoint contains_char (c : ascii) (s : string) : bool :=
  match s with
  | EmptyString => false
  | String a s' => Ascii.eqb a c || contains_char c s'
  end.

(** [/\*$/.test(s)] *)
Fixpoint ends_with_star (s : string) : bool :=
  match s with
  | EmptyString => false
  | String a EmptyString => Ascii.eqb a "*"
  | String _ s' => ends_with_star s'
  end.

(** [EXPLICIT_FTS_SYNTAX.test(s)]: a double quote, one of the words AND, OR
    and NOT, or a star at the end. *)
Definition EXPLICIT_FTS_SYNTAX (s : string) : bool :=
  contains_char Js.dquote s
  || has_word "AND" s || has_word "OR" s || has_word "NOT" s
  || ends_with_star s.

(** [\p{L}] and [\p{N}] among the code units below 256. *)
Definition is_letter (a : ascii) : bool :=
  let c := Js.code a in
  Js.is_upper a || Js.is_lower a
  || (c =? 170)%nat || (c =? 181)%nat || (c =? 186)%nat
  || ((192 <=? c)%nat && (c <=? 214)%nat)
  || ((216 <=? c)%nat && (c <=? 246)%nat)
  || (248 <=? c)%nat.

Definition is_number (a : ascii) : bool :=
  let c := Js.code a in
  Js.is_digit a
  || (c =? 178)%nat || (c =? 179)%nat || (c =? 185)%nat
  || ((188 <=? c)%nat && (c <=? 190)%nat).

Fixpoint filter_string (p : ascii -> bool) (s : string) : string :=
  match s with
  | EmptyString => EmptyString
  | String a s' => if p a then String a (filter_string p s') else filter_string p s'
  end.

(** [token.replace(/[^\p{L}\p{N}_-]/gu, '')] *)
Definition sanitiseToken (token : string) : string :=
  filter_string (fun a => is_letter a || is_number a
                          || Ascii.eqb a "_" || Ascii.eqb a "-") token.

(** [s.replace(/--/g, '')]: the pairs of hyphens, from the left. *)
Fixpoint remove_double_hyphens (s : string) : string :=
  match s with
  | String "-" (String "-" s') => remove_double_hyphens s'
  | String a s' => String a (remove_double_hyphens s')
  | EmptyString => EmptyString
  end.

(** [s.split(/\s+/)]: the pieces between the runs of white space, the first
    and the last possibly empty.  [in_run] tells that the previous character
    was white space. *)
Fixpoint split_from (in_run : bool) (s : string) : list string :=
  match s with
  | EmptyString => [EmptyString]
  | String a s' =>
      if Js.is_space a
      then if in_run then split_from true s'
           else EmptyString :: split_from true s'
      else match split_from false s' with
           | piece :: pieces => String a piece :: pieces
           | [] => [String a EmptyString]
           end
  end.

Definition split_spaces (s : string) : list string := split_from false s.

Definition non_empty (t : string) : bool :=
  match t with EmptyString => false | String _ _ => true end.

Fixpoint count_quotes (s : string) : nat :=
  match s with
  | EmptyString => 0
  | String a s' => (if Ascii.eqb a Js.dquote then 1 else 0) + count_quotes s'
  end.

Definition empty_query : FtsQueryVariants :=
  {| primary := Js.quoted EmptyString; fallback := None |}.

Definition buildFtsQueryVariants (query : string) : FtsQueryVariants :=
  let trimmed := substring 0 MAX_QUERY_LENGTH (Js.trim query) in
  match trimmed with
  | EmptyString => empty_query
  | _ =>
      if EXPLICIT_FTS_SYNTAX trimmed then
        let normalised :=
          substring 0 MAX_QUERY_LENGTH
            (remove_double_hyphens
               (filter_string (fun a => negb (Ascii.eqb a ";")) trimmed)) in
        let quoteCount := count_quotes normalised in
        {| primary := if Nat.odd quoteCount
                      then normalised ++ String Js.dquote EmptyString
                      else normalised;
           fallback := None |}
      else
        let tokens :=
          filter non_empty
                 (map sanitiseToken (filter non_empty (split_spaces trimmed))) in
        match tokens with
        | [] => empty_query
        | _ =>
            {| primary := Js.join " " (map (fun t => Js.quoted t ++ "*") tokens);
               fallback := Some (Js.join " OR " (map (fun t => t ++ "*") tokens)) |}
        end
  end.

End Fts.

(* ------------------------------------------------------------------------- *)
(** ** scripts/check-updates.ts *)
(* ------------------------------------------------------------------------- *)

Module CheckUpdates.

Record LocalIndexEntry : Type := {
  title : string;
  type : string;
  number : Js.number;
  year : Js.number;
  urn : string
}.

Record UpdateHit : Type := {
  hit_document_id : string;
  hit_title : string;
  hit_urn : string
}.

Definition toDocumentId (entry : LocalIndexEntry) : string :=
  type entry ++ "-" ++ Js.number_to_string (number entry) ++ "-"
  ++ Js.number_to_string (year entry).

Definition hit (entry : LocalIndexEntry) : UpdateHit :=
  {| hit_document_id := toDocumentId entry; hit_title := title entry;
     hit_urn := urn entry |}.

(** What the HEAD request for an act gives: the promise rejects (also when
    the timer aborts it), or a response with a status. *)
Inductive head_outcome : Type :=
| HeadRejected
| HeadStatus (status : nat).

(** [response.ok], and [false] when the request fails. *)
Definition checkActAvailability (o : head_outcome) : bool :=
  match o with
  | HeadStatus s => (200 <=? s)%nat && (s <=? 299)%nat
  | HeadRejected => false
  end.

Record checked : Type := {
  newActs : list UpdateHit;
  reachableActs : list UpdateHit;
  requested : list string         (* the acts asked for, in order *)
}.

(** The loop over the index; [world urn] is what the network answers. *)
Fixpoint check_all (localDocs : list string) (world : string -> head_outcome)
         (localIndex : list LocalIndexEntry) (acc : checked) : checked :=
  match localIndex with
  | [] => acc
  | entry :: rest =>
      let documentId := toDocumentId entry in
      if negb (Census.has localDocs documentId)
      then check_all localDocs world rest
             {| newActs := app (newActs acc) [hit entry];
                reachableActs := reachableActs acc;
                requested := requested acc |}
      else
        let isReachable := checkActAvailability (world (urn entry)) in
        check_all localDocs world rest
          {| newActs := newActs acc;
             reachableActs := if isReachable
                              then app (reachableActs acc) [hit entry]
                              else reachableActs acc;
             requested := app (requested acc) [urn entry] |}
  end.

(** [main] once the database and the index are there: the exit status. *)
Definition main (localDocs : list string) (world : string -> head_outcome)
           (localIndex : list LocalIndexEntry) : nat * checked :=
  let c := check_all localDocs world localIndex
             {| newActs := []; reachableActs := []; requested := [] |} in
  match newActs c with
  | [] => (0, c)
  | _ => (1, c)
  end.

End CheckUpdates.

(* ------------------------------------------------------------------------- *)
(** ** Vocabulary of the properties *)
(* ------------------------------------------------------------------------- *)

Module Spec.

(** Captures only grow along a match. *)
Definition grows (c c' : Regex.caps) : Prop :=
  forall j, Regex.defined c j = true -> Regex.defined c' j = true.

(** Every character that [r] consumes satisfies [P]. *)
Fixpoint chars_in (P : ascii -> bool) (r : Regex.regex) : Prop :=
  match r with
  | Regex.Cls p => forall a, p a = true -> P a = true
  | Regex.Seq r1 r2 | Regex.Alt r1 r2 => chars_in P r1 /\ chars_in P r2
  | Regex.Star r1 | Regex.Grp _ r1 => chars_in P r1
  | Regex.Eps | Regex.Eos => True
  end.

(** Every group number [i] of [r] consumes characters that satisfy [P]. *)
Fixpoint group_chars (i : nat) (P : ascii -> bool) (r : Regex.regex) : Prop :=
  match r with
  | Regex.Grp j r1 => (j = i -> chars_in P r1) /\ group_chars i P r1
  | Regex.Seq r1 r2 | Regex.Alt r1 r2 => group_chars i P r1 /\ group_chars i P r2
  | Regex.Star r1 => group_chars i P r1
  | _ => True
  end.

(** Every text recorded for group [i] is made of characters that satisfy [P]. *)
Definition caps_in (i : nat) (P : ascii -> bool) (c : Regex.caps) : Prop :=
  forall w, In (i, w) c -> Js.forallb_string P w = true.

(** What a continuation gets from a matcher: a suffix of the input, the
    consumed prefix being made of characters that satisfy [P] when [chars]
    holds, and captures that keep the invariant of group [i]. *)
Definition consumes (P : ascii -> bool) (i : nat) (chars : Prop) (s : string)
           (c : Regex.caps) (k : Regex.cont) (x : string * Regex.caps) : Prop :=
  exists s' c' v,
    k s' c' = Some x /\ s = v ++ s'
    /\ (chars -> Js.forallb_string P v = true)
    /\ (caps_in i P c -> caps_in i P c').

(** The citation grammars in the order of precedence, each with the function
    that turns its captures into a citation. *)
Definition grammars
  : list (Regex.regex * (Regex.caps -> result Citation.ParsedCitation)) :=
  [ (Citation.COMMA_CITATION, Citation.fromComma);
    (Citation.ID_BASED_CITATION, Citation.fromIdBased);
    (Citation.CODICE_CITATION, Citation.fromCodice);
    (Citation.FULL_CITATION, Citation.fromFull);
    (Citation.SHORT_CITATION, Citation.fromShort) ].

(** The first grammar of a table that matches at the start of the trimmed
    input decides; when none does the citation is invalid. *)
Fixpoint parse_by_table
         (table : list (Regex.regex * (Regex.caps -> result Citation.ParsedCitation)))
         (trimmed : string) : result Citation.ParsedCitation :=
  match table with
  | [] => Ok (Citation.invalid trimmed)
  | (r, f) :: table' =>
      match Regex.match_start r trimmed with
      | Some (_, m) => f m
      | None => parse_by_table table' trimmed
      end
  end.

(** The reference token of a provision and the length of its normalized body. *)
Definition token (p : BuildDb.ProvisionSeed) : string :=
  Js.trim (BuildDb.provision_ref p).

Definition body_length (p : BuildDb.ProvisionSeed) : nat :=
  String.length (BuildDb.normalizeWhitespace (BuildDb.content p)).

(** What [dedupeProvisions] holds for one token [k] while it reads the list. *)
Definition merge (k : string) (acc : option BuildDb.ProvisionSeed)
           (p : BuildDb.ProvisionSeed) : option BuildDb.ProvisionSeed :=
  if String.eqb (token p) k
  then Some match acc with
            | None => BuildDb.with_ref p k
            | Some existing => BuildDb.pickPreferredProvision existing p
            end
  else acc.

(** A year token given by its decimal digits, and its value. *)
Definition digit_char (d : nat) : ascii := ascii_of_nat (48 + d).

Fixpoint digit_string (ds : list nat) : string :=
  match ds with
  | [] => EmptyString
  | d :: ds' => String (digit_char d) (digit_string ds')
  end.

Definition decimal (ds : list nat) : Z :=
  fold_left (fun acc d => (10 * acc + Z.of_nat d)%Z) ds 0%Z.

(** A character that is not white space. *)
Definition not_space (a : ascii) : bool := negb (Js.is_space a).

(** The provisions of a list that are the first of their reference. *)
Definition first_of_its_ref (l : list Parser.ParsedProvision)
           (p : Parser.ParsedProvision) : Prop :=
  exists pre post,
    l = app pre (p :: post)
    /\ ~ In (Parser.provision_ref p) (map Parser.provision_ref pre).

(** The articles that parse, in the order in which they were fetched. *)
Definition parsed_articles
           (parse : string -> option Parser.ParsedProvision)
           (articles : list Fetcher.ArticleFetchResult)
  : list Parser.ParsedProvision :=
  flat_map (fun a => match parse (Fetcher.a_html a) with
                     | Some p => [p]
                     | None => []
                     end) articles.

(** An answer of the network that ends the retry loop: a rejected request, or
    a response whose status is not transient. *)
Definition final (o : Fetcher.outcome) : bool :=
  match o with
  | Fetcher.Rejected _ => true
  | Fetcher.Responded r => negb (Fetcher.transient (Fetcher.resp_status r))
  end.

(** The number of retries of a call whose first request is number [attempt]
    and which may retry [budget] times. *)
Fixpoint retries (world : nat -> Fetcher.outcome) (attempt budget : nat) : nat :=
  match budget with
  | O => 0
  | S budget' =>
      if final (world attempt) then 0
      else S (retries world (S attempt) budget')
  end.

Fixpoint backoffs (tr : list Fetcher.event) : list nat :=
  match tr with
  | [] => []
  | Fetcher.Backoff ms :: tr' => ms :: backoffs tr'
  | _ :: tr' => backoffs tr'
  end.

Fixpoint request_count (tr : list Fetcher.event) : nat :=
  match tr with
  | [] => 0
  | Fetcher.Request _ _ :: tr' => S (request_count tr')
  | _ :: tr' => request_count tr'
  end.

(** A response handed to the caller as it is. *)
Definition result_of (r : Fetcher.Response) : Fetcher.FetchResult :=
  {| Fetcher.status := Fetcher.resp_status r;
     Fetcher.body := Fetcher.resp_text r;
     Fetcher.contentType := match Fetcher.resp_content_type r with
                            | Some x => x
                            | None => ""
                            end |}.







End Spec.
(* ------------------------------------------------------------------------- *)
(** ** What a pattern can match *)
(* ------------------------------------------------------------------------- *)

Module Sem.
Import Regex.

(** [matches r w rest]: the pattern [r] can consume [w] when the input is
    [w ++ rest].  The rest matters to [$] alone. *)
Inductive matches : regex -> string -> string -> Prop :=
| M_eps rest : matches Eps EmptyString rest
| M_cls p a rest : p a = true -> matches (Cls p) (String a EmptyString) rest
| M_seq r1 r2 w1 w2 rest :
    matches r1 w1 (w2 ++ rest) -> matches r2 w2 rest ->
    matches (Seq r1 r2) (w1 ++ w2) rest
| M_alt_l r1 r2 w rest : matches r1 w rest -> matches (Alt r1 r2) w rest
| M_alt_r r1 r2 w rest : matches r2 w rest -> matches (Alt r1 r2) w rest
| M_star_nil r rest : matches (Star r) EmptyString rest
| M_star_cons r w1 w2 rest :
    matches r w1 (w2 ++ rest) -> matches (Star r) w2 rest ->
    matches (Star r) (w1 ++ w2) rest
| M_grp i r w rest : matches r w rest -> matches (Grp i r) w rest
| M_eos : matches Eos EmptyString EmptyString.

(** The bodies of the groups numbered [i] in [r]. *)
Fixpoint bodies (i : nat) (r : regex) : list regex :=
  match r with
  | Grp j r1 => if (j =? i)%nat then r1 :: bodies i r1 else bodies i r1
  | Seq r1 r2 | Alt r1 r2 => app (bodies i r1) (bodies i r2)
  | Star r1 => bodies i r1
  | _ => []
  end.

(** A text that some group numbered [i] of [r] can have captured. *)
Definition captured_by (r : regex) (i : nat) (v : string) : Prop :=
  exists body rest, In body (bodies i r) /\ matches body v rest.

(** Captures that come from [c] or from a group of [r]. *)
Definition caps_from (r : regex) (c c' : caps) : Prop :=
  forall i v, In (i, v) c' -> In (i, v) c \/ captured_by r i v.

(** Equality of two texts up to the case of ASCII letters, as a literal
    under flag [i] compares. *)
Fixpoint eq_ci_string (l w : string) : bool :=
  match l, w with
  | EmptyString, EmptyString => true
  | String c l', String a w' => Js.eq_ci c a && eq_ci_string l' w'
  | _, _ => false
  end.

(** The first character of a text satisfies [p]. *)
Definition starts_in (p : ascii -> bool) (s : string) : bool :=
  match s with
  | String a _ => p a
  | EmptyString => false
  end.

(** All 256 characters. *)
Definition all_ascii : list ascii := map ascii_of_nat (seq 0 256).

(** A continuation succeeds wherever another does, whatever the captures. *)
Definition succeeds_where (k k' : cont) : Prop :=
  forall s c c', k s c <> None -> k' s c' <> None.

(** A continuation that succeeds on [rest] whatever the captures. *)
Definition accepts (k : cont) (rest : string) : Prop :=
  forall c, k rest c <> None.

(** The pattern has no [$]. *)
Fixpoint no_eos (r : regex) : bool :=
  match r with
  | Eos => false
  | Seq r1 r2 | Alt r1 r2 => no_eos r1 && no_eos r2
  | Star r1 | Grp _ r1 => no_eos r1
  | Eps | Cls _ => true
  end.

End Sem.

(* ------------------------------------------------------------------------- *)
(** ** Vocabulary of the further properties *)
(* ------------------------------------------------------------------------- *)

Module Props.

(** White space occurs in [s] only as single spaces. *)
Fixpoint single_spaced (s : string) : bool :=
  match s with
  | EmptyString => true
  | String a s' =>
      (if Js.is_space a
       then Ascii.eqb a " " && negb (Sem.starts_in Js.is_space s')
       else true)
      && single_spaced s'
  end.

(** Two provisions that differ at most in their heading and reference. *)
Definition same_text (s p : BuildDb.ProvisionSeed) : Prop :=
  BuildDb.chapter s = BuildDb.chapter p
  /\ BuildDb.section s = BuildDb.section p
  /\ BuildDb.content s = BuildDb.content p
  /\ BuildDb.metadata s = BuildDb.metadata p.

(** What an article URL contributes to [fetchAllArticles]: its last answer
    when that is a 200 page of more than 100 characters. *)
Definition delivered (world : string -> nat -> Fetcher.outcome) (u : string)
  : list Fetcher.ArticleFetchResult :=
  match world u (Spec.retries (world u) 0 3) with
  | Fetcher.Responded r =>
      if (Fetcher.resp_status r =? 200)%nat
         && (100 <? String.length (Fetcher.resp_text r))%nat
      then [ {| Fetcher.a_url := u; Fetcher.a_html := Fetcher.resp_text r;
                Fetcher.a_status := Fetcher.resp_status r |} ]
      else []
  | Fetcher.Rejected _ => []
  end.

(** The address of the landing page of an act. *)
Definition landing_url (urn : string) : string :=
  Fetcher.BASE_URL ++ "/uri-res/N2Ls?" ++ urn.

(** The order of the laws in census.json: newer years first, and within a
    year the greater numbers first. *)
Definition law_le (a b : Census.CensusLaw) : Prop :=
  (Census.year b < Census.year a)%Z
  \/ (Census.year a = Census.year b /\ (Census.number b <= Census.number a)%Z).

(** The order of the type statistics: the greater totals first. *)
Definition stat_le (a b : Census.TypeStat) : Prop :=
  (Census.total b <= Census.total a)%Z.

Definition sumZ (l : list Z) : Z := fold_right Z.add 0%Z l.

(** The sum of the totals of the type statistics. *)
Definition totals_of (m : JsMap.t Census.TypeStat) : Z :=
  sumZ (map Census.total (JsMap.values m)).

(** What the type statistics of [saveCensus] hold while the laws are read. *)
Definition stats_inv (m : JsMap.t Census.TypeStat) : Prop :=
  NoDup (JsMap.keys m)
  /\ forall k s, In (k, s) m ->
       Census.stat_type s = k
       /\ (Census.total s = Census.stat_ingestable s + Census.stat_excluded s)%Z
       /\ (0 <= Census.stat_ingestable s)%Z /\ (0 <= Census.stat_excluded s)%Z
       /\ (0 < Census.total s)%Z.

(** The order in which the census-driven ingestion takes the acts: newer
    years first, and within a year the smaller numbers first. *)
Definition act_le (a b : Census.CensusLaw) : Prop :=
  (Census.year b < Census.year a)%Z
  \/ (Census.year a = Census.year b /\ (Census.number a <= Census.number b)%Z).

(** A law passes the filters of the command line. *)
Definition passes (args : CensusIngest.CliArgs) (l : Census.CensusLaw) : Prop :=
  Census.law_classification l <> Census.excluded
  /\ (forall x, CensusIngest.arg_id args = Some x -> x <> EmptyString ->
        Census.id l = x)
  /\ (forall x, CensusIngest.arg_type args = Some x -> x <> EmptyString ->
        Census.type l = x)
  /\ (forall y, CensusIngest.fromYear args = Some (Js.Num y) -> y <> 0%Z ->
        (y <= Census.year l)%Z).

(** The command line without its limit. *)
Definition unlimited (args : CensusIngest.CliArgs) : CensusIngest.CliArgs :=
  {| CensusIngest.limit := None;
     CensusIngest.force := CensusIngest.force args;
     CensusIngest.arg_type := CensusIngest.arg_type args;
     CensusIngest.arg_id := CensusIngest.arg_id args;
     CensusIngest.fromYear := CensusIngest.fromYear args |}.

(** A law as [updateCensus] marks it. *)
Definition marked (l : Census.CensusLaw) (provisionCount : Z) (today : string)
  : Census.CensusLaw :=
  {| Census.id := Census.id l; Census.title := Census.title l;
     Census.type := Census.type l; Census.number := Census.number l;
     Census.year := Census.year l; Census.date := Census.date l;
     Census.urn := Census.urn l; Census.url := Census.url l;
     Census.codice_redazionale := Census.codice_redazionale l;
     Census.category := Census.category l;
     Census.law_classification := Census.law_classification l;
     Census.exclusion_reason := Census.exclusion_reason l;
     Census.ingested := (0 <? provisionCount)%Z;
     Census.provision_count := provisionCount;
     Census.ingestion_date := Some today |}.


(** The text by which the tables of the document types are consulted. *)
Definition type_text (t : string) : string :=
  Js.trim (Js.collapse_spaces (Js.toLowerCase t)).

(** [normalizeDocumentIdentifier] without its third attempt. *)
Definition normalize_without_parenthetical (input : string)
  : result (option string) :=
  let trimmed := Js.trim input in
  if Regex.match_whole StatuteId.CANONICAL_ID trimmed then Ok (Some trimmed)
  else
    match Regex.match_start StatuteId.SHORT_ID trimmed with
    | Some (_, m) => x <- StatuteId.canonical_from m ;; Ok (Some x)
    | None => Ok None
    end.

(** A non-empty text of decimal digits. *)
Definition digits (w : string) : Prop :=
  exists ds, w = Spec.digit_string ds /\ ds <> [] /\ Forall (fun d => d < 10) ds.


(** An identifier made of a type from [types], a number and a four-digit
    year, joined by hyphens. *)
Definition id_shape (types : list string) (id : string) : Prop :=
  exists ty n y,
    id = ty ++ "-" ++ n ++ "-" ++ y
    /\ In ty types /\ digits n /\ digits y /\ String.length y = 4.

(** A citation as [parseCitation] builds it when a grammar matches: the
    article is a number, the suffix one of the Latin ordinals in lower case,
    the paragraph a number; a code has a title and neither number, year nor
    identifier; any other act has a number, a year below 10000 and the
    identifier made of its type, number and year. *)
Definition well_formed (p : Citation.ParsedCitation) : Prop :=
  (exists a, Citation.article p = Some a /\ digits a)
  /\ (forall x, Citation.suffix p = Some x -> In x Citation.ARTICLE_SUFFIXES)
  /\ (forall c, Citation.comma p = Some c -> digits c)
  /\ Citation.error p = None
  /\ ((Citation.type p = Citation.codice
       /\ (exists t, Citation.title p = Some t /\ t <> EmptyString)
       /\ Citation.number p = None /\ Citation.year p = None
       /\ Citation.document_id p = None)
      \/ exists n y,
           In (Citation.type p)
              [Citation.legge; Citation.dlgs; Citation.dl; Citation.dpr;
               Citation.rd; Citation.unknown]
           /\ Citation.title p = None
           /\ Citation.number p = Some (Js.Num n)
           /\ Citation.year p = Some (Js.Num y)
           /\ (0 <= n)%Z /\ (0 <= y <= 9999)%Z
           /\ Citation.document_id p
              = Some (Citation.type_name (Citation.type p) ++ "-"
                      ++ Js.number_to_string (Js.Num n) ++ "-"
                      ++ Js.number_to_string (Js.Num y))).

(** The number of calls of the page client in a trace. *)
Fixpoint rate_limits (tr : list Fetcher.event) : nat :=
  match tr with
  | [] => 0
  | Fetcher.RateLimit :: tr' => S (rate_limits tr')
  | _ :: tr' => rate_limits tr'
  end.

(** What [fetchPage] makes of the last answer of the network. *)
Definition page_of (url : string) (o : Fetcher.outcome) : result string :=
  match o with
  | Fetcher.Rejected reason => Throw reason
  | Fetcher.Responded r =>
      if (Fetcher.resp_status r =? 200)%nat then Ok (Fetcher.resp_text r)
      else Throw ("HTTP " ++ CensusFetch.num (Fetcher.resp_status r)
                  ++ " for " ++ url)
  end.

(** [firstPageEntries.length || 20] *)
Definition per_page (n : nat) : Z :=
  match n with
  | O => 20%Z
  | S m => Z.of_nat (S m)
  end.

(** A provision of document [docId] that satisfies [cond], with a row of
    that document. *)
Definition row_in (db : Db.Database) (docId : string)
           (cond : Db.legal_provision -> bool) (row : GetProvision.ProvisionRow)
  : Prop :=
  In (fst row) (Db.legal_provisions db)
  /\ Db.document_id (fst row) = docId
  /\ cond (fst row) = true
  /\ In (snd row) (Db.legal_documents db)
  /\ Db.id (snd row) = docId.

(** The three forms under which [getProvision] looks a reference up. *)
Definition variants (ref : string) : list string :=
  [ref; "art" ++ ref; "Art. " ++ ref].

(** The character [c] does not occur in [s]. *)
Definition free_of (c : ascii) (s : string) : bool :=
  Js.forallb_string (fun a => negb (Ascii.eqb a c)) s.

(** The act of an index entry is stored in the database. *)
Definition stored (localDocs : list string) (e : CheckUpdates.LocalIndexEntry)
  : bool :=
  Census.has localDocs (CheckUpdates.toDocumentId e).

(** The words of a text: its maximal runs of characters that are not white
    space, in their order. *)
Fixpoint words (s : string) : list string :=
  match s with
  | EmptyString => []
  | String a s' =>
      if Js.is_space a then words s'
      else match words s' with
           | w :: ws =>
               if Sem.starts_in Js.is_space s'
               then String a EmptyString :: w :: ws
               else String a w :: ws
           | [] => [String a EmptyString]
           end
  end.

(** The whitespace-normalized text: the words, one space between two. *)
Definition normalized (s : string) : string := String.concat " " (words s).

(** The length of the normalized body of a provision. *)
Definition normalized_length (p : BuildDb.ProvisionSeed) : nat :=
  String.length (normalized (BuildDb.content p)).


(** The article that a citation names, as a token: the number, and after a
    hyphen the ordinal suffix when the citation has one. *)
Definition article_token (art : string) (suffix : option string) : string :=
  art ++ match suffix with
         | Some x => if String.eqb x EmptyString then EmptyString
                     else "-" ++ x
         | None => EmptyString
         end.

(** The document of a citation resolves to the identifier [docId]: through
    the identifier that the citation carries, or, when the citation carries
    none or that one resolves to nothing, through its title. *)
Definition resolves_to (db : Db.Database) (parsed : Citation.ParsedCitation)
           (docId : string) : Prop :=
  (exists d, Citation.document_id parsed = Some d /\ d <> EmptyString
             /\ StatuteId.resolveExistingStatuteId db d = Ok (Some docId))
  \/ ((forall d, Citation.document_id parsed = Some d -> d <> EmptyString ->
         StatuteId.resolveExistingStatuteId db d = Ok None
         \/ StatuteId.resolveExistingStatuteId db d = Ok (Some EmptyString))
      /\ exists t, Citation.title parsed = Some t /\ t <> EmptyString
                   /\ StatuteId.resolveExistingStatuteId db t = Ok (Some docId)).

(** The provisions of a list that are the first of their reference, in the
    order of the list. *)
Fixpoint first_of_each_ref (l : list Parser.ParsedProvision)
  : list Parser.ParsedProvision :=
  match l with
  | [] => []
  | p :: l' =>
      p :: filter (fun q => negb (String.eqb (Parser.provision_ref q)
                                             (Parser.provision_ref p)))
                  (first_of_each_ref l')
  end.

(** What the two article parsers give for a page: the result of the first,
    or else that of the second. *)
Definition first_parse (pA pB : string -> option Parser.ParsedProvision)
           (html : string) : option Parser.ParsedProvision :=
  match pA html with
  | Some p => Some p
  | None => pB html
  end.

(** The text holds [ref] up to the case of ASCII letters. *)
Definition contains_ci (ref text : string) : Prop :=
  exists pre w post,
    text = pre ++ w ++ post /\ Sem.eq_ci_string ref w = true.

(** The length of the longest run of decimal digits of a text; [run] is the
    number of digits that were just read. *)
Fixpoint digit_run_from (run : nat) (s : string) : nat :=
  match s with
  | EmptyString => run
  | String a s' =>
      if Js.is_digit a then digit_run_from (S run) s'
      else Nat.max run (digit_run_from 0 s')
  end.

Definition longest_digit_run (s : string) : nat := digit_run_from 0 s.




(** The value of a text of decimal digits; the empty text counts as 0. *)
Definition digits_of (s : string) : list nat :=
  map (fun a => nat_of_ascii a - 48) (list_ascii_of_string s).

Definition value (s : string) : Z := Spec.decimal (digits_of s).





(** The text [w] is written in [s]. *)
Definition factor (w s : string) : Prop :=
  exists pre post, s = pre ++ w ++ post.


End Props.
(* ------------------------------------------------------------------------- *)
(** * Properties *)
(* ------------------------------------------------------------------------- *)

(** ** The matcher *)

Section MatcherFacts.
Import Regex Spec.

Lemma defined_cons (c : caps) (i j : nat) (v : string) :
  defined ((i, v) :: c) j = (i =? j)%nat || defined c j.
Proof.
  unfold defined; simpl. destruct (i =? j)%nat; reflexivity.
Qed.

Lemma grows_refl c : grows c c.
Proof. intros j H; exact H. Qed.

Lemma grows_trans c1 c2 c3 : grows c1 c2 -> grows c2 c3 -> grows c1 c3.
Proof. intros H1 H2 j H; auto. Qed.

Lemma star_loop_inv (body : matcher) :
  (forall s c k x, body s c k = Some x ->
     exists s' c', k s' c' = Some x /\ grows c c') ->
  forall fuel s c k x, star_loop body fuel s c k = Some x ->
     exists s' c', k s' c' = Some x /\ grows c c'.
Proof.
  intros Hbody fuel; induction fuel as [|fuel IH]; intros s c k x H; simpl in H.
  - exists s, c; split; [exact H | apply grows_refl].
  - destruct (body s c _) as [y|] eqn:E.
    + inversion H; subst y; clear H.
      apply Hbody in E. destruct E as (s1 & c1 & E & G1).
      destruct (String.length s1 <? String.length s)%nat; [|discriminate].
      apply IH in E. destruct E as (s2 & c2 & E & G2).
      exists s2, c2; split; [exact E | eapply grows_trans; eauto].
    + exists s, c; split; [exact H | apply grows_refl].
Qed.

(** A successful match hands the continuation captures that extend the given
    ones and contain every group the pattern always sets. *)
Lemma rmatch_inv (r : regex) :
  forall s c k x, rmatch r s c k = Some x ->
    exists s' c', k s' c' = Some x /\ grows c c'
                  /\ forall i, sets i r = true -> defined c' i = true.
Proof.
  induction r as [|p|r1 IH1 r2 IH2|r1 IH1 r2 IH2|r1 IH1|i r1 IH1|];
    intros s c k x H; simpl in H.
  - exists s, c; repeat split; auto using grows_refl; discriminate.
  - destruct s as [|a s]; [discriminate|].
    destruct (p a); [|discriminate].
    exists s, c; repeat split; auto using grows_refl; discriminate.
  - apply IH1 in H. destruct H as (s1 & c1 & H & G1 & S1).
    apply IH2 in H. destruct H as (s2 & c2 & H & G2 & S2).
    exists s2, c2; repeat split; auto.
    + eapply grows_trans; eauto.
    + intros i Hi; simpl in Hi. apply orb_true_iff in Hi. destruct Hi; auto.
  - destruct (rmatch r1 s c k) as [y|] eqn:E.
    + inversion H; subst y. apply IH1 in E.
      destruct E as (s1 & c1 & E & G1 & S1).
      exists s1, c1; repeat split; auto.
      intros i Hi; simpl in Hi. apply andb_true_iff in Hi. apply S1, Hi.
    + apply IH2 in H. destruct H as (s2 & c2 & H & G2 & S2).
      exists s2, c2; repeat split; auto.
      intros i Hi; simpl in Hi. apply andb_true_iff in Hi. apply S2, Hi.
  - apply star_loop_inv in H.
    + destruct H as (s' & c' & H & G). exists s', c'; repeat split; auto.
      discriminate.
    + intros s0 c0 k0 x0 H0. apply IH1 in H0.
      destruct H0 as (s1 & c1 & H0 & G & _). eauto.
  - apply IH1 in H. destruct H as (s1 & c1 & H & G1 & S1).
    exists s1, ((i, consumed s s1) :: c1); repeat split; auto.
    + intros j Hj. rewrite defined_cons. apply G1 in Hj. rewrite Hj.
      apply orb_true_r.
    + intros j Hj; simpl in Hj. rewrite defined_cons.
      apply orb_true_iff in Hj. destruct Hj as [Hj|Hj].
      * rewrite Hj; reflexivity.
      * rewrite (S1 j Hj). apply orb_true_r.
  - destruct s; [|discriminate].
    exists EmptyString, c; repeat split; auto using grows_refl; discriminate.
Qed.

(** Every group that a pattern always sets is defined after [match_start]. *)
Lemma match_start_sets (r : regex) (s rest : string) (m : caps) (i : nat) :
  match_start r s = Some (rest, m) -> sets i r = true ->
  exists v, group m i = Some v.
Proof.
  intros H Hi. unfold match_start in H. apply rmatch_inv in H.
  destruct H as (s' & c' & H & _ & S). unfold accept in H.
  inversion H; subst. specialize (S i Hi). unfold defined in S.
  destruct (group m i) as [v|]; [eauto | discriminate].
Qed.

Lemma search_sets (r : regex) (s rest : string) (m : caps) (i : nat) :
  search r s = Some (rest, m) -> sets i r = true ->
  exists v, group m i = Some v.
Proof.
  induction s as [|a s IH]; simpl; intros H Hi.
  - destruct (match_start r EmptyString) as [[rest' m']|] eqn:E; [|discriminate].
    inversion H; subst. eapply match_start_sets; eauto.
  - destruct (match_start r (String a s)) as [[rest' m']|] eqn:E.
    + inversion H; subst. eapply match_start_sets; eauto.
    + auto.
Qed.

End MatcherFacts.

Section ConsumeFacts.
Import Regex Spec.

Lemma forallb_string_app (P : ascii -> bool) (a b : string) :
  Js.forallb_string P (a ++ b) = Js.forallb_string P a && Js.forallb_string P b.
Proof.
  induction a as [|x a IH]; simpl; [reflexivity|].
  rewrite IH, andb_assoc. reflexivity.
Qed.

Lemma append_assoc (a b c : string) : (a ++ b) ++ c = a ++ (b ++ c).
Proof. induction a as [|x a IH]; simpl; [reflexivity | rewrite IH; reflexivity]. Qed.

Lemma append_nil_r (s : string) : s ++ "" = s.
Proof. induction s as [|a s IH]; simpl; congruence. Qed.

Lemma length_append (a b : string) :
  String.length (a ++ b) = String.length a + String.length b.
Proof. induction a as [|x a IH]; simpl; [reflexivity | rewrite IH; reflexivity]. Qed.

Lemma substring_prefix (v s : string) :
  substring 0 (String.length v) (v ++ s) = v.
Proof.
  induction v as [|x v IH]; simpl.
  - destruct s; reflexivity.
  - rewrite IH. reflexivity.
Qed.

Lemma consumed_append (v s : string) : consumed (v ++ s) s = v.
Proof.
  unfold consumed. rewrite length_append.
  replace (String.length v + String.length s - String.length s)
    with (String.length v) by lia.
  apply substring_prefix.
Qed.

Lemma group_in (c : caps) (i : nat) (w : string) :
  group c i = Some w -> In (i, w) c.
Proof.
  induction c as [|[j v] c IH]; simpl; [discriminate|].
  destruct (Nat.eqb_spec j i) as [->|Hne].
  - intros H; inversion H; auto.
  - auto.
Qed.

Section Consume.
Variable P : ascii -> bool.
Variable i : nat.

Lemma star_loop_consumes (body : matcher) (chars : Prop) :
  (forall s c k x, body s c k = Some x -> consumes P i chars s c k x) ->
  forall fuel s c k x,
    star_loop body fuel s c k = Some x -> consumes P i chars s c k x.
Proof.
  unfold consumes.
  intros Hbody fuel. induction fuel as [|fuel IH]; intros s c k x H; simpl in H.
  - exists s, c, EmptyString. repeat split; auto.
  - destruct (body s c _) as [y|] eqn:E.
    + inversion H; subst y; clear H.
      apply Hbody in E. destruct E as (s1 & c1 & v1 & E & Hs & Hv & Hc).
      destruct (String.length s1 <? String.length s)%nat; [|discriminate].
      apply IH in E. destruct E as (s2 & c2 & v2 & E & Hs2 & Hv2 & Hc2).
      exists s2, c2, (v1 ++ v2). repeat split; auto.
      * rewrite Hs, Hs2. symmetry. apply append_assoc.
      * intros Hch. rewrite forallb_string_app, Hv, Hv2 by exact Hch. reflexivity.
    + exists s, c, EmptyString. repeat split; auto.
Qed.

Lemma rmatch_consumes (r : regex) :
  group_chars i P r ->
  forall s c k x, rmatch r s c k = Some x -> consumes P i (chars_in P r) s c k x.
Proof.
  unfold consumes.
  induction r as [|p|r1 IH1 r2 IH2|r1 IH1 r2 IH2|r1 IH1|j r1 IH1|];
    intros Hg s c k x H; simpl in H.
  - exists s, c, EmptyString. repeat split; auto.
  - destruct s as [|a s]; [discriminate|].
    destruct (p a) eqn:Ep; [|discriminate].
    exists s, c, (String a EmptyString). repeat split; auto.
    intros Hch. simpl. rewrite (Hch a Ep). reflexivity.
  - destruct Hg as [Hg1 Hg2].
    apply (IH1 Hg1) in H. destruct H as (s1 & c1 & v1 & H & Hs & Hv & Hc).
    apply (IH2 Hg2) in H. destruct H as (s2 & c2 & v2 & H & Hs2 & Hv2 & Hc2).
    exists s2, c2, (v1 ++ v2). repeat split; auto.
    + rewrite Hs, Hs2. symmetry. apply append_assoc.
    + intros [Hch1 Hch2]. rewrite forallb_string_app, Hv, Hv2; auto.
  - destruct Hg as [Hg1 Hg2].
    destruct (rmatch r1 s c k) as [y|] eqn:E.
    + inversion H; subst y. apply (IH1 Hg1) in E.
      destruct E as (s1 & c1 & v1 & E & Hs & Hv & Hc).
      exists s1, c1, v1. repeat split; auto. intros [Hch _]; auto.
    + apply (IH2 Hg2) in H.
      destruct H as (s1 & c1 & v1 & E' & Hs & Hv & Hc).
      exists s1, c1, v1. repeat split; auto. intros [_ Hch]; auto.
  - apply (star_loop_consumes (rmatch r1) (chars_in P r1)) in H;
      [exact H | intros s0 c0 k0 x0 H0; apply (IH1 Hg), H0].
  - destruct Hg as [Hj Hg].
    apply (IH1 Hg) in H. destruct H as (s1 & c1 & v1 & H & Hs & Hv & Hc).
    exists s1, ((j, consumed s s1) :: c1), v1. repeat split; auto.
    intros Hcaps w [Hw|Hw].
    + inversion Hw; subst. rewrite consumed_append. apply Hv, Hj. reflexivity.
    + apply Hc; auto.
  - destruct s; [|discriminate].
    exists EmptyString, c, EmptyString. repeat split; auto.
Qed.

Lemma search_group_chars (r : regex) (s rest : string) (m : caps) (w : string) :
  group_chars i P r -> search r s = Some (rest, m) -> group m i = Some w ->
  Js.forallb_string P w = true.
Proof.
  intros Hg Hs Hw.
  assert (Hm : forall t, match_start r t = Some (rest, m) -> caps_in i P m).
  { intros t H. unfold match_start in H. apply (rmatch_consumes r Hg) in H.
    destruct H as (s' & c' & v & H & _ & _ & Hc). unfold accept in H.
    inversion H; subst. apply Hc. intros w' []. }
  apply group_in in Hw.
  induction s as [|a s IH]; simpl in Hs.
  - destruct (match_start r EmptyString) as [[rest' m']|] eqn:E; [|discriminate].
    inversion Hs; subst. eapply Hm; eauto.
  - destruct (match_start r (String a s)) as [[rest' m']|] eqn:E.
    + inversion Hs; subst. eapply Hm; eauto.
    + auto.
Qed.

End Consume.

End ConsumeFacts.

(** ** Captures are written in the input *)

Section FactorFacts.
Import Regex Spec Props.

Lemma factor_refl (s : string) : factor s s.
Proof. exists EmptyString, EmptyString. cbn. rewrite append_nil_r. reflexivity. Qed.


Lemma factor_prefix (v s : string) : factor v (v ++ s).
Proof. exists EmptyString, s. reflexivity. Qed.

Lemma factor_app_l (w pre s : string) : factor w s -> factor w (pre ++ s).
Proof.
  intros (a & b & ->). exists (pre ++ a), b. rewrite append_assoc. reflexivity.
Qed.

Lemma factor_app_r (w s post : string) : factor w s -> factor w (s ++ post).
Proof.
  intros (a & b & ->). exists a, (b ++ post). rewrite !append_assoc. reflexivity.
Qed.

Lemma factor_trans (a b c : string) : factor a b -> factor b c -> factor a c.
Proof.
  intros H (x & y & ->). apply factor_app_l, factor_app_r, H.
Qed.

Lemma star_loop_factors (body : matcher) :
  (forall s c k x, body s c k = Some x ->
     exists s' c' v, k s' c' = Some x /\ s = v ++ s'
       /\ forall i w, In (i, w) c' -> In (i, w) c \/ factor w s) ->
  forall fuel s c k x, star_loop body fuel s c k = Some x ->
     exists s' c' v, k s' c' = Some x /\ s = v ++ s'
       /\ forall i w, In (i, w) c' -> In (i, w) c \/ factor w s.
Proof.
  intros Hbody fuel. induction fuel as [|fuel IH]; intros s c k x H; simpl in H.
  - exists s, c, EmptyString. repeat split; auto.
  - destruct (body s c _) as [y|] eqn:E.
    + inversion H; subst y; clear H.
      apply Hbody in E. destruct E as (s1 & c1 & v1 & E & Hs & Hc).
      destruct (String.length s1 <? String.length s)%nat; [|discriminate].
      apply IH in E. destruct E as (s2 & c2 & v2 & E & Hs2 & Hc2).
      exists s2, c2, (v1 ++ v2). split; [exact E|]. split.
      * rewrite Hs, Hs2. symmetry. apply append_assoc.
      * intros i w Hin. destruct (Hc2 i w Hin) as [H1|H1]; [auto|].
        right. rewrite Hs. apply factor_app_l, H1.
    + exists s, c, EmptyString. repeat split; auto.
Qed.

(** Every capture of a match is a part of the text that was matched. *)
Lemma rmatch_factors (r : regex) :
  forall s c k x, rmatch r s c k = Some x ->
    exists s' c' v, k s' c' = Some x /\ s = v ++ s'
      /\ forall i w, In (i, w) c' -> In (i, w) c \/ factor w s.
Proof.
  induction r as [|p|r1 IH1 r2 IH2|r1 IH1 r2 IH2|r1 IH1|j r1 IH1|];
    intros s c k x H; simpl in H.
  - exists s, c, EmptyString. repeat split; auto.
  - destruct s as [|a s]; [discriminate|].
    destruct (p a); [|discriminate].
    exists s, c, (String a EmptyString). repeat split; auto.
  - apply IH1 in H. destruct H as (s1 & c1 & v1 & H & Hs & Hc).
    apply IH2 in H. destruct H as (s2 & c2 & v2 & H & Hs2 & Hc2).
    exists s2, c2, (v1 ++ v2). split; [exact H|]. split.
    + rewrite Hs, Hs2. symmetry. apply append_assoc.
    + intros i w Hin. destruct (Hc2 i w Hin) as [H1|H1]; [auto|].
      right. rewrite Hs. apply factor_app_l, H1.
  - destruct (rmatch r1 s c k) as [y|] eqn:E.
    + inversion H; subst y. apply IH1, E.
    + apply IH2, H.
  - apply (star_loop_factors (rmatch r1)) in H; [exact H|].
    intros s0 c0 k0 x0 H0. apply IH1, H0.
  - apply IH1 in H. destruct H as (s1 & c1 & v1 & H & Hs & Hc).
    exists s1, ((j, consumed s s1) :: c1), v1. split; [exact H|].
    split; [exact Hs|].
    intros i w [Hw|Hw].
    + inversion Hw; subst. rewrite consumed_append. right. apply factor_prefix.
    + auto.
  - destruct s; [|discriminate].
    exists EmptyString, c, EmptyString. repeat split; auto.
Qed.

Lemma match_start_factor (r : regex) (s rest : string) (m : caps) :
  match_start r s = Some (rest, m) ->
  (exists v, s = v ++ rest) /\ forall i w, In (i, w) m -> factor w s.
Proof.
  unfold match_start. intros H. apply rmatch_factors in H.
  destruct H as (s' & c' & v & H & Hs & Hc). unfold accept in H.
  inversion H; subst s' c'. split; [eauto|].
  intros i w Hin. destruct (Hc i w Hin) as [[]|Hf]. exact Hf.
Qed.



End FactorFacts.

(** ** The citation parser *)

Section ParserFacts.
Import Regex Citation Spec.

Lemma parseArticleRef_total (raw : string) :
  exists ref, parseArticleRef raw = Ok ref.
Proof.
  unfold parseArticleRef.
  destruct (match_start ARTICLE_REF raw) as [[rest m]|] eqn:E; [|eauto].
  destruct (match_start_sets _ _ _ _ 1 E eq_refl) as [a Ha].
  destruct (match_start_sets _ _ _ _ 2 E eq_refl) as [x Hx].
  rewrite Ha, Hx; simpl. eauto.
Qed.

(** A grammar whose groups 1 and 3 are mandatory yields a citation, not an
    exception. *)
Ltac from_total E :=
  let a := fresh "a" in let Ha := fresh "Ha" in
  let t := fresh "t" in let Ht := fresh "Ht" in
  let ref := fresh "ref" in let Hr := fresh "Hr" in
  destruct (match_start_sets _ _ _ _ 1 E eq_refl) as [a Ha];
  destruct (match_start_sets _ _ _ _ 3 E eq_refl) as [t Ht];
  destruct (parseArticleRef_total a) as [ref Hr].

Lemma fromComma_total (s rest : string) (m : caps) :
  match_start COMMA_CITATION s = Some (rest, m) ->
  exists c k, fromComma m = Ok c /\ valid c = true
              /\ group m 2 = Some k /\ comma c = Some k.
Proof.
  intros E. from_total E.
  destruct (match_start_sets _ _ _ _ 2 E eq_refl) as [k Hk].
  unfold fromComma. rewrite Ha; simpl. rewrite Hr; simpl. rewrite Ht; simpl.
  rewrite Hk. eexists _, k. repeat split.
Qed.

Lemma fromCodice_total (s rest : string) (m : caps) :
  match_start CODICE_CITATION s = Some (rest, m) ->
  exists c, fromCodice m = Ok c.
Proof.
  intros E. from_total E.
  unfold fromCodice. rewrite Ha; simpl. rewrite Hr; simpl. rewrite Ht; simpl.
  eauto.
Qed.

Lemma fromFull_total (s rest : string) (m : caps) :
  match_start FULL_CITATION s = Some (rest, m) ->
  exists c, fromFull m = Ok c.
Proof.
  intros E. from_total E.
  unfold fromFull. rewrite Ha; simpl. rewrite Hr; simpl. rewrite Ht; simpl.
  eauto.
Qed.

Lemma fromShort_total (s rest : string) (m : caps) :
  match_start SHORT_CITATION s = Some (rest, m) ->
  exists c, fromShort m = Ok c.
Proof.
  intros E. from_total E.
  unfold fromShort. rewrite Ha; simpl. rewrite Hr; simpl. rewrite Ht; simpl.
  eauto.
Qed.

Lemma fromIdBased_total (s rest : string) (m : caps) :
  match_start ID_BASED_CITATION s = Some (rest, m) ->
  exists c, fromIdBased m = Ok c.
Proof.
  intros E.
  destruct (match_start_sets _ _ _ _ 1 E eq_refl) as [t Ht].
  destruct (match_start_sets _ _ _ _ 4 E eq_refl) as [a Ha].
  destruct (parseArticleRef_total a) as [ref Hr].
  unfold fromIdBased. rewrite Ht; simpl. rewrite Ha; simpl. rewrite Hr; simpl.
  eauto.
Qed.

(** [parseCitation] never throws. *)
Lemma parseCitation_total (citation : string) :
  exists c, parseCitation citation = Ok c.
Proof.
  unfold parseCitation.
  destruct (match_start COMMA_CITATION _) as [[r1 m1]|] eqn:E1.
  { destruct (fromComma_total _ _ _ E1) as (c & k & H & _). eauto. }
  destruct (match_start ID_BASED_CITATION _) as [[r2 m2]|] eqn:E2.
  { eapply fromIdBased_total; eauto. }
  destruct (match_start CODICE_CITATION _) as [[r3 m3]|] eqn:E3.
  { eapply fromCodice_total; eauto. }
  destruct (match_start FULL_CITATION _) as [[r4 m4]|] eqn:E4.
  { eapply fromFull_total; eauto. }
  destruct (match_start SHORT_CITATION _) as [[r5 m5]|] eqn:E5.
  { eapply fromShort_total; eauto. }
  eauto.
Qed.

(** C1 (as amended).  [parseCitation] tries the five grammars in the order
    (a) paragraph-bearing short form, (b) identifier-based, (c) named code,
    (d) spelled-out type with date, (e) short form, each anchored at the start
    of the trimmed input and not at its end; the first that matches decides.
    Whenever grammar (a) matches, also on an input of the shape of (e), the
    result is the valid citation of (a) and carries the captured paragraph
    number.  When no grammar matches a prefix of the trimmed input the result
    is the invalid citation whose message quotes the trimmed input.  No input
    makes [parseCitation] throw. *)
Theorem parseCitation_precedence (citation : string) :
  let trimmed := Js.trim citation in
  parseCitation citation = parse_by_table grammars trimmed
  /\ (exists c, parseCitation citation = Ok c)
  /\ (forall rest m,
        match_start COMMA_CITATION trimmed = Some (rest, m) ->
        exists c k, parseCitation citation = Ok c /\ valid c = true
                    /\ group m 2 = Some k /\ comma c = Some k)
  /\ ((forall g, In g grammars -> match_start (fst g) trimmed = None) ->
      parseCitation citation = Ok (invalid trimmed)
      /\ valid (invalid trimmed) = false
      /\ error (invalid trimmed)
         = Some ("Could not parse Italian citation: " ++ Js.quoted trimmed)).
Proof.
  intros trimmed. split; [|split; [|split]].
  - unfold parseCitation, grammars, parse_by_table. fold trimmed.
    destruct (match_start COMMA_CITATION trimmed) as [[? ?]|]; [reflexivity|].
    destruct (match_start ID_BASED_CITATION trimmed) as [[? ?]|]; [reflexivity|].
    destruct (match_start CODICE_CITATION trimmed) as [[? ?]|]; [reflexivity|].
    destruct (match_start FULL_CITATION trimmed) as [[? ?]|]; [reflexivity|].
    destruct (match_start SHORT_CITATION trimmed) as [[? ?]|]; reflexivity.
  - apply parseCitation_total.
  - intros rest m E. unfold parseCitation. fold trimmed. rewrite E.
    destruct (fromComma_total _ _ _ E) as (c & k & H1 & H2 & H3 & H4).
    exists c, k. auto.
  - intros Hnone. repeat split.
    unfold parseCitation. fold trimmed.
    assert (H1 := Hnone (COMMA_CITATION, fromComma)).
    assert (H2 := Hnone (ID_BASED_CITATION, fromIdBased)).
    assert (H3 := Hnone (CODICE_CITATION, fromCodice)).
    assert (H4 := Hnone (FULL_CITATION, fromFull)).
    assert (H5 := Hnone (SHORT_CITATION, fromShort)).
    simpl in H1, H2, H3, H4, H5.
    rewrite H1, H2, H3, H4, H5 by auto 7. reflexivity.
Qed.

(** The theorem at a paragraph-bearing short citation, which has the surface
    shape of grammars (a) and (e). *)
Lemma parseCitation_precedence_witness :
  match_start SHORT_CITATION (Js.trim "Art. 1, comma 2, D.Lgs. 196/2003") <> None
  /\ exists c, parseCitation "Art. 1, comma 2, D.Lgs. 196/2003" = Ok c
               /\ valid c = true /\ comma c = Some "2".
Proof.
  split; [vm_compute; discriminate|].
  destruct (parseCitation_precedence "Art. 1, comma 2, D.Lgs. 196/2003")
    as (_ & _ & H & _).
  destruct (H "" [(5, "2003"); (4, "196"); (3, "D.Lgs."); (2, "2"); (1, "1")])
    as (c & k & H1 & H2 & H3 & H4); [vm_compute; reflexivity|].
  exists c. repeat split; auto.
  rewrite H4. rewrite <- H3. reflexivity.
Defined.

(** C1 as stated fails.  No grammar matches the whole of the trimmed input
    below, and yet it parses to a valid citation; and the message of an
    invalid citation quotes the trimmed text, which need not contain the
    original one. *)
Lemma parseCitation_full_input_counterexample :
  (forall g, In g grammars ->
     match_whole (fst g) (Js.trim "Art. 1, D.Lgs. 196/2003 e successive modifiche")
     = false)
  /\ (exists c,
        parseCitation "Art. 1, D.Lgs. 196/2003 e successive modifiche" = Ok c
        /\ valid c = true /\ document_id c = Some "dlgs-196-2003")
  /\ (exists c e,
        parseCitation "  legge sulla privacy " = Ok c
        /\ valid c = false /\ error c = Some e
        /\ Js.includes "  legge sulla privacy " e = false).
Proof.
  split; [|split].
  - intros g Hg. simpl in Hg.
    repeat (destruct Hg as [Hg|Hg]; [subst g; vm_compute; reflexivity|]).
    contradiction.
  - eexists. vm_compute. repeat split.
  - eexists _, _. vm_compute. repeat split.
Qed.

End ParserFacts.

(** ** Formatting and parsing again *)

Section RoundTripFacts.
Import Citation.

(** The citation of a presidential decree, as the parser produces it. *)
Example parse_short_dpr :
  parseCitation "Art. 1, D.P.R. 445/2000"
  = Ok (numbered dpr "1" None None (Js.Num 445) (Js.Num 2000)).
Proof. vm_compute. reflexivity. Qed.

Example parse_short_rd :
  parseCitation "Art. 640-bis, comma 2, R.D. 1398/1930"
  = Ok (numbered rd "640" (Some "bis") (Some "2") (Js.Num 1398) (Js.Num 1930)).
Proof. vm_compute. reflexivity. Qed.

(** The short style of these two citations parses back to them, and so does
    the full style of the three types whose full name the grammars list. *)
Example short_style_round_trips :
  parseCitation (formatCitation
                   (numbered dpr "1" None None (Js.Num 445) (Js.Num 2000)) short)
  = Ok (numbered dpr "1" None None (Js.Num 445) (Js.Num 2000))
  /\ parseCitation (formatCitation
                      (numbered rd "640" (Some "bis") (Some "2")
                                (Js.Num 1398) (Js.Num 1930)) short)
     = Ok (numbered rd "640" (Some "bis") (Some "2") (Js.Num 1398) (Js.Num 1930)).
Proof. split; vm_compute; reflexivity. Qed.

Example full_style_round_trips_for_three_types :
  forall t, In t [dlgs; dl; legge] ->
    parseCitation (formatCitation
                     (numbered t "4" (Some "bis") (Some "2")
                               (Js.Num 196) (Js.Num 2003)) full)
    = Ok (numbered t "4" (Some "bis") (Some "2") (Js.Num 196) (Js.Num 2003)).
Proof.
  intros t Ht. simpl in Ht.
  repeat (destruct Ht as [Ht|Ht]; [subst t; vm_compute; reflexivity|]).
  contradiction.
Qed.

(** C2 at the failing inputs.  The full style of a valid citation of a
    presidential decree (dpr) or of a royal decree (rd) is a text that no
    grammar of [parseCitation] accepts: parsing it again gives an invalid
    citation, so type, article, number, year and document identifier are
    lost. *)
Theorem full_style_not_parsed_back :
  formatCitation (numbered dpr "1" None None (Js.Num 445) (Js.Num 2000)) full
  = "Art. 1, Decreto del Presidente della Repubblica n. 445/2000"
  /\ parseCitation
       (formatCitation (numbered dpr "1" None None (Js.Num 445) (Js.Num 2000)) full)
     = Ok (invalid "Art. 1, Decreto del Presidente della Repubblica n. 445/2000")
  /\ formatCitation (numbered rd "640" (Some "bis") (Some "2")
                              (Js.Num 1398) (Js.Num 1930)) full
     = "Art. 640-bis, comma 2, Regio decreto n. 1398/1930"
  /\ parseCitation
       (formatCitation (numbered rd "640" (Some "bis") (Some "2")
                                 (Js.Num 1398) (Js.Num 1930)) full)
     = Ok (invalid "Art. 640-bis, comma 2, Regio decreto n. 1398/1930").
Proof. repeat split; vm_compute; reflexivity. Qed.

End RoundTripFacts.

(** ** Strings *)

Section StringFacts.

Lemma trimEnd_idempotent (s : string) : Js.trimEnd (Js.trimEnd s) = Js.trimEnd s.
Proof.
  induction s as [|a s IH]; [reflexivity|].
  simpl. destruct (Js.trimEnd s) as [|b t] eqn:E.
  - destruct (Js.is_space a) eqn:Ea; [reflexivity|].
    simpl. rewrite Ea. reflexivity.
  - change (Js.trimEnd (String a (String b t))) with
      (match Js.trimEnd (String b t) with
       | EmptyString => if Js.is_space a then EmptyString else String a EmptyString
       | u => String a u
       end).
    rewrite IH. reflexivity.
Qed.

Lemma trimEnd_head (a : ascii) (s : string) :
  Js.is_space a = false -> exists t, Js.trimEnd (String a s) = String a t.
Proof.
  intros Ha. simpl. destruct (Js.trimEnd s); rewrite ?Ha; eauto.
Qed.

Lemma trimStart_head (s : string) :
  Js.trimStart s = EmptyString
  \/ exists a t, Js.trimStart s = String a t /\ Js.is_space a = false.
Proof.
  induction s as [|a s IH]; [left; reflexivity|].
  simpl. destruct (Js.is_space a) eqn:Ea; [exact IH|].
  right. eauto.
Qed.

Lemma trim_idempotent (s : string) : Js.trim (Js.trim s) = Js.trim s.
Proof.
  unfold Js.trim. destruct (trimStart_head s) as [E|(a & t & E & Ha)]; rewrite E.
  - reflexivity.
  - destruct (trimEnd_head a t Ha) as [u Hu]. rewrite Hu.
    simpl Js.trimStart. rewrite Ha. rewrite <- Hu. apply trimEnd_idempotent.
Qed.

Lemma string_eqb_eq (a b : string) : String.eqb a b = true <-> a = b.
Proof. apply String.eqb_eq. Qed.

End StringFacts.

(** ** The insertion-ordered map *)

Section MapFacts.
Context {V : Type}.

Lemma get_set_same (m : JsMap.t V) (k : string) (v : V) :
  JsMap.get (JsMap.set m k v) k = Some v.
Proof.
  induction m as [|[k' v'] m IH]; simpl.
  - rewrite String.eqb_refl. reflexivity.
  - destruct (String.eqb k' k) eqn:E; simpl; rewrite E; auto.
Qed.

Lemma get_set_other (m : JsMap.t V) (k k' : string) (v : V) :
  k <> k' -> JsMap.get (JsMap.set m k v) k' = JsMap.get m k'.
Proof.
  intros Hne. induction m as [|[k0 v0] m IH]; simpl.
  - destruct (String.eqb k k') eqn:E; [apply String.eqb_eq in E; contradiction|].
    reflexivity.
  - destruct (String.eqb k0 k) eqn:E; simpl.
    + apply String.eqb_eq in E; subst k0.
      destruct (String.eqb k k') eqn:E'; [apply String.eqb_eq in E'; contradiction|].
      reflexivity.
    + rewrite IH. reflexivity.
Qed.

Lemma keys_set_present (m : JsMap.t V) (k : string) (v v0 : V) :
  JsMap.get m k = Some v0 -> JsMap.keys (JsMap.set m k v) = JsMap.keys m.
Proof.
  induction m as [|[k' v'] m IH]; simpl; [discriminate|].
  destruct (String.eqb k' k) eqn:E; simpl; [reflexivity|].
  intros H. f_equal. apply IH, H.
Qed.

Lemma keys_set_absent (m : JsMap.t V) (k : string) (v : V) :
  JsMap.get m k = None -> JsMap.keys (JsMap.set m k v) = app (JsMap.keys m) [k].
Proof.
  induction m as [|[k' v'] m IH]; simpl; [reflexivity|].
  destruct (String.eqb k' k) eqn:E; simpl; [discriminate|].
  intros H. f_equal. apply IH, H.
Qed.

Lemma get_none_not_in (m : JsMap.t V) (k : string) :
  JsMap.get m k = None <-> ~ In k (JsMap.keys m).
Proof.
  induction m as [|[k' v'] m IH]; simpl.
  - split; auto.
  - destruct (String.eqb k' k) eqn:E.
    + apply String.eqb_eq in E. split; [discriminate|]. intros H; exfalso; auto.
    + apply String.eqb_neq in E. rewrite IH. split.
      * intros H [H'|H']; auto.
      * intros H H'; auto.
Qed.

Lemma get_some_in (m : JsMap.t V) (k : string) (v : V) :
  JsMap.get m k = Some v -> In (k, v) m.
Proof.
  induction m as [|[k' v'] m IH]; simpl; [discriminate|].
  destruct (String.eqb k' k) eqn:E.
  - apply String.eqb_eq in E; subst. intros H; inversion H; auto.
  - auto.
Qed.

Lemma in_get_some (m : JsMap.t V) (k : string) (v : V) :
  NoDup (JsMap.keys m) -> In (k, v) m -> JsMap.get m k = Some v.
Proof.
  induction m as [|[k' v'] m IH]; simpl; [contradiction|].
  intros Hnd [H|H].
  - inversion H; subst. rewrite String.eqb_refl. reflexivity.
  - inversion Hnd; subst. destruct (String.eqb k' k) eqn:E.
    + apply String.eqb_eq in E; subst k'. exfalso. apply H2.
      change k with (fst (k, v)). apply in_map, H.
    + auto.
Qed.

Lemma nodup_keys_set (m : JsMap.t V) (k : string) (v : V) :
  NoDup (JsMap.keys m) -> NoDup (JsMap.keys (JsMap.set m k v)).
Proof.
  intros Hnd. destruct (JsMap.get m k) as [v0|] eqn:E.
  - erewrite keys_set_present; eauto.
  - rewrite keys_set_absent by exact E.
    apply get_none_not_in in E.
    apply NoDup_app; auto.
    + constructor; [simpl; auto | constructor].
    + intros x Hx [Hk|[]]. subst. auto.
Qed.

Lemma in_keys_set (m : JsMap.t V) (k k' : string) (v : V) :
  In k' (JsMap.keys (JsMap.set m k v)) <-> k' = k \/ In k' (JsMap.keys m).
Proof.
  destruct (JsMap.get m k) as [v0|] eqn:E.
  - erewrite keys_set_present; eauto. split; auto.
    intros [H|H]; auto. subst.
    apply get_some_in in E. change k with (fst (k, v0)). apply in_map, E.
  - rewrite keys_set_absent by exact E. rewrite in_app_iff. simpl.
    split; intros H; intuition auto.
Qed.

End MapFacts.

(** ** dedupeProvisions *)

Section DedupeFacts.
Import BuildDb Spec.

Lemma token_with_ref (p : ProvisionSeed) : token (with_ref p (token p)) = token p.
Proof. unfold token; simpl. apply trim_idempotent. Qed.

Lemma token_with_title (p : ProvisionSeed) (t : option string) :
  token (with_title p t) = token p.
Proof. reflexivity. Qed.

Lemma body_length_with_title (p : ProvisionSeed) (t : option string) :
  body_length (with_title p t) = body_length p.
Proof. reflexivity. Qed.

Lemma body_length_with_ref (p : ProvisionSeed) (r : string) :
  body_length (with_ref p r) = body_length p.
Proof. reflexivity. Qed.

Lemma pick_cases (existing incoming : ProvisionSeed) :
  (body_length existing < body_length incoming
   /\ pickPreferredProvision existing incoming
      = with_title incoming (nullish (title incoming) (title existing)))
  \/ (body_length incoming <= body_length existing
      /\ pickPreferredProvision existing incoming
         = with_title existing (nullish (title existing) (title incoming))).
Proof.
  unfold pickPreferredProvision, body_length.
  destruct (Nat.ltb_spec (String.length (normalizeWhitespace (content existing)))
                         (String.length (normalizeWhitespace (content incoming))));
    [left | right]; split; auto.
Qed.

(** The map of [dedupeProvisions], seen from one key. *)
Lemma dedupe_step_get (m : JsMap.t ProvisionSeed) (st : ProvisionDedupStats)
      (p : ProvisionSeed) (k : string) :
  JsMap.get (fst (dedupe_step (m, st) p)) k = merge k (JsMap.get m k) p.
Proof.
  unfold dedupe_step, merge. fold (token p).
  destruct (String.eqb (token p) k) eqn:E.
  - apply String.eqb_eq in E; subst k.
    destruct (JsMap.get m (token p)); simpl; apply get_set_same.
  - apply String.eqb_neq in E.
    destruct (JsMap.get m (token p)); simpl; apply get_set_other; auto.
Qed.

Lemma dedupe_fold_get (l : list ProvisionSeed) (acc : JsMap.t ProvisionSeed * ProvisionDedupStats)
      (k : string) :
  JsMap.get (fst (fold_left dedupe_step l acc)) k
  = fold_left (merge k) l (JsMap.get (fst acc) k).
Proof.
  revert acc. induction l as [|p l IH]; intros [m st]; cbn [fold_left fst];
    [reflexivity|].
  rewrite IH. f_equal.
  destruct (dedupe_step (m, st) p) as [m' st'] eqn:E.
  change m' with (fst (m', st')). rewrite <- E. apply dedupe_step_get.
Qed.

Lemma dedupe_step_keys (m : JsMap.t ProvisionSeed) (st : ProvisionDedupStats)
      (p : ProvisionSeed) :
  NoDup (JsMap.keys m) ->
  NoDup (JsMap.keys (fst (dedupe_step (m, st) p)))
  /\ forall r, In r (JsMap.keys (fst (dedupe_step (m, st) p)))
               <-> r = token p \/ In r (JsMap.keys m).
Proof.
  intros Hnd. unfold dedupe_step. fold (token p).
  destruct (JsMap.get m (token p)); simpl;
    (split; [apply nodup_keys_set, Hnd | intros r; apply in_keys_set]).
Qed.

Lemma dedupe_fold_keys (l : list ProvisionSeed)
      (acc : JsMap.t ProvisionSeed * ProvisionDedupStats) :
  NoDup (JsMap.keys (fst acc)) ->
  NoDup (JsMap.keys (fst (fold_left dedupe_step l acc)))
  /\ forall r, In r (JsMap.keys (fst (fold_left dedupe_step l acc)))
               <-> In r (map token l) \/ In r (JsMap.keys (fst acc)).
Proof.
  revert acc. induction l as [|p l IH]; intros [m st] Hnd; cbn [fold_left map fst].
  - cbn [fst] in Hnd. split; auto. intros r; split; auto. intros [[]|H]; auto.
  - cbn [fst] in Hnd. destruct (dedupe_step_keys m st p Hnd) as [Hnd' Hk].
    destruct (dedupe_step (m, st) p) as [m' st'] eqn:E. cbn [fst] in Hnd', Hk.
    destruct (IH (m', st') Hnd') as [H1 H2]. split; auto.
    intros r. rewrite H2. cbn [fst In]. rewrite Hk. intuition auto.
Qed.

(** Every stored provision sits under its own token. *)
Lemma merge_token (k : string) (l : list ProvisionSeed) (acc : option ProvisionSeed) (s : ProvisionSeed) :
  (forall e, acc = Some e -> token e = k) ->
  fold_left (merge k) l acc = Some s -> token s = k.
Proof.
  revert acc. induction l as [|p l IH]; intros acc Hacc H; simpl in H; auto.
  apply IH in H; auto.
  intros e He. unfold merge in He.
  destruct (String.eqb (token p) k) eqn:E; auto.
  apply String.eqb_eq in E. inversion He; subst e; clear He.
  destruct acc as [e0|].
  - destruct (pick_cases e0 p) as [[_ Hp]|[_ Hp]]; rewrite Hp, token_with_title; auto.
  - rewrite <- E at 1. rewrite token_with_ref. exact E.
Qed.

(** The longer body wins and a tie keeps the first seen: the survivor of a
    token carries the body of the first provision of that token whose
    normalized body has the greatest length. *)
Lemma merge_longest (k : string) (l : list ProvisionSeed) :
  forall e s,
    fold_left (merge k) l (Some e) = Some s ->
    (content s = content e
     /\ forall x, In x l -> token x = k -> body_length x <= body_length e)
    \/ exists pre p post,
         l = app pre (p :: post) /\ token p = k /\ content s = content p
         /\ body_length e < body_length p
         /\ (forall x, In x pre -> token x = k -> body_length x < body_length p)
         /\ (forall x, In x post -> token x = k -> body_length x <= body_length p).
Proof.
  induction l as [|x l IH]; intros e s H; simpl in H.
  - inversion H; subst. left. split; auto. intros x [].
  - unfold merge at 2 in H. destruct (String.eqb (token x) k) eqn:E.
    + apply String.eqb_eq in E.
      destruct (pick_cases e x) as [[Hlt Hp]|[Hle Hp]]; rewrite Hp in H;
        apply IH in H; rewrite body_length_with_title in H; simpl content in H.
      * right. destruct H as [[Hc Hall]|(pre & p & post & Hl & Hk & Hc & Hlt' & Hpre & Hpost)].
        -- exists [], x, l. repeat split; auto. intros y [].
        -- exists (x :: pre), p, post. subst l. repeat split; auto; try lia.
           intros y [Hy|Hy] Hyk; [subst y; lia | auto].
      * destruct H as [[Hc Hall]|(pre & p & post & Hl & Hk & Hc & Hlt' & Hpre & Hpost)].
        -- left. split; auto. intros y [Hy|Hy] Hyk; [subst y; lia | auto].
        -- right. exists (x :: pre), p, post. subst l. repeat split; auto.
           intros y [Hy|Hy] Hyk; [subst y; lia | auto].
    + apply String.eqb_neq in E. apply IH in H.
      destruct H as [[Hc Hall]|(pre & p & post & Hl & Hk & Hc & Hlt' & Hpre & Hpost)].
      * left. split; auto. intros y [Hy|Hy] Hyk; [subst y; contradiction | auto].
      * right. exists (x :: pre), p, post. subst l. repeat split; auto.
        intros y [Hy|Hy] Hyk; [subst y; contradiction | auto].
Qed.

Lemma merge_first (k : string) (l : list ProvisionSeed) (s : ProvisionSeed) :
  fold_left (merge k) l None = Some s ->
  exists pre p post,
    l = app pre (p :: post) /\ token p = k /\ content s = content p
    /\ (forall x, In x pre -> token x = k -> body_length x < body_length p)
    /\ (forall x, In x post -> token x = k -> body_length x <= body_length p).
Proof.
  induction l as [|x l IH]; intros H; simpl in H; [discriminate|].
  unfold merge at 2 in H. destruct (String.eqb (token x) k) eqn:E.
  - apply String.eqb_eq in E. apply merge_longest in H.
    rewrite body_length_with_ref in H. simpl content in H.
    destruct H as [[Hc Hall]|(pre & p & post & Hl & Hk & Hc & Hlt' & Hpre & Hpost)].
    + exists [], x, l. repeat split; auto. intros y [].
    + exists (x :: pre), p, post. subst l. repeat split; auto.
      intros y [Hy|Hy] Hyk; [subst y; lia | auto].
  - apply String.eqb_neq in E. apply IH in H.
    destruct H as (pre & p & post & Hl & Hk & Hc & Hpre & Hpost).
    exists (x :: pre), p, post. subst l. repeat split; auto.
    intros y [Hy|Hy] Hyk; [subst y; contradiction | auto].
Qed.

Lemma dedupe_values (provisions : list ProvisionSeed) :
  fst (dedupeProvisions provisions)
  = JsMap.values (fst (fold_left dedupe_step provisions
                         ([], {| duplicate_refs := 0; conflicting_duplicates := 0 |}))).
Proof.
  unfold dedupeProvisions. destruct (fold_left dedupe_step provisions _); reflexivity.
Qed.

(** [dedupeProvisions] keeps exactly one provision for every reference token
    of its input, with the body of the first provision of that token whose
    normalized body is longest.  For two provisions of one token the title of
    the survivor is [winner.title ?? other.title]. *)
Lemma dedupe_one_per_token :
  (forall provisions,
     let deduped := fst (dedupeProvisions provisions) in
     NoDup (map token deduped)
     /\ (forall r, In r (map token provisions) <-> In r (map token deduped))
     /\ (forall s, In s deduped ->
           exists pre p post,
             provisions = app pre (p :: post)
             /\ token p = token s /\ content s = content p
             /\ (forall x, In x pre -> token x = token s ->
                   body_length x < body_length p)
             /\ (forall x, In x post -> token x = token s ->
                   body_length x <= body_length p)))
  /\ (forall existing incoming,
        token existing = token incoming ->
        exists s,
          fst (dedupeProvisions [existing; incoming]) = [s]
          /\ (body_length existing < body_length incoming ->
                content s = content incoming
                /\ title s = nullish (title incoming) (title existing))
          /\ (body_length incoming <= body_length existing ->
                content s = content existing
                /\ title s = nullish (title existing) (title incoming))).
Proof.
  split.
  - intros provisions deduped. subst deduped. rewrite dedupe_values.
    set (init := (@nil (string * ProvisionSeed),
                  {| duplicate_refs := 0; conflicting_duplicates := 0 |})).
    destruct (dedupe_fold_keys provisions init) as [Hnd Hkeys]; [constructor|].
    set (m := fst (fold_left dedupe_step provisions init)) in *.
    assert (Hget : forall k s, In (k, s) m ->
              fold_left (merge k) provisions None = Some s).
    { intros k s Hin. apply in_get_some in Hin; auto.
      unfold m in Hin. rewrite dedupe_fold_get in Hin. exact Hin. }
    assert (Htok : forall k s, In (k, s) m -> token s = k).
    { intros k s Hin. apply Hget in Hin. eapply merge_token; eauto. discriminate. }
    assert (Hmap : map token (JsMap.values m) = JsMap.keys m).
    { unfold JsMap.values, JsMap.keys. rewrite map_map.
      apply map_ext_in. intros [k s] Hin. simpl. apply Htok, Hin. }
    rewrite Hmap. split; [exact Hnd|]. split.
    + intros r. rewrite Hkeys. simpl. intuition auto.
    + intros s Hs. unfold JsMap.values in Hs. apply in_map_iff in Hs.
      destruct Hs as ([k s'] & Hs' & Hin). simpl in Hs'; subst s'.
      rewrite (Htok k s Hin). apply merge_first. apply Hget, Hin.
  - intros existing incoming Htok.
    assert (E : fst (dedupeProvisions [existing; incoming])
                = [pickPreferredProvision (with_ref existing (token existing))
                                          incoming]).
    { unfold dedupeProvisions. cbn [fold_left].
      unfold dedupe_step. fold (token existing). fold (token incoming).
      cbn [JsMap.get JsMap.set]. rewrite <- Htok.
      cbn [JsMap.get JsMap.set]. rewrite String.eqb_refl. reflexivity. }
    rewrite E. eexists; split; [reflexivity|].
    destruct (pick_cases (with_ref existing (token existing)) incoming)
      as [[Hlt Hp]|[Hle Hp]]; rewrite Hp; rewrite body_length_with_ref in *;
      simpl; split; intros H; try lia; auto.
Qed.

(** C3 at the failing input.  The article parsers give a provision without
    heading the title [""], the empty string, and the seed files keep it.
    Here article 1 was extracted twice, once with the heading Oggetto and a
    short body, once without heading and with the longer body.  The longer
    body wins and the survivor has the empty title, whichever of the two came
    first: the heading Oggetto is lost.  It is lost on a tie as well, when
    the incumbent is the one without heading.  The heading of the other side
    is taken only when the winner has no title field at all. *)
Theorem dedupeProvisions_empty_heading_kept :
  let headed :=
    Ingest.to_seed {| Parser.provision_ref := "art1"; Parser.section := "1";
                      Parser.title := "Oggetto";
                      Parser.content := "Il trattamento." |} in
  let bare :=
    Ingest.to_seed {| Parser.provision_ref := "art1"; Parser.section := "1";
                      Parser.title := "";
                      Parser.content := "Il trattamento dei dati personali." |} in
  let tied :=
    Ingest.to_seed {| Parser.provision_ref := "art1"; Parser.section := "1";
                      Parser.title := "Oggetto";
                      Parser.content := "Il trattamento dei dati  personali!" |} in
  title bare = Some EmptyString
  /\ fst (dedupeProvisions [headed; bare]) = [bare]
  /\ fst (dedupeProvisions [bare; headed]) = [bare]
  /\ fst (dedupeProvisions [bare; tied]) = [bare]
  /\ fst (dedupeProvisions [headed; with_title bare None])
     = [with_title bare (Some "Oggetto")].
Proof. repeat split; vm_compute; reflexivity. Qed.

End DedupeFacts.

(** ** normalizeEuYear *)

Section EuYearFacts.
Import BuildDb Spec.

Lemma digit_char_is_digit (d : nat) : d < 10 -> Js.is_digit (digit_char d) = true.
Proof.
  intros H. do 10 (destruct d as [|d]; [reflexivity|]). lia.
Qed.

Lemma digit_char_value (d : nat) : d < 10 -> Js.digit_value (digit_char d) = Z.of_nat d.
Proof.
  intros H. do 10 (destruct d as [|d]; [reflexivity|]). lia.
Qed.

Lemma digit_char_not_space (d : nat) : d < 10 -> Js.is_space (digit_char d) = false.
Proof.
  intros H. do 10 (destruct d as [|d]; [reflexivity|]). lia.
Qed.

Lemma digit_char_not_sign (d : nat) :
  d < 10 -> digit_char d <> "-"%char /\ digit_char d <> "+"%char.
Proof.
  intros H. do 10 (destruct d as [|d]; [split; discriminate|]). lia.
Qed.

Lemma digits_value_digit_string (ds : list nat) (acc : Z) :
  Forall (fun d => d < 10) ds ->
  Js.digits_value acc (digit_string ds)
  = fold_left (fun acc d => (10 * acc + Z.of_nat d)%Z) ds acc.
Proof.
  intros H. revert acc.
  induction H as [|d ds Hd _ IH]; intros acc;
    cbn [digit_string Js.digits_value fold_left]; [reflexivity|].
  rewrite digit_char_is_digit, digit_char_value by exact Hd. apply IH.
Qed.

Lemma length_digit_string (ds : list nat) :
  String.length (digit_string ds) = List.length ds.
Proof.
  induction ds as [|d ds IH]; cbn [digit_string String.length List.length];
    auto.
Qed.

Lemma decimal_bound (ds : list nat) :
  Forall (fun d => d < 10) ds ->
  (0 <= decimal ds < 10 ^ Z.of_nat (List.length ds))%Z.
Proof.
  unfold decimal. intros H.
  assert (G : forall acc, (0 <= acc)%Z ->
            (0 <= fold_left (fun acc d => 10 * acc + Z.of_nat d) ds acc
             < (acc + 1) * 10 ^ Z.of_nat (List.length ds))%Z).
  { induction H as [|d ds Hd _ IH]; intros acc Hacc; cbn [fold_left List.length].
    - rewrite Z.pow_0_r. lia.
    - specialize (IH (10 * acc + Z.of_nat d)%Z ltac:(lia)).
      rewrite Nat2Z.inj_succ, Z.pow_succ_r by lia.
      nia. }
  specialize (G 0%Z ltac:(lia)). lia.
Qed.

(** A natural number below 2^53 is a double. *)
Lemma to_double_small (z : Z) : (z < 2 ^ 53)%Z -> Js.to_double z = z.
Proof.
  intros H. unfold Js.to_double.
  destruct (Z.ltb_spec z (2 ^ 53)); [reflexivity | lia].
Qed.

Lemma to_double_nonneg (z : Z) : (0 <= z)%Z -> (0 <= Js.to_double z)%Z.
Proof.
  intros H. unfold Js.to_double.
  destruct (Z.ltb_spec z (2 ^ 53)); [exact H|]. cbv zeta.
  match goal with |- context [if ?b then (2 ^ 1024)%Z else ?v] =>
    assert (V : (0 <= v)%Z); [|destruct b; [apply Z.pow_nonneg; lia | exact V]]
  end.
  apply Z.shiftl_nonneg.
  assert (Q : (0 <= Z.shiftr z (Z.log2 z - 52))%Z) by (apply Z.shiftr_nonneg, H).
  destruct (_ || _); lia.
Qed.

Lemma parseInt_digit_string_double (ds : list nat) :
  Forall (fun d => d < 10) ds -> ds <> [] ->
  Js.parseInt (digit_string ds) = Js.Num (Js.to_double (decimal ds)).
Proof.
  intros H Hne. destruct ds as [|d ds]; [contradiction|].
  inversion H as [|? ? Hd Hds]; subst.
  unfold Js.parseInt. cbn [digit_string Js.trimStart].
  rewrite (digit_char_not_space d Hd).
  destruct (digit_char_not_sign d Hd) as [Hm Hp].
  assert (E : Js.starts_with_digit (String (digit_char d) (digit_string ds)) = true)
    by (cbn [Js.starts_with_digit]; apply digit_char_is_digit, Hd).
  assert (V : Js.digits_value 0 (String (digit_char d) (digit_string ds))
              = decimal (d :: ds))
    by (apply (digits_value_digit_string (d :: ds) 0%Z H)).
  destruct (digit_char d) as [b0 b1 b2 b3 b4 b5 b6 b7] eqn:Ed.
  destruct b0, b1, b2, b3, b4, b5, b6, b7;
    try (exfalso; apply Hm; reflexivity); try (exfalso; apply Hp; reflexivity);
    rewrite E, V; reflexivity.
Qed.

(** A number written with at most 15 digits is read exactly. *)
Lemma decimal_small (ds : list nat) :
  Forall (fun d => d < 10) ds -> List.length ds <= 15 ->
  (0 <= decimal ds < 10 ^ 15)%Z /\ Js.to_double (decimal ds) = decimal ds.
Proof.
  intros H L. pose proof (decimal_bound ds H) as B.
  assert (P : (10 ^ Z.of_nat (List.length ds) <= 10 ^ 15)%Z)
    by (apply Z.pow_le_mono_r; lia).
  split; [lia|]. apply to_double_small.
  assert (T : (10 ^ 15 < 2 ^ 53)%Z) by reflexivity. lia.
Qed.

Lemma parseInt_digit_string (ds : list nat) :
  Forall (fun d => d < 10) ds -> ds <> [] -> List.length ds <= 15 ->
  Js.parseInt (digit_string ds) = Js.Num (decimal ds).
Proof.
  intros H Hne L. rewrite (parseInt_digit_string_double ds H Hne).
  destruct (decimal_small ds H L) as [_ ->]. reflexivity.
Qed.

(** C7.  A year token is two to four decimal digits.  [normalizeEuYear] maps a
    token of two digits with value v to 1900 + v when v >= 50 and to 2000 + v
    when v < 50, and a longer token to its value; "16" gives 2016 and "96"
    gives 1996. *)
Theorem normalizeEuYear_pivot (ds : list nat) :
  Forall (fun d => d < 10) ds ->
  2 <= List.length ds <= 4 ->
  let v := decimal ds in
  (List.length ds = 2 -> (50 <= v)%Z ->
     normalizeEuYear (digit_string ds) = (1900 + v)%Z)
  /\ (List.length ds = 2 -> (v < 50)%Z ->
        normalizeEuYear (digit_string ds) = (2000 + v)%Z)
  /\ (2 < List.length ds -> normalizeEuYear (digit_string ds) = v)
  /\ normalizeEuYear "16" = 2016%Z
  /\ normalizeEuYear "96" = 1996%Z.
Proof.
  intros Hd Hlen v.
  assert (Hne : ds <> []) by (destruct ds; simpl in Hlen; [lia | discriminate]).
  unfold normalizeEuYear.
  rewrite (parseInt_digit_string ds Hd Hne ltac:(lia)).
  rewrite length_digit_string. fold v.
  repeat split.
  - intros H2 Hv. rewrite H2. simpl.
    destruct (Z.leb_spec 50 v); [reflexivity | lia].
  - intros H2 Hv. rewrite H2. simpl.
    destruct (Z.leb_spec 50 v); [lia | reflexivity].
  - intros H3. destruct (Nat.eqb_spec (List.length ds) 2); [lia | reflexivity].
Qed.

(** The theorem at the tokens "16", "96" and "2016". *)
Lemma normalizeEuYear_pivot_witness :
  normalizeEuYear (digit_string [9; 6]) = 1996%Z
  /\ normalizeEuYear (digit_string [1; 6]) = 2016%Z
  /\ normalizeEuYear (digit_string [2; 0; 1; 6]) = 2016%Z.
Proof.
  assert (D : forall ds, forallb (fun d => (d <? 10)%nat) ds = true ->
                         Forall (fun d => d < 10) ds).
  { intros ds H. apply Forall_forall. intros d Hd.
    rewrite forallb_forall in H. apply Nat.ltb_lt, H, Hd. }
  split; [|split].
  - destruct (normalizeEuYear_pivot [9; 6]) as (H & _);
      [apply D; reflexivity | simpl; lia |].
    apply H; [reflexivity | vm_compute; discriminate].
  - destruct (normalizeEuYear_pivot [1; 6]) as (_ & H & _);
      [apply D; reflexivity | simpl; lia |].
    apply H; reflexivity.
  - destruct (normalizeEuYear_pivot [2; 0; 1; 6]) as (_ & _ & H & _);
      [apply D; reflexivity | simpl; lia |].
    apply H. simpl; lia.
Defined.

End EuYearFacts.

(** ** The ingestion orchestrator *)

Section IngestFacts.
Import Ingest Spec.

Variable parseArticleHtml : string -> option ParsedProvision.
Variable parseAttachmentArticleHtml : string -> option ParsedProvision.

Let parse := parse_article parseArticleHtml parseAttachmentArticleHtml.

Lemma has_spec (seenRefs : list string) (ref : string) :
  has seenRefs ref = true <-> In ref seenRefs.
Proof.
  unfold has. rewrite existsb_exists. split.
  - intros (x & Hx & E). apply String.eqb_eq in E. subst; auto.
  - intros H. exists ref. split; auto. apply String.eqb_refl.
Qed.

Lemma parsed_articles_snoc (done : list Fetcher.ArticleFetchResult)
      (a : Fetcher.ArticleFetchResult) :
  parsed_articles parse (app done [a])
  = app (parsed_articles parse done)
        (match parse (Fetcher.a_html a) with Some p => [p] | None => [] end).
Proof.
  unfold parsed_articles. rewrite flat_map_app. cbn [flat_map].
  rewrite app_nil_r. reflexivity.
Qed.

Lemma first_of_its_ref_snoc (l tl : list ParsedProvision) (p : ParsedProvision) :
  first_of_its_ref l p -> first_of_its_ref (app l tl) p.
Proof.
  intros (pre & post & Hl & Hn). exists pre, (app post tl). split; auto.
  rewrite Hl, <- app_assoc. reflexivity.
Qed.

(** The invariant of the loop of [ingestAct]: [seenRefs] lists the references
    of [provisions], which are distinct, and every kept provision is the first
    of its reference among the articles parsed so far. *)
Lemma parse_each_inv (articles : list Fetcher.ArticleFetchResult) :
  forall done provisions seenRefs,
    seenRefs = map provision_ref provisions ->
    NoDup seenRefs ->
    (forall p, In p provisions -> first_of_its_ref (parsed_articles parse done) p) ->
    (forall q, In q (parsed_articles parse done) ->
               In (provision_ref q) seenRefs) ->
    let out := parse_each parseArticleHtml parseAttachmentArticleHtml
                          articles provisions seenRefs in
    NoDup (map provision_ref out)
    /\ (forall p, In p out ->
          first_of_its_ref (parsed_articles parse (app done articles)) p)
    /\ (forall q, In q (parsed_articles parse (app done articles)) ->
          exists p, In p out /\ provision_ref p = provision_ref q).
Proof.
  induction articles as [|a articles IH];
    intros done provisions seenRefs Hs Hnd Hfirst Hall; cbn [parse_each].
  - rewrite app_nil_r. subst seenRefs. repeat split; auto.
    intros q Hq. apply Hall in Hq. apply in_map_iff in Hq.
    destruct Hq as (p & Hp & Hin). eauto.
  - replace (app done (a :: articles)) with (app (app done [a]) articles)
      by (rewrite <- app_assoc; reflexivity).
    pose proof (parsed_articles_snoc done a) as Hdone.
    fold parse. destruct (parse (Fetcher.a_html a)) as [parsed|] eqn:E.
    + destruct (has seenRefs (provision_ref parsed)) eqn:Hhas; cbn [negb].
      * apply IH; auto.
        -- intros p Hp. rewrite Hdone. apply first_of_its_ref_snoc, Hfirst, Hp.
        -- intros q Hq. rewrite Hdone in Hq. apply in_app_iff in Hq.
           destruct Hq as [Hq|[Hq|[]]]; auto. subst q. apply has_spec, Hhas.
      * assert (Hnot : ~ In (provision_ref parsed) seenRefs).
        { intros Hin. apply has_spec in Hin. congruence. }
        apply IH.
        -- subst seenRefs. rewrite map_app. reflexivity.
        -- apply NoDup_app; auto.
           ++ constructor; [simpl; auto | constructor].
           ++ intros x Hx [Hx'|[]]. subst x. auto.
        -- intros p Hp. rewrite Hdone. apply in_app_iff in Hp.
           destruct Hp as [Hp|[Hp|[]]].
           ++ apply first_of_its_ref_snoc, Hfirst, Hp.
           ++ subst p. exists (parsed_articles parse done), []. split; [reflexivity|].
              intros Hin. apply in_map_iff in Hin.
              destruct Hin as (q & Hq & Hin). apply Hall in Hin.
              rewrite Hq in Hin. auto.
        -- intros q Hq. rewrite Hdone in Hq. apply in_app_iff in Hq.
           apply in_app_iff. destruct Hq as [Hq|[Hq|[]]]; auto.
           subst q. right. simpl; auto.
    + rewrite app_nil_r in Hdone. apply IH; auto.
      * intros p Hp. rewrite Hdone. auto.
      * intros q Hq. rewrite Hdone in Hq. auto.
Qed.

End IngestFacts.

Section IngestTheorems.
Import Ingest Spec.

Lemma set_absent {V : Type} (m : JsMap.t V) (k : string) (v : V) :
  JsMap.get m k = None -> JsMap.set m k v = app m [(k, v)].
Proof.
  induction m as [|[k' v'] m IH]; simpl; [reflexivity|].
  destruct (String.eqb k' k); [discriminate|].
  intros H. f_equal. apply IH, H.
Qed.

Lemma with_ref_same (p : BuildDb.ProvisionSeed) :
  BuildDb.with_ref p (BuildDb.provision_ref p) = p.
Proof. destruct p; reflexivity. Qed.

(** On provisions whose references are trimmed and distinct the dedup of
    build-db.ts finds nothing to merge. *)
Lemma dedupe_nothing_to_merge (l : list BuildDb.ProvisionSeed) :
  forall m st,
    (forall p, In p l -> token p = BuildDb.provision_ref p) ->
    NoDup (map BuildDb.provision_ref l) ->
    (forall p, In p l -> ~ In (BuildDb.provision_ref p) (JsMap.keys m)) ->
    fold_left BuildDb.dedupe_step l (m, st)
    = (app m (map (fun p => (BuildDb.provision_ref p, p)) l), st).
Proof.
  induction l as [|p l IH]; intros m st Htok Hnd Hfresh; cbn [fold_left map].
  - rewrite app_nil_r. reflexivity.
  - inversion Hnd as [|? ? Hp Hnd']; subst.
    assert (E : BuildDb.dedupe_step (m, st) p
                = (app m [(BuildDb.provision_ref p, p)], st)).
    { unfold BuildDb.dedupe_step. fold (token p). rewrite (Htok p) by (simpl; auto).
      assert (G : JsMap.get m (BuildDb.provision_ref p) = None)
        by (apply get_none_not_in, Hfresh; simpl; auto).
      rewrite G, with_ref_same, set_absent by exact G. reflexivity. }
    rewrite E, IH.
    + rewrite <- app_assoc. reflexivity.
    + intros q Hq. apply Htok. simpl; auto.
    + exact Hnd'.
    + intros q Hq Hin. unfold JsMap.keys in Hin. rewrite map_app in Hin.
      apply in_app_iff in Hin. destruct Hin as [Hin|[Hin|[]]].
      * apply (Hfresh q); simpl; auto.
      * simpl in Hin. apply Hp. rewrite Hin. apply in_map, Hq.
Qed.

Lemma dedupe_distinct_refs (l : list BuildDb.ProvisionSeed) :
  (forall p, In p l -> token p = BuildDb.provision_ref p) ->
  NoDup (map BuildDb.provision_ref l) ->
  BuildDb.dedupeProvisions l
  = (l, {| BuildDb.duplicate_refs := 0; BuildDb.conflicting_duplicates := 0 |}).
Proof.
  intros Htok Hnd. unfold BuildDb.dedupeProvisions.
  rewrite dedupe_nothing_to_merge; auto.
  simpl app. unfold JsMap.values. rewrite map_map. simpl. rewrite map_id.
  reflexivity.
Qed.

Lemma parsed_articles_origin (parse : string -> option ParsedProvision)
      (articles : list Fetcher.ArticleFetchResult) (p : ParsedProvision) :
  In p (parsed_articles parse articles) ->
  exists a, In a articles /\ parse (Fetcher.a_html a) = Some p.
Proof.
  unfold parsed_articles. rewrite in_flat_map. intros (a & Ha & Hp).
  exists a. split; auto.
  destruct (parse (Fetcher.a_html a)) as [q|]; [|contradiction].
  destruct Hp as [Hp|[]]. subst; reflexivity.
Qed.

(** C9.  Every seed record that [ingestAct] writes, in the census-driven
    script and in the script over the table of key laws, has status in_force,
    whatever the crawl returned: articles, no article, or an error. *)
Theorem ingestAct_status_in_force
        (parseArticleHtml parseAttachmentArticleHtml : string -> option ParsedProvision)
        (world : string -> nat -> Fetcher.outcome) (st : Fetcher.session) :
  (forall law,
     act_status (seed (snd (fst
       (ingestAct parseArticleHtml parseAttachmentArticleHtml law world st))))
     = in_force)
  /\ (forall act,
        act_status (seed (snd (fst
          (ingestAct_key_laws parseArticleHtml parseAttachmentArticleHtml
                              act world st))))
        = in_force).
Proof.
  split; intros x; unfold ingestAct, ingestAct_key_laws, ingest;
    destruct (Fetcher.fetchAllArticles _ world st) as [[[|a l]|e] st'];
    reflexivity.
Qed.

(** What [ingestAct] keeps of the fetched articles. *)
Lemma parse_articles_inv (pA pB : string -> option ParsedProvision)
      (articles : list Fetcher.ArticleFetchResult) :
  let kept := parse_articles pA pB articles in
  let parsed := parsed_articles (parse_article pA pB) articles in
  NoDup (map provision_ref kept)
  /\ (forall p, In p kept -> first_of_its_ref parsed p)
  /\ (forall q, In q parsed -> exists p, In p kept /\ provision_ref p = provision_ref q).
Proof.
  apply (parse_each_inv pA pB articles [] [] []);
    simpl; auto; [constructor | contradiction].
Qed.

(** When the parsers give references without surrounding white space, the
    dedup of build-db.ts returns the kept provisions as they are. *)
Lemma kept_not_merged (pA pB : string -> option ParsedProvision)
      (articles : list Fetcher.ArticleFetchResult) :
  (forall html p, parse_article pA pB html = Some p ->
     Js.trim (provision_ref p) = provision_ref p) ->
  BuildDb.dedupeProvisions (map to_seed (parse_articles pA pB articles))
  = (map to_seed (parse_articles pA pB articles),
     {| BuildDb.duplicate_refs := 0; BuildDb.conflicting_duplicates := 0 |}).
Proof.
  intros Htrim.
  destruct (parse_articles_inv pA pB articles) as (Hnd & Hfirst & _).
  apply dedupe_distinct_refs.
  - intros s Hs. apply in_map_iff in Hs. destruct Hs as (p & Hp & Hin). subst s.
    unfold token. simpl.
    destruct (Hfirst p Hin) as (pre & post & Hl & _).
    assert (Hp : In p (parsed_articles (parse_article pA pB) articles))
      by (rewrite Hl; apply in_app_iff; right; simpl; auto).
    apply parsed_articles_origin in Hp. destruct Hp as (a & _ & Hp).
    eapply Htrim; eauto.
  - rewrite map_map. simpl. exact Hnd.
Qed.

End IngestTheorems.

(** ** The references that the article parsers build *)

Section ParserFacts.
Import Regex Parser Spec.

Lemma trimEnd_no_space (s : string) :
  Js.forallb_string not_space s = true -> Js.trimEnd s = s.
Proof.
  induction s as [|a s IH]; simpl; [reflexivity|].
  intros H. apply andb_prop in H. destruct H as [Ha Hs].
  rewrite (IH Hs). unfold not_space in Ha.
  destruct (Js.is_space a); [discriminate|]. destruct s; reflexivity.
Qed.

Lemma trim_art (w : string) :
  Js.forallb_string not_space w = true -> Js.trim ("art" ++ w) = "art" ++ w.
Proof.
  intros H. unfold Js.trim.
  change (Js.trimStart ("art" ++ w)) with ("art" ++ w).
  apply trimEnd_no_space. simpl. exact H.
Qed.

(* A class of the pattern holds no white space: by cases on the character. *)
Ltac class_leaf :=
  let a := fresh "a" in
  intros a; destruct a as [[] [] [] [] [] [] [] []];
  vm_compute; intros; try discriminate; reflexivity.

(** The article number is made of digits, a hyphen and letters. *)
Lemma article_label_group : group_chars 1 not_space ARTICLE_LABEL.
Proof.
  cbn. repeat split; try discriminate; try (intros _); try class_leaf.
Qed.

Lemma attachment_label_group : group_chars 1 not_space ATTACHMENT_LABEL.
Proof.
  cbn. repeat split; try discriminate; try (intros _); try class_leaf.
Qed.

(** A label that matches has its article number captured. *)
Lemma article_label_captures (s rest : string) (m : caps) :
  search ARTICLE_LABEL s = Some (rest, m) ->
  exists articleNum, group m 1 = Some articleNum.
Proof.
  intros H. apply (search_sets _ _ _ _ 1 H). reflexivity.
Qed.

Lemma attachment_label_captures (s rest : string) (m : caps) :
  search ATTACHMENT_LABEL s = Some (rest, m) ->
  exists articleNum whole, group m 1 = Some articleNum /\ group m 0 = Some whole.
Proof.
  intros H.
  destruct (search_sets _ _ _ _ 1 H eq_refl) as [v1 H1].
  destruct (search_sets _ _ _ _ 0 H eq_refl) as [v0 H0].
  eauto.
Qed.

(** The two patterns on labels of the site.  The first has nothing after the
    number, so of a suffix that starts like an earlier alternative it takes
    that alternative; the second must reach the full stop. *)
Example article_labels :
  let akn := parseArticleHtml (fun html => Some html) (fun _ => "") (fun html => html) in
  let attachment :=
    parseAttachmentArticleHtml (fun html => Some html) (fun _ => "")
                               (fun raw _ => raw) in
  option_map provision_ref (akn "Art. 640-bis") = Some "art640-bis"
  /\ option_map provision_ref (akn "Art. 1-terdecies") = Some "art1-ter"
  /\ akn "Articolo 1" = None
  /\ option_map provision_ref (attachment "Art. 85. Nessuno") = Some "art85"
  /\ option_map provision_ref (attachment "Art. 1-terdecies. Testo")
     = Some "art1-terdecies"
  /\ attachment "Art. 85 Nessuno" = None.
Proof. repeat split; reflexivity. Qed.

Section Slices.
Variables (article_label : string -> option string)
          (article_heading article_content : string -> string)
          (attachment_raw : string -> option string)
          (attachment_heading : string -> string)
          (attachment_content : string -> string -> string).

Lemma parseArticleHtml_ref (html : string) (p : ParsedProvision) :
  parseArticleHtml article_label article_heading article_content html = Some p ->
  Js.trim (provision_ref p) = provision_ref p.
Proof.
  unfold parseArticleHtml.
  destruct (article_label html) as [label|]; [|discriminate].
  destruct (search ARTICLE_LABEL label) as [[rest m]|] eqn:E; [|discriminate].
  destruct (group m 1) as [w|] eqn:G; [|discriminate].
  destruct (String.length (article_content html) <? 5)%nat; [discriminate|].
  intros H. inversion H; subst p; clear H. cbn [provision_ref].
  apply trim_art.
  exact (search_group_chars _ _ _ _ _ _ _ article_label_group E G).
Qed.

Lemma parseAttachmentArticleHtml_ref (html : string) (p : ParsedProvision) :
  parseAttachmentArticleHtml attachment_raw attachment_heading attachment_content html
  = Some p ->
  Js.trim (provision_ref p) = provision_ref p.
Proof.
  unfold parseAttachmentArticleHtml.
  destruct (attachment_raw html) as [raw|]; [|discriminate].
  destruct (search ATTACHMENT_LABEL raw) as [[rest m]|] eqn:E; [|discriminate].
  destruct (group m 1) as [w|] eqn:G; [|discriminate].
  destruct (group m 0) as [whole|]; [|discriminate].
  destruct (String.length (attachment_content raw whole) <? 5)%nat; [discriminate|].
  intros H. inversion H; subst p; clear H. cbn [provision_ref].
  apply trim_art.
  exact (search_group_chars _ _ _ _ _ _ _ attachment_label_group E G).
Qed.

End Slices.

End ParserFacts.

Section FirstParseWins.
Import Ingest Spec.

Lemma filter_filter {A : Type} (f g : A -> bool) (l : list A) :
  filter f (filter g l) = filter (fun x => g x && f x) l.
Proof.
  induction l as [|x l IH]; [reflexivity|]. cbn [filter].
  destruct (g x); cbn [filter andb]; [destruct (f x)|]; rewrite IH; reflexivity.
Qed.

Lemma has_snoc (seen : list string) (r x : string) :
  has (app seen [r]) x = has seen x || String.eqb x r.
Proof.
  unfold has. rewrite existsb_app. cbn [existsb]. rewrite orb_false_r.
  reflexivity.
Qed.

(** The loop of [ingestAct] keeps the first provision of every reference
    that it has not seen. *)
Lemma parse_each_firsts
      (pA pB : string -> option ParsedProvision)
      (articles : list Fetcher.ArticleFetchResult) :
  forall provisions seenRefs,
    parse_each pA pB articles provisions seenRefs
    = app provisions
          (filter (fun q => negb (has seenRefs (provision_ref q)))
                  (Props.first_of_each_ref
                     (parsed_articles (Props.first_parse pA pB) articles))).
Proof.
  induction articles as [|a articles IH]; intros provisions seenRefs.
  - cbn. rewrite app_nil_r. reflexivity.
  - cbn [parse_each parsed_articles flat_map].
    change (parse_article pA pB (Fetcher.a_html a))
      with (Props.first_parse pA pB (Fetcher.a_html a)).
    destruct (Props.first_parse pA pB (Fetcher.a_html a)) as [p|] eqn:E.
    + cbn [app Props.first_of_each_ref filter].
      destruct (has seenRefs (provision_ref p)) eqn:Hs; cbn [negb].
      * rewrite IH. f_equal. rewrite filter_filter. apply filter_ext_in.
        intros q _.
        destruct (String.eqb (provision_ref q) (provision_ref p)) eqn:Eq;
          [|reflexivity].
        apply String.eqb_eq in Eq. rewrite Eq, Hs. reflexivity.
      * rewrite IH, <- app_assoc. cbn [app]. do 2 f_equal.
        rewrite filter_filter. apply filter_ext. intros q.
        rewrite has_snoc, negb_orb. apply andb_comm.
    + cbn [app]. apply IH.
Qed.

Lemma parse_articles_firsts
      (pA pB : string -> option ParsedProvision)
      (articles : list Fetcher.ArticleFetchResult) :
  parse_articles pA pB articles
  = Props.first_of_each_ref (parsed_articles (Props.first_parse pA pB) articles).
Proof.
  unfold parse_articles. rewrite parse_each_firsts. cbn [app].
  generalize (Props.first_of_each_ref
                (parsed_articles (Props.first_parse pA pB) articles)).
  intros l. induction l as [|x l IH]; [reflexivity|].
  cbn [filter has existsb negb] in *. f_equal. exact IH.
Qed.

(** The provisions of the seed that [ingest] writes, from what the crawl
    returned. *)
Lemma ingest_seed_provisions (pA pB : string -> option ParsedProvision)
      (ident type title date urn url : string) (number year : Z)
      (world : string -> nat -> Fetcher.outcome) (st : Fetcher.session) :
  act_provisions (seed (snd (fst
    (ingest pA pB ident type title date urn url number year world st))))
  = match fst (Fetcher.fetchAllArticles urn world st) with
    | Ok articles => parse_articles pA pB articles
    | Throw _ => []
    end.
Proof.
  unfold ingest.
  destruct (Fetcher.fetchAllArticles urn world st) as [[[|a l]|e] st'];
    reflexivity.
Qed.

(** What the seed of an act holds, for both versions of [ingestAct]. *)
Lemma seed_first_parse_wins (pA pB : string -> option ParsedProvision)
      (fetched : result (list Fetcher.ArticleFetchResult))
      (kept : list ParsedProvision) :
  kept = match fetched with
         | Ok articles => parse_articles pA pB articles
         | Throw _ => []
         end ->
  kept = match fetched with
         | Ok articles =>
             Props.first_of_each_ref
               (parsed_articles (Props.first_parse pA pB) articles)
         | Throw _ => []
         end
  /\ NoDup (map provision_ref kept)
  /\ (forall articles, fetched = Ok articles ->
        (forall p, In p kept ->
           first_of_its_ref
             (parsed_articles (Props.first_parse pA pB) articles) p)
        /\ (forall q,
              In q (parsed_articles (Props.first_parse pA pB) articles) ->
              exists p, In p kept /\ provision_ref p = provision_ref q))
  /\ ((forall html p, Props.first_parse pA pB html = Some p ->
         Js.trim (provision_ref p) = provision_ref p) ->
      BuildDb.dedupeProvisions (map to_seed kept)
      = (map to_seed kept,
         {| BuildDb.duplicate_refs := 0;
            BuildDb.conflicting_duplicates := 0 |})).
Proof.
  intros ->. destruct fetched as [articles|e].
  - destruct (parse_articles_inv pA pB articles) as (Hnd & Hfirst & Hall).
    split; [apply parse_articles_firsts|]. split; [exact Hnd|]. split.
    + intros articles' E. inversion E; subst articles'. split; assumption.
    + intros Htrim. apply kept_not_merged. exact Htrim.
  - split; [reflexivity|]. split; [constructor|]. split; [discriminate|].
    intros _. reflexivity.
Qed.

(** C10.  The provisions of the seed that [ingestAct] writes are those of the
    articles that the crawl of the act returned: every article is parsed, by
    the first parser or else by the second, and of the articles that parse
    the first of every provision_ref is kept, in the order of the crawl, and
    every later one dropped, whatever its content.  So the references of a
    seed are pairwise distinct, each kept provision is the first of its
    reference among the parsed articles, and every parsed reference is kept;
    a crawl that fails leaves a seed without provisions.  This holds for
    both versions of [ingestAct], with any two parsers.  With the parsers of
    scripts/lib/parser.ts, whose references are the letters art followed by
    the captured article number, the dedup of build-db.ts then finds no
    duplicate in a seed and returns its provisions unchanged: the rule of
    the longer body never applies. *)
Theorem ingestAct_first_parse_wins
        (parseArticleHtml parseAttachmentArticleHtml : string -> option ParsedProvision)
        (world : string -> nat -> Fetcher.outcome) (st : Fetcher.session) :
  let parse := Props.first_parse parseArticleHtml parseAttachmentArticleHtml in
  let holds := fun (urn : string) (kept : list ParsedProvision) =>
    let fetched := fst (Fetcher.fetchAllArticles urn world st) in
    kept = match fetched with
           | Ok articles =>
               Props.first_of_each_ref (parsed_articles parse articles)
           | Throw _ => []
           end
    /\ NoDup (map provision_ref kept)
    /\ (forall articles, fetched = Ok articles ->
          (forall p, In p kept ->
             first_of_its_ref (parsed_articles parse articles) p)
          /\ (forall q, In q (parsed_articles parse articles) ->
                exists p, In p kept /\ provision_ref p = provision_ref q)) in
  (forall law,
     holds (law_urn law)
           (act_provisions (seed (snd (fst
              (ingestAct parseArticleHtml parseAttachmentArticleHtml
                         law world st))))))
  /\ (forall act,
        holds (idx_urn act)
              (act_provisions (seed (snd (fst
                 (ingestAct_key_laws parseArticleHtml parseAttachmentArticleHtml
                                     act world st))))))
  /\ (forall article_label article_heading article_content
             attachment_raw attachment_heading attachment_content law,
        let provisions :=
          act_provisions (seed (snd (fst
            (ingestAct
               (Parser.parseArticleHtml article_label article_heading
                                        article_content)
               (Parser.parseAttachmentArticleHtml
                  attachment_raw attachment_heading attachment_content)
               law world st)))) in
        BuildDb.dedupeProvisions (map to_seed provisions)
        = (map to_seed provisions,
           {| BuildDb.duplicate_refs := 0; BuildDb.conflicting_duplicates := 0 |})).
Proof.
  intros parse holds. subst holds parse. cbv beta zeta.
  split; [|split].
  - intros law. unfold ingestAct.
    destruct (seed_first_parse_wins parseArticleHtml parseAttachmentArticleHtml
                _ _ (ingest_seed_provisions parseArticleHtml
                       parseAttachmentArticleHtml
                       (law_id law) (law_type law) (law_title law) (law_date law)
                       (law_urn law) (law_url law) (law_number law) (law_year law)
                       world st)) as (H1 & H2 & H3 & _).
    split; [exact H1|]. split; [exact H2 | exact H3].
  - intros act. unfold ingestAct_key_laws.
    destruct (seed_first_parse_wins parseArticleHtml parseAttachmentArticleHtml
                _ _ (ingest_seed_provisions parseArticleHtml
                       parseAttachmentArticleHtml
                       (idx_type act ++ "-" ++ num (idx_number act) ++ "-"
                        ++ num (idx_year act))
                       (idx_type act) (idx_title act) (idx_date act)
                       (idx_urn act) (idx_url act) (idx_number act) (idx_year act)
                       world st)) as (H1 & H2 & H3 & _).
    split; [exact H1|]. split; [exact H2 | exact H3].
  - intros article_label article_heading article_content
           attachment_raw attachment_heading attachment_content law.
    cbv zeta. unfold ingestAct.
    destruct (seed_first_parse_wins _ _
                _ _ (ingest_seed_provisions
                       (Parser.parseArticleHtml article_label article_heading
                                                article_content)
                       (Parser.parseAttachmentArticleHtml
                          attachment_raw attachment_heading attachment_content)
                       (law_id law) (law_type law) (law_title law) (law_date law)
                       (law_urn law) (law_url law) (law_number law) (law_year law)
                       world st)) as (_ & _ & _ & H).
    apply H. intros html p. unfold Props.first_parse.
    destruct (Parser.parseArticleHtml article_label article_heading
                article_content html) as [q|] eqn:E.
    + intros Hq. inversion Hq; subst q.
      eapply parseArticleHtml_ref; eauto.
    + apply parseAttachmentArticleHtml_ref.
Qed.

(** The theorem at a crawl that returns two pages of article 1, the later
    one longer: the seed holds the first, and the dedup of build-db.ts leaves
    it alone. *)
Lemma ingestAct_first_parse_wins_witness :
  let label := fun html : string =>
                 if Js.startsWith "<h2>Art. 1</h2>" html then Some "Art. 1"
                 else None in
  let akn := Parser.parseArticleHtml label (fun _ => "") (fun html => html) in
  let attachment :=
    Parser.parseAttachmentArticleHtml (fun _ => None) (fun _ => "")
                                      (fun raw _ => raw) in
  let law := {| law_id := "dlgs-196-2003"; law_title := "Codice Privacy";
                law_type := "dlgs"; law_number := 196; law_year := 2003;
                law_date := "2003-06-30";
                law_urn := "urn:nir:stato:decreto.legislativo:2003-06-30;196";
                law_url := "https://www.normattiva.it/" |} in
  let toc := "showArticle('/atto/caricaArticolo?art.versione=1&art.idArticolo=1&art.idSottoArticolo=1') showArticle('/atto/caricaArticolo?art.versione=1&art.idArticolo=2&art.idSottoArticolo=1')" in
  let first := "<h2>Art. 1</h2>Il presente testo unico garantisce che il trattamento dei dati personali si svolga nel rispetto dei diritti." in
  let second := "<h2>Art. 1</h2>Il presente testo unico garantisce che il trattamento dei dati personali si svolga nel rispetto dei diritti e delle liberta fondamentali." in
  let world := fun (u : string) (_ : nat) =>
    Fetcher.Responded
      {| Fetcher.resp_status := 200;
         Fetcher.resp_text :=
           if Js.includes "idArticolo=1&" u then first
           else if Js.includes "idArticolo=2&" u then second
           else toc;
         Fetcher.resp_content_type := None;
         Fetcher.resp_set_cookie := [] |} in
  let st := {| Fetcher.sessionCookies := []; Fetcher.trace := [] |} in
  let kept := act_provisions (seed (snd (fst
                (ingestAct akn attachment law world st)))) in
  map Fetcher.a_html
      match fst (Fetcher.fetchAllArticles (law_urn law) world st) with
      | Ok articles => articles
      | Throw _ => []
      end
  = [first; second]
  /\ kept = [ {| provision_ref := "art1"; section := "1"; title := "";
                 content := first |} ]
  /\ fst (BuildDb.dedupeProvisions (map to_seed kept)) = map to_seed kept.
Proof.
  intros label akn attachment law toc first second world st kept.
  destruct (ingestAct_first_parse_wins akn attachment world st)
    as (H1 & _ & H3).
  split; [vm_compute; reflexivity|]. split.
  - destruct (H1 law) as (E & _). fold kept in E. rewrite E.
    vm_compute. reflexivity.
  - unfold kept, akn, attachment. rewrite H3. reflexivity.
Defined.

End FirstParseWins.

(** ** The session client *)

Section FetchFacts.
Import Fetcher Spec.

Lemma backoffs_app (a b : list event) : backoffs (app a b) = app (backoffs a) (backoffs b).
Proof.
  induction a as [|e a IH]; simpl; [reflexivity|].
  destruct e; simpl; rewrite IH; reflexivity.
Qed.

Lemma request_count_app (a b : list event) :
  request_count (app a b) = request_count a + request_count b.
Proof.
  induction a as [|e a IH]; simpl; [reflexivity|].
  destruct e; simpl; rewrite IH; reflexivity.
Qed.

Lemma trace_capture (r : Response) (st : session) :
  trace (capture_cookies r st) = trace st.
Proof. reflexivity. Qed.

Lemma attempts_step (fuel attempt maxRetries : nat) (url : string)
      (world : nat -> outcome) (st : session) :
  attempts (S fuel) attempt maxRetries url world st
  = match world attempt with
    | Rejected reason => (Throw reason, emit (Request url (cookie_header st)) st)
    | Responded response =>
        let st1 := capture_cookies response (emit (Request url (cookie_header st)) st) in
        if transient (resp_status response) && (attempt <? maxRetries)%nat
        then attempts fuel (S attempt) maxRetries url world
                      (emit (Backoff (backoff attempt)) st1)
        else (Ok (result_of response), st1)
    end.
Proof. reflexivity. Qed.

(** The retry loop, from request number [attempt] with [budget] retries left. *)
Lemma attempts_spec (url : string) (world : nat -> outcome) (maxRetries : nat) :
  forall budget attempt st,
    attempt + budget = maxRetries ->
    let out := attempts (S budget) attempt maxRetries url world st in
    let n := retries world attempt budget in
    exists new,
      trace (snd out) = app (trace st) new
      /\ n <= budget
      /\ request_count new = S n
      /\ backoffs new = map backoff (seq attempt n)
      /\ (forall i, attempt <= i < attempt + n ->
            exists r, world i = Responded r /\ transient (resp_status r) = true)
      /\ (n < budget -> final (world (attempt + n)) = true)
      /\ match world (attempt + n) with
         | Rejected reason => fst out = Throw reason
         | Responded r => fst out = Ok (result_of r)
         end.
Proof.
  induction budget as [|budget IH]; intros attempt st Hsum out n; subst out n.
  - rewrite attempts_step. cbn [retries]. rewrite Nat.add_0_r.
    destruct (world attempt) as [reason|r] eqn:W.
    + exists [Request url (cookie_header st)]. cbn.
      repeat split; auto; intros; lia.
    + assert (E : (attempt <? maxRetries)%nat = false)
        by (apply Nat.ltb_ge; lia).
      rewrite E, andb_false_r. exists [Request url (cookie_header st)]. cbn.
      repeat split; auto; intros; lia.
  - rewrite attempts_step. cbn [retries].
    destruct (world attempt) as [reason|r] eqn:W.
    + cbn [final]. rewrite Nat.add_0_r, W.
      exists [Request url (cookie_header st)]. cbn.
      repeat split; auto; try lia; intros; lia.
    + assert (E : (attempt <? maxRetries)%nat = true)
        by (apply Nat.ltb_lt; lia).
      rewrite E, andb_true_r.
      destruct (transient (resp_status r)) eqn:T; cbn [final]; rewrite T;
        cbn [negb].
      * specialize (IH (S attempt)
                       (emit (Backoff (backoff attempt))
                          (capture_cookies r (emit (Request url (cookie_header st)) st)))).
        destruct IH as (new & Htr & Hn & Hreq & Hback & Hall & Hfin & Hres); [lia|].
        exists (Request url (cookie_header st) :: Backoff (backoff attempt) :: new).
        replace (attempt + S (retries world (S attempt) budget))
          with (S attempt + retries world (S attempt) budget) by lia.
        split; [|split; [|split; [|split; [|split; [|split]]]]].
        -- rewrite Htr. cbn [emit trace capture_cookies].
           rewrite <- !app_assoc. reflexivity.
        -- lia.
        -- cbn [request_count]. rewrite Hreq. reflexivity.
        -- cbn [backoffs seq map]. rewrite Hback. reflexivity.
        -- intros i Hi. destruct (Nat.eq_dec i attempt) as [->|Hne]; [eauto|].
           apply Hall. lia.
        -- intros Hlt. apply Hfin. lia.
        -- exact Hres.
      * rewrite Nat.add_0_r, W. exists [Request url (cookie_header st)]. cbn.
        rewrite T.
        repeat split; auto; try lia; intros; lia.
Qed.

End FetchFacts.

Section FetchTheorems.
Import Fetcher Spec.

Lemma transient_spec (code : nat) :
  transient code = true <-> code = 429 \/ 500 <= code.
Proof.
  unfold transient. rewrite orb_true_iff, Nat.eqb_eq, Nat.leb_le. reflexivity.
Qed.

Lemma retries_final (world : nat -> outcome) (attempt budget : nat) :
  final (world attempt) = true -> retries world attempt budget = 0.
Proof. intros H. destruct budget; simpl; [|rewrite H]; reflexivity. Qed.

Lemma retries_exhausted (world : nat -> outcome) (budget : nat) :
  forall attempt,
    (forall i, attempt <= i < attempt + budget -> final (world i) = false) ->
    retries world attempt budget = budget.
Proof.
  induction budget as [|budget IH]; intros attempt H; simpl; [reflexivity|].
  rewrite H by lia. f_equal. apply IH. intros i Hi. apply H. lia.
Qed.

Lemma backoff_doubles (i : nat) : backoff (S i) = 2 * backoff i.
Proof.
  unfold backoff. replace (S i + 1) with (S (i + 1)) by lia.
  rewrite Nat.pow_succ_r'. lia.
Qed.

(** C4 (as amended).  [fetchWithSession] asks again only after a response
    with status 429 or at least 500, at most [maxRetries] times (3 for every
    caller), and waits 2000 ms before the first retry and twice the previous
    delay before each later one.  A response with any other status is handed
    to the caller as it is after one request.  When the retries are used up on
    such statuses the last response is handed to the caller as a normal
    result that carries its status; the call throws only when a request is
    rejected by the network.  It is [fetchAllArticles] that throws when the
    status of the landing page is not 200, and that drops an article whose
    fetch threw or whose status is not 200. *)
Theorem fetchWithSession_retry :
  (forall url maxRetries world st,
     let out := fetchWithSession url maxRetries world st in
     let n := retries world 0 maxRetries in
     (exists new,
        trace (snd out) = app (trace st) (RateLimit :: new)
        /\ request_count new = S n
        /\ backoffs new = map backoff (seq 0 n))
     /\ n <= maxRetries
     /\ backoff 0 = 2000
     /\ (forall i, backoff (S i) = 2 * backoff i)
     /\ (forall i, i < n ->
           exists r, world i = Responded r
                     /\ (resp_status r = 429 \/ 500 <= resp_status r))
     /\ (forall r, world 0 = Responded r ->
           resp_status r <> 429 -> resp_status r < 500 ->
           n = 0 /\ fst out = Ok (result_of r))
     /\ (forall reason, world n = Rejected reason -> fst out = Throw reason)
     /\ (forall r, world n = Responded r -> fst out = Ok (result_of r))
     /\ ((forall i, i <= maxRetries ->
            exists r, world i = Responded r
                      /\ (resp_status r = 429 \/ 500 <= resp_status r)) ->
         n = maxRetries
         /\ exists r, world maxRetries = Responded r
                      /\ fst out = Ok (result_of r)
                      /\ (status (result_of r) = 429 \/ 500 <= status (result_of r))))
  /\ (forall urn world st landing,
        fst (fetchWithSession (BASE_URL ++ "/uri-res/N2Ls?" ++ urn) 3
               (world (BASE_URL ++ "/uri-res/N2Ls?" ++ urn))
               {| sessionCookies := []; trace := trace st |}) = Ok landing ->
        status landing <> 200 ->
        fst (fetchAllArticles urn world st)
        = Throw ("Landing page returned HTTP "
                 ++ Js.number_to_string (Js.Num (Z.of_nat (status landing)))))
  /\ (forall world u st,
        (forall r, fst (fetchWithSession u 3 (world u) st) = Ok r -> status r <> 200) ->
        fst (fetch_article world u st) = None).
Proof.
  split; [|split].
  - intros url maxRetries world st out n.
    destruct (attempts_spec url world maxRetries maxRetries 0 (emit RateLimit st) eq_refl)
      as (new & Htr & Hn & Hreq & Hback & Hall & Hfin & Hres).
    fold n in Hn, Hreq, Hback, Hall, Hfin, Hres. cbn [Nat.add] in Hall, Hfin, Hres.
    change (attempts (S maxRetries) 0 maxRetries url world (emit RateLimit st))
      with out in Htr, Hres.
    split; [|split; [|split; [|split; [|split; [|split; [|split; [|split]]]]]]].
    + exists new. cbn [emit trace] in Htr. rewrite Htr, <- app_assoc. auto.
    + exact Hn.
    + reflexivity.
    + apply backoff_doubles.
    + intros i Hi. destruct (Hall i) as (r & Hr & Ht); [lia|].
      exists r. split; auto. apply transient_spec, Ht.
    + intros r W H429 H500.
      assert (F : final (world 0) = true).
      { rewrite W. cbn. destruct (transient (resp_status r)) eqn:T; auto.
        apply transient_spec in T. lia. }
      assert (N0 : n = 0) by (apply retries_final, F).
      split; auto. rewrite N0, W in Hres. exact Hres.
    + intros reason W. rewrite W in Hres. exact Hres.
    + intros r W. rewrite W in Hres. exact Hres.
    + intros Hall'.
      assert (N : n = maxRetries).
      { apply retries_exhausted. intros i Hi.
        destruct (Hall' i) as (r & Hr & Ht); [lia|].
        rewrite Hr. cbn. apply transient_spec in Ht. rewrite Ht. reflexivity. }
      split; auto. destruct (Hall' maxRetries) as (r & Hr & Ht); [lia|].
      exists r. rewrite N, Hr in Hres. auto.
  - intros urn world st landing H Hne. unfold fetchAllArticles.
    destruct (fetchWithSession _ 3 _ _) as [[l|e] st']; cbn [fst] in H;
      [|discriminate].
    inversion H; subst l.
    destruct (Nat.eqb_spec (status landing) 200); [contradiction|]. reflexivity.
  - intros world u st H. unfold fetch_article.
    destruct (fetchWithSession u 3 (world u) st) as [[r|e] st']; [|reflexivity].
    specialize (H r eq_refl).
    destruct (Nat.eqb_spec (status r) 200); [contradiction|]. reflexivity.
Qed.

(** The theorem at a landing page that answers 503 to the first request and
    to each of the three retries. *)
Lemma fetchWithSession_retry_witness :
  let r503 := {| resp_status := 503; resp_text := "Service Unavailable";
                 resp_content_type := Some "text/html"; resp_set_cookie := [] |} in
  let st0 := {| sessionCookies := []; trace := [] |} in
  retries (fun _ => Responded r503) 0 3 = 3
  /\ fst (fetchWithSession "https://www.normattiva.it/uri-res/N2Ls?urn:nir:stato:legge:2012;190"
            3 (fun _ => Responded r503) st0) = Ok (result_of r503)
  /\ fst (fetchAllArticles "urn:nir:stato:legge:2012;190"
            (fun _ _ => Responded r503) st0)
     = Throw "Landing page returned HTTP 503".
Proof.
  intros r503 st0.
  destruct fetchWithSession_retry as (H1 & H2 & _).
  destruct (H1 "https://www.normattiva.it/uri-res/N2Ls?urn:nir:stato:legge:2012;190"
               3 (fun _ => Responded r503) st0)
    as (_ & _ & _ & _ & _ & _ & _ & _ & H).
  destruct H as (Hn & r & Hr & Hout & _).
  { intros i _. exists r503. split; [reflexivity | right; simpl; lia]. }
  inversion Hr; subst r. split; [exact Hn|]. split; [exact Hout|].
  apply (H2 "urn:nir:stato:legge:2012;190" (fun _ _ => Responded r503) st0
            (result_of r503)); [vm_compute; reflexivity | simpl; lia].
Defined.

(** C4 as stated fails: with the retries used up on status 503 the caller of
    [fetchWithSession] gets a normal result, not an error. *)
Lemma fetchWithSession_exhausted_counterexample :
  let r503 := {| resp_status := 503; resp_text := "Service Unavailable";
                 resp_content_type := Some "text/html"; resp_set_cookie := [] |} in
  let out := fetchWithSession "https://www.normattiva.it/atto/caricaArticolo?art.idArticolo=1"
               3 (fun _ => Responded r503) {| sessionCookies := []; trace := [] |} in
  request_count (trace (snd out)) = 4
  /\ fst out = Ok {| status := 503; body := "Service Unavailable";
                     contentType := "text/html" |}
  /\ ~ (exists msg, fst out = Throw msg).
Proof.
  intros r503 out. split; [reflexivity|]. split; [reflexivity|].
  intros (msg & H). vm_compute in H. discriminate.
Qed.

End FetchTheorems.

(** ** The rate-limit gate under a concurrent batch *)

Section GateFacts.
Import Gate.

(** One caller at a time: the request is issued no sooner than
    [MIN_DELAY_MS] after the previous one. *)
Lemma rateLimit_sequential (now last : Z) :
  issue_times (batch 1 now last) = [Z.max now (last + MIN_DELAY_MS)].
Proof.
  unfold batch, start_all, enter, MIN_DELAY_MS, Fetcher.MIN_DELAY_MS.
  cbn [clock lastRequestTime].
  destruct (Z.ltb_spec (now - last) 150) as [H|H].
  - cbn -[Z.add Z.sub Z.max Z.ltb Z.eqb]. rewrite Z.eqb_refl.
    cbn -[Z.add Z.sub Z.max]. f_equal. lia.
  - cbn -[Z.add Z.sub Z.max]. f_equal. lia.
Qed.

Lemma enter_open (st : loop) :
  (MIN_DELAY_MS <= clock st - lastRequestTime st)%Z ->
  enter st = ({| clock := clock st; lastRequestTime := clock st |}, Resolved).
Proof.
  intros H. unfold enter.
  destruct (Z.ltb_spec (clock st - lastRequestTime st) MIN_DELAY_MS); [lia | reflexivity].
Qed.

Lemma enter_closed (st : loop) :
  (clock st - lastRequestTime st < MIN_DELAY_MS)%Z ->
  enter st = (st, Waiting (lastRequestTime st + MIN_DELAY_MS)).
Proof.
  intros H. unfold enter.
  destruct (Z.ltb_spec (clock st - lastRequestTime st) MIN_DELAY_MS); [|lia].
  do 2 f_equal. lia.
Qed.

(** Whenever a batch of three starts with the gate open, the second and the
    third request are issued at the same instant. *)
Lemma rateLimit_open_gate_race (now last : Z) :
  (MIN_DELAY_MS <= now - last)%Z ->
  issue_times (batch 3 now last)
  = [now; (now + MIN_DELAY_MS)%Z; (now + MIN_DELAY_MS)%Z].
Proof.
  intros H. unfold batch. cbn [start_all].
  rewrite enter_open by exact H. cbv beta iota. cbn [clock].
  assert (C : (clock {| clock := now; lastRequestTime := now |}
               - lastRequestTime {| clock := now; lastRequestTime := now |}
               < MIN_DELAY_MS)%Z) by (cbn; unfold MIN_DELAY_MS, Fetcher.MIN_DELAY_MS; lia).
  rewrite !(enter_closed _ C). cbv beta iota.
  cbn [clock lastRequestTime resume map].
  cbn [run next_due]. rewrite Z.ltb_irrefl.
  cbn [fire]. rewrite Z.eqb_refl.
  cbn [resume map leave clock lastRequestTime next_due fire].
  rewrite Z.eqb_refl.
  cbn [resume map leave clock lastRequestTime next_due fire issue_times].
  assert (M : Z.max now (now + MIN_DELAY_MS) = (now + MIN_DELAY_MS)%Z)
    by (unfold MIN_DELAY_MS, Fetcher.MIN_DELAY_MS; lia).
  rewrite M, Z.max_id. reflexivity.
Qed.

(** C8 at the failing input.  The landing page was requested at time 0 and
    answered at time 300; the first batch of four article URLs starts then.
    The first caller passes the gate at once and sets [lastRequestTime]; the
    other three read the clock before any of them writes [lastRequestTime],
    so they all wait for the same instant and their three requests are issued
    together at time 450.  A batch of two that starts 50 ms after the last
    request does the same at time 150. *)
Theorem rateLimit_batch_not_paced :
  batch 4 300 0 = [Issued 300; Issued 450; Issued 450; Issued 450]
  /\ paced (issue_times (batch 4 300 0)) = false
  /\ batch 2 50 0 = [Issued 150; Issued 150]
  /\ paced (issue_times (batch 2 50 0)) = false.
Proof. repeat split; vm_compute; reflexivity. Qed.

End GateFacts.

(** ** The validator *)

Section ValidatorFacts.
Import Regex Db StatuteId Validator.

Lemma select_first_in (cond : legal_document -> bool) (db : Database)
      (d : legal_document) :
  select_first cond db = Some d -> In d (legal_documents db) /\ cond d = true.
Proof. unfold select_first. apply find_some. Qed.

Lemma shortest_title_in (rows : list legal_document) :
  forall best d,
    shortest_title best rows = Some d -> best = Some d \/ In d rows.
Proof.
  induction rows as [|r rows IH]; intros best d H; simpl in H; auto.
  destruct best as [b|].
  - destruct (String.length (title r) <? String.length (title b))%nat;
      apply IH in H; destruct H as [H|H];
      try (right; right; assumption); try (left; assumption);
      inversion H; subst; right; left; reflexivity.
  - apply IH in H. destruct H as [H|H]; [|right; right; assumption].
    inversion H; subst. right; left; reflexivity.
Qed.

Lemma select_shortest_in (cond : legal_document -> bool) (db : Database)
      (d : legal_document) :
  select_shortest cond db = Some d -> In d (legal_documents db).
Proof.
  unfold select_shortest. intros H. apply shortest_title_in in H.
  destruct H as [H|H]; [discriminate|].
  apply filter_In in H. apply H.
Qed.

Lemma canonical_from_total (r : regex) (s rest : string) (m : caps) :
  match_start r s = Some (rest, m) -> sets 1 r = true ->
  exists x, canonical_from m = Ok x.
Proof.
  intros E S1. destruct (match_start_sets _ _ _ _ 1 E S1) as [t Ht].
  unfold canonical_from. rewrite Ht. simpl. eauto.
Qed.

Lemma normalizeDocumentIdentifier_total (input : string) :
  exists o, normalizeDocumentIdentifier input = Ok o.
Proof.
  unfold normalizeDocumentIdentifier.
  destruct (match_whole CANONICAL_ID _); [eauto|].
  destruct (match_start SHORT_ID _) as [[r1 m1]|] eqn:E1.
  { destruct (canonical_from_total _ _ _ _ E1 eq_refl) as [x Hx].
    rewrite Hx. simpl. eauto. }
  destruct (match_start PAREN_ID _) as [[r2 m2]|] eqn:E2.
  { destruct (canonical_from_total _ _ _ _ E2 eq_refl) as [x Hx].
    rewrite Hx. simpl. eauto. }
  eauto.
Qed.

(** The resolution returns no identifier or the identifier of a stored
    document; it does not throw. *)
Lemma resolveExistingStatuteId_stored (db : Database) (inputId : string) :
  exists o, resolveExistingStatuteId db inputId = Ok o
            /\ forall x, o = Some x ->
                 exists d, In d (legal_documents db) /\ id d = x.
Proof.
  unfold resolveExistingStatuteId.
  destruct (select_first (by_id inputId) db) as [d|] eqn:E0.
  { eexists; split; [reflexivity|]. intros x Hx; inversion Hx; subst.
    exists d. split; auto. apply select_first_in in E0. apply E0. }
  destruct (normalizeDocumentIdentifier_total inputId) as [n Hn].
  rewrite Hn. cbn [bind].
  match goal with
  | |- context [match ?X with Some d => Ok (Some (id d)) | None => _ end] =>
      destruct X as [d|] eqn:E1
  end.
  { eexists; split; [reflexivity|]. intros x Hx; inversion Hx; subst.
    exists d. split; auto.
    destruct n as [[|a n]|]; try discriminate.
    apply select_first_in in E1. apply E1. }
  match goal with
  | |- context [match select_first ?C db with _ => _ end] =>
      destruct (select_first C db) as [d|] eqn:E2
  end.
  { eexists; split; [reflexivity|]. intros x Hx; inversion Hx; subst.
    exists d. split; auto. apply select_first_in in E2. apply E2. }
  match goal with
  | |- context [match select_shortest ?C db with _ => _ end] =>
      destruct (select_shortest C db) as [d|] eqn:E3
  end.
  { eexists; split; [reflexivity|]. intros x Hx; inversion Hx; subst.
    exists d. split; auto. apply select_shortest_in in E3. exact E3. }
  eexists; split; [reflexivity|]. discriminate.
Qed.

Lemma resolve_document_stored (db : Database) (parsed : Citation.ParsedCitation) :
  exists o, resolve_document db parsed = Ok o
            /\ forall x, o = Some x -> x <> EmptyString ->
                 exists d, In d (legal_documents db) /\ id d = x.
Proof.
  unfold resolve_document.
  assert (H1 : exists o1,
             match Citation.document_id parsed with
             | Some (String _ _ as d) => resolveExistingStatuteId db d
             | _ => Ok None
             end = Ok o1
             /\ forall x, o1 = Some x ->
                  exists d, In d (legal_documents db) /\ id d = x).
  { destruct (Citation.document_id parsed) as [[|a d]|].
    - eexists; split; [reflexivity | discriminate].
    - apply resolveExistingStatuteId_stored.
    - eexists; split; [reflexivity | discriminate]. }
  destruct H1 as (o1 & E1 & S1). rewrite E1. cbn [bind].
  destruct (Js.truthy_string o1) eqn:T1.
  { exists o1. split; auto. }
  destruct (Citation.title parsed) as [[|a t]|].
  - exists o1. split; auto.
  - destruct (resolveExistingStatuteId_stored db (String a t)) as (o2 & E2 & S2).
    exists o2. split; auto.
  - exists o1. split; auto.
Qed.

Lemma find_by_id (db : Database) (d : legal_document) :
  In d (legal_documents db) ->
  exists doc, select_first (by_id (id d)) db = Some doc
              /\ In doc (legal_documents db) /\ id doc = id d.
Proof.
  intros Hin. unfold select_first.
  destruct (find (by_id (id d)) (legal_documents db)) as [doc|] eqn:E.
  - exists doc. apply find_some in E. destruct E as [E1 E2].
    repeat split; auto. apply String.eqb_eq, E2.
  - exfalso. apply (find_none _ _ E) in Hin. unfold by_id in Hin.
    rewrite String.eqb_refl in Hin. discriminate.
Qed.

Lemma provision_row_spec (doc provRef articleRef : string) (p : legal_provision) :
  provision_row doc provRef articleRef p = true
  <-> document_id p = doc
      /\ (provision_ref p = provRef \/ section p = articleRef
          \/ provision_ref p = articleRef \/ section p = provRef).
Proof.
  unfold provision_row.
  rewrite andb_true_iff, !orb_true_iff, !String.eqb_eq. tauto.
Qed.

(** [validateCitation] never throws. *)
Lemma validateCitation_total (db : Database) (citation : string) :
  exists v, validateCitation db citation = Ok v.
Proof.
  unfold validateCitation.
  destruct (parseCitation_total citation) as [parsed Hp]. rewrite Hp. cbn [bind].
  destruct (Citation.valid parsed); cbn [negb]; [|eauto].
  destruct (resolve_document_stored db parsed) as (o & Ho & _).
  rewrite Ho. cbn [bind].
  destruct o as [[|a x]|]; eauto.
  destruct (select_first _ db); eauto.
  destruct (Citation.article parsed) as [[|b art]|]; eauto.
Qed.

(** What [validateCitation] answers once the document is resolved. *)
Lemma validateCitation_answer (db : Database) (citation : string)
        (parsed : Citation.ParsedCitation) (docId : string) :
  Citation.parseCitation citation = Ok parsed ->
  Citation.valid parsed = true ->
  resolve_document db parsed = Ok (Some docId) ->
  docId <> EmptyString ->
  exists v doc,
    validateCitation db citation = Ok v
    /\ document_exists v = true
    /\ In doc (legal_documents db) /\ id doc = docId
    /\ document_title v = Some (title doc)
    /\ doc_status v = Some (status doc)
    /\ (status doc = "repealed" -> In "This law has been repealed" (warnings v))
    /\ (forall art,
          Citation.article parsed = Some art -> art <> EmptyString ->
          let articleRef := article_ref art (Citation.suffix parsed) in
          (forall p, In p (legal_provisions db) -> document_id p = id doc ->
             provision_ref p <> "art" ++ articleRef
             /\ section p <> articleRef
             /\ provision_ref p <> articleRef
             /\ section p <> "art" ++ articleRef) ->
          provision_exists v = false
          /\ In ("Article " ++ articleRef ++ " not found in " ++ title doc)
                (warnings v)).
Proof.
  intros Hp Hv Hr Hne.
  destruct (resolve_document_stored db parsed) as (o & Ho & Hs).
  rewrite Hr in Ho. inversion Ho; subst o; clear Ho.
  destruct (Hs docId eq_refl Hne) as (d & Hd & Hid). subst docId.
  destruct (find_by_id db d Hd) as (doc & Hf & Hin & Hdoc).
  unfold validateCitation. rewrite Hp. cbn [bind]. rewrite Hv. cbn [negb].
  rewrite Hr. cbn [bind].
  destruct (id d) as [|a x] eqn:Ed; [contradiction|].
  rewrite Hf.
  assert (Hrep : status doc = "repealed" ->
            In "This law has been repealed"
               (if String.eqb (status doc) "repealed"
                then ["This law has been repealed"] else [])).
  { intros E. rewrite E. simpl. auto. }
  destruct (Citation.article parsed) as [[|b art]|] eqn:Ea.
  - eexists _, doc.
    split; [reflexivity|]. split; [reflexivity|]. split; [exact Hin|].
    split; [exact Hdoc|]. split; [reflexivity|]. split; [reflexivity|].
    split; [exact Hrep|].
    intros art' H Hne'. inversion H; subst. contradiction.
  - set (articleRef := article_ref (String b art) (Citation.suffix parsed)).
    destruct (existsb (provision_row (id doc) ("art" ++ articleRef) articleRef)
                      (legal_provisions db)) eqn:Ex.
    + eexists _, doc.
      split; [reflexivity|]. split; [reflexivity|]. split; [exact Hin|].
      split; [exact Hdoc|]. split; [reflexivity|]. split; [reflexivity|].
      split; [exact Hrep|].
      intros art' H Hne' Hnone. inversion H; subst art'. exfalso.
      apply existsb_exists in Ex. destruct Ex as (p & Hpin & Hrow).
      apply provision_row_spec in Hrow. destruct Hrow as [Hdocid Hany].
      destruct (Hnone p Hpin Hdocid) as (N1 & N2 & N3 & N4).
      fold articleRef in N1, N2, N3, N4. tauto.
    + eexists _, doc.
      split; [reflexivity|]. split; [reflexivity|]. split; [exact Hin|].
      split; [exact Hdoc|]. split; [reflexivity|]. split; [reflexivity|].
      split.
      * intros E. cbn [warnings]. apply in_or_app. left. apply Hrep, E.
      * intros art' H Hne' Hnone. inversion H; subst art'.
        split; [reflexivity|]. cbn [warnings].
        apply in_or_app. right. simpl. auto.
  - eexists _, doc.
    split; [reflexivity|]. split; [reflexivity|]. split; [exact Hin|].
    split; [exact Hdoc|]. split; [reflexivity|]. split; [reflexivity|].
    split; [exact Hrep|].
    intros art' H; discriminate.
Qed.

Lemma article_ref_token (art : string) (suffix : option string) :
  article_ref art suffix = Props.article_token art suffix.
Proof.
  unfold article_ref, Props.article_token.
  destruct suffix as [[|a x]|]; cbn [String.eqb];
    rewrite ?append_nil_r; reflexivity.
Qed.

Lemma resolves_to_resolve_document (db : Database)
      (parsed : Citation.ParsedCitation) (docId : string) :
  Props.resolves_to db parsed docId -> docId <> EmptyString ->
  resolve_document db parsed = Ok (Some docId).
Proof.
  intros H Hne. unfold resolve_document.
  destruct docId as [|c docId]; [contradiction|].
  destruct H as [(d & Hd & Hdne & Hr)|(Hnone & t & Ht & Htne & Hr)].
  - rewrite Hd. destruct d as [|a d]; [contradiction|].
    rewrite Hr. reflexivity.
  - assert (E : exists o,
               match Citation.document_id parsed with
               | Some (String _ _ as d) => resolveExistingStatuteId db d
               | _ => Ok None
               end = Ok o /\ Js.truthy_string o = false).
    { destruct (Citation.document_id parsed) as [[|a d]|] eqn:Ed.
      - exists None. auto.
      - destruct (Hnone (String a d) eq_refl ltac:(discriminate)) as [E|E];
          rewrite E; eexists; split; reflexivity.
      - exists None. auto. }
    destruct E as (o & -> & To). cbn [bind]. rewrite To, Ht.
    destruct t as [|a t]; [contradiction|]. exact Hr.
Qed.

(** C6.  A citation whose document resolves to a stored Act with an
    identifier that is not empty is answered by a result (not an exception)
    with document_exists = true, for the stored document of the resolved
    identifier.  When the status of that document is repealed the warnings
    contain the repealed advisory, whether or not the provision exists.  The
    citation names the article by its number and, after a hyphen, its
    suffix; when no provision of the document has this token, or this token
    after the letters art, as its provision_ref or as its section,
    provision_exists is false and the warnings contain the
    article-not-found warning with this token. *)
Theorem validateCitation_resolved (db : Database) (citation : string)
        (parsed : Citation.ParsedCitation) (docId : string) :
  Citation.parseCitation citation = Ok parsed ->
  Citation.valid parsed = true ->
  Props.resolves_to db parsed docId ->
  docId <> EmptyString ->
  exists v doc,
    validateCitation db citation = Ok v
    /\ document_exists v = true
    /\ In doc (legal_documents db) /\ id doc = docId
    /\ document_title v = Some (title doc)
    /\ doc_status v = Some (status doc)
    /\ (status doc = "repealed" -> In "This law has been repealed" (warnings v))
    /\ (forall art,
          Citation.article parsed = Some art -> art <> EmptyString ->
          let token := Props.article_token art (Citation.suffix parsed) in
          (forall p, In p (legal_provisions db) -> document_id p = id doc ->
             provision_ref p <> "art" ++ token
             /\ section p <> token
             /\ provision_ref p <> token
             /\ section p <> "art" ++ token) ->
          provision_exists v = false
          /\ In ("Article " ++ token ++ " not found in " ++ title doc)
                (warnings v)).
Proof.
  intros Hp Hv Hr Hne.
  pose proof (resolves_to_resolve_document db parsed docId Hr Hne) as Hr'.
  destruct (validateCitation_answer db citation parsed docId Hp Hv Hr' Hne)
    as (v & doc & H1 & H2 & H3 & H4 & H5 & H6 & H7 & H8).
  exists v, doc. repeat (split; [assumption|]).
  intros art Ha Hane token. subst token.
  rewrite <- article_ref_token. apply (H8 art Ha Hane).
Qed.

(** The theorem at the repealed penal code, which has an article 615 and is
    cited for its article 615-ter: the article 615 is not taken for it. *)
Lemma validateCitation_resolved_witness :
  let db :=
    {| legal_documents :=
         [ {| id := "rd-1398-1930"; title := "Codice Penale";
              short_name := None; status := "repealed" |} ];
       legal_provisions :=
         [ {| document_id := "rd-1398-1930"; provision_ref := "art615";
              section := "615" |} ] |} in
  Props.resolves_to db
    (Citation.numbered Citation.rd "615" (Some "ter") None
                       (Js.Num 1398) (Js.Num 1930))
    "rd-1398-1930"
  /\ exists v,
       validateCitation db "Art. 615-ter, R.D. 1398/1930" = Ok v
       /\ document_exists v = true
       /\ provision_exists v = false
       /\ warnings v = [ "This law has been repealed";
                         "Article 615-ter not found in Codice Penale" ].
Proof.
  intros db.
  assert (R : Props.resolves_to db
                (Citation.numbered Citation.rd "615" (Some "ter") None
                                   (Js.Num 1398) (Js.Num 1930))
                "rd-1398-1930").
  { left. exists "rd-1398-1930". split; [reflexivity|].
    split; [discriminate | vm_compute; reflexivity]. }
  split; [exact R|].
  destruct (validateCitation_resolved db "Art. 615-ter, R.D. 1398/1930"
              (Citation.numbered Citation.rd "615" (Some "ter") None
                                 (Js.Num 1398) (Js.Num 1930))
              "rd-1398-1930")
    as (v & doc & Hv & He & Hin & Hid & _ & _ & Hrep & Hart);
    [vm_compute; reflexivity | reflexivity | exact R | discriminate |].
  destruct Hin as [Hin|[]]. subst doc.
  destruct (Hart "615" eq_refl) as [H1 H2]; [discriminate | |].
  { intros p [Hp|[]] _. subst p. cbn. repeat split; discriminate. }
  exists v. split; [exact Hv|]. split; [exact He|]. split; [exact H1|].
  vm_compute in Hv. inversion Hv; subst v. reflexivity.
Defined.

(** The claim without the condition on the identifier, at a stored Act whose
    primary key is the empty string.  The title of the citation resolves to
    this Act, and the answer is that the document is not found: the
    validator tests the resolved identifier for truth, and the empty string
    is not true. *)
Lemma validateCitation_empty_id_counterexample :
  let db :=
    {| legal_documents :=
         [ {| id := ""; title := "Codice Penale";
              short_name := None; status := "in_force" |} ];
       legal_provisions :=
         [ {| document_id := ""; provision_ref := "art1"; section := "1" |} ] |} in
  (exists parsed,
     Citation.parseCitation "Art. 1, Codice Penale" = Ok parsed
     /\ Citation.valid parsed = true
     /\ Props.resolves_to db parsed EmptyString
     /\ exists doc, In doc (legal_documents db) /\ id doc = EmptyString)
  /\ ~ (exists v,
          validateCitation db "Art. 1, Codice Penale" = Ok v
          /\ document_exists v = true)
  /\ exists v,
       validateCitation db "Art. 1, Codice Penale" = Ok v
       /\ document_exists v = false
       /\ warnings v
          = ["Document " ++ Js.quoted "Codice Penale" ++ " not found in database"].
Proof.
  intros db. split; [|split].
  - eexists. split; [vm_compute; reflexivity|]. split; [reflexivity|]. split.
    + right. split; [intros d Hd; discriminate|].
      exists "Codice Penale". split; [reflexivity|].
      split; [discriminate | vm_compute; reflexivity].
    + eexists. split; [left; reflexivity | reflexivity].
  - intros (v & Hv & He). vm_compute in Hv. inversion Hv; subst v.
    discriminate.
  - eexists. split; [vm_compute; reflexivity|]. split; reflexivity.
Qed.

End ValidatorFacts.

(** ** The article URL extractor *)

Section SortFacts.
Context {A : Type}.
Variable cmp : A -> A -> Z.
Variable le : A -> A -> Prop.
Hypothesis cmp_le : forall x y, (cmp x y <= 0)%Z <-> le x y.
Hypothesis le_total : forall x y, le x y \/ le y x.
Hypothesis le_trans : forall x y z, le x y -> le y z -> le x z.

Lemma insert_sorted_perm (x : A) (l : list A) :
  Permutation (x :: l) (Fetcher.insert_sorted cmp x l).
Proof.
  induction l as [|y l IH]; simpl; [apply Permutation_refl|].
  destruct (cmp x y <=? 0)%Z; [apply Permutation_refl|].
  eapply Permutation_trans; [apply perm_swap|].
  apply perm_skip, IH.
Qed.

Lemma sort_perm (l : list A) : Permutation l (Fetcher.sort cmp l).
Proof.
  induction l as [|x l IH]; simpl; [apply Permutation_refl|].
  eapply Permutation_trans; [apply perm_skip, IH|].
  apply insert_sorted_perm.
Qed.

Lemma insert_sorted_sorted (x : A) (l : list A) :
  StronglySorted le l -> StronglySorted le (Fetcher.insert_sorted cmp x l).
Proof.
  induction l as [|y l IH]; intros Hs; simpl.
  - constructor; constructor.
  - inversion Hs as [|? ? Hl Hy]; subst.
    destruct (Z.leb_spec (cmp x y) 0) as [H|H].
    + apply cmp_le in H. constructor; [exact Hs|].
      constructor; [exact H|].
      eapply Forall_impl; [|exact Hy]. intros z Hz. eapply le_trans; eauto.
    + assert (Hyx : le y x).
      { destruct (le_total x y) as [Hxy|Hyx]; auto.
        apply cmp_le in Hxy. lia. }
      constructor; [apply IH, Hl|].
      eapply Permutation_Forall; [apply insert_sorted_perm|].
      constructor; auto.
Qed.

Lemma sort_sorted (l : list A) : StronglySorted le (Fetcher.sort cmp l).
Proof.
  induction l as [|x l IH]; simpl; [constructor|].
  apply insert_sorted_sorted, IH.
Qed.

End SortFacts.

Section ExtractFacts.
Import Fetcher Spec.









End ExtractFacts.

Section ExtractTheorems.
Import Fetcher Spec.



Lemma in_set_cases {V : Type} (m : JsMap.t V) (k0 k : string) (v e : V) :
  NoDup (JsMap.keys m) ->
  In (k, e) (JsMap.set m k0 v) ->
  (k = k0 /\ e = v) \/ (k <> k0 /\ In (k, e) m).
Proof.
  intros Hnd Hin.
  apply in_get_some in Hin; [|apply nodup_keys_set, Hnd].
  destruct (String.eqb_spec k0 k) as [->|Hne].
  - rewrite get_set_same in Hin. inversion Hin. auto.
  - rewrite get_set_other in Hin by exact Hne.
    right. split; [congruence|]. apply get_some_in, Hin.
Qed.












(** The landing page of the specification: article (2, 1) at version 1,
    flagged historical, and at version 3; the version 3 URL alone is emitted.
    With two more articles the URLs come in the order of their indexes. *)
Example extractArticleUrls_scenario :
  extractArticleUrls
    "<a onclick=showArticle('/atto/caricaArticolo?art.versione=1&art.idArticolo=2&art.idSottoArticolo=1&art.imUpdate=true')>
     <a onclick=showArticle('/atto/caricaArticolo?art.versione=3&art.idArticolo=2&art.idSottoArticolo=1&art.imUpdate=false')>"
  = ["https://www.normattiva.it/atto/caricaArticolo?art.versione=3&art.idArticolo=2&art.idSottoArticolo=1&art.imUpdate=false"]
  /\ extractArticleUrls
       "showArticle('/atto/caricaArticolo?art.versione=1&art.idArticolo=10&art.idSottoArticolo=1&')
        showArticle('/atto/caricaArticolo?art.versione=2&art.idArticolo=9&art.idSottoArticolo=2')
        showArticle('/atto/caricaArticolo?art.versione=4&art.idArticolo=9&art.idSottoArticolo=1')
        showArticle('/atto/caricaArticolo?art.versione=5&art.idArticolo=9&art.idSottoArticolo=2')"
     = ["https://www.normattiva.it/atto/caricaArticolo?art.versione=4&art.idArticolo=9&art.idSottoArticolo=1";
        "https://www.normattiva.it/atto/caricaArticolo?art.versione=5&art.idArticolo=9&art.idSottoArticolo=2";
        "https://www.normattiva.it/atto/caricaArticolo?art.versione=1&art.idArticolo=10&art.idSottoArticolo=1"].
Proof. split; vm_compute; reflexivity. Qed.

End ExtractTheorems.

(** ** The first path of the matcher *)

Section EvalFacts.
Import Regex Spec Sem Props.

Lemma rmatch_cls_ok (p : ascii -> bool) (a : ascii) (rest : string)
      (c : caps) (k : cont) :
  p a = true -> rmatch (Cls p) (String a rest) c k = k rest c.
Proof. intros H. cbn [rmatch]. rewrite H. reflexivity. Qed.

Lemma rmatch_cls_fail (p : ascii -> bool) (s : string) (c : caps) (k : cont) :
  starts_in p s = false -> rmatch (Cls p) s c k = None.
Proof.
  intros H. destruct s as [|a s]; cbn [rmatch]; [reflexivity|].
  cbn [starts_in] in H. rewrite H. reflexivity.
Qed.

(** A greedy star of a class takes the whole run of that class first. *)
Lemma star_cls_run (p : ascii -> bool) (rest : string) (k : cont)
      (x : string * caps) (c : caps) :
  starts_in p rest = false -> k rest c = Some x ->
  forall w fuel,
    Js.forallb_string p w = true -> String.length w <= fuel ->
    star_loop (rmatch (Cls p)) fuel (w ++ rest) c k = Some x.
Proof.
  intros Hr Hk. induction w as [|a w IH]; intros fuel Hw Hf.
  - cbn [append]. destruct fuel as [|fuel]; cbn [star_loop]; [exact Hk|].
    rewrite rmatch_cls_fail by exact Hr. exact Hk.
  - destruct fuel as [|fuel]; [simpl in Hf; lia|].
    cbn [Js.forallb_string] in Hw. apply andb_prop in Hw. destruct Hw as [Ha Hw].
    cbn [star_loop append]. rewrite rmatch_cls_ok by exact Ha.
    assert (L : (String.length (w ++ rest)
                 <? String.length (String a (w ++ rest)))%nat = true)
      by (apply Nat.ltb_lt; simpl; lia).
    rewrite L, IH; [reflexivity | exact Hw | simpl in Hf; lia].
Qed.

Lemma rmatch_star_cls (p : ascii -> bool) (w rest : string) (k : cont)
      (x : string * caps) (c : caps) :
  Js.forallb_string p w = true -> starts_in p rest = false ->
  k rest c = Some x -> rmatch (Star (Cls p)) (w ++ rest) c k = Some x.
Proof.
  intros Hw Hr Hk. cbn [rmatch].
  apply star_cls_run; auto. rewrite length_append. lia.
Qed.



End EvalFacts.

(** ** The numbers of a fetch directive *)

Section FieldFacts.
Import Regex Fetcher Spec Sem Props.






Lemma digits_value_digits (s : string) :
  Js.forallb_string Js.is_digit s = true ->
  forall acc,
    Js.digits_value acc s
    = fold_left (fun acc d => (10 * acc + Z.of_nat d)%Z) (digits_of s) acc.
Proof.
  induction s as [|a s IH]; intros H acc; [reflexivity|].
  cbn [Js.forallb_string] in H. apply andb_prop in H. destruct H as [Ha Hs].
  cbn [Js.digits_value]. rewrite Ha, (IH Hs). reflexivity.
Qed.

(** [Number(s)] and [parseInt(s, 10)] give the double of the value of a
    text of digits. *)
Lemma Number_of_value (s : string) :
  Js.forallb_string Js.is_digit s = true ->
  Js.Number_of s = Js.to_double (value s).
Proof.
  intros H. unfold Js.Number_of. f_equal. apply digits_value_digits, H.
Qed.

Lemma parseInt_value (s : string) :
  Js.forallb_string Js.is_digit s = true -> s <> EmptyString ->
  Js.parseInt s = Js.Num (Js.to_double (value s)).
Proof.
  intros H Hne. destruct s as [|a s]; [contradiction|].
  rewrite <- (Number_of_value _ H). unfold Js.Number_of.
  cbn [Js.forallb_string] in H. apply andb_prop in H. destruct H as [Ha _].
  destruct a as [[] [] [] [] [] [] [] []]; try discriminate; reflexivity.
Qed.





(** *** Runs of digits *)

Lemma digit_run_ge (s : string) : forall run, run <= digit_run_from run s.
Proof.
  induction s as [|a s IH]; intros run; cbn [digit_run_from]; [lia|].
  destruct (Js.is_digit a); [specialize (IH (S run))|]; lia.
Qed.

Lemma digit_run_mono (s : string) :
  forall r r', r <= r' -> digit_run_from r s <= digit_run_from r' s.
Proof.
  induction s as [|a s IH]; intros r r' H; cbn [digit_run_from]; [lia|].
  destruct (Js.is_digit a); [apply IH|]; lia.
Qed.

Lemma digit_run_digits (w post : string) :
  Js.forallb_string Js.is_digit w = true ->
  forall run, run + String.length w <= digit_run_from run (w ++ post).
Proof.
  induction w as [|a w IH]; intros H run; cbn [append String.length].
  - pose proof (digit_run_ge post run). lia.
  - cbn [Js.forallb_string] in H. apply andb_prop in H. destruct H as [Ha Hw].
    cbn [digit_run_from]. rewrite Ha. specialize (IH Hw (S run)). lia.
Qed.

Lemma digit_run_skip (pre t : string) :
  forall run, digit_run_from 0 t <= digit_run_from run (pre ++ t).
Proof.
  induction pre as [|a pre IH]; intros run; cbn [append].
  - apply digit_run_mono. lia.
  - cbn [digit_run_from]. destruct (Js.is_digit a).
    + apply IH.
    + specialize (IH 0). lia.
Qed.

(** A run of digits written in a text is no longer than its longest run. *)
Lemma digit_run_factor (w s : string) :
  Js.forallb_string Js.is_digit w = true -> factor w s ->
  String.length w <= longest_digit_run s.
Proof.
  intros H (pre & post & ->). unfold longest_digit_run.
  pose proof (digit_run_digits w post H 0).
  pose proof (digit_run_skip pre (w ++ post) 0). lia.
Qed.


Lemma digits_of_cons (a : ascii) (s : string) :
  digits_of (String a s) = (nat_of_ascii a - 48) :: digits_of s.
Proof. reflexivity. Qed.

Lemma digits_of_digits (s : string) :
  Js.forallb_string Js.is_digit s = true ->
  Forall (fun d => d < 10) (digits_of s)
  /\ List.length (digits_of s) = String.length s.
Proof.
  induction s as [|a s IH]; intros H; [split; [constructor | reflexivity]|].
  cbn [Js.forallb_string] in H. apply andb_prop in H. destruct H as [Ha Hs].
  destruct (IH Hs) as [F L]. rewrite digits_of_cons. split.
  - constructor; [|exact F]. unfold Js.is_digit, Js.code in Ha.
    apply andb_prop in Ha. destruct Ha as [A1 A2].
    apply Nat.leb_le in A1, A2. lia.
  - cbn [List.length String.length]. rewrite L. reflexivity.
Qed.

(** A number written with at most 15 digits is below 10^15, and is a
    double. *)
Lemma value_bound (s : string) :
  Js.forallb_string Js.is_digit s = true -> String.length s <= 15 ->
  (0 <= value s < 10 ^ 15)%Z /\ Js.to_double (value s) = value s.
Proof.
  intros H L. destruct (digits_of_digits s H) as [F E].
  apply decimal_small; [exact F | lia].
Qed.





End FieldFacts.

Section CurrentVersions.
Import Regex Fetcher Spec Sem Props.











End CurrentVersions.
(** ** What a successful match tells about the input *)

Section SemFacts.
Import Regex Spec Sem.

Lemma captured_by_seq_l (r1 r2 : regex) (i : nat) (v : string) :
  captured_by r1 i v -> captured_by (Seq r1 r2) i v.
Proof.
  intros (b & rest & Hb & Hm). exists b, rest. split; [|exact Hm].
  simpl. apply in_or_app. auto.
Qed.

Lemma captured_by_seq_r (r1 r2 : regex) (i : nat) (v : string) :
  captured_by r2 i v -> captured_by (Seq r1 r2) i v.
Proof.
  intros (b & rest & Hb & Hm). exists b, rest. split; [|exact Hm].
  simpl. apply in_or_app. auto.
Qed.

Lemma captured_by_seq (r1 r2 : regex) (i : nat) (v : string) :
  captured_by (Seq r1 r2) i v -> captured_by r1 i v \/ captured_by r2 i v.
Proof.
  intros (b & rest & Hb & Hm). simpl in Hb. apply in_app_or in Hb.
  destruct Hb; [left | right]; exists b, rest; auto.
Qed.

Lemma captured_by_alt (r1 r2 : regex) (i : nat) (v : string) :
  captured_by (Alt r1 r2) i v -> captured_by r1 i v \/ captured_by r2 i v.
Proof. exact (captured_by_seq r1 r2 i v). Qed.

Lemma captured_by_grp_other (j i : nat) (r : regex) (v : string) :
  j <> i -> captured_by (Grp j r) i v -> captured_by r i v.
Proof.
  intros Hne (b & rest & Hb & Hm). simpl in Hb.
  destruct (Nat.eqb_spec j i); [contradiction|]. exists b, rest; auto.
Qed.

Lemma captured_by_grp_same (i : nat) (r : regex) (v : string) :
  captured_by (Grp i r) i v ->
  (exists rest, matches r v rest) \/ captured_by r i v.
Proof.
  intros (b & rest & Hb & Hm). simpl in Hb. rewrite Nat.eqb_refl in Hb.
  destruct Hb as [<-|Hb]; [left; eauto | right; exists b, rest; auto].
Qed.

Lemma caps_from_refl (r : regex) (c : caps) : caps_from r c c.
Proof. intros i v H; auto. Qed.

Lemma star_loop_matches (r1 : regex) :
  (forall s c k x, rmatch r1 s c k = Some x ->
     exists w s' c', s = w ++ s' /\ matches r1 w s' /\ caps_from r1 c c'
                     /\ k s' c' = Some x) ->
  forall fuel s c k x, star_loop (rmatch r1) fuel s c k = Some x ->
     exists w s' c', s = w ++ s' /\ matches (Star r1) w s'
                     /\ caps_from r1 c c' /\ k s' c' = Some x.
Proof.
  intros Hbody fuel. induction fuel as [|fuel IH]; intros s c k x H; simpl in H.
  - exists EmptyString, s, c. repeat split; auto using caps_from_refl; constructor.
  - destruct (rmatch r1 s c _) as [y|] eqn:E.
    + inversion H; subst y; clear H.
      apply Hbody in E. destruct E as (w1 & s1 & c1 & Hs & Hm & Hc & E).
      destruct (String.length s1 <? String.length s)%nat; [|discriminate].
      apply IH in E. destruct E as (w2 & s2 & c2 & Hs2 & Hm2 & Hc2 & E).
      exists (w1 ++ w2), s2, c2. repeat split; auto.
      * rewrite Hs, Hs2. symmetry. apply append_assoc.
      * constructor; [rewrite <- Hs2; exact Hm | exact Hm2].
      * intros i v Hin. destruct (Hc2 i v Hin) as [Hin1|Hcap]; auto.
    + exists EmptyString, s, c. repeat split; auto using caps_from_refl; constructor.
Qed.

(** A successful match splits the input into what the pattern consumed and
    what the continuation received; the new captures are texts that the
    bodies of their groups can match. *)
Lemma rmatch_matches (r : regex) :
  forall s c k x, rmatch r s c k = Some x ->
    exists w s' c', s = w ++ s' /\ matches r w s' /\ caps_from r c c'
                    /\ k s' c' = Some x.
Proof.
  induction r as [|p|r1 IH1 r2 IH2|r1 IH1 r2 IH2|r1 IH1|i r1 IH1|];
    intros s c k x H; simpl in H.
  - exists EmptyString, s, c. repeat split; auto using caps_from_refl; constructor.
  - destruct s as [|a s]; [discriminate|].
    destruct (p a) eqn:Ep; [|discriminate].
    exists (String a EmptyString), s, c.
    repeat split; auto using caps_from_refl. constructor; exact Ep.
  - apply IH1 in H. destruct H as (w1 & s1 & c1 & Hs & Hm & Hc & H).
    apply IH2 in H. destruct H as (w2 & s2 & c2 & Hs2 & Hm2 & Hc2 & H).
    exists (w1 ++ w2), s2, c2. repeat split; auto.
    + rewrite Hs, Hs2. symmetry. apply append_assoc.
    + constructor; [rewrite <- Hs2; exact Hm | exact Hm2].
    + intros i v Hin. destruct (Hc2 i v Hin) as [Hin1|Hcap].
      * destruct (Hc i v Hin1) as [Hin0|Hcap]; auto.
        right. apply captured_by_seq_l, Hcap.
      * right. apply captured_by_seq_r, Hcap.
  - destruct (rmatch r1 s c k) as [y|] eqn:E.
    + inversion H; subst y. apply IH1 in E.
      destruct E as (w & s' & c' & Hs & Hm & Hc & E).
      exists w, s', c'. repeat split; auto.
      * apply M_alt_l, Hm.
      * intros i v Hin. destruct (Hc i v Hin) as [|Hcap]; auto.
        right. apply (captured_by_seq_l r1 r2), Hcap.
    + apply IH2 in H. destruct H as (w & s' & c' & Hs & Hm & Hc & E').
      exists w, s', c'. repeat split; auto.
      * apply M_alt_r, Hm.
      * intros i v Hin. destruct (Hc i v Hin) as [|Hcap]; auto.
        right. apply (captured_by_seq_r r1 r2), Hcap.
  - apply (star_loop_matches r1 IH1) in H.
    destruct H as (w & s' & c' & Hs & Hm & Hc & H).
    exists w, s', c'. repeat split; auto.
  - apply IH1 in H. destruct H as (w & s' & c' & Hs & Hm & Hc & H).
    exists w, s', ((i, consumed s s') :: c'). repeat split; auto.
    + constructor; exact Hm.
    + intros j v [Hin|Hin].
      * inversion Hin; subst j v. right. rewrite Hs, consumed_append.
        exists r1, s'. split; [|exact Hm]. simpl. rewrite Nat.eqb_refl. simpl; auto.
      * destruct (Hc j v Hin) as [|(b & rest & Hb & Hbm)]; auto.
        right. exists b, rest. split; [|exact Hbm].
        simpl. destruct (i =? j)%nat; simpl; auto.
  - destruct s as [|a s]; [|discriminate].
    exists EmptyString, EmptyString, c.
    repeat split; auto using caps_from_refl; constructor.
Qed.

Lemma match_start_matches (r : regex) (s rest : string) (m : caps) :
  match_start r s = Some (rest, m) ->
  exists w, s = w ++ rest /\ matches r w rest
            /\ forall i v, group m i = Some v -> captured_by r i v.
Proof.
  intros H. unfold match_start in H. apply rmatch_matches in H.
  destruct H as (w & s' & c' & Hs & Hm & Hc & H). unfold accept in H.
  inversion H; subst s' c'. exists w. repeat split; auto.
  intros i v Hg. apply group_in in Hg. destruct (Hc i v Hg) as [[]|]; auto.
Qed.

Lemma search_matches (r : regex) (s rest : string) (m : caps) :
  search r s = Some (rest, m) ->
  exists pre w, s = pre ++ w ++ rest /\ matches r w rest
                /\ forall i v, group m i = Some v -> captured_by r i v.
Proof.
  induction s as [|a s IH]; simpl; intros H.
  - destruct (match_start r EmptyString) as [[rest' m']|] eqn:E; [|discriminate].
    inversion H; subst. apply match_start_matches in E.
    destruct E as (w & Hs & Hm & Hc). exists EmptyString, w. auto.
  - destruct (match_start r (String a s)) as [[rest' m']|] eqn:E.
    + inversion H; subst. apply match_start_matches in E.
      destruct E as (w & Hs & Hm & Hc). exists EmptyString, w. auto.
    + apply IH in H. destruct H as (pre & w & Hs & Hm & Hc).
      exists (String a pre), w. rewrite Hs. auto.
Qed.

(** *** What the derived forms match *)

Lemma matches_opt (r : regex) (w rest : string) :
  matches (opt r) w rest -> matches r w rest \/ w = EmptyString.
Proof.
  unfold opt. intros H. inversion H; subst; auto.
  match goal with H : matches Eps _ _ |- _ => inversion H; auto end.
Qed.

Lemma matches_star_cls (p : ascii -> bool) (w rest : string) :
  matches (Star (Cls p)) w rest -> Js.forallb_string p w = true.
Proof.
  remember (Star (Cls p)) as r eqn:Er. intros H. revert Er.
  induction H; intros Er; try discriminate; inversion Er; subst; auto.
  match goal with H : matches (Cls _) _ _ |- _ => inversion H; subst end.
  simpl. rewrite IHmatches2 by reflexivity.
  match goal with H : p _ = true |- _ => rewrite H end. reflexivity.
Qed.

Lemma matches_plus_cls (p : ascii -> bool) (w rest : string) :
  matches (plus (Cls p)) w rest ->
  exists a w', w = String a w' /\ p a = true /\ Js.forallb_string p w' = true.
Proof.
  unfold plus. intros H. inversion H; subst.
  match goal with H : matches (Cls _) _ _ |- _ => inversion H; subst end.
  match goal with H : matches (Star _) _ _ |- _ => apply matches_star_cls in H end.
  exists a, w2. simpl. auto.
Qed.

Lemma matches_cls (p : ascii -> bool) (w rest : string) :
  matches (Cls p) w rest -> exists a, w = String a EmptyString /\ p a = true.
Proof. intros H; inversion H; subst; eauto. Qed.

Lemma matches_lit_i (l w rest : string) :
  matches (lit_i l) w rest -> eq_ci_string l w = true.
Proof.
  revert w rest. induction l as [|c l IH]; intros w rest H.
  - simpl in H. inversion H; reflexivity.
  - destruct l as [|c' l'].
    + apply matches_cls in H. destruct H as (a & -> & Ha).
      cbn [eq_ci_string]. rewrite Ha. reflexivity.
    + change (lit_i (String c (String c' l')))
        with (Seq (chr_i c) (lit_i (String c' l'))) in H.
      inversion H as [| |r1 r2 w1 w2 rest' H1 H2| | | | | |]; subst.
      apply matches_cls in H1. destruct H1 as (a & -> & Ha).
      apply IH in H2.
      change (eq_ci_string (String c (String c' l')) (String a EmptyString ++ w2))
        with (Js.eq_ci c a && eq_ci_string (String c' l') w2).
      rewrite Ha, H2. reflexivity.
Qed.

Lemma matches_lit (l w rest : string) : matches (lit l) w rest -> w = l.
Proof.
  revert w rest. induction l as [|c l IH]; intros w rest H.
  - simpl in H. inversion H; reflexivity.
  - destruct l as [|c' l'].
    + apply matches_cls in H. destruct H as (a & -> & Ha).
      apply Ascii.eqb_eq in Ha. subst; reflexivity.
    + change (lit (String c (String c' l')))
        with (Seq (chr c) (lit (String c' l'))) in H.
      inversion H as [| |r1 r2 w1 w2 rest' H1 H2| | | | | |]; subst.
      apply matches_cls in H1. destruct H1 as (a & -> & Ha).
      apply Ascii.eqb_eq in Ha. subst a.
      apply IH in H2. subst w2. reflexivity.
Qed.

Lemma matches_alts (l : list regex) (w rest : string) :
  matches (alts l) w rest -> exists r, In r l /\ matches r w rest.
Proof.
  induction l as [|r l IH]; intros H.
  - simpl in H. inversion H; discriminate.
  - destruct l as [|r' l'].
    + simpl in H. exists r; simpl; auto.
    + change (alts (r :: r' :: l')) with (Alt r (alts (r' :: l'))) in H.
      inversion H as [| | |r1 r2 w' rest' H1|r1 r2 w' rest' H1| | | |]; subst.
      * exists r; simpl; auto.
      * apply IH in H1. destruct H1 as (r0 & Hin & Hm).
        exists r0; split; [right; exact Hin | exact Hm].
Qed.

(** *** Characters *)

Lemma in_all_ascii (a : ascii) : In a all_ascii.
Proof.
  unfold all_ascii. rewrite <- (ascii_nat_embedding a).
  apply in_map, in_seq. pose proof (nat_ascii_bounded a). lia.
Qed.

Lemma for_all_ascii (P : ascii -> bool) :
  forallb P all_ascii = true -> forall a, P a = true.
Proof. intros H a. rewrite forallb_forall in H. apply H, in_all_ascii. Qed.

Lemma for_all_ascii2 (P : ascii -> ascii -> bool) :
  forallb (fun c => forallb (P c) all_ascii) all_ascii = true ->
  forall c a, P c a = true.
Proof. intros H c a. apply for_all_ascii. exact (for_all_ascii _ H c). Qed.

Lemma eq_ci_lower_table :
  forallb (fun c => forallb (fun a =>
             implb (Js.eq_ci c a) (Ascii.eqb (Js.lower_char a) (Js.lower_char c)))
           all_ascii) all_ascii = true.
Proof. vm_compute. reflexivity. Qed.

Lemma eq_ci_lower (c a : ascii) :
  Js.eq_ci c a = true -> Js.lower_char a = Js.lower_char c.
Proof.
  intros H. apply Ascii.eqb_eq. revert H.
  generalize (for_all_ascii2 _ eq_ci_lower_table c a).
  destruct (Js.eq_ci c a); simpl; auto. discriminate.
Qed.

Lemma eq_ci_string_lower (l w : string) :
  eq_ci_string l w = true -> Js.toLowerCase w = Js.toLowerCase l.
Proof.
  revert w. induction l as [|c l IH]; intros [|a w]; simpl; try discriminate; auto.
  intros H. apply andb_prop in H. destruct H as [Hc Hl].
  unfold Js.toLowerCase in *. simpl. rewrite (eq_ci_lower c a Hc), (IH w Hl).
  reflexivity.
Qed.

Lemma eq_ci_string_length (l w : string) :
  eq_ci_string l w = true -> String.length w = String.length l.
Proof.
  revert w. induction l as [|c l IH]; intros [|a w]; simpl; try discriminate; auto.
  intros H. apply andb_prop in H. destruct H as [_ Hl]. rewrite (IH w Hl). reflexivity.
Qed.

End SemFacts.

(** ** Whether a match succeeds *)

Section SuccessFacts.
Import Regex Spec Sem.

Lemma accept_accepts (rest : string) : accepts accept rest.
Proof. intros c. discriminate. Qed.

Lemma matches_complete (r : regex) (w rest : string) :
  matches r w rest ->
  (forall c k, accepts k rest -> rmatch r (w ++ rest) c k <> None)
  /\ (forall r1, r = Star r1 ->
        forall fuel c k, String.length (w ++ rest) <= fuel -> accepts k rest ->
          star_loop (rmatch r1) fuel (w ++ rest) c k <> None).
Proof.
  intros H. induction H as
    [rest | p a rest Hp | r1 r2 w1 w2 rest H1 IH1 H2 IH2
     | r1 r2 w rest H1 IH1 | r1 r2 w rest H2 IH2
     | r rest | r w1 w2 rest H1 IH1 H2 IH2 | i r w rest H1 IH1 | ].
  - split; [|discriminate]. intros c k Hk. simpl. apply Hk.
  - split; [|discriminate]. intros c k Hk. simpl. rewrite Hp. apply Hk.
  - split; [|discriminate]. intros c k Hk. simpl. rewrite append_assoc.
    apply IH1. intros c'. apply IH2, Hk.
  - split; [|discriminate]. intros c k Hk. simpl.
    destruct (rmatch r1 (w ++ rest) c k) eqn:E; [discriminate|].
    exfalso. exact (proj1 IH1 c k Hk E).
  - split; [|discriminate]. intros c k Hk. simpl.
    destruct (rmatch r1 (w ++ rest) c k); [discriminate|].
    apply IH2, Hk.
  - assert (G : forall fuel c k, accepts k rest ->
                  star_loop (rmatch r) fuel (EmptyString ++ rest) c k <> None).
    { intros fuel c k Hk. simpl. destruct fuel as [|fuel]; simpl; [apply Hk|].
      destruct (rmatch r rest c _); [discriminate | apply Hk]. }
    split.
    + intros c k Hk. simpl. apply (G (String.length rest)), Hk.
    + intros r1 E fuel c k _ Hk. inversion E; subst r1. apply G, Hk.
  - assert (G : forall fuel c k, String.length ((w1 ++ w2) ++ rest) <= fuel ->
                  accepts k rest ->
                  star_loop (rmatch r) fuel ((w1 ++ w2) ++ rest) c k <> None).
    { intros fuel c k Hf Hk.
      destruct w1 as [|a w1].
      - simpl in *. apply (proj2 IH2 r eq_refl); auto.
      - destruct fuel as [|fuel]; [simpl in Hf; lia|].
        cbn [star_loop].
        match goal with
        | |- match ?X with _ => _ end <> None => destruct X eqn:E; [discriminate|]
        end.
        exfalso. revert E. rewrite append_assoc. apply (proj1 IH1).
        intros c'.
        assert (L : (String.length (w2 ++ rest)
                     <? String.length (String a w1 ++ w2 ++ rest))%nat = true).
        { apply Nat.ltb_lt. simpl. rewrite !length_append. lia. }
        rewrite L.
        apply (proj2 IH2 r eq_refl); [|exact Hk].
        simpl in Hf. rewrite !length_append in *. lia. }
    split.
    + intros c k Hk. simpl. apply G; [lia | exact Hk].
    + intros r1 E fuel c k Hf Hk. inversion E; subst r1. apply G; auto.
  - split; [|discriminate]. intros c k Hk. simpl.
    apply IH1. intros c'. apply Hk.
  - split; [|discriminate]. intros c k Hk. simpl. apply Hk.
Qed.

(** Whatever a pattern can match at the start of the input, it does match
    there: the match at the start succeeds. *)
Lemma match_start_complete (r : regex) (w rest : string) :
  matches r w rest -> match_start r (w ++ rest) <> None.
Proof.
  intros H. unfold match_start. apply (matches_complete r w rest H), accept_accepts.
Qed.

(** Success does not depend on the captures, and grows with the
    continuation. *)
Lemma rmatch_mono (r : regex) :
  forall s c c' k k',
    succeeds_where k k' -> rmatch r s c k <> None -> rmatch r s c' k' <> None.
Proof.
  intros s c c' k k' Hk H.
  destruct (rmatch r s c k) as [x|] eqn:E; [|contradiction].
  apply rmatch_matches in E. destruct E as (w & s' & c1 & -> & Hm & _ & E).
  apply (matches_complete r w s' Hm).
  intros c2. apply (Hk s' c1 c2). rewrite E. discriminate.
Qed.

End SuccessFacts.
(** ** Resolution and validation report stored rows only *)

Section ResolveFacts.
Import Regex Db StatuteId Validator.

Lemma shortest_title_none (rows : list legal_document) (best : option legal_document) :
  shortest_title best rows = None -> best = None /\ rows = [].
Proof.
  revert best. induction rows as [|r rows IH]; intros best H; simpl in H; auto.
  destruct best as [b|].
  - destruct (String.length (title r) <? String.length (title b))%nat;
      apply IH in H; destruct H; discriminate.
  - apply IH in H. destruct H; discriminate.
Qed.

Lemma select_shortest_none (cond : legal_document -> bool) (db : Database) :
  select_shortest cond db = None ->
  forall d, In d (legal_documents db) -> cond d = false.
Proof.
  unfold select_shortest. intros H d Hd.
  apply shortest_title_none in H. destruct H as [_ H].
  destruct (cond d) eqn:E; [|reflexivity].
  assert (Hin : In d (filter cond (legal_documents db)))
    by (apply filter_In; auto).
  rewrite H in Hin. contradiction.
Qed.

Lemma select_first_none (cond : legal_document -> bool) (db : Database) :
  select_first cond db = None ->
  forall d, In d (legal_documents db) -> cond d = false.
Proof. unfold select_first. intros H d Hd. exact (find_none _ _ H d Hd). Qed.

(** X1.  [resolveExistingStatuteId] does not throw.  An identifier it returns
    is the id of a stored document.  When a stored document has the input as
    its id, the input itself is returned, whatever the titles of the other
    documents.  It returns null only when no stored document has the input
    as its id, as its title up to ASCII case, or inside its title. *)
Theorem resolveExistingStatuteId_sound (db : Database) (inputId : string) :
  exists o,
    resolveExistingStatuteId db inputId = Ok o
    /\ (forall x, o = Some x -> exists d, In d (legal_documents db) /\ id d = x)
    /\ ((exists d, In d (legal_documents db) /\ id d = inputId) ->
        o = Some inputId)
    /\ (o = None ->
        forall d, In d (legal_documents db) ->
          id d <> inputId
          /\ LOWER (title d) <> LOWER inputId
          /\ LIKE (title d) ("%" ++ inputId ++ "%") = false).
Proof.
  destruct (resolveExistingStatuteId_stored db inputId) as (o & Ho & Hs).
  exists o. split; [exact Ho|]. split; [exact Hs|].
  unfold resolveExistingStatuteId in Ho.
  destruct (select_first (by_id inputId) db) as [d0|] eqn:E0.
  { inversion Ho; subst o. split.
    - intros _. apply select_first_in in E0. destruct E0 as [_ E0].
      apply String.eqb_eq in E0. rewrite E0. reflexivity.
    - discriminate. }
  split.
  { intros (d & Hd & Hid). exfalso.
    pose proof (select_first_none _ _ E0 d Hd) as N. unfold by_id in N.
    rewrite Hid, String.eqb_refl in N. discriminate. }
  intros Hnone. subst o.
  destruct (normalizeDocumentIdentifier_total inputId) as [n Hn].
  rewrite Hn in Ho. cbn [bind] in Ho.
  match type of Ho with
  | context [match ?X with Some d => Ok (Some (id d)) | None => _ end] =>
      destruct X as [d1|] eqn:E1; [discriminate|]
  end.
  match type of Ho with
  | context [match select_first ?C db with _ => _ end] =>
      destruct (select_first C db) as [d2|] eqn:E2; [discriminate|]
  end.
  match type of Ho with
  | context [match select_shortest ?C db with _ => _ end] =>
      destruct (select_shortest C db) as [d3|] eqn:E3; [discriminate|]
  end.
  intros d Hd.
  pose proof (select_first_none _ _ E0 d Hd) as N0.
  pose proof (select_first_none _ _ E2 d Hd) as N2.
  pose proof (select_shortest_none _ _ E3 d Hd) as N3.
  cbv beta in N2, N3.
  apply orb_false_iff in N2. destruct N2 as [N2 _].
  apply orb_false_iff in N3. destruct N3 as [N3 _].
  split; [|split].
  - intros E. unfold by_id in N0. rewrite E, String.eqb_refl in N0. discriminate.
  - intros E. rewrite E, String.eqb_refl in N2. discriminate.
  - exact N3.
Qed.

(** X2.  [validateCitation] reports nothing that is not stored.  When
    document_exists is true, the title and the status it reports are those of
    one stored document, and provision_exists is true only if a stored
    provision of that document has the cited article, with or without the
    prefix art, as its provision_ref or section.  The cited article is the
    number of the citation and, after a hyphen, its suffix: article 615 is
    not taken for article 615-ter.  When document_exists is false,
    provision_exists is false, no title and no status are reported, and
    there is exactly one warning. *)
Theorem validateCitation_sound (db : Database) (citation : string) :
  exists v,
    validateCitation db citation = Ok v
    /\ (document_exists v = true ->
        exists doc,
          In doc (legal_documents db)
          /\ document_title v = Some (title doc)
          /\ doc_status v = Some (status doc)
          /\ (provision_exists v = true ->
              exists p art,
                In p (legal_provisions db) /\ document_id p = id doc
                /\ Citation.article (Validator.citation v) = Some art
                /\ let token :=
                     Props.article_token art (Citation.suffix (Validator.citation v)) in
                   (provision_ref p = "art" ++ token
                    \/ section p = token
                    \/ provision_ref p = token
                    \/ section p = "art" ++ token)))
    /\ (document_exists v = false ->
        provision_exists v = false /\ document_title v = None
        /\ doc_status v = None /\ exists w, warnings v = [w]).
Proof.
  unfold validateCitation.
  destruct (parseCitation_total citation) as [parsed Hp]. rewrite Hp. cbn [bind].
  destruct (Citation.valid parsed); cbn [negb].
  2:{ eexists. split; [reflexivity|]. split; [discriminate|].
      intros _. cbn. repeat split; eauto. }
  destruct (resolve_document_stored db parsed) as (o & Ho & _).
  rewrite Ho. cbn [bind].
  assert (NF : forall what,
            document_exists (not_found parsed what) = false
            /\ provision_exists (not_found parsed what) = false
            /\ document_title (not_found parsed what) = None
            /\ doc_status (not_found parsed what) = None
            /\ exists w, warnings (not_found parsed what) = [w]).
  { intros what. cbn. repeat split; eauto. }
  assert (NF' : forall what,
            exists v, Ok (not_found parsed what) = Ok v
              /\ (document_exists v = true -> False)
              /\ (document_exists v = false ->
                  provision_exists v = false /\ document_title v = None
                  /\ doc_status v = None /\ exists w, warnings v = [w])).
  { intros what. destruct (NF what) as (N1 & N2). eexists. split; [reflexivity|].
    split; [rewrite N1; discriminate | intros _; exact N2]. }
  assert (Weaken : forall r : result ValidationResult,
            (exists v, r = Ok v
              /\ (document_exists v = true -> False)
              /\ (document_exists v = false ->
                  provision_exists v = false /\ document_title v = None
                  /\ doc_status v = None /\ exists w, warnings v = [w])) ->
            exists v, r = Ok v
              /\ (document_exists v = true ->
                  exists doc,
                    In doc (legal_documents db)
                    /\ document_title v = Some (title doc)
                    /\ doc_status v = Some (status doc)
                    /\ (provision_exists v = true ->
                        exists p art,
                          In p (legal_provisions db) /\ document_id p = id doc
                          /\ Citation.article (Validator.citation v) = Some art
                          /\ let token :=
                               Props.article_token art (Citation.suffix (Validator.citation v)) in
                             (provision_ref p = "art" ++ token
                              \/ section p = token
                              \/ provision_ref p = token
                              \/ section p = "art" ++ token)))
              /\ (document_exists v = false ->
                  provision_exists v = false /\ document_title v = None
                  /\ doc_status v = None /\ exists w, warnings v = [w])).
  { intros r (v & Hr & H1 & H2). exists v. split; [exact Hr|]. split; [|exact H2].
    intros E. destruct (H1 E). }
  destruct o as [[|a x]|]; [apply Weaken, NF' | | apply Weaken, NF'].
  destruct (select_first (by_id (String a x)) db) as [doc|] eqn:Ef;
    [|apply Weaken, NF'].
  apply select_first_in in Ef. destruct Ef as [Hin _].
  destruct (Citation.article parsed) as [[|b art]|] eqn:Ea.
  - eexists. split; [reflexivity|]. split; [|discriminate].
    intros _. exists doc. cbn. repeat split; auto. discriminate.
  - eexists. split; [reflexivity|]. split; [|discriminate].
    intros _. exists doc. cbn [document_title doc_status provision_exists Validator.citation].
    split; [exact Hin|]. split; [reflexivity|]. split; [reflexivity|].
    intros Ex. apply existsb_exists in Ex. destruct Ex as (p & Hpin & Hrow).
    apply provision_row_spec in Hrow. destruct Hrow as [Hdoc Hany].
    rewrite article_ref_token in Hany.
    exists p, (String b art). split; [exact Hpin|]. split; [exact Hdoc|].
    split; [exact Ea|]. cbv zeta. tauto.
  - eexists. split; [reflexivity|]. split; [|discriminate].
    intros _. exists doc. cbn. repeat split; auto. discriminate.
Qed.

(** The validator at the penal code with its article 615 alone, cited for
    article 615-ter and for article 615. *)
Example validateCitation_suffix_scenario :
  let db :=
    {| legal_documents :=
         [ {| id := "rd-1398-1930"; title := "Codice Penale";
              short_name := None; status := "in_force" |} ];
       legal_provisions :=
         [ {| document_id := "rd-1398-1930"; provision_ref := "art615";
              section := "615" |} ] |} in
  (exists v, validateCitation db "Art. 615-ter, Codice Penale" = Ok v
             /\ document_exists v = true /\ provision_exists v = false
             /\ warnings v = ["Article 615-ter not found in Codice Penale"])
  /\ (exists v, validateCitation db "Art. 615, Codice Penale" = Ok v
                /\ document_exists v = true /\ provision_exists v = true
                /\ warnings v = []).
Proof.
  intros db. split; eexists; (split; [vm_compute; reflexivity|]);
    repeat split; reflexivity.
Qed.

End ResolveFacts.
(** ** More on the helpers of the database builder *)

Section WhitespaceFacts.
Import BuildDb Spec Sem Props.

Lemma collapse_from_spaced (s : string) :
  forall b,
    single_spaced (Js.collapse_from b s) = true
    /\ (b = true -> starts_in Js.is_space (Js.collapse_from b s) = false).
Proof.
  induction s as [|a s IH]; intros b; cbn [Js.collapse_from].
  - split; reflexivity.
  - destruct (Js.is_space a) eqn:Ea.
    + destruct b.
      * apply IH.
      * destruct (IH true) as [H1 H2]. split; [|discriminate].
        cbn [single_spaced]. rewrite H1, (H2 eq_refl). reflexivity.
    + destruct (IH false) as [H1 _]. split.
      * cbn [single_spaced]. rewrite Ea, H1. reflexivity.
      * intros _. cbn [starts_in]. exact Ea.
Qed.

Lemma single_spaced_tail (a : ascii) (s : string) :
  single_spaced (String a s) = true -> single_spaced s = true.
Proof. cbn [single_spaced]. intros H. apply andb_prop in H. apply H. Qed.

Lemma single_spaced_trimStart (s : string) :
  single_spaced s = true -> single_spaced (Js.trimStart s) = true.
Proof.
  induction s as [|a s IH]; intros H; cbn [Js.trimStart]; auto.
  destruct (Js.is_space a); auto. apply IH. eapply single_spaced_tail; eauto.
Qed.

Lemma trimEnd_starts (p : ascii -> bool) (s : string) :
  starts_in p s = false -> starts_in p (Js.trimEnd s) = false.
Proof.
  destruct s as [|a s]; cbn [Js.trimEnd starts_in]; auto.
  intros H. destruct (Js.trimEnd s); [destruct (Js.is_space a)|]; cbn; auto.
Qed.

Lemma single_spaced_trimEnd (s : string) :
  single_spaced s = true -> single_spaced (Js.trimEnd s) = true.
Proof.
  induction s as [|a s IH]; intros H; cbn [Js.trimEnd]; auto.
  pose proof (single_spaced_tail _ _ H) as Hs. specialize (IH Hs).
  cbn [single_spaced] in H. apply andb_prop in H. destruct H as [Ha _].
  destruct (Js.trimEnd s) as [|b t] eqn:Et.
  - destruct (Js.is_space a) eqn:Ea; [reflexivity|].
    cbn [single_spaced]. rewrite Ea. reflexivity.
  - cbn [single_spaced] in *. rewrite IH, andb_true_r.
    destruct (Js.is_space a); [|reflexivity].
    apply andb_prop in Ha. destruct Ha as [Ha1 Ha2]. rewrite Ha1. cbn [andb].
    apply negb_true_iff in Ha2. apply (trimEnd_starts Js.is_space) in Ha2.
    rewrite Et in Ha2. rewrite Ha2. reflexivity.
Qed.

Lemma collapse_single_spaced (s : string) :
  single_spaced s = true -> Js.collapse_from false s = s.
Proof.
  induction s as [|a s IH]; intros H; cbn [Js.collapse_from]; auto.
  pose proof (single_spaced_tail _ _ H) as Hs.
  cbn [single_spaced] in H. apply andb_prop in H. destruct H as [Ha _].
  destruct (Js.is_space a) eqn:Ea.
  - apply andb_prop in Ha. destruct Ha as [Ha1 Ha2].
    apply Ascii.eqb_eq in Ha1. subst a. f_equal.
    apply negb_true_iff in Ha2.
    destruct s as [|b s]; [reflexivity|]. cbn [starts_in] in Ha2.
    cbn [Js.collapse_from]. rewrite Ha2. f_equal.
    specialize (IH Hs). cbn [Js.collapse_from] in IH. rewrite Ha2 in IH.
    inversion IH as [E]. rewrite E. exact E.
  - f_equal. auto.
Qed.

(** X3.  [normalizeWhitespace] is idempotent.  In its result white space
    occurs only as single spaces between other characters: the result is its
    own trim and its own collapse. *)
Theorem normalizeWhitespace_idempotent (text : string) :
  let n := normalizeWhitespace text in
  normalizeWhitespace n = n
  /\ Js.trim n = n
  /\ Js.collapse_spaces n = n
  /\ single_spaced n = true.
Proof.
  intros n. subst n. unfold normalizeWhitespace.
  assert (S : single_spaced (Js.trim (Js.collapse_spaces text)) = true).
  { unfold Js.trim, Js.collapse_spaces.
    apply single_spaced_trimEnd, single_spaced_trimStart, collapse_from_spaced. }
  assert (C : Js.collapse_spaces (Js.trim (Js.collapse_spaces text))
              = Js.trim (Js.collapse_spaces text))
    by (apply collapse_single_spaced, S).
  rewrite C, trim_idempotent. auto.
Qed.

End WhitespaceFacts.

Section NormalFormFacts.
Import BuildDb Spec Sem Props.

Lemma trimEnd_cons (a : ascii) (s : string) :
  Js.is_space a = false -> Js.trimEnd (String a s) = String a (Js.trimEnd s).
Proof.
  intros Ha. cbn [Js.trimEnd]. rewrite Ha. destruct (Js.trimEnd s); reflexivity.
Qed.

Lemma words_nonempty (a : ascii) (s : string) :
  Js.is_space a = false -> words (String a s) <> [].
Proof.
  intros Ha. cbn [words]. rewrite Ha.
  destruct (words s); [discriminate|].
  destruct (starts_in Js.is_space s); discriminate.
Qed.

Lemma words_no_empty (s : string) : ~ In EmptyString (words s).
Proof.
  induction s as [|a s IH]; cbn [words]; [intros []|].
  destruct (Js.is_space a); [exact IH|].
  destruct (words s) as [|w ws]; [intros [H|[]]; discriminate|].
  destruct (starts_in Js.is_space s); intros [H|H]; try discriminate;
    apply IH; [exact H | right; exact H].
Qed.

Lemma normalized_empty (s : string) :
  normalized s = EmptyString -> words s = [].
Proof.
  unfold normalized. pose proof (words_no_empty s) as N.
  destruct (words s) as [|w ws]; [reflexivity|].
  intros H. exfalso. apply N. left.
  destruct w as [|b w]; [reflexivity|].
  cbn [String.concat] in H. destruct ws; discriminate.
Qed.

(** The collapse of a text, trimmed at its end, in terms of its words. *)
Lemma trimEnd_collapse (s : string) :
  Js.trimEnd (Js.collapse_from true s) = normalized s
  /\ Js.trimEnd (Js.collapse_from false s)
     = if starts_in Js.is_space s
       then match words s with
            | [] => EmptyString
            | _ => String " " (normalized s)
            end
       else normalized s.
Proof.
  induction s as [|a s [IHt IHf]]; [split; reflexivity|].
  cbn [Js.collapse_from starts_in]. destruct (Js.is_space a) eqn:Ea.
  - assert (W : words (String a s) = words s) by (cbn [words]; rewrite Ea; reflexivity).
    assert (N : normalized (String a s) = normalized s)
      by (unfold normalized; rewrite W; reflexivity).
    rewrite N, W. split; [exact IHt|].
    cbn [Js.trimEnd]. rewrite IHt.
    destruct (words s) as [|w ws] eqn:Ew.
    + unfold normalized. rewrite Ew. reflexivity.
    + destruct (normalized s) eqn:En; [|reflexivity].
      apply normalized_empty in En. congruence.
  - assert (G : Js.trimEnd (String a (Js.collapse_from false s))
                = normalized (String a s)).
    { rewrite (trimEnd_cons a _ Ea), IHf.
      unfold normalized. cbn [words]. rewrite Ea.
      destruct (starts_in Js.is_space s) eqn:Es.
      - destruct (words s) as [|w ws]; reflexivity.
      - destruct s as [|b s]; [reflexivity|]. cbn [starts_in] in Es.
        pose proof (words_nonempty b s Es) as Hne.
        destruct (words (String b s)) as [|w ws]; [contradiction|].
        cbn [String.concat]. destruct ws; reflexivity. }
    split; exact G.
Qed.

(** [normalizeWhitespace] gives the words of the text separated by single
    spaces. *)
Lemma normalizeWhitespace_words (s : string) :
  normalizeWhitespace s = normalized s.
Proof.
  unfold normalizeWhitespace, Js.trim, Js.collapse_spaces.
  assert (G : forall b, Js.trimEnd (Js.trimStart (Js.collapse_from b s))
                        = normalized s).
  { induction s as [|a s IH]; intros b; [reflexivity|].
    cbn [Js.collapse_from]. destruct (Js.is_space a) eqn:Ea.
    - assert (N : normalized (String a s) = normalized s)
        by (unfold normalized; cbn [words]; rewrite Ea; reflexivity).
      rewrite N. destruct b; [apply IH|].
      cbn [Js.trimStart].
      change (Js.is_space " ") with true. cbv iota. apply IH.
    - cbn [Js.trimStart]. rewrite Ea.
      destruct (trimEnd_collapse (String a s)) as [_ H].
      cbn [Js.collapse_from starts_in] in H. rewrite Ea in H. exact H. }
  apply G.
Qed.

Lemma body_length_normalized (p : ProvisionSeed) :
  body_length p = normalized_length p.
Proof.
  unfold body_length, normalized_length. rewrite normalizeWhitespace_words.
  reflexivity.
Qed.

End NormalFormFacts.

Section DedupeStats.
Import BuildDb Spec Sem Props.

Lemma length_set {V : Type} (m : JsMap.t V) (k : string) (v : V) :
  List.length (JsMap.set m k v)
  = match JsMap.get m k with
    | Some _ => List.length m
    | None => S (List.length m)
    end.
Proof.
  induction m as [|[k' v'] m IH]; simpl; [reflexivity|].
  destruct (String.eqb k' k); simpl; [reflexivity|].
  rewrite IH. destruct (JsMap.get m k); reflexivity.
Qed.

Lemma dedupe_step_count (m : JsMap.t ProvisionSeed) (st : ProvisionDedupStats)
      (p : ProvisionSeed) :
  let (m', st') := dedupe_step (m, st) p in
  duplicate_refs st' + List.length m' = S (duplicate_refs st + List.length m)
  /\ conflicting_duplicates st <= conflicting_duplicates st'
  /\ duplicate_refs st <= duplicate_refs st'
  /\ conflicting_duplicates st' - conflicting_duplicates st
     <= duplicate_refs st' - duplicate_refs st.
Proof.
  unfold dedupe_step. fold (token p).
  destruct (JsMap.get m (token p)) as [e|] eqn:E.
  - rewrite length_set, E. cbn [duplicate_refs conflicting_duplicates].
    destruct (negb _); lia.
  - rewrite length_set, E. lia.
Qed.

Lemma dedupe_fold_count (l : list ProvisionSeed) :
  forall m st,
    let (m', st') := fold_left dedupe_step l (m, st) in
    duplicate_refs st' + List.length m'
    = duplicate_refs st + List.length m + List.length l
    /\ conflicting_duplicates st <= conflicting_duplicates st'
    /\ duplicate_refs st <= duplicate_refs st'
    /\ conflicting_duplicates st' - conflicting_duplicates st
       <= duplicate_refs st' - duplicate_refs st.
Proof.
  induction l as [|p l IH]; intros m st; cbn [fold_left List.length].
  - lia.
  - pose proof (dedupe_step_count m st p) as H.
    destruct (dedupe_step (m, st) p) as [m1 st1].
    specialize (IH m1 st1).
    destruct (fold_left dedupe_step l (m1, st1)) as [m2 st2]. lia.
Qed.

(** One survivor for every trimmed reference of the input. *)
Lemma dedupe_survivor_tokens (provisions : list ProvisionSeed) :
  NoDup (map token (fst (dedupeProvisions provisions)))
  /\ (forall r, In r (map token provisions)
                <-> In r (map token (fst (dedupeProvisions provisions)))).
Proof.
  rewrite dedupe_values.
  set (init := (@nil (string * ProvisionSeed),
                {| duplicate_refs := 0; conflicting_duplicates := 0 |})).
  destruct (dedupe_fold_keys provisions init) as [Hnd Hkeys]; [constructor|].
  set (m := fst (fold_left dedupe_step provisions init)) in *.
  assert (Htok : forall k s, In (k, s) m -> token s = k).
  { intros k s Hin. apply in_get_some in Hin; auto.
    unfold m in Hin. rewrite dedupe_fold_get in Hin.
    eapply merge_token; eauto. discriminate. }
  assert (Hmap : map token (JsMap.values m) = JsMap.keys m).
  { unfold JsMap.values, JsMap.keys. rewrite map_map.
    apply map_ext_in. intros [k s] Hin. simpl. apply Htok, Hin. }
  rewrite Hmap. split; [exact Hnd|].
  intros r. rewrite Hkeys. simpl. intuition auto.
Qed.

(** X4.  The statistics of [dedupeProvisions] account for every provision:
    the number of duplicate references and the number of survivors add up to
    the number of provisions read; the conflicting duplicates are among the
    duplicates; and no duplicate is counted exactly when the trimmed
    references of the input are pairwise distinct. *)
Theorem dedupeProvisions_accounts (provisions : list ProvisionSeed) :
  let deduped := fst (dedupeProvisions provisions) in
  let stats := snd (dedupeProvisions provisions) in
  duplicate_refs stats + List.length deduped = List.length provisions
  /\ conflicting_duplicates stats <= duplicate_refs stats
  /\ (duplicate_refs stats = 0 <-> NoDup (map token provisions)).
Proof.
  intros deduped stats.
  pose proof (dedupe_fold_count provisions []
                {| duplicate_refs := 0; conflicting_duplicates := 0 |}) as H.
  destruct (dedupe_survivor_tokens provisions) as (Hnd & Hsame).
  fold deduped in Hnd, Hsame.
  assert (E : deduped = JsMap.values (fst (fold_left dedupe_step provisions
                ([], {| duplicate_refs := 0; conflicting_duplicates := 0 |}))))
    by apply dedupe_values.
  assert (Es : stats = snd (fold_left dedupe_step provisions
                ([], {| duplicate_refs := 0; conflicting_duplicates := 0 |}))).
  { unfold stats, dedupeProvisions.
    destruct (fold_left dedupe_step provisions _); reflexivity. }
  destruct (fold_left dedupe_step provisions _) as [m st].
  cbn [fst snd] in E, Es. subst stats. rewrite Es.
  assert (L : List.length deduped = List.length m)
    by (rewrite E; unfold JsMap.values; apply length_map).
  cbn [duplicate_refs conflicting_duplicates List.length] in H.
  split; [lia|]. split; [lia|].
  assert (Lp : List.length (map token provisions) = List.length provisions)
    by apply length_map.
  assert (Ld : List.length (map token deduped) = List.length deduped)
    by apply length_map.
  split.
  - intros Z. apply (NoDup_incl_NoDup Hnd); [lia|].
    intros r Hr. apply Hsame, Hr.
  - intros Hp.
    assert (List.length (map token provisions) <= List.length (map token deduped)).
    { apply NoDup_incl_length; [exact Hp|]. intros r Hr. apply Hsame, Hr. }
    lia.
Qed.

End DedupeStats.

Section DedupeFields.
Import BuildDb Spec Sem Props.

Ltac splits := repeat match goal with |- _ /\ _ => split end.

Lemma same_text_refl (p : ProvisionSeed) : same_text p p.
Proof. unfold same_text; auto. Qed.

Lemma same_text_with_title (p : ProvisionSeed) (t : option string) :
  same_text (with_title p t) p.
Proof. unfold same_text; auto. Qed.

Lemma same_text_with_ref (p : ProvisionSeed) (r : string) :
  same_text (with_ref p r) p.
Proof. unfold same_text; auto. Qed.

Lemma same_text_trans (a b c : ProvisionSeed) :
  same_text a b -> same_text b c -> same_text a c.
Proof.
  unfold same_text. intros (A1 & A2 & A3 & A4) (B1 & B2 & B3 & B4).
  repeat split; congruence.
Qed.

Lemma merge_longest_fields (k : string) (l : list ProvisionSeed) :
  forall e s,
    fold_left (merge k) l (Some e) = Some s ->
    (same_text s e /\ provision_ref s = provision_ref e
     /\ forall x, In x l -> token x = k -> body_length x <= body_length e)
    \/ exists pre p post,
         l = app pre (p :: post) /\ token p = k /\ same_text s p
         /\ provision_ref s = provision_ref p
         /\ body_length e < body_length p
         /\ (forall x, In x pre -> token x = k -> body_length x < body_length p)
         /\ (forall x, In x post -> token x = k -> body_length x <= body_length p).
Proof.
  induction l as [|x l IH]; intros e s H; simpl in H.
  - inversion H; subst. left. splits; auto using same_text_refl.
    intros x [].
  - unfold merge at 2 in H. destruct (String.eqb (token x) k) eqn:E.
    + apply String.eqb_eq in E.
      destruct (pick_cases e x) as [[Hlt Hp]|[Hle Hp]]; rewrite Hp in H;
        apply IH in H; rewrite body_length_with_title in H.
      * right.
        destruct H as [(Hc & Hr & Hall)
                      |(pre & p & post & Hl & Hk & Hc & Hr & Hlt' & Hpre & Hpost)].
        -- exists [], x, l. splits; auto. intros y [].
        -- exists (x :: pre), p, post. subst l. splits; auto; try lia.
           intros y [Hy|Hy] Hyk; [subst y; lia | auto].
      * destruct H as [(Hc & Hr & Hall)
                      |(pre & p & post & Hl & Hk & Hc & Hr & Hlt' & Hpre & Hpost)].
        -- left. splits; auto.
           intros y [Hy|Hy] Hyk; [subst y; lia | auto].
        -- right. exists (x :: pre), p, post. subst l. splits; auto.
           intros y [Hy|Hy] Hyk; [subst y; lia | auto].
    + apply String.eqb_neq in E. apply IH in H.
      destruct H as [(Hc & Hr & Hall)
                    |(pre & p & post & Hl & Hk & Hc & Hr & Hlt' & Hpre & Hpost)].
      * left. splits; auto.
        intros y [Hy|Hy] Hyk; [subst y; contradiction | auto].
      * right. exists (x :: pre), p, post. subst l. splits; auto.
        intros y [Hy|Hy] Hyk; [subst y; contradiction | auto].
Qed.

Lemma merge_first_fields (k : string) (l : list ProvisionSeed) (s : ProvisionSeed) :
  fold_left (merge k) l None = Some s ->
  exists pre p post,
    l = app pre (p :: post) /\ token p = k /\ same_text s p
    /\ (forall x, In x pre -> token x = k -> body_length x < body_length p)
    /\ (forall x, In x post -> token x = k -> body_length x <= body_length p)
    /\ ((forall x, In x pre -> token x <> k) -> provision_ref s = k)
    /\ ((exists x, In x pre /\ token x = k) -> provision_ref s = provision_ref p).
Proof.
  induction l as [|x l IH]; intros H; simpl in H; [discriminate|].
  unfold merge at 2 in H. destruct (String.eqb (token x) k) eqn:E.
  - apply String.eqb_eq in E. apply merge_longest_fields in H.
    rewrite body_length_with_ref in H. cbn [provision_ref with_ref] in H.
    destruct H as [(Hc & Hr & Hall)
                  |(pre & p & post & Hl & Hk & Hc & Hr & Hlt' & Hpre & Hpost)].
    + exists [], x, l. splits; auto.
      * intros y [].
      * intros (y & [] & _).
    + exists (x :: pre), p, post. subst l. splits; auto.
      * intros y [Hy|Hy] Hyk; [subst y; lia | auto].
      * intros Hnone. exfalso. apply (Hnone x); simpl; auto.
  - apply String.eqb_neq in E. apply IH in H.
    destruct H as (pre & p & post & Hl & Hk & Hc & Hpre & Hpost & Hfirst & Hlater).
    exists (x :: pre), p, post. subst l. splits; auto.
    + intros y [Hy|Hy] Hyk; [subst y; contradiction | auto].
    + intros Hnone. apply Hfirst. intros y Hy. apply Hnone. simpl; auto.
    + intros (y & [Hy|Hy] & Hyk); [subst y; contradiction|].
      apply Hlater. eauto.
Qed.

(** X5.  A survivor of [dedupeProvisions] has the chapter, the section, the
    body and the metadata of the winning provision of its reference: the
    first one whose body is longest once its words are separated by single
    spaces, whatever the white space it was written with.  Its provision_ref
    is the trimmed reference when the winner is the first provision of that
    reference; when a later duplicate wins, the survivor keeps the
    provision_ref of that duplicate as it was written, untrimmed. *)
Theorem dedupeProvisions_survivor_fields (provisions : list ProvisionSeed)
        (s : ProvisionSeed) :
  In s (fst (dedupeProvisions provisions)) ->
  exists pre p post,
    provisions = app pre (p :: post)
    /\ token p = token s /\ same_text s p
    /\ (forall x, In x pre -> token x = token s ->
          normalized_length x < normalized_length p)
    /\ (forall x, In x post -> token x = token s ->
          normalized_length x <= normalized_length p)
    /\ ((forall x, In x pre -> token x <> token s) -> provision_ref s = token s)
    /\ ((exists x, In x pre /\ token x = token s) ->
        provision_ref s = provision_ref p).
Proof.
  rewrite dedupe_values.
  set (init := (@nil (string * ProvisionSeed),
                {| duplicate_refs := 0; conflicting_duplicates := 0 |})).
  destruct (dedupe_fold_keys provisions init) as [Hnd Hkeys]; [constructor|].
  set (m := fst (fold_left dedupe_step provisions init)) in *.
  intros Hs. unfold JsMap.values in Hs. apply in_map_iff in Hs.
  destruct Hs as ([k s'] & Hs' & Hin). simpl in Hs'; subst s'.
  apply in_get_some in Hin; auto.
  unfold m in Hin. rewrite dedupe_fold_get in Hin. cbn [fst init JsMap.get] in Hin.
  assert (Hk : token s = k) by (eapply merge_token; eauto; discriminate).
  rewrite Hk.
  destruct (merge_first_fields k provisions s Hin)
    as (pre & p & post & Hl & Hp & Hsame & Hpre & Hpost & Hfirst & Hlater).
  exists pre, p, post. splits; auto.
  - intros x Hx Hxk. rewrite <- !body_length_normalized. auto.
  - intros x Hx Hxk. rewrite <- !body_length_normalized. auto.
Qed.

(** The theorem at three provisions of one reference.  The second is written
    with runs of spaces and is the longest as written, but not once
    normalized; the third is written with surrounding spaces in its
    reference and has the longest normalized body: it wins, and the survivor
    keeps the spaces of its reference. *)
Lemma dedupeProvisions_survivor_fields_witness :
  let first := {| provision_ref := "art1"; chapter := None; section := "1";
                  title := Some "Oggetto"; content := "Il trattamento dei dati.";
                  metadata := None |} in
  let second := {| provision_ref := "art1"; chapter := None; section := "1";
                   title := Some "";
                   content := "Il      trattamento            dati.";
                   metadata := None |} in
  let third := {| provision_ref := " art1 "; chapter := None; section := "1";
                  title := Some "";
                  content := "Il trattamento dei dati personali.";
                  metadata := None |} in
  map normalized_length [first; second; third] = [24; 20; 34]
  /\ map content (fst (dedupeProvisions [first; second])) = [content first]
  /\ map provision_ref (fst (dedupeProvisions [first; second; third]))
     = [" art1 "]
  /\ exists s pre p post,
       In s (fst (dedupeProvisions [first; second; third]))
       /\ [first; second; third] = app pre (p :: post)
       /\ same_text s p
       /\ (forall x, In x pre -> token x = token s ->
             normalized_length x < normalized_length p).
Proof.
  intros first second third.
  split; [reflexivity|]. split; [reflexivity|]. split; [reflexivity|].
  set (s := {| provision_ref := " art1 "; chapter := None; section := "1";
               title := Some "";
               content := "Il trattamento dei dati personali.";
               metadata := None |}).
  assert (Hin : In s (fst (dedupeProvisions [first; second; third])))
    by (left; reflexivity).
  destruct (dedupeProvisions_survivor_fields [first; second; third] s Hin)
    as (pre & p & post & Hl & _ & Hsame & Hpre & _).
  exists s, pre, p, post. auto.
Defined.

End DedupeFields.
(** ** The crawl of one act *)

Section CrawlFacts.
Import Fetcher Spec Props.

(** What [fetchWithSession] returns is decided by the answers of the network
    alone: the answer to the request after the last retry. *)
Lemma fetchWithSession_result (url : string) (world : nat -> outcome) (st : session) :
  fst (fetchWithSession url 3 world st)
  = match world (retries world 0 3) with
    | Rejected reason => Throw reason
    | Responded r => Ok (result_of r)
    end.
Proof.
  unfold fetchWithSession.
  destruct (attempts_spec url world 3 3 0 (emit RateLimit st) eq_refl)
    as (new & _ & _ & _ & _ & _ & _ & H).
  cbn [Nat.add] in H. destruct (world (retries world 0 3)); exact H.
Qed.

Lemma fetch_article_result (world : string -> nat -> outcome) (u : string)
      (st : session) :
  match fst (fetch_article world u st) with
  | Some a => [a]
  | None => []
  end = delivered world u.
Proof.
  unfold fetch_article, delivered.
  pose proof (fetchWithSession_result u (world u) st) as H.
  destruct (fetchWithSession u 3 (world u) st) as [[result|e] st']; cbn [fst] in H.
  - destruct (world u (retries (world u) 0 3)) as [reason|r]; [discriminate|].
    inversion H; subst result. cbn [result_of status body].
    destruct ((resp_status r =? 200)%nat && (100 <? String.length (resp_text r))%nat);
      reflexivity.
  - destruct (world u (retries (world u) 0 3)) as [reason|r]; [|discriminate].
    reflexivity.
Qed.

Lemma fetch_batch_result (world : string -> nat -> outcome) (batch : list string) :
  forall st,
    successes (fst (fetch_batch world batch st)) = flat_map (delivered world) batch.
Proof.
  induction batch as [|u batch IH]; intros st; cbn [fetch_batch]; [reflexivity|].
  pose proof (fetch_article_result world u st) as H.
  destruct (fetch_article world u st) as [r st1]. cbn [fst] in H.
  specialize (IH st1).
  destruct (fetch_batch world batch st1) as [rs st2]. cbn [fst] in *.
  cbn [successes flat_map]. fold (successes rs). rewrite IH, <- H. reflexivity.
Qed.

Lemma fetch_batches_result (world : string -> nat -> outcome) (fuel : nat) :
  forall urls results st,
    List.length urls <= fuel ->
    fst (fetch_batches fuel world urls results st)
    = app results (flat_map (delivered world) urls).
Proof.
  induction fuel as [|fuel IH]; intros urls results st Hlen.
  - destruct urls; [|simpl in Hlen; lia]. cbn. rewrite app_nil_r. reflexivity.
  - destruct urls as [|u urls]; [cbn; rewrite app_nil_r; reflexivity|].
    cbn [fetch_batches].
    pose proof (fetch_batch_result world (firstn ARTICLE_CONCURRENCY (u :: urls)) st) as H.
    destruct (fetch_batch world (firstn ARTICLE_CONCURRENCY (u :: urls)) st)
      as [batchResults st'].
    cbn [fst] in H. rewrite IH.
    + rewrite H, <- app_assoc, <- flat_map_app, firstn_skipn. reflexivity.
    + unfold ARTICLE_CONCURRENCY. rewrite length_skipn. simpl in *. lia.
Qed.

(** X6.  What [fetchAllArticles] returns is decided by the last answer to the
    landing page and the last answers to the article URLs.  A rejected
    landing request rethrows; a landing page whose status is not 200 throws;
    otherwise the result lists, in the order of [extractArticleUrls], the
    article URLs whose last answer is a 200 page of more than 100
    characters, and nothing else.  Fetching in batches of four changes
    neither the articles nor their order. *)
Theorem fetchAllArticles_delivers (urn : string)
        (world : string -> nat -> outcome) (st : session) :
  fst (fetchAllArticles urn world st)
  = match world (landing_url urn) (retries (world (landing_url urn)) 0 3) with
    | Rejected reason => Throw reason
    | Responded r =>
        if (resp_status r =? 200)%nat
        then Ok (flat_map (delivered world) (extractArticleUrls (resp_text r)))
        else Throw ("Landing page returned HTTP "
                    ++ Js.number_to_string (Js.Num (Z.of_nat (resp_status r))))
    end.
Proof.
  unfold fetchAllArticles. fold (landing_url urn).
  set (st0 := {| sessionCookies := []; trace := trace st |}).
  pose proof (fetchWithSession_result (landing_url urn) (world (landing_url urn)) st0) as H.
  destruct (fetchWithSession (landing_url urn) 3 (world (landing_url urn)) st0)
    as [[landing|e] st']; cbn [fst] in H.
  - destruct (world (landing_url urn) (retries (world (landing_url urn)) 0 3))
      as [reason|r]; [discriminate|].
    inversion H; subst landing. cbn [result_of status body].
    destruct (resp_status r =? 200)%nat; cbn [negb]; [|reflexivity].
    destruct (extractArticleUrls (resp_text r)) as [|u urls] eqn:E; [reflexivity|].
    pose proof (fetch_batches_result world (List.length (u :: urls)) (u :: urls)
                  [] st' (le_n _)) as B.
    destruct (fetch_batches (List.length (u :: urls)) world (u :: urls) [] st')
      as [results st''].
    cbn [fst] in *. rewrite B. reflexivity.
  - destruct (world (landing_url urn) (retries (world (landing_url urn)) 0 3))
      as [reason|r]; [|discriminate].
    inversion H; subst e. reflexivity.
Qed.

End CrawlFacts.

Section CrawlTrace.
Import Fetcher Spec Props.

(** One call adds to the trace the wait at the gate and then between one and
    four requests, the first with the cookies the session holds. *)
Lemma fetchWithSession_trace (url : string) (world : nat -> outcome) (st : session) :
  exists rest,
    trace (snd (fetchWithSession url 3 world st))
    = app (trace st) (RateLimit :: Request url (cookie_header st) :: rest)
    /\ request_count rest <= 3.
Proof.
  unfold fetchWithSession. rewrite attempts_step.
  assert (C : cookie_header (emit RateLimit st) = cookie_header st) by reflexivity.
  rewrite C.
  destruct (world 0) as [reason|r].
  - exists []. cbn. rewrite <- app_assoc. split; [reflexivity | lia].
  - cbv zeta.
    destruct (transient (resp_status r) && (0 <? 3)%nat).
    + destruct (attempts_spec url world 3 2 1
                  (emit (Backoff (backoff 0))
                     (capture_cookies r
                        (emit (Request url (cookie_header st)) (emit RateLimit st))))
                  eq_refl) as (new & Htr & Hn & Hreq & _).
      cbv zeta in Htr. rewrite Htr.
      exists (Backoff (backoff 0) :: new). cbn [emit trace capture_cookies].
      rewrite <- !app_assoc. split; [reflexivity|].
      cbn [request_count]. lia.
    + exists []. cbn. rewrite <- app_assoc. split; [reflexivity | lia].
Qed.

Lemma fetch_article_trace (world : string -> nat -> outcome) (u : string)
      (st : session) :
  exists new,
    trace (snd (fetch_article world u st)) = app (trace st) new
    /\ request_count new <= 4.
Proof.
  unfold fetch_article.
  destruct (fetchWithSession_trace u (world u) st) as (rest & Htr & Hn).
  destruct (fetchWithSession u 3 (world u) st) as [[result|e] st']; cbn [snd] in Htr.
  - destruct ((status result =? 200)%nat && _); cbn [snd];
      (eexists; split; [exact Htr | cbn [request_count]; lia]).
  - cbn [snd]. eexists; split; [exact Htr | cbn [request_count]; lia].
Qed.

Lemma fetch_batch_trace (world : string -> nat -> outcome) (batch : list string) :
  forall st,
    exists new,
      trace (snd (fetch_batch world batch st)) = app (trace st) new
      /\ request_count new <= 4 * List.length batch.
Proof.
  induction batch as [|u batch IH]; intros st; cbn [fetch_batch].
  - exists []. rewrite app_nil_r. split; [reflexivity | cbn; lia].
  - destruct (fetch_article_trace world u st) as (n1 & H1 & C1).
    destruct (fetch_article world u st) as [r st1]. cbn [snd] in H1.
    destruct (IH st1) as (n2 & H2 & C2).
    destruct (fetch_batch world batch st1) as [rs st2]. cbn [snd] in *.
    exists (app n1 n2). rewrite H2, H1, <- app_assoc. split; [reflexivity|].
    rewrite request_count_app. cbn [List.length]. lia.
Qed.

Lemma fetch_batches_trace (world : string -> nat -> outcome) (fuel : nat) :
  forall urls results st,
    exists new,
      trace (snd (fetch_batches fuel world urls results st)) = app (trace st) new
      /\ request_count new <= 4 * List.length urls.
Proof.
  induction fuel as [|fuel IH]; intros urls results st.
  - exists []. cbn. rewrite app_nil_r. split; [reflexivity | lia].
  - destruct urls as [|u urls].
    { exists []. cbn. rewrite app_nil_r. split; [reflexivity | lia]. }
    cbn [fetch_batches].
    destruct (fetch_batch_trace world (firstn ARTICLE_CONCURRENCY (u :: urls)) st)
      as (n1 & H1 & C1).
    destruct (fetch_batch world (firstn ARTICLE_CONCURRENCY (u :: urls)) st)
      as [batchResults st']. cbn [snd] in H1.
    destruct (IH (skipn ARTICLE_CONCURRENCY (u :: urls))
                 (app results (successes batchResults)) st') as (n2 & H2 & C2).
    exists (app n1 n2). rewrite H2, H1, <- app_assoc. split; [reflexivity|].
    rewrite request_count_app.
    assert (L : List.length (firstn ARTICLE_CONCURRENCY (u :: urls))
                + List.length (skipn ARTICLE_CONCURRENCY (u :: urls))
                = List.length (u :: urls))
      by (rewrite <- length_app, firstn_skipn; reflexivity).
    lia.
Qed.

(** X7.  [fetchAllArticles] starts every act with an empty cookie jar: the
    first thing it does is to wait at the gate and to request the landing
    page with no Cookie header, whatever cookies the session held before.
    In all it sends at most four requests for the landing page and at most
    four for every article URL of that page. *)
Theorem fetchAllArticles_fresh_session (urn : string)
        (world : string -> nat -> outcome) (st : session) :
  exists rest,
    trace (snd (fetchAllArticles urn world st))
    = app (trace st) (RateLimit :: Request (landing_url urn) None :: rest)
    /\ request_count rest
       <= 3 + 4 * match world (landing_url urn)
                        (retries (world (landing_url urn)) 0 3) with
                  | Responded r =>
                      if (resp_status r =? 200)%nat
                      then List.length (extractArticleUrls (resp_text r))
                      else 0
                  | Rejected _ => 0
                  end.
Proof.
  unfold fetchAllArticles. fold (landing_url urn).
  set (st0 := {| sessionCookies := []; trace := trace st |}).
  destruct (fetchWithSession_trace (landing_url urn) (world (landing_url urn)) st0)
    as (rest & Htr & Hn).
  pose proof (fetchWithSession_result (landing_url urn) (world (landing_url urn)) st0) as H.
  change (cookie_header st0) with (@None string) in Htr.
  change (trace st0) with (trace st) in Htr.
  destruct (fetchWithSession (landing_url urn) 3 (world (landing_url urn)) st0)
    as [[landing|e] st']; cbn [fst snd] in H, Htr.
  - destruct (world (landing_url urn) (retries (world (landing_url urn)) 0 3))
      as [reason|r]; [discriminate|].
    inversion H; subst landing. cbn [result_of status body].
    destruct (resp_status r =? 200)%nat; cbn [negb snd].
    + destruct (extractArticleUrls (resp_text r)) as [|u urls] eqn:E.
      * cbn [snd]. exists rest. split; [exact Htr | cbn; lia].
      * destruct (fetch_batches_trace world (List.length (u :: urls)) (u :: urls)
                    [] st') as (new & Hb & Cb).
        destruct (fetch_batches (List.length (u :: urls)) world (u :: urls) [] st')
          as [results st'']. cbn [snd] in *.
        exists (app rest new). rewrite Hb, Htr, <- app_assoc. split; [reflexivity|].
        rewrite request_count_app. lia.
    + exists rest. split; [exact Htr | lia].
  - cbn [snd]. exists rest. split; [exact Htr|].
    destruct (world (landing_url urn) (retries (world (landing_url urn)) 0 3)); lia.
Qed.

End CrawlTrace.
(** ** The census *)

Section CensusTypes.
Import Census Props.

Lemma has_keys {V : Type} (m : list (string * V)) (k : string) :
  has (map fst m) k = true <-> exists v, Citation.lookup k m = Some v.
Proof.
  unfold has. induction m as [|[k' v'] m IH]; simpl.
  - split; [discriminate | intros [v H]; discriminate].
  - rewrite String.eqb_sym. destruct (String.eqb k' k); simpl; [|exact IH].
    split; eauto.
Qed.

Lemma first_prefix_keys (m : list (string * TypeInfo)) (t : string) :
  existsb (fun key => Js.startsWith key t) (map fst m) = true
  <-> exists info, first_prefix m t = Entry info.
Proof.
  induction m as [|[k v] m IH]; simpl.
  - split; [discriminate | intros [i H]; discriminate].
  - destruct (Js.startsWith k t); simpl; [|exact IH].
    split; eauto.
Qed.

Lemma no_key_starts_inherited :
  forallb (fun name =>
             negb (existsb (fun key => Js.startsWith key name) INCLUDED_TYPES))
          OBJECT_PROTOTYPE = true.
Proof. vm_compute. reflexivity. Qed.

Lemma has_in (set : list string) (x : string) : has set x = true <-> In x set.
Proof.
  unfold has. rewrite existsb_exists. split.
  - intros (y & Hy & E). apply String.eqb_eq in E. subst; auto.
  - intros H. exists x. split; auto. apply String.eqb_refl.
Qed.

(** X8.  [classifyAct] and [resolveType] agree on every display type: the
    act is classified ingestable exactly when [resolveType] returns an entry
    of the type table, and an excluded act carries the reason.  For a
    display type that is not itself a key, the entry is that of the first
    key in table order that is a prefix of it: further text after
    LEGGE COSTITUZIONALE resolves to the entry of LEGGE, and further text
    after DECRETO LEGISLATIVO LUOGOTENENZIALE to that of
    DECRETO LEGISLATIVO. *)
Theorem classifyAct_resolveType (tipo_display : string) :
  (fst (classifyAct tipo_display) = ingestable
   <-> exists info, resolveType tipo_display = Entry info)
  /\ (fst (classifyAct tipo_display) <> ingestable ->
      classifyAct tipo_display
      = (excluded, Some ("Unknown act type: " ++ tipo_display)))
  /\ (tipo_display <> EmptyString ->
      (exists info, resolveType ("LEGGE COSTITUZIONALE" ++ tipo_display) = Entry info
                    /\ code info = "legge")
      /\ (exists info,
            resolveType ("DECRETO LEGISLATIVO LUOGOTENENZIALE" ++ tipo_display)
            = Entry info
            /\ code info = "dlgs")).
Proof.
  split; [|split].
  - unfold classifyAct, resolveType.
    change INCLUDED_TYPES with (map fst TYPE_MAP).
    destruct (has (map fst TYPE_MAP) tipo_display) eqn:H; cbn [negb].
    + apply has_keys in H. destruct H as [v Hv]. rewrite Hv.
      split; eauto.
    + assert (L : Citation.lookup tipo_display TYPE_MAP = None).
      { destruct (Citation.lookup tipo_display TYPE_MAP) as [v|] eqn:E; auto.
        assert (has (map fst TYPE_MAP) tipo_display = true)
          by (apply has_keys; eauto).
        congruence. }
      rewrite L.
      destruct (existsb (fun included => Js.startsWith included tipo_display)
                        (map fst TYPE_MAP)) eqn:P.
      * assert (I : has OBJECT_PROTOTYPE tipo_display = false).
        { destruct (has OBJECT_PROTOTYPE tipo_display) eqn:I; auto.
          apply has_in in I.
          pose proof no_key_starts_inherited as N.
          rewrite forallb_forall in N. specialize (N _ I).
          change INCLUDED_TYPES with (map fst TYPE_MAP) in N.
          rewrite P in N. discriminate. }
        rewrite I. split; [|reflexivity].
        intros _. apply first_prefix_keys, P.
      * split; [discriminate|]. intros [info Hi].
        destruct (has OBJECT_PROTOTYPE tipo_display); [discriminate|].
        assert (existsb (fun key => Js.startsWith key tipo_display)
                        (map fst TYPE_MAP) = true)
          by (apply first_prefix_keys; eauto).
        congruence.
  - unfold classifyAct.
    destruct (has INCLUDED_TYPES tipo_display); cbn [negb fst];
      [intros H; contradiction H; reflexivity|].
    destruct (existsb _ INCLUDED_TYPES); cbn [fst];
      [intros H; contradiction H; reflexivity | reflexivity].
  - intros Hne. destruct tipo_display as [|a x]; [contradiction|].
    split; eexists; split; reflexivity.
Qed.

(** The theorem at a constitutional law with a trailing word. *)
Lemma classifyAct_resolveType_witness :
  fst (classifyAct "LEGGE COSTITUZIONALE BIS") = ingestable
  /\ exists info, resolveType "LEGGE COSTITUZIONALE BIS" = Entry info
                  /\ code info = "legge".
Proof.
  destruct (classifyAct_resolveType " BIS") as (_ & _ & H).
  destruct (H ltac:(discriminate)) as [H1 _].
  split; [reflexivity | exact H1].
Defined.

End CensusTypes.

Section CensusFile.
Import Census Props.

Lemma totals_set (m : JsMap.t TypeStat) (k : string) (v : TypeStat) :
  totals_of (JsMap.set m k v)
  = (totals_of m
     - match JsMap.get m k with Some s => total s | None => 0 end
     + total v)%Z.
Proof.
  unfold totals_of, JsMap.values.
  induction m as [|[k' v'] m IH]; simpl; [lia|].
  destruct (String.eqb k' k); simpl; [lia|]. rewrite IH. lia.
Qed.

Lemma count_type_inv (m : JsMap.t TypeStat) (law : CensusLaw) :
  stats_inv m ->
  stats_inv (count_type m law)
  /\ totals_of (count_type m law) = (totals_of m + 1)%Z.
Proof.
  intros [Hnd Hall]. unfold count_type.
  set (stat := match JsMap.get m (type law) with
               | Some s => s
               | None => {| stat_type := type law; stat_label := category law;
                            total := 0; stat_ingestable := 0; stat_excluded := 0 |}
               end).
  assert (Hstat : stat_type stat = type law
                  /\ (total stat = stat_ingestable stat + stat_excluded stat)%Z
                  /\ (0 <= stat_ingestable stat)%Z /\ (0 <= stat_excluded stat)%Z
                  /\ (0 <= total stat)%Z
                  /\ total stat = match JsMap.get m (type law) with
                                  | Some s => total s | None => 0%Z end).
  { unfold stat. destruct (JsMap.get m (type law)) as [s|] eqn:G.
    - apply get_some_in in G. destruct (Hall _ _ G) as (A & B & C & D & E).
      repeat split; auto; lia.
    - cbn. repeat split; auto; lia. }
  destruct Hstat as (S1 & S2 & S3 & S4 & S5 & S6).
  split; [split|].
  - apply nodup_keys_set, Hnd.
  - intros k s Hin. apply in_set_cases in Hin; [|exact Hnd].
    destruct Hin as [[Hk Hs]|[_ Hin]]; [|apply Hall, Hin].
    subst k s. cbn [stat_type total stat_ingestable stat_excluded].
    destruct (classification_eqb (law_classification law) excluded);
      repeat split; auto; lia.
  - rewrite totals_set, <- S6. cbn [total]. lia.
Qed.

Lemma count_types_inv (laws : list CensusLaw) :
  forall m, stats_inv m ->
    stats_inv (fold_left count_type laws m)
    /\ totals_of (fold_left count_type laws m)
       = (totals_of m + Z.of_nat (List.length laws))%Z.
Proof.
  induction laws as [|law laws IH]; intros m Hm; cbn [fold_left List.length].
  - split; [exact Hm | lia].
  - destruct (count_type_inv m law Hm) as [H1 H2].
    destruct (IH _ H1) as [H3 H4]. split; [exact H3|]. rewrite H4, H2. lia.
Qed.

Lemma count_types_source (laws : list CensusLaw) :
  forall m k,
    In k (JsMap.keys (fold_left count_type laws m)) ->
    In k (JsMap.keys m) \/ exists law, In law laws /\ type law = k.
Proof.
  induction laws as [|law laws IH]; intros m k Hk; cbn [fold_left] in Hk; auto.
  apply IH in Hk. destruct Hk as [Hk|(law' & Hl & Ht)].
  - unfold count_type in Hk. apply in_keys_set in Hk.
    destruct Hk as [Hk|Hk]; [right; exists law; simpl; auto | left; exact Hk].
  - right. exists law'. simpl; auto.
Qed.

Lemma compare_laws_le (a b : CensusLaw) : (compare_laws a b <= 0)%Z <-> law_le a b.
Proof.
  unfold compare_laws, law_le.
  destruct (Z.eqb_spec (year a) (year b)); cbn [negb]; lia.
Qed.

Lemma count_split {A : Type} (p : A -> bool) (l : list A) :
  count (fun x => negb (p x)) l + count p l = List.length l.
Proof.
  unfold count. induction l as [|x l IH]; simpl; [reflexivity|].
  destruct (p x); simpl; lia.
Qed.

Lemma count_le {A : Type} (p q : A -> bool) (l : list A) :
  (forall x, p x = true -> q x = true) -> count p l <= count q l.
Proof.
  intros H. unfold count. induction l as [|x l IH]; simpl; [lia|].
  destruct (p x) eqn:P.
  - rewrite (H x P). simpl. lia.
  - destruct (q x); simpl; lia.
Qed.

(** X9.  The summary that [saveCensus] writes is consistent with the laws it
    writes.  The laws are those of the map, newest year first and within a
    year the greatest number first.  The total is their number; ingestable
    and excluded add up to the total, and the pre-Republic acts are counted
    among the ingestable.  There is one line per type code; in every line
    the total is positive and is the sum of its ingestable and excluded
    counts; the totals of the lines add up to the number of laws; and the
    lines are in the order of decreasing total. *)
Theorem saveCensus_consistent (allLaws : JsMap.t CensusLaw) (fromYear toYear : Z)
        (today : string) :
  let census := saveCensus allLaws fromYear toYear today in
  let s := summary census in
  Permutation (JsMap.values allLaws) (laws census)
  /\ StronglySorted law_le (laws census)
  /\ total_laws s = List.length (laws census)
  /\ sum_ingestable s + sum_excluded s = total_laws s
  /\ sum_pre_republic s <= sum_ingestable s
  /\ sum_ingested s <= total_laws s
  /\ NoDup (map stat_type (by_type s))
  /\ (forall line, In line (by_type s) ->
        (0 < total line)%Z
        /\ (total line = stat_ingestable line + stat_excluded line)%Z
        /\ exists law, In law (laws census) /\ type law = stat_type line)
  /\ sumZ (map total (by_type s)) = Z.of_nat (total_laws s)
  /\ StronglySorted stat_le (by_type s).
Proof.
  intros census s. subst s census. unfold saveCensus.
  cbn [summary laws total_laws sum_ingestable sum_excluded sum_pre_republic
       sum_ingested by_type].
  set (ls := JsMap.values allLaws).
  set (typeMap := fold_left count_type ls []).
  assert (Hperm : Permutation ls (Fetcher.sort compare_laws ls)) by apply sort_perm.
  assert (Hinv : stats_inv typeMap /\ totals_of typeMap = Z.of_nat (List.length ls)).
  { destruct (count_types_inv ls []) as [H1 H2].
    - split; [constructor | intros k s' []].
    - split; [exact H1 | exact H2]. }
  destruct Hinv as [[Hnd Hall] Htot].
  assert (Hp2 : Permutation (JsMap.values typeMap)
                  (Fetcher.sort (fun a b => (total b - total a)%Z)
                                (JsMap.values typeMap))) by apply sort_perm.
  assert (Hty : map stat_type (JsMap.values typeMap) = JsMap.keys typeMap).
  { unfold JsMap.values, JsMap.keys. rewrite map_map. apply map_ext_in.
    intros [k st] Hin. simpl. apply Hall in Hin. apply Hin. }
  assert (Hsrc : forall k, In k (JsMap.keys typeMap) ->
                   exists law, In law ls /\ type law = k).
  { intros k Hk. destruct (count_types_source ls [] k Hk) as [[]|H]; exact H. }
  repeat match goal with |- _ /\ _ => split end.
  - exact Hperm.
  - apply (sort_sorted compare_laws law_le).
    + apply compare_laws_le.
    + intros x y. unfold law_le. lia.
    + intros x y z. unfold law_le. lia.
  - apply Permutation_length, Hperm.
  - apply count_split.
  - apply count_le. intros x. destruct (law_classification x); cbn; congruence.
  - unfold count. apply List.filter_length_le.
  - eapply Permutation_NoDup; [apply Permutation_map, Hp2|].
    rewrite Hty. exact Hnd.
  - intros line Hl. apply (Permutation_in _ (Permutation_sym Hp2)) in Hl.
    unfold JsMap.values in Hl. apply in_map_iff in Hl.
    destruct Hl as ([k st] & E & Hin). simpl in E. subst st.
    destruct (Hall _ _ Hin) as (A & B & C & D & F).
    split; [exact F|]. split; [exact B|].
    destruct (Hsrc k) as (law & Hlaw & Ht).
    { unfold JsMap.keys. change k with (fst (k, line)). apply in_map, Hin. }
    exists law. split; [apply (Permutation_in _ Hperm), Hlaw | congruence].
  - rewrite <- Htot. unfold totals_of, sumZ.
    apply Permutation_sym in Hp2.
    apply (Permutation_map total) in Hp2.
    clear - Hp2. induction Hp2; simpl; lia.
  - apply (sort_sorted (fun a b => (total b - total a)%Z) stat_le).
    + intros x y. unfold stat_le. lia.
    + intros x y. unfold stat_le. lia.
    + intros x y z. unfold stat_le. lia.
Qed.

End CensusFile.
(** ** The census-driven ingestion *)

Section CensusUpdate.
Import Census CensusIngest Props.

Lemma update_first_absent (lawId : string) (n : Z) (today : string)
      (laws : list CensusLaw) :
  ~ In lawId (map id laws) -> update_first lawId n today laws = laws.
Proof.
  induction laws as [|l laws IH]; intros H; cbn [update_first]; [reflexivity|].
  destruct (String.eqb_spec (id l) lawId) as [E|E].
  - exfalso. apply H. simpl; auto.
  - f_equal. apply IH. intros Hin. apply H. simpl; auto.
Qed.

Lemma update_first_present (lawId : string) (n : Z) (today : string)
      (pre post : list CensusLaw) (l : CensusLaw) :
  id l = lawId -> (forall x, In x pre -> id x <> lawId) ->
  update_first lawId n today (app pre (l :: post))
  = app pre (marked l n today :: post).
Proof.
  intros Hl. induction pre as [|x pre IH]; intros Hpre; cbn [app update_first].
  - destruct (String.eqb_spec (id l) lawId); [reflexivity | contradiction].
  - destruct (String.eqb_spec (id x) lawId) as [E|E].
    + exfalso. apply (Hpre x); simpl; auto.
    + f_equal. apply IH. intros y Hy. apply Hpre. simpl; auto.
Qed.

Lemma update_first_ids (lawId : string) (n : Z) (today : string)
      (laws : list CensusLaw) :
  map id (update_first lawId n today laws) = map id laws.
Proof.
  induction laws as [|l laws IH]; cbn [update_first map]; [reflexivity|].
  destruct (String.eqb (id l) lawId); cbn [map id]; [reflexivity|].
  rewrite IH. reflexivity.
Qed.

(** X10.  [updateCensus] changes one law at most, the first of the census
    with the given id: it marks it ingested when the count of provisions is
    positive and not ingested otherwise, whatever it was before, and records
    the count and the date.  Laws after it with the same id and all other
    laws are left as they are, and an unknown id changes no law.  Afterwards
    the summary counts as ingested exactly the laws that are marked
    ingested; the other counts of the summary are not recomputed. *)
Theorem updateCensus_first_match (census : CensusFile) (lawId : string)
        (provisionCount : Z) (today : string) :
  let census' := updateCensus census lawId provisionCount today in
  sum_ingested (summary census') = count ingested (laws census')
  /\ map id (laws census') = map id (laws census)
  /\ (~ In lawId (map id (laws census)) -> laws census' = laws census)
  /\ (forall pre l post,
        laws census = app pre (l :: post) -> id l = lawId ->
        (forall x, In x pre -> id x <> lawId) ->
        laws census' = app pre (marked l provisionCount today :: post))
  /\ total_laws (summary census') = total_laws (summary census)
  /\ sum_ingestable (summary census') = sum_ingestable (summary census)
  /\ by_type (summary census') = by_type (summary census).
Proof.
  intros census'. subst census'. unfold updateCensus. cbn [summary laws sum_ingested
    total_laws sum_ingestable by_type].
  split; [reflexivity|]. split; [apply update_first_ids|].
  split; [apply update_first_absent|].
  split; [|auto].
  intros pre l post E Hl Hpre. rewrite E. apply update_first_present; auto.
Qed.

End CensusUpdate.

Section CensusSelection.
Import Census CensusIngest Props.

Lemma compare_acts_le (a b : CensusLaw) : (compare_acts a b <= 0)%Z <-> act_le a b.
Proof.
  unfold compare_acts, act_le.
  destruct (Z.eqb_spec (year a) (year b)); cbn [negb]; lia.
Qed.

Lemma sorted_firstn {A : Type} (R : A -> A -> Prop) (l : list A) (n : nat) :
  StronglySorted R l -> StronglySorted R (firstn n l).
Proof.
  revert n. induction l as [|x l IH]; intros [|n] H; simpl; try constructor.
  - inversion H; subst. apply IH; assumption.
  - inversion H as [|? ? Hs Hall]; subst.
    rewrite Forall_forall in *. intros y Hy. apply Hall.
    eapply (In_nth_error) in Hy. destruct Hy as [i Hi].
    apply nth_error_In with (n := i).
    rewrite nth_error_firstn in Hi. destruct (i <? n)%nat; [exact Hi | discriminate].
Qed.

Lemma in_firstn {A : Type} (x : A) (n : nat) (l : list A) :
  In x (firstn n l) -> In x l.
Proof.
  intros H. rewrite <- (firstn_skipn n l). apply in_or_app. auto.
Qed.

Lemma classification_eqb_eq (a b : classification) :
  classification_eqb a b = true <-> a = b.
Proof. destruct a, b; simpl; split; congruence. Qed.

(** The acts selected when the command line has no limit. *)
Lemma toProcess_unlimited (args : CliArgs) (laws : list CensusLaw) (l : CensusLaw) :
  In l (toProcess (unlimited args) laws) <-> In l laws /\ passes args l.
Proof.
  unfold toProcess, unlimited, passes.
  cbn [limit arg_id arg_type fromYear Js.truthy_number].
  set (f0 := filter (fun l0 => classification_eqb (law_classification l0) ingestable
                     || classification_eqb (law_classification l0) pre_republic) laws).
  set (f1 := match arg_id args with
             | Some (String _ _ as id') => filter (fun l0 => String.eqb (id l0) id') f0
             | _ => f0
             end).
  set (f2 := match arg_type args with
             | Some (String _ _ as type') =>
                 filter (fun l0 => String.eqb (type l0) type') f1
             | _ => f1
             end).
  set (f3 := if Js.truthy_number (fromYear args)
             then filter (fun l0 => match fromYear args with
                                    | Some y => number_ge (Js.Num (year l0)) y
                                    | None => false
                                    end) f2
             else f2).
  assert (H0 : In l f0 <-> In l laws /\ law_classification l <> excluded).
  { unfold f0. rewrite filter_In, orb_true_iff, !classification_eqb_eq.
    destruct (law_classification l); intuition congruence. }
  assert (H1 : In l f1 <-> In l f0
               /\ forall x, arg_id args = Some x -> x <> EmptyString -> id l = x).
  { unfold f1. destruct (arg_id args) as [[|a x]|].
    - split; [intros H; split; auto; intros x E N; inversion E; subst; contradiction
             | tauto].
    - rewrite filter_In, String.eqb_eq. split.
      + intros [A B]. split; auto. intros y E _. inversion E; subst; auto.
      + intros [A B]. split; auto. apply B; [reflexivity | discriminate].
    - split; [intros H; split; auto; discriminate | tauto]. }
  assert (H2 : In l f2 <-> In l f1
               /\ forall x, arg_type args = Some x -> x <> EmptyString -> type l = x).
  { unfold f2. destruct (arg_type args) as [[|a x]|].
    - split; [intros H; split; auto; intros x E N; inversion E; subst; contradiction
             | tauto].
    - rewrite filter_In, String.eqb_eq. split.
      + intros [A B]. split; auto. intros y E _. inversion E; subst; auto.
      + intros [A B]. split; auto. apply B; [reflexivity | discriminate].
    - split; [intros H; split; auto; discriminate | tauto]. }
  assert (H3 : In l f3 <-> In l f2
               /\ forall y, fromYear args = Some (Js.Num y) -> y <> 0%Z ->
                    (y <= year l)%Z).
  { unfold f3. destruct (fromYear args) as [[|y]|]; cbn [Js.truthy_number].
    - split; [intros H; split; auto; discriminate | tauto].
    - destruct (Z.eqb_spec y 0) as [->|Hy]; cbn [negb].
      + split; [intros H; split; auto; intros z E N; inversion E; subst; contradiction
               | tauto].
      + rewrite filter_In. cbn [number_ge]. rewrite Z.leb_le. split.
        * intros [A B]. split; auto. intros z E _. inversion E; subst; auto.
        * intros [A B]. split; auto.
    - split; [intros H; split; auto; discriminate | tauto]. }
  split.
  - intros H. apply (Permutation_in _ (Permutation_sym (sort_perm compare_acts f3))) in H.
    tauto.
  - intros H. apply (Permutation_in _ (sort_perm compare_acts f3)). tauto.
Qed.

Lemma toProcess_limit (args : CliArgs) (laws : list CensusLaw) :
  toProcess args laws
  = match limit args with
    | Some (Js.Num n) =>
        if (n =? 0)%Z then toProcess (unlimited args) laws
        else slice0 (toProcess (unlimited args) laws) n
    | _ => toProcess (unlimited args) laws
    end.
Proof.
  unfold toProcess, unlimited. cbn [limit arg_id arg_type fromYear].
  destruct (limit args) as [[|n]|]; cbn [Js.truthy_number]; try reflexivity.
  destruct (n =? 0)%Z; reflexivity.
Qed.

Lemma toProcess_unlimited_sorted (args : CliArgs) (laws : list CensusLaw) :
  StronglySorted act_le (toProcess (unlimited args) laws).
Proof.
  unfold toProcess, unlimited. cbn [limit arg_id arg_type fromYear Js.truthy_number].
  apply (sort_sorted compare_acts act_le).
  - apply compare_acts_le.
  - intros x y. unfold act_le. lia.
  - intros x y z. unfold act_le. lia.
Qed.

(** X11.  The acts that the census-driven ingestion processes.  Every one is
    a law of the census that is not classified excluded and passes the
    filters --id, --type and --from of the command line; they are taken
    newest year first and, within a year, smallest number first.  Without a
    limit every such law is taken.  A limit that is 0 or not a number is no
    limit.  A positive limit takes the first acts of that order, and never
    more than the limit; a negative limit drops that many acts from the end
    of the order. *)
Theorem toProcess_selection (args : CliArgs) (laws : list CensusLaw) :
  let all := toProcess (unlimited args) laws in
  let sel := toProcess args laws in
  (forall l, In l all <-> In l laws /\ passes args l)
  /\ (forall l, In l sel -> In l laws /\ passes args l)
  /\ StronglySorted act_le sel
  /\ (Js.truthy_number (limit args) = false -> sel = all)
  /\ (forall n, limit args = Some (Js.Num n) -> (0 < n)%Z ->
        sel = firstn (Z.to_nat n) all /\ (Z.of_nat (List.length sel) <= n)%Z)
  /\ (forall n, limit args = Some (Js.Num n) -> (n < 0)%Z ->
        sel = firstn (List.length all - Z.to_nat (- n)) all).
Proof.
  intros all sel. subst all sel.
  pose proof (toProcess_limit args laws) as L.
  pose proof (toProcess_unlimited_sorted args laws) as S.
  set (all := toProcess (unlimited args) laws) in *.
  assert (Sub : forall l, In l (toProcess args laws) -> In l all).
  { intros l. rewrite L. destruct (limit args) as [[|n]|]; auto.
    destruct (n =? 0)%Z; auto. unfold slice0.
    destruct (n <? 0)%Z; apply in_firstn. }
  split; [intros l; apply toProcess_unlimited|].
  split; [intros l Hl; apply toProcess_unlimited, Sub, Hl|].
  split.
  { rewrite L. destruct (limit args) as [[|n]|]; auto.
    destruct (n =? 0)%Z; auto. unfold slice0.
    destruct (n <? 0)%Z; apply sorted_firstn, S. }
  split.
  { intros T. rewrite L. destruct (limit args) as [[|n]|]; auto.
    cbn [Js.truthy_number] in T. apply negb_false_iff in T. rewrite T. reflexivity. }
  split.
  - intros n E Hn. rewrite L, E.
    destruct (Z.eqb_spec n 0); [lia|]. unfold slice0.
    destruct (Z.ltb_spec n 0); [lia|]. split; [reflexivity|].
    rewrite length_firstn. lia.
  - intros n E Hn. rewrite L, E.
    destruct (Z.eqb_spec n 0); [lia|]. unfold slice0.
    destruct (Z.ltb_spec n 0); [|lia]. f_equal. lia.
Qed.

End CensusSelection.
(** ** Italian dates *)

Section DateFacts.
Import Regex Spec Sem Props ItalianDate.

Lemma is_digit_table :
  forallb (fun a => implb (Js.is_digit a)
                          (existsb (fun d => Ascii.eqb a (digit_char d)) (seq 0 10)))
          all_ascii = true.
Proof. vm_compute. reflexivity. Qed.

Lemma is_digit_char (a : ascii) :
  Js.is_digit a = true -> exists d, d < 10 /\ a = digit_char d.
Proof.
  intros H. pose proof (for_all_ascii _ is_digit_table a) as T.
  cbv beta in T. rewrite H in T. cbn [implb] in T.
  apply existsb_exists in T. destruct T as (d & Hd & E).
  apply in_seq in Hd. apply Ascii.eqb_eq in E. exists d. split; [lia | exact E].
Qed.

Lemma matches_dg (w rest : string) :
  matches dg w rest -> exists d, d < 10 /\ w = digit_string [d].
Proof.
  intros H. apply matches_cls in H. destruct H as (a & -> & Ha).
  apply is_digit_char in Ha. destruct Ha as (d & Hd & ->). exists d. auto.
Qed.

(** A text matched by [\d{1,2}]. *)
Lemma matches_digits12 (w rest : string) :
  matches (Seq dg (opt dg)) w rest ->
  exists ds, Forall (fun d => d < 10) ds /\ w = digit_string ds
             /\ 1 <= List.length ds <= 2.
Proof.
  intros H. inversion H as [| |r1 r2 w1 w2 rest' H1 H2| | | | | |]; subst.
  apply matches_dg in H1. destruct H1 as (d1 & Hd1 & ->).
  apply matches_opt in H2. destruct H2 as [H2| ->].
  - apply matches_dg in H2. destruct H2 as (d2 & Hd2 & ->).
    exists [d1; d2]. repeat split; auto; simpl; lia.
  - exists [d1]. repeat split; auto; simpl; lia.
Qed.

(** A text matched by [\d{4}]. *)
Lemma matches_digits4 (w rest : string) :
  matches Citation.DIGITS4 w rest ->
  exists ds, Forall (fun d => d < 10) ds /\ w = digit_string ds
             /\ List.length ds = 4.
Proof.
  unfold Citation.DIGITS4. cbn [seqs]. intros H.
  inversion H as [| |r1 r2 w1 w2 rest1 H1 H2| | | | | |]; subst.
  inversion H2 as [| |r3 r4 w3 w4 rest2 H3 H4| | | | | |]; subst.
  inversion H4 as [| |r5 r6 w5 w6 rest3 H5 H6| | | | | |]; subst.
  apply matches_dg in H1, H3, H5, H6.
  destruct H1 as (d1 & Hd1 & ->). destruct H3 as (d2 & Hd2 & ->).
  destruct H5 as (d3 & Hd3 & ->). destruct H6 as (d4 & Hd4 & ->).
  exists [d1; d2; d3; d4]. repeat split; auto.
Qed.

(** A text matched by the alternation of the month names is a month name up
    to case. *)
Lemma matches_month (w rest : string) :
  matches Citation.MONTHS w rest ->
  exists name k, In (name, Js.Num k) ITALIAN_MONTHS
                 /\ Js.toLowerCase w = name /\ (1 <= k <= 12)%Z.
Proof.
  unfold Citation.MONTHS. intros H. apply matches_alts in H.
  destruct H as (r & Hr & Hm). apply in_map_iff in Hr.
  destruct Hr as (name & <- & Hname). apply matches_lit_i in Hm.
  apply eq_ci_string_lower in Hm.
  cbn [In] in Hname.
  repeat (destruct Hname as [<-|Hname];
          [eexists _, _; split; [|split; [exact Hm|]];
           [cbn; eauto 20 | lia] |]).
  contradiction.
Qed.

Lemma lookup_month (name : string) (k : Z) :
  In (name, Js.Num k) ITALIAN_MONTHS ->
  Citation.lookup name ITALIAN_MONTHS = Some (Js.Num k)
  /\ exists mm, Citation.lookup name ITALIAN_MONTHS_LIB = Some mm
                /\ mm = padStart2 (Js.number_to_string (Js.Num k))
                /\ mm <> EmptyString.
Proof.
  cbn [In ITALIAN_MONTHS].
  intros H.
  repeat (destruct H as [H|H];
          [inversion H; subst; split; [reflexivity|];
           eexists; split; [reflexivity|]; split; [reflexivity | discriminate] |]).
  contradiction.
Qed.

(** What a match of the date pattern captures. *)
Lemma italian_date_groups (s rest : string) (m : caps) :
  match_start ITALIAN_DATE s = Some (rest, m) ->
  exists ds name k ys,
    Forall (fun d => d < 10) ds /\ 1 <= List.length ds <= 2
    /\ group m 1 = Some (digit_string ds)
    /\ (exists w, group m 2 = Some w /\ Js.toLowerCase w = name)
    /\ In (name, Js.Num k) ITALIAN_MONTHS /\ (1 <= k <= 12)%Z
    /\ Forall (fun d => d < 10) ys /\ List.length ys = 4
    /\ group m 3 = Some (digit_string ys).
Proof.
  intros H.
  destruct (match_start_sets _ _ _ _ 1 H eq_refl) as [g1 G1].
  destruct (match_start_sets _ _ _ _ 2 H eq_refl) as [g2 G2].
  destruct (match_start_sets _ _ _ _ 3 H eq_refl) as [g3 G3].
  apply match_start_matches in H. destruct H as (w & _ & _ & Hc).
  destruct (Hc 1 g1 G1) as (b1 & r1 & Hb1 & Hm1).
  destruct (Hc 2 g2 G2) as (b2 & r2 & Hb2 & Hm2).
  destruct (Hc 3 g3 G3) as (b3 & r3 & Hb3 & Hm3).
  cbn in Hb1, Hb2, Hb3.
  destruct Hb1 as [<-|[]]. destruct Hb2 as [<-|[]]. destruct Hb3 as [<-|[]].
  apply matches_digits12 in Hm1. destruct Hm1 as (ds & Hds & -> & Hlen).
  apply matches_month in Hm2. destruct Hm2 as (name & k & Hin & Hlow & Hk).
  apply matches_digits4 in Hm3. destruct Hm3 as (ys & Hys & -> & Hylen).
  exists ds, name, k, ys. repeat split; auto; try lia. eauto.
Qed.

(** The two copies of [parseItalianDate] on one input, by cases on the
    pattern. *)
Lemma parseItalianDate_cases (dateStr : string) :
  (match_start ITALIAN_DATE (Js.trim dateStr) = None
   /\ parseItalianDate dateStr = Ok None
   /\ parseItalianDate_lib dateStr = Ok None)
  \/ exists rest m ds mm k ys,
       match_start ITALIAN_DATE (Js.trim dateStr) = Some (rest, m)
       /\ Forall (fun d => d < 10) ds /\ 1 <= List.length ds <= 2
       /\ mm = padStart2 (Js.number_to_string (Js.Num k))
       /\ (1 <= k <= 12)%Z /\ String.length mm = 2
       /\ Forall (fun d => d < 10) ys /\ List.length ys = 4
       /\ parseItalianDate dateStr
          = Ok (if (decimal ds <? 1)%Z || (31 <? decimal ds)%Z then None
                else Some (Js.number_to_string (Js.Num (decimal ys)) ++ "-"
                           ++ padStart2 (Js.number_to_string (Js.Num k)) ++ "-"
                           ++ padStart2 (Js.number_to_string (Js.Num (decimal ds)))))
       /\ parseItalianDate_lib dateStr
          = Ok (Some (digit_string ys ++ "-" ++ mm ++ "-"
                      ++ padStart2 (digit_string ds))).
Proof.
  unfold parseItalianDate, parseItalianDate_lib.
  destruct (match_start ITALIAN_DATE (Js.trim dateStr)) as [[rest m]|] eqn:E;
    [right | left; auto].
  destruct (italian_date_groups _ _ _ E)
    as (ds & name & k & ys & Hds & Hlen & G1 & (w & G2 & Hw) & Hin & Hk
        & Hys & Hylen & G3).
  destruct (lookup_month name k Hin) as [L (mm & L2 & Hmm & Hne)].
  exists rest, m, ds, mm, k, ys.
  split; [reflexivity|]. split; [exact Hds|]. split; [exact Hlen|].
  split; [exact Hmm|]. split; [exact Hk|].
  split.
  { clear - Hin Hmm. cbn [In ITALIAN_MONTHS] in Hin.
    repeat (destruct Hin as [Hin|Hin]; [inversion Hin; subst; reflexivity|]).
    contradiction. }
  split; [exact Hys|]. split; [exact Hylen|].
  unfold Citation.parseIntGroup. rewrite G1, G2, G3. cbn [defined_or_throw bind].
  rewrite Hw, L, L2.
  rewrite !parseInt_digit_string; auto;
    try (intros ->; simpl in *; lia); try lia.
  assert (T : Js.truthy_number (Some (Js.Num k)) = true).
  { cbn. destruct (Z.eqb_spec k 0); [lia | reflexivity]. }
  rewrite T. cbn [negb orb number_lt].
  split.
  - destruct ((decimal ds <? 1)%Z || (31 <? decimal ds)%Z); reflexivity.
  - destruct mm as [|a mm']; [contradiction | reflexivity].
Qed.

(** X12.  [parseItalianDate] of src/citation/parser.ts does not throw.  A
    date it returns is made of the year, the month and the day it read,
    joined by hyphens: the year as a number, without leading zeros; the month
    of the name, between 01 and 12; the day between 01 and 31, whatever the
    month; month and day are padded to two digits, the year is not padded. *)
Theorem parseItalianDate_shape (dateStr : string) :
  exists o,
    parseItalianDate dateStr = Ok o
    /\ forall out, o = Some out ->
         exists y mo d : Z,
           (0 <= y <= 9999)%Z /\ (1 <= mo <= 12)%Z /\ (1 <= d <= 31)%Z
           /\ out = Js.number_to_string (Js.Num y) ++ "-"
                    ++ padStart2 (Js.number_to_string (Js.Num mo)) ++ "-"
                    ++ padStart2 (Js.number_to_string (Js.Num d)).
Proof.
  unfold parseItalianDate.
  destruct (match_start ITALIAN_DATE (Js.trim dateStr)) as [[rest m]|] eqn:E.
  2:{ eexists. split; [reflexivity | discriminate]. }
  destruct (italian_date_groups _ _ _ E)
    as (ds & name & k & ys & Hds & Hlen & G1 & (w & G2 & Hw) & Hin & Hk
        & Hys & Hylen & G3).
  unfold Citation.parseIntGroup. rewrite G1, G2, G3. cbn [defined_or_throw bind].
  rewrite Hw. destruct (lookup_month name k Hin) as [L _]. rewrite L.
  rewrite !parseInt_digit_string; auto;
    try (intros ->; simpl in *; lia); try lia.
  assert (T : Js.truthy_number (Some (Js.Num k)) = true).
  { cbn. destruct (Z.eqb_spec k 0); [lia | reflexivity]. }
  rewrite T. cbn [negb orb number_lt].
  pose proof (decimal_bound ys Hys) as By. rewrite Hylen in By.
  destruct (Z.ltb_spec (decimal ds) 1); cbn [orb].
  { eexists. split; [reflexivity | discriminate]. }
  destruct (Z.ltb_spec 31 (decimal ds)).
  { eexists. split; [reflexivity | discriminate]. }
  eexists. split; [reflexivity|].
  intros out Ho. inversion Ho; subst out.
  exists (decimal ys), k, (decimal ds).
  change (10 ^ Z.of_nat 4)%Z with 10000%Z in By.
  repeat split; auto; lia.
Qed.

Lemma four_digits_table :
  forallb (fun d1 => forallb (fun d2 => forallb (fun d3 => forallb (fun d4 =>
     let ds := [d1; d2; d3; d4] in
     let n := Js.number_to_string (Js.Num (decimal ds)) in
     String.eqb n (digit_string ds) || (String.length n <? 4)%nat)
     (seq 0 10)) (seq 0 10)) (seq 0 10)) (seq 0 10) = true.
Proof. vm_compute. reflexivity. Qed.

Lemma four_digits (ys : list nat) :
  Forall (fun d => d < 10) ys -> List.length ys = 4 ->
  let n := Js.number_to_string (Js.Num (decimal ys)) in
  n = digit_string ys \/ String.length n < 4.
Proof.
  intros H L. destruct ys as [|d1 [|d2 [|d3 [|d4 [|]]]]]; try discriminate.
  inversion H as [|? ? H1 Ha]; subst. inversion Ha as [|? ? H2 Hb]; subst.
  inversion Hb as [|? ? H3 Hc]; subst. inversion Hc as [|? ? H4 _]; subst.
  pose proof four_digits_table as T.
  rewrite forallb_forall in T. specialize (T d1 ltac:(apply in_seq; lia)).
  rewrite forallb_forall in T. specialize (T d2 ltac:(apply in_seq; lia)).
  rewrite forallb_forall in T. specialize (T d3 ltac:(apply in_seq; lia)).
  rewrite forallb_forall in T. specialize (T d4 ltac:(apply in_seq; lia)).
  cbv zeta in T. apply orb_true_iff in T. destruct T as [T|T].
  - left. apply String.eqb_eq, T.
  - right. apply Nat.ltb_lt, T.
Qed.

Lemma day_digits_table :
  forallb (fun d1 =>
     String.eqb (padStart2 (Js.number_to_string (Js.Num (decimal [d1]))))
                (padStart2 (digit_string [d1]))
     && forallb (fun d2 =>
          String.eqb (padStart2 (Js.number_to_string (Js.Num (decimal [d1; d2]))))
                     (padStart2 (digit_string [d1; d2])))
        (seq 0 10))
     (seq 0 10) = true.
Proof. vm_compute. reflexivity. Qed.

Lemma day_digits (ds : list nat) :
  Forall (fun d => d < 10) ds -> 1 <= List.length ds <= 2 ->
  padStart2 (Js.number_to_string (Js.Num (decimal ds))) = padStart2 (digit_string ds)
  /\ String.length (padStart2 (digit_string ds)) = 2.
Proof.
  intros H L. pose proof day_digits_table as T. rewrite forallb_forall in T.
  destruct ds as [|d1 [|d2 [|]]]; simpl in L; try lia.
  - inversion H as [|? ? H1 _]; subst.
    specialize (T d1 ltac:(apply in_seq; lia)).
    apply andb_prop in T. destruct T as [T _].
    split; [apply String.eqb_eq, T | reflexivity].
  - inversion H as [|? ? H1 Ha]; subst. inversion Ha as [|? ? H2 _]; subst.
    specialize (T d1 ltac:(apply in_seq; lia)).
    apply andb_prop in T. destruct T as [_ T].
    rewrite forallb_forall in T. specialize (T d2 ltac:(apply in_seq; lia)).
    split; [apply String.eqb_eq, T | reflexivity].
Qed.

(** X13.  The two copies of [parseItalianDate] on one input.  Neither
    throws.  The copy of scripts/lib/parser.ts returns a date whenever the
    pattern matches, always of ten characters, and does not look at the
    value of the day.  The copy of src/citation/parser.ts returns a date only
    if the other does; the two dates are the same when the one of the
    citation parser has ten characters, that is when the year was not
    written with a leading zero. *)
Theorem parseItalianDate_two_copies (dateStr : string) :
  exists o o',
    parseItalianDate dateStr = Ok o
    /\ parseItalianDate_lib dateStr = Ok o'
    /\ (o' = None <-> match_start ITALIAN_DATE (Js.trim dateStr) = None)
    /\ (forall out', o' = Some out' -> String.length out' = 10)
    /\ (forall out, o = Some out ->
          exists out', o' = Some out'
                       /\ (String.length out = 10 -> out' = out)).
Proof.
  destruct (parseItalianDate_cases dateStr) as [H|H].
  - destruct H as (E & H1 & H2). exists None, None. rewrite H1, H2.
    repeat split; auto; discriminate.
  - destruct H as (rest & m & ds & mm & k & ys & E & Hds & Hlen & Hmm & Hk & Hml
                   & Hys & Hylen & H1 & H2).
    destruct (day_digits ds Hds Hlen) as [D1 D2].
    eexists _, _. split; [exact H1|]. split; [exact H2|].
    split; [rewrite E; split; discriminate|].
    split.
    + intros out' Ho. inversion Ho; subst out'.
      repeat (progress (rewrite ?length_append; cbn [String.length])).
      rewrite D2, length_digit_string, Hylen, Hml. reflexivity.
    + intros out Ho. eexists. split; [reflexivity|].
      destruct (Z.ltb (decimal ds) 1 || Z.ltb 31 (decimal ds))%bool;
        [discriminate|].
      assert (Eo : out = Js.number_to_string (Js.Num (decimal ys)) ++ "-"
                       ++ padStart2 (Js.number_to_string (Js.Num k)) ++ "-"
                       ++ padStart2 (Js.number_to_string (Js.Num (decimal ds))))
        by congruence.
      rewrite Eo. clear Eo Ho.
      rewrite <- Hmm, D1.
      repeat (progress (rewrite ?length_append; cbn [String.length])).
      rewrite D2, Hml.
      intros L.
      destruct (four_digits ys Hys Hylen) as [F|F]; cbv zeta in F; [|lia].
      rewrite F. reflexivity.
Qed.

End DateFacts.
(** ** Document identifiers *)

Section TypeTexts.
Import Regex Spec Sem Props.

Lemma map_string_app (f : ascii -> ascii) (a b : string) :
  Js.map_string f (a ++ b) = Js.map_string f a ++ Js.map_string f b.
Proof. induction a as [|x a IH]; simpl; [|rewrite IH]; reflexivity. Qed.

Lemma lower_space_table :
  forallb (fun a => implb (Js.is_space a) (Js.is_space (Js.lower_char a)))
          all_ascii = true.
Proof. vm_compute. reflexivity. Qed.

Lemma lower_spaces (w : string) :
  Js.forallb_string Js.is_space w = true ->
  Js.forallb_string Js.is_space (Js.toLowerCase w) = true.
Proof.
  induction w as [|a w IH]; simpl; auto. intros H.
  apply andb_prop in H. destruct H as [Ha Hw].
  pose proof (for_all_ascii _ lower_space_table a) as T. cbv beta in T.
  rewrite Ha in T. cbn [implb] in T. rewrite T. apply IH, Hw.
Qed.

(** A run of white space collapses as one space does. *)
Lemma collapse_run (sp y : string) (a : ascii) :
  Js.is_space a = true -> Js.forallb_string Js.is_space sp = true ->
  forall b, Js.collapse_from b (String a sp ++ y)
            = Js.collapse_from b (String " " y).
Proof.
  intros Ha Hsp.
  assert (G : Js.collapse_from true (sp ++ y) = Js.collapse_from true y).
  { induction sp as [|x sp IH]; [reflexivity|].
    simpl in Hsp. apply andb_prop in Hsp. destruct Hsp as [Hx Hsp].
    cbn [append Js.collapse_from]. rewrite Hx. apply IH, Hsp. }
  intros b. cbn [append Js.collapse_from]. rewrite Ha.
  change (Js.is_space " ") with true. cbv iota. rewrite G. reflexivity.
Qed.

Lemma collapse_words (x sp y : string) (a : ascii) :
  Js.is_space a = true -> Js.forallb_string Js.is_space sp = true ->
  forall b, Js.collapse_from b (x ++ String a sp ++ y)
            = Js.collapse_from b (x ++ String " " y).
Proof.
  intros Ha Hsp. induction x as [|c x IH]; intros b.
  - apply collapse_run; assumption.
  - cbn [append Js.collapse_from]. rewrite !IH. reflexivity.
Qed.

Lemma lower_lit (L t rest : string) :
  matches (lit_i L) t rest -> Js.toLowerCase t = Js.toLowerCase L.
Proof. intros H. apply eq_ci_string_lower, (matches_lit_i _ _ _ H). Qed.

Lemma lower_lit_dot (L t rest : string) :
  matches (Seq (lit_i L) (opt (chr "."))) t rest ->
  Js.toLowerCase t = Js.toLowerCase L
  \/ Js.toLowerCase t = Js.toLowerCase L ++ ".".
Proof.
  intros H. inversion H as [| |r1 r2 w1 w2 rest' H1 H2| | | | | |]; subst.
  apply lower_lit in H1. apply matches_opt in H2.
  unfold Js.toLowerCase in *. rewrite map_string_app, H1.
  destruct H2 as [H2| ->].
  - apply matches_cls in H2. destruct H2 as (a & -> & Ha).
    apply Ascii.eqb_eq in Ha. subst a. right. reflexivity.
  - left. cbn. clear. induction (Js.map_string Js.lower_char L); simpl; congruence.
Qed.

Lemma lower_two_words (A B t rest : string) :
  matches (seqs [lit_i A; plus ws; lit_i B]) t rest ->
  Js.collapse_spaces (Js.toLowerCase t)
  = Js.collapse_spaces (Js.toLowerCase A ++ String " " (Js.toLowerCase B)).
Proof.
  cbn [seqs]. intros H.
  inversion H as [| |r1 r2 w1 w2 rest1 H1 H2| | | | | |]; subst.
  inversion H2 as [| |r3 r4 w3 w4 rest2 H3 H4| | | | | |]; subst.
  apply lower_lit in H1, H4. apply matches_plus_cls in H3.
  destruct H3 as (a & sp & -> & Ha & Hsp).
  assert (Hl : Js.forallb_string Js.is_space (Js.toLowerCase (String a sp)) = true).
  { apply lower_spaces. simpl. rewrite Ha, Hsp. reflexivity. }
  unfold Js.toLowerCase in *. rewrite !map_string_app, H1, H4.
  cbn [Js.map_string] in *. cbn [Js.forallb_string] in Hl.
  apply andb_prop in Hl. destruct Hl as [Hla Hlsp].
  unfold Js.collapse_spaces. apply collapse_words; assumption.
Qed.

Ltac type_text_case H :=
  first
    [ apply lower_two_words in H; unfold type_text; rewrite H
    | apply lower_lit_dot in H; unfold type_text; destruct H as [H|H]; rewrite H
    | apply lower_lit in H; unfold type_text; rewrite H ];
  vm_compute; auto 20.

(** The type texts that the short grammar admits, as the tables see them. *)
Lemma short_type_texts (t rest : string) :
  matches Citation.SHORT_TYPES t rest ->
  In (type_text t)
     ["d.lgs"; "d.lgs."; "d.l"; "d.l."; "l"; "l."; "d.p.r"; "d.p.r.";
      "r.d"; "r.d."; "legge"; "decreto legislativo"; "decreto-legge"].
Proof.
  unfold Citation.SHORT_TYPES. intros H. apply matches_alts in H.
  destruct H as (r & Hr & Hm). cbn [In] in Hr.
  repeat (destruct Hr as [<-|Hr]; [type_text_case Hm|]).
  contradiction.
Qed.

Lemma full_type_texts (t rest : string) :
  matches Citation.FULL_TYPES t rest ->
  In (type_text t)
     ["decreto legislativo"; "decreto-legge"; "decreto legge"; "legge";
      "regio decreto"; "d.p.r"; "d.p.r."].
Proof.
  unfold Citation.FULL_TYPES. intros H. apply matches_alts in H.
  destruct H as (r & Hr & Hm). cbn [In] in Hr.
  repeat (destruct Hr as [<-|Hr]; [type_text_case Hm|]).
  contradiction.
Qed.

Lemma matches_plus_digits (w rest : string) :
  matches (plus dg) w rest -> digits w.
Proof.
  intros H. apply matches_plus_cls in H. destruct H as (a & w' & -> & Ha & Hw).
  assert (G : forall v, Js.forallb_string Js.is_digit v = true ->
                        exists ds, v = digit_string ds /\ Forall (fun d => d < 10) ds).
  { induction v as [|x v IH]; intros Hv.
    - exists []. split; [reflexivity | constructor].
    - simpl in Hv. apply andb_prop in Hv. destruct Hv as [Hx Hv].
      destruct (IH Hv) as (ds & -> & Hds).
      apply is_digit_char in Hx. destruct Hx as (d & Hd & ->).
      exists (d :: ds). split; [reflexivity | constructor; assumption]. }
  destruct (G (String a w')) as (ds & E & Hds).
  { simpl. rewrite Ha, Hw. reflexivity. }
  exists ds. split; [exact E|]. split; [|exact Hds].
  intros ->. discriminate.
Qed.

End TypeTexts.

Section NormalizeFacts.
Import Regex Db Spec Sem Props StatuteId.

Ltac inv_seq H H1 H2 :=
  let T := fresh in
  rename H into T;
  inversion T as [| |? ? ? ? ? H1 H2| | | | | |]; subst; clear T.

Lemma four_digits_shape (w rest : string) :
  matches Citation.DIGITS4 w rest -> digits w /\ String.length w = 4.
Proof.
  intros H. apply matches_digits4 in H. destruct H as (ds & Hds & -> & Hlen).
  split.
  - exists ds. repeat split; auto. intros ->. discriminate.
  - rewrite length_digit_string. exact Hlen.
Qed.

(** The identifiers that the canonical pattern accepts. *)
Lemma canonical_id_shape (s : string) :
  match_whole CANONICAL_ID s = true ->
  id_shape ["legge"; "dlgs"; "dl"; "dpr"; "rd"] s.
Proof.
  unfold match_whole.
  destruct (rmatch CANONICAL_ID s [] _) as [x|] eqn:E; [intros _ | discriminate].
  apply rmatch_matches in E. destruct E as (w & s' & c' & -> & Hm & _ & _).
  unfold CANONICAL_ID in Hm. cbn [seqs] in Hm.
  inv_seq Hm H1 Hm. inv_seq Hm H2 Hm. inv_seq Hm H3 Hm. inv_seq Hm H4 Hm.
  inv_seq Hm H5 H6.
  inversion H6; subst. inversion H1 as [| | | | | | |? ? ? ? Hty|]; subst.
  apply matches_cls in H2, H4.
  destruct H2 as (a2 & -> & E2). destruct H4 as (a4 & -> & E4).
  apply Ascii.eqb_eq in E2, E4. subst a2 a4.
  apply matches_plus_digits in H3. apply four_digits_shape in H5.
  destruct H5 as [H5 L5].
  apply (matches_alts (map lit ["legge"; "dlgs"; "dl"; "dpr"; "rd"])) in Hty.
  destruct Hty as (r & Hr & Hty).
  apply in_map_iff in Hr. destruct Hr as (ty & <- & Hin).
  apply matches_lit in Hty. subst.
  rewrite !append_nil_r.
  exists ty. eexists. eexists. split; [reflexivity|]. auto.
Qed.

(** The type that [canonical_from] writes for a type text. *)
Lemma type_of_text (x : string) :
  In x ["d.lgs"; "d.lgs."; "d.l"; "d.l."; "l"; "l."; "d.p.r"; "d.p.r.";
        "r.d"; "r.d."; "legge"; "decreto legislativo"; "decreto-legge";
        "decreto legge"] ->
  In match Citation.lookup x TYPE_ABBREVIATIONS with
     | Some v => v
     | None => strip_dots_spaces x
     end ["legge"; "dlgs"; "dl"; "dpr"; "rd"; "l"].
Proof.
  cbn [In]. intros H.
  repeat (destruct H as [<-|H]; [vm_compute; auto 10|]).
  contradiction.
Qed.

Lemma short_id_type_texts (t rest : string) :
  matches (Alt Citation.SHORT_TYPES
               (seqs [lit_i "Decreto"; plus ws; lit_i "legge"])) t rest ->
  In (type_text t)
     ["d.lgs"; "d.lgs."; "d.l"; "d.l."; "l"; "l."; "d.p.r"; "d.p.r.";
      "r.d"; "r.d."; "legge"; "decreto legislativo"; "decreto-legge";
      "decreto legge"].
Proof.
  intros H. inversion H as [| | |? ? ? ? H1|? ? ? ? H1| | | |]; subst.
  - apply short_type_texts in H1. cbn [In] in *. tauto.
  - apply (lower_two_words "Decreto" "legge") in H1. unfold type_text.
    rewrite H1. vm_compute. auto 20.
Qed.

(** What [canonical_from] returns on captures whose first three groups hold
    a type text, a number and a year. *)
Lemma canonical_from_shape (m : caps) (t n y : string) :
  group m 1 = Some t -> group m 2 = Some n -> group m 3 = Some y ->
  In (type_text t)
     ["d.lgs"; "d.lgs."; "d.l"; "d.l."; "l"; "l."; "d.p.r"; "d.p.r.";
      "r.d"; "r.d."; "legge"; "decreto legislativo"; "decreto-legge";
      "decreto legge"] ->
  digits n -> digits y -> String.length y = 4 ->
  exists id, canonical_from m = Ok id
             /\ id_shape ["legge"; "dlgs"; "dl"; "dpr"; "rd"; "l"] id.
Proof.
  intros G1 G2 G3 Ht Hn Hy Ly. unfold canonical_from.
  rewrite G1, G2, G3. cbn [defined_or_throw bind].
  eexists. split; [reflexivity|].
  eexists _, n, y. split; [reflexivity|].
  split; [|auto]. apply type_of_text, Ht.
Qed.

Lemma short_id_canonical (s rest : string) (m : caps) :
  match_start SHORT_ID s = Some (rest, m) ->
  exists id, canonical_from m = Ok id
             /\ id_shape ["legge"; "dlgs"; "dl"; "dpr"; "rd"; "l"] id.
Proof.
  intros H.
  destruct (match_start_sets _ _ _ _ 1 H eq_refl) as [g1 G1].
  destruct (match_start_sets _ _ _ _ 2 H eq_refl) as [g2 G2].
  destruct (match_start_sets _ _ _ _ 3 H eq_refl) as [g3 G3].
  apply match_start_matches in H. destruct H as (w & _ & _ & Hc).
  destruct (Hc 1 g1 G1) as (b1 & r1 & Hb1 & Hm1).
  destruct (Hc 2 g2 G2) as (b2 & r2 & Hb2 & Hm2).
  destruct (Hc 3 g3 G3) as (b3 & r3 & Hb3 & Hm3).
  cbn in Hb1, Hb2, Hb3.
  destruct Hb1 as [<-|[]]. destruct Hb2 as [<-|[]]. destruct Hb3 as [<-|[]].
  apply short_id_type_texts in Hm1. apply matches_plus_digits in Hm2.
  apply four_digits_shape in Hm3. destruct Hm3 as [Hm3 L3].
  eapply canonical_from_shape; eauto.
Qed.

(** Whatever the parenthetical pattern matches, the short pattern matches
    as well. *)
Lemma paren_needs_short (s : string) :
  match_start SHORT_ID s = None -> match_start PAREN_ID s = None.
Proof.
  intros H. destruct (match_start PAREN_ID s) as [[rest m]|] eqn:E; [|reflexivity].
  exfalso. apply match_start_matches in E. destruct E as (w & -> & Hm & _).
  unfold PAREN_ID in Hm. cbn [seqs] in Hm.
  inv_seq Hm H1 Hm. inv_seq Hm H2 Hm.
  inversion H1 as [| | | | | | |? ? ? ? Hty|]; subst.
  assert (M : matches SHORT_ID (w1 ++ w0) (w3 ++ rest)).
  { unfold SHORT_ID. cbn [seqs]. constructor; [|exact H2].
    constructor. apply M_alt_l. rewrite append_assoc in Hty. exact Hty. }
  apply match_start_complete in M. apply M. rewrite <- H.
  f_equal. rewrite !append_assoc. reflexivity.
Qed.

(** X14.  The third attempt of [normalizeDocumentIdentifier], for a short
    form followed by a parenthesis, never decides: whenever its pattern
    matches, the pattern of the second attempt has matched before.  The
    function is the one without its third attempt. *)
Theorem normalizeDocumentIdentifier_parenthetical_unreachable (input : string) :
  normalizeDocumentIdentifier input = normalize_without_parenthetical input.
Proof.
  unfold normalizeDocumentIdentifier, normalize_without_parenthetical.
  destruct (match_whole CANONICAL_ID (Js.trim input)); [reflexivity|].
  destruct (match_start SHORT_ID (Js.trim input)) as [[rest m]|] eqn:E;
    [reflexivity|].
  rewrite (paren_needs_short _ E). reflexivity.
Qed.

(** X15.  [normalizeDocumentIdentifier] does not throw.  An identifier it
    returns is a type, a number and a four-digit year joined by hyphens,
    the type being one of legge, dlgs, dl, dpr, rd, or the single letter l,
    which the abbreviation L without a dot gives; so the result need not be
    in the canonical form that the function itself accepts. *)
Theorem normalizeDocumentIdentifier_shape :
  (forall input,
     exists o, normalizeDocumentIdentifier input = Ok o
               /\ forall id, o = Some id ->
                    id_shape ["legge"; "dlgs"; "dl"; "dpr"; "rd"; "l"] id)
  /\ exists input id,
       normalizeDocumentIdentifier input = Ok (Some id)
       /\ match_whole CANONICAL_ID id = false.
Proof.
  split.
  - intros input. unfold normalizeDocumentIdentifier.
    destruct (match_whole CANONICAL_ID (Js.trim input)) eqn:C.
    + eexists. split; [reflexivity|]. intros id Hid. inversion Hid; subst id.
      destruct (canonical_id_shape _ C) as (ty & n & y & E & Hty & Hr).
      exists ty, n, y. split; [exact E|]. split; [|exact Hr].
      cbn [In] in *. tauto.
    + destruct (match_start SHORT_ID (Js.trim input)) as [[rest m]|] eqn:E.
      * destruct (short_id_canonical _ _ _ E) as (id & -> & Hid).
        cbn [bind]. eexists. split; [reflexivity|].
        intros id' Hid'. inversion Hid'; subst. exact Hid.
      * rewrite (paren_needs_short _ E). eexists. split; [reflexivity|].
        discriminate.
  - exists "L 633/1941", "l-633-1941". split; vm_compute; reflexivity.
Qed.

End NormalizeFacts.
(** ** The citations that the parser builds *)

Section CitationShape.
Import Regex Citation Spec Sem Props.

Lemma matches_rest (r : regex) (w rest : string) :
  matches r w rest -> no_eos r = true -> forall rest', matches r w rest'.
Proof.
  intros H. induction H; simpl; intros E rest'; try discriminate;
    try (apply andb_prop in E; destruct E as [E1 E2]);
    try (constructor; auto; fail).
Qed.

(** The text of a group that the pattern always sets, and of one that it
    may set. *)
Lemma match_start_group (r : regex) (s rest : string) (m : caps) (i : nat)
      (body : regex) :
  match_start r s = Some (rest, m) -> sets i r = true -> bodies i r = [body] ->
  exists v rest', group m i = Some v /\ matches body v rest'.
Proof.
  intros H Hs Hb. destruct (match_start_sets _ _ _ _ i H Hs) as [v G].
  apply match_start_matches in H. destruct H as (w & _ & _ & Hc).
  destruct (Hc i v G) as (b & rest' & Hin & Hm). rewrite Hb in Hin.
  destruct Hin as [<-|[]]. eauto.
Qed.

Lemma match_start_group_opt (r : regex) (s rest : string) (m : caps) (i : nat)
      (body : regex) (v : string) :
  match_start r s = Some (rest, m) -> bodies i r = [body] ->
  group m i = Some v -> exists rest', matches body v rest'.
Proof.
  intros H Hb G.
  apply match_start_matches in H. destruct H as (w & _ & _ & Hc).
  destruct (Hc i v G) as (b & rest' & Hin & Hm). rewrite Hb in Hin.
  destruct Hin as [<-|[]]. eauto.
Qed.

Lemma matches_suffix (w rest : string) :
  matches SUFFIX w rest -> In (Js.toLowerCase w) ARTICLE_SUFFIXES.
Proof.
  unfold SUFFIX. intros H. apply matches_alts in H.
  destruct H as (r & Hr & Hm). apply in_map_iff in Hr.
  destruct Hr as (name & <- & Hname). apply lower_lit in Hm. rewrite Hm.
  cbn [In ARTICLE_SUFFIXES] in Hname.
  repeat (destruct Hname as [<-|Hname]; [vm_compute; auto 20|]).
  contradiction.
Qed.

Lemma digits_app_nil (w : string) : digits w -> digits (w ++ "").
Proof. rewrite append_nil_r. auto. Qed.

(** What [parseArticleRef] makes of an article number of the grammars. *)
Lemma parseArticleRef_artnum (raw rest : string) :
  matches ARTNUM raw rest ->
  exists art sfx, parseArticleRef raw = Ok (art, sfx) /\ digits art
                  /\ forall x, sfx = Some x -> In x ARTICLE_SUFFIXES.
Proof.
  intros H. unfold parseArticleRef.
  destruct (match_start ARTICLE_REF raw) as [[r m]|] eqn:E.
  - destruct (match_start_group _ _ _ _ 1 (plus dg) E eq_refl eq_refl)
      as (g1 & r1 & G1 & M1).
    destruct (match_start_group _ _ _ _ 2 SUFFIX E eq_refl eq_refl)
      as (g2 & r2 & G2 & M2).
    rewrite G1, G2. cbn [defined_or_throw bind].
    eexists _, _. split; [reflexivity|]. split.
    + apply (matches_plus_digits _ _ M1).
    + intros x Hx. inversion Hx; subst. apply (matches_suffix _ _ M2).
  - unfold ARTNUM in H.
    inversion H as [| |r1 r2 w1 w2 rest' H1 H2| | | | | |]; subst.
    apply matches_opt in H2. destruct H2 as [H2| ->].
    + exfalso.
      inversion H2 as [| |r3 r4 w3 w4 rest'' H3 H4| | | | | |]; subst.
      assert (M : matches ARTICLE_REF (w1 ++ w3 ++ w4 ++ "") "").
      { unfold ARTICLE_REF. cbn [seqs].
        constructor.
        - constructor. apply (matches_rest _ _ _ H1 eq_refl).
        - constructor; [apply (matches_rest _ _ _ H3 eq_refl)|].
          constructor; [|constructor].
          constructor. apply (matches_rest _ _ _ H4 eq_refl). }
      apply match_start_complete in M. apply M.
      rewrite !append_nil_r. exact E.
    + eexists _, _. split; [reflexivity|]. split; [|discriminate].
      apply digits_app_nil, (matches_plus_digits _ _ H1).
Qed.

Lemma parseInt_digits (w : string) :
  digits w -> exists n, Js.parseInt w = Js.Num n /\ (0 <= n)%Z.
Proof.
  intros (ds & -> & Hne & Hds). rewrite (parseInt_digit_string_double ds Hds Hne).
  eexists. split; [reflexivity|].
  pose proof (decimal_bound ds Hds). apply to_double_nonneg. lia.
Qed.

Lemma parseInt_year (w rest : string) :
  matches DIGITS4 w rest ->
  exists y, Js.parseInt w = Js.Num y /\ (0 <= y <= 9999)%Z.
Proof.
  intros H. apply matches_digits4 in H. destruct H as (ds & Hds & -> & Hlen).
  rewrite (parseInt_digit_string ds Hds) by (try (intros ->; discriminate); lia).
  exists (decimal ds). split; [reflexivity|].
  pose proof (decimal_bound ds Hds) as B. rewrite Hlen in B.
  change (10 ^ Z.of_nat 4)%Z with 10000%Z in B. lia.
Qed.

(** The type that [resolveDocType] gives to a type text of the grammars. *)
Lemma resolveDocType_texts (t : string) :
  In (type_text t)
     ["d.lgs"; "d.lgs."; "d.l"; "d.l."; "l"; "l."; "d.p.r"; "d.p.r.";
      "r.d"; "r.d."; "legge"; "decreto legislativo"; "decreto-legge";
      "decreto legge"; "regio decreto"] ->
  In (resolveDocType t) [legge; dlgs; dl; dpr; rd; unknown].
Proof.
  unfold resolveDocType. change (Js.trim (Js.collapse_spaces (Js.toLowerCase t)))
    with (type_text t).
  cbn [In]. intros H.
  repeat (destruct H as [<-|H]; [vm_compute; auto 10|]).
  contradiction.
Qed.

Lemma resolveDocType_short (t rest : string) :
  matches SHORT_TYPES t rest ->
  In (resolveDocType t) [legge; dlgs; dl; dpr; rd; unknown].
Proof.
  intros H. apply short_type_texts in H. apply resolveDocType_texts.
  cbn [In] in *. tauto.
Qed.

Lemma resolveDocType_full (t rest : string) :
  matches FULL_TYPES t rest ->
  In (resolveDocType t) [legge; dlgs; dl; dpr; rd; unknown].
Proof.
  intros H. apply full_type_texts in H. apply resolveDocType_texts.
  cbn [In] in *. tauto.
Qed.

Lemma docTypeOfPrefix_types (t rest : string) :
  matches (alts (map lit_i ["legge"; "dlgs"; "dl"; "dpr"; "rd"])) t rest ->
  In (docTypeOfPrefix (Js.toLowerCase t)) [legge; dlgs; dl; dpr; rd; unknown].
Proof.
  intros H. apply matches_alts in H.
  destruct H as (r & Hr & Hm). apply in_map_iff in Hr.
  destruct Hr as (name & <- & Hname). apply lower_lit in Hm. rewrite Hm.
  cbn [In] in Hname.
  repeat (destruct Hname as [<-|Hname]; [vm_compute; auto 10|]).
  contradiction.
Qed.

Lemma or_undefined_some (o : option string) (c : string) :
  Js.or_undefined o = Some c -> o = Some c.
Proof.
  unfold Js.or_undefined. destruct (Js.truthy_string o); [auto | discriminate].
Qed.

Lemma numbered_well_formed (docType : ItalianDocumentType) (art : string)
      (sfx comma : option string) (n y : Z) :
  digits art -> (forall x, sfx = Some x -> In x ARTICLE_SUFFIXES) ->
  (forall c, comma = Some c -> digits c) ->
  In docType [legge; dlgs; dl; dpr; rd; unknown] ->
  (0 <= n)%Z -> (0 <= y <= 9999)%Z ->
  well_formed (numbered docType art sfx comma (Js.Num n) (Js.Num y)).
Proof.
  intros Ha Hs Hc Ht Hn Hy. unfold well_formed, numbered. cbn.
  split; [eauto|]. split; [exact Hs|]. split; [exact Hc|]. split; [reflexivity|].
  right. exists n, y. repeat split; auto; lia.
Qed.

Lemma codice_letter_table :
  forallb (fun a => implb (Js.eq_ci "C" a) (negb (Js.is_space a))) all_ascii
  = true.
Proof. vm_compute. reflexivity. Qed.

Lemma codice_title (t rest : string) :
  matches (seqs [ lit_i "Codice"; plus ws; plus wd;
                  opt (Seq (plus ws) (plus wd)) ]) t rest ->
  Js.trim t <> EmptyString.
Proof.
  cbn [seqs]. intros H.
  inversion H as [| |r1 r2 w1 w2 rest' H1 H2| | | | | |]; subst.
  apply (matches_lit_i "Codice") in H1. destruct w1 as [|a w1]; [discriminate|].
  cbn [eq_ci_string] in H1. apply andb_prop in H1. destruct H1 as [Ha _].
  pose proof (for_all_ascii _ codice_letter_table a) as T. cbv beta in T.
  rewrite Ha in T. cbn [implb] in T. apply negb_true_iff in T.
  unfold Js.trim. cbn [append Js.trimStart]. rewrite T. cbn [Js.trimEnd].
  rewrite T. destruct (Js.trimEnd (w1 ++ w2)); discriminate.
Qed.

Ltac comma_digits G E :=
  let c := fresh "c" in let Hc := fresh "Hc" in
  let r2 := fresh "r" in let M2 := fresh "M" in
  intros c Hc; try apply or_undefined_some in Hc;
  destruct (match_start_group_opt _ _ _ _ G (plus dg) c E eq_refl Hc) as (r2 & M2);
  apply (matches_plus_digits _ _ M2).

Lemma fromComma_well_formed (s rest : string) (m : caps) :
  match_start COMMA_CITATION s = Some (rest, m) ->
  exists p, fromComma m = Ok p /\ valid p = true /\ well_formed p
            /\ forall n, number p = Some (Js.Num n) ->
                 exists i w, group m i = Some w /\ digits w
                             /\ Js.parseInt w = Js.Num n.
Proof.
  intros E.
  destruct (match_start_group _ _ _ _ 1 ARTNUM E eq_refl eq_refl)
    as (g1 & r1 & G1 & M1).
  destruct (match_start_group _ _ _ _ 3 SHORT_TYPES E eq_refl eq_refl)
    as (g3 & r3 & G3 & M3).
  destruct (match_start_group _ _ _ _ 4 (plus dg) E eq_refl eq_refl)
    as (g4 & r4 & G4 & M4).
  destruct (match_start_group _ _ _ _ 5 DIGITS4 E eq_refl eq_refl)
    as (g5 & r5 & G5 & M5).
  destruct (parseArticleRef_artnum _ _ M1) as (art & sfx & R & Ha & Hs).
  destruct (parseInt_digits _ (matches_plus_digits _ _ M4)) as (n & Pn & Hn).
  destruct (parseInt_year _ _ M5) as (y & Py & Hy).
  unfold fromComma, parseIntGroup. rewrite G1, G3, G4, G5.
  cbn [defined_or_throw bind]. rewrite R. cbn [bind fst snd]. rewrite Pn, Py.
  eexists. split; [reflexivity|]. split; [reflexivity|].
  split.
  { apply numbered_well_formed; auto.
    - comma_digits 2 E.
    - apply (resolveDocType_short _ _ M3). }
  intros n0 Hn0. cbn in Hn0. inversion Hn0; subst n0.
  exists 4, g4. split; [exact G4|].
  split; [apply (matches_plus_digits _ _ M4) | exact Pn].
Qed.

Lemma fromShort_well_formed (s rest : string) (m : caps) :
  match_start SHORT_CITATION s = Some (rest, m) ->
  exists p, fromShort m = Ok p /\ valid p = true /\ well_formed p
            /\ forall n, number p = Some (Js.Num n) ->
                 exists i w, group m i = Some w /\ digits w
                             /\ Js.parseInt w = Js.Num n.
Proof.
  intros E.
  destruct (match_start_group _ _ _ _ 1 ARTNUM E eq_refl eq_refl)
    as (g1 & r1 & G1 & M1).
  destruct (match_start_group _ _ _ _ 3 SHORT_TYPES E eq_refl eq_refl)
    as (g3 & r3 & G3 & M3).
  destruct (match_start_group _ _ _ _ 4 (plus dg) E eq_refl eq_refl)
    as (g4 & r4 & G4 & M4).
  destruct (match_start_group _ _ _ _ 5 DIGITS4 E eq_refl eq_refl)
    as (g5 & r5 & G5 & M5).
  destruct (parseArticleRef_artnum _ _ M1) as (art & sfx & R & Ha & Hs).
  destruct (parseInt_digits _ (matches_plus_digits _ _ M4)) as (n & Pn & Hn).
  destruct (parseInt_year _ _ M5) as (y & Py & Hy).
  unfold fromShort, parseIntGroup. rewrite G1, G3, G4, G5.
  cbn [defined_or_throw bind]. rewrite R. cbn [bind fst snd]. rewrite Pn, Py.
  eexists. split; [reflexivity|]. split; [reflexivity|].
  split.
  { apply numbered_well_formed; auto.
    - comma_digits 2 E.
    - apply (resolveDocType_short _ _ M3). }
  intros n0 Hn0. cbn in Hn0. inversion Hn0; subst n0.
  exists 4, g4. split; [exact G4|].
  split; [apply (matches_plus_digits _ _ M4) | exact Pn].
Qed.

Lemma fromFull_well_formed (s rest : string) (m : caps) :
  match_start FULL_CITATION s = Some (rest, m) ->
  exists p, fromFull m = Ok p /\ valid p = true /\ well_formed p
            /\ forall n, number p = Some (Js.Num n) ->
                 exists i w, group m i = Some w /\ digits w
                             /\ Js.parseInt w = Js.Num n.
Proof.
  intros E.
  destruct (match_start_group _ _ _ _ 1 ARTNUM E eq_refl eq_refl)
    as (g1 & r1 & G1 & M1).
  destruct (match_start_group _ _ _ _ 3 FULL_TYPES E eq_refl eq_refl)
    as (g3 & r3 & G3 & M3).
  destruct (match_start_group _ _ _ _ 7 (plus dg) E eq_refl eq_refl)
    as (g4 & r4 & G4 & M4).
  destruct (match_start_group _ _ _ _ 6 DIGITS4 E eq_refl eq_refl)
    as (g5 & r5 & G5 & M5).
  destruct (parseArticleRef_artnum _ _ M1) as (art & sfx & R & Ha & Hs).
  destruct (parseInt_digits _ (matches_plus_digits _ _ M4)) as (n & Pn & Hn).
  destruct (parseInt_year _ _ M5) as (y & Py & Hy).
  unfold fromFull, parseIntGroup. rewrite G1, G3, G4, G5.
  cbn [defined_or_throw bind]. rewrite R. cbn [bind fst snd]. rewrite Pn, Py.
  eexists. split; [reflexivity|]. split; [reflexivity|].
  split.
  { apply numbered_well_formed; auto.
    - comma_digits 2 E.
    - apply (resolveDocType_full _ _ M3). }
  intros n0 Hn0. cbn in Hn0. inversion Hn0; subst n0.
  exists 7, g4. split; [exact G4|].
  split; [apply (matches_plus_digits _ _ M4) | exact Pn].
Qed.

Lemma fromIdBased_well_formed (s rest : string) (m : caps) :
  match_start ID_BASED_CITATION s = Some (rest, m) ->
  exists p, fromIdBased m = Ok p /\ valid p = true /\ well_formed p
            /\ forall n, number p = Some (Js.Num n) ->
                 exists i w, group m i = Some w /\ digits w
                             /\ Js.parseInt w = Js.Num n.
Proof.
  intros E.
  destruct (match_start_group _ _ _ _ 4 ARTNUM E eq_refl eq_refl)
    as (g1 & r1 & G1 & M1).
  destruct (match_start_group _ _ _ _ 1
              (alts (map lit_i ["legge"; "dlgs"; "dl"; "dpr"; "rd"]))
              E eq_refl eq_refl)
    as (g3 & r3 & G3 & M3).
  destruct (match_start_group _ _ _ _ 2 (plus dg) E eq_refl eq_refl)
    as (g4 & r4 & G4 & M4).
  destruct (match_start_group _ _ _ _ 3 DIGITS4 E eq_refl eq_refl)
    as (g5 & r5 & G5 & M5).
  destruct (parseArticleRef_artnum _ _ M1) as (art & sfx & R & Ha & Hs).
  destruct (parseInt_digits _ (matches_plus_digits _ _ M4)) as (n & Pn & Hn).
  destruct (parseInt_year _ _ M5) as (y & Py & Hy).
  unfold fromIdBased, parseIntGroup. rewrite G1, G3, G4, G5.
  cbn [defined_or_throw bind]. rewrite R. cbn [bind fst snd]. rewrite Pn, Py.
  eexists. split; [reflexivity|]. split; [reflexivity|].
  split.
  { apply numbered_well_formed; auto.
    - comma_digits 5 E.
    - apply (docTypeOfPrefix_types _ _ M3). }
  intros n0 Hn0. cbn in Hn0. inversion Hn0; subst n0.
  exists 2, g4. split; [exact G4|].
  split; [apply (matches_plus_digits _ _ M4) | exact Pn].
Qed.

Lemma fromCodice_well_formed (s rest : string) (m : caps) :
  match_start CODICE_CITATION s = Some (rest, m) ->
  exists p, fromCodice m = Ok p /\ valid p = true /\ well_formed p
            /\ forall n, number p = Some (Js.Num n) ->
                 exists i w, group m i = Some w /\ digits w
                             /\ Js.parseInt w = Js.Num n.
Proof.
  intros E.
  destruct (match_start_group _ _ _ _ 1 ARTNUM E eq_refl eq_refl)
    as (g1 & r1 & G1 & M1).
  destruct (match_start_group _ _ _ _ 3
              (seqs [ lit_i "Codice"; plus ws; plus wd;
                      opt (Seq (plus ws) (plus wd)) ])
              E eq_refl eq_refl)
    as (g3 & r3 & G3 & M3).
  destruct (parseArticleRef_artnum _ _ M1) as (art & sfx & R & Ha & Hs).
  unfold fromCodice. rewrite G1, G3.
  cbn [defined_or_throw bind]. rewrite R. cbn [bind fst snd].
  eexists. split; [reflexivity|]. split; [reflexivity|].
  split; [|intros n0 Hn0; discriminate].
  unfold well_formed. cbn.
  split; [eauto|]. split; [exact Hs|]. split; [comma_digits 2 E|].
  split; [reflexivity|]. left.
  split; [reflexivity|]. split; [|auto].
  eexists. split; [reflexivity|]. apply (codice_title _ _ M3).
Qed.

Lemma trimStart_factor (s : string) : exists pre, s = pre ++ Js.trimStart s.
Proof.
  induction s as [|a s [pre E]]; [exists EmptyString; reflexivity|].
  cbn [Js.trimStart]. destruct (Js.is_space a).
  - exists (String a pre). cbn [append]. rewrite <- E. reflexivity.
  - exists EmptyString. reflexivity.
Qed.

Lemma trimEnd_factor (s : string) : exists post, s = Js.trimEnd s ++ post.
Proof.
  induction s as [|a s [post E]]; [exists EmptyString; reflexivity|].
  cbn [Js.trimEnd]. destruct (Js.trimEnd s) as [|b t].
  - cbn [append] in E. subst post. destruct (Js.is_space a).
    + exists (String a s). reflexivity.
    + exists s. reflexivity.
  - exists post. cbn [append] in *. rewrite <- E. reflexivity.
Qed.

Lemma trim_factor (s : string) : factor (Js.trim s) s.
Proof.
  unfold Js.trim. destruct (trimStart_factor s) as [pre E].
  destruct (trimEnd_factor (Js.trimStart s)) as [post E'].
  exists pre, post. rewrite <- E', <- E. reflexivity.
Qed.

Lemma digits_forallb (w : string) :
  digits w -> Js.forallb_string Js.is_digit w = true /\ w <> EmptyString.
Proof.
  intros (ds & -> & Hne & Hds). split.
  - clear Hne. induction Hds as [|d ds Hd _ IH]; [reflexivity|].
    cbn [digit_string Js.forallb_string].
    rewrite (digit_char_is_digit d Hd), IH. reflexivity.
  - destruct ds; [contradiction | discriminate].
Qed.

(** The number of a citation is below 10^15 when the citation has no run
    of more than 15 digits. *)
Lemma captured_number_bound (r : regex) (s citation rest : string) (m : caps)
      (n : Z) :
  longest_digit_run citation <= 15 -> factor s citation ->
  match_start r s = Some (rest, m) ->
  (exists i w, group m i = Some w /\ digits w /\ Js.parseInt w = Js.Num n) ->
  (n < 10 ^ 15)%Z.
Proof.
  intros Hrun Hs E (i & w & G & D & P).
  destruct (digits_forallb w D) as [F Hne].
  rewrite (parseInt_value w F Hne) in P. inversion P; subst n.
  apply group_in in G. destruct (match_start_factor _ _ _ _ E) as [_ Hc].
  pose proof (digit_run_factor w citation F
                (factor_trans _ _ _ (Hc i w G) Hs)) as L.
  destruct (value_bound w F ltac:(lia)) as [B ->]. lia.
Qed.

(** X16.  A citation that has no run of more than 15 digits has numbers
    that the program reads exactly.  On such a citation [parseCitation] does
    not throw, and a citation it declares valid is well formed: its article
    is a number, its suffix one of the nine Latin ordinals in lower case, its
    paragraph a number; a code has a title and no identifier; any other act
    has a number below 10^15, a year of four digits and the identifier built
    from its type, number and year, its type being possibly unknown.  A
    citation it declares invalid is the fixed record that carries the error
    message. *)
Theorem parseCitation_well_formed (citation : string) :
  longest_digit_run citation <= 15 ->
  exists p,
    parseCitation citation = Ok p
    /\ (valid p = true ->
        well_formed p
        /\ forall n, number p = Some (Js.Num n) -> (n < 10 ^ 15)%Z)
    /\ (valid p = false -> p = invalid (Js.trim citation)).
Proof.
  intros Hrun. pose proof (trim_factor citation) as Ht.
  unfold parseCitation.
  destruct (match_start COMMA_CITATION (Js.trim citation)) as [[r1 m1]|] eqn:E1.
  { destruct (fromComma_well_formed _ _ _ E1) as (p & -> & V & W & N).
    exists p. rewrite V. split; [reflexivity|]. split; [|discriminate].
    intros _. split; [exact W|]. intros n Hn.
    apply (captured_number_bound _ _ _ _ _ n Hrun Ht E1 (N n Hn)). }
  destruct (match_start ID_BASED_CITATION (Js.trim citation)) as [[r2 m2]|] eqn:E2.
  { destruct (fromIdBased_well_formed _ _ _ E2) as (p & -> & V & W & N).
    exists p. rewrite V. split; [reflexivity|]. split; [|discriminate].
    intros _. split; [exact W|]. intros n Hn.
    apply (captured_number_bound _ _ _ _ _ n Hrun Ht E2 (N n Hn)). }
  destruct (match_start CODICE_CITATION (Js.trim citation)) as [[r3 m3]|] eqn:E3.
  { destruct (fromCodice_well_formed _ _ _ E3) as (p & -> & V & W & N).
    exists p. rewrite V. split; [reflexivity|]. split; [|discriminate].
    intros _. split; [exact W|]. intros n Hn.
    apply (captured_number_bound _ _ _ _ _ n Hrun Ht E3 (N n Hn)). }
  destruct (match_start FULL_CITATION (Js.trim citation)) as [[r4 m4]|] eqn:E4.
  { destruct (fromFull_well_formed _ _ _ E4) as (p & -> & V & W & N).
    exists p. rewrite V. split; [reflexivity|]. split; [|discriminate].
    intros _. split; [exact W|]. intros n Hn.
    apply (captured_number_bound _ _ _ _ _ n Hrun Ht E4 (N n Hn)). }
  destruct (match_start SHORT_CITATION (Js.trim citation)) as [[r5 m5]|] eqn:E5.
  { destruct (fromShort_well_formed _ _ _ E5) as (p & -> & V & W & N).
    exists p. rewrite V. split; [reflexivity|]. split; [|discriminate].
    intros _. split; [exact W|]. intros n Hn.
    apply (captured_number_bound _ _ _ _ _ n Hrun Ht E5 (N n Hn)). }
  eexists. split; [reflexivity|]. split; [discriminate | reflexivity].
Qed.

(** The theorem at a citation of the penal code by its decree. *)
Lemma parseCitation_well_formed_witness :
  let citation := "  Art. 640-bis, comma 2, R.D. 1398/1930 " in
  longest_digit_run citation <= 15
  /\ parseCitation citation
     = Ok (numbered rd "640" (Some "bis") (Some "2")
                    (Js.Num 1398) (Js.Num 1930))
  /\ well_formed (numbered rd "640" (Some "bis") (Some "2")
                           (Js.Num 1398) (Js.Num 1930)).
Proof.
  intros citation.
  assert (B : longest_digit_run citation <= 15) by (vm_compute; lia).
  split; [exact B|].
  destruct (parseCitation_well_formed citation B) as (p & Hp & Hv & _).
  assert (E : parseCitation citation
              = Ok (numbered rd "640" (Some "bis") (Some "2")
                             (Js.Num 1398) (Js.Num 1930)))
    by (vm_compute; reflexivity).
  split; [exact E|].
  rewrite E in Hp. inversion Hp; subst p. apply Hv. reflexivity.
Defined.

(** A number past 2^53 is read as its double. *)
Example parseCitation_large_number :
  parseCitation "Art. 1, L. 9007199254740993/2003"
  = Ok (numbered legge "1" None None
                 (Js.Num 9007199254740992) (Js.Num 2003)).
Proof. vm_compute. reflexivity. Qed.

End CitationShape.
(** ** The page client of the census *)

Section CensusFetchFacts.
Import Regex Fetcher Spec Sem Props CensusFetch.

Lemma rate_limits_app (a b : list event) :
  rate_limits (app a b) = rate_limits a + rate_limits b.
Proof.
  induction a as [|e a IH]; simpl; [reflexivity|].
  destruct e; simpl; rewrite IH; reflexivity.
Qed.

Lemma page_attempts_step (fuel attempt maxRetries : nat) (url : string)
      (world : nat -> outcome) (st : session) :
  page_attempts (S fuel) attempt maxRetries url world st
  = match world attempt with
    | Rejected reason => (Throw reason, emit (Request url (cookie_header st)) st)
    | Responded response =>
        let st1 := capture_cookies response (emit (Request url (cookie_header st)) st) in
        if transient (resp_status response) && (attempt <? maxRetries)%nat
        then page_attempts fuel (S attempt) maxRetries url world
                           (emit (Backoff (backoff attempt)) st1)
        else (page_of url (Responded response), st1)
    end.
Proof.
  cbn [page_attempts page_of]. destruct (world attempt) as [|r]; [reflexivity|].
  cbv zeta. destruct (transient (resp_status r) && (attempt <? maxRetries)%nat);
    [reflexivity|].
  destruct (resp_status r =? 200)%nat; reflexivity.
Qed.

(** The retry loop of [fetchPage], from request number [attempt] with
    [budget] retries left. *)
Lemma page_attempts_spec (url : string) (world : nat -> outcome) (maxRetries : nat) :
  forall budget attempt st,
    attempt + budget = maxRetries ->
    let out := page_attempts (S budget) attempt maxRetries url world st in
    let n := retries world attempt budget in
    exists new,
      trace (snd out) = app (trace st) new
      /\ n <= budget
      /\ request_count new = S n
      /\ rate_limits new = 0
      /\ backoffs new = map backoff (seq attempt n)
      /\ (exists rest, new = Request url (cookie_header st) :: rest)
      /\ fst out = page_of url (world (attempt + n)).
Proof.
  induction budget as [|budget IH]; intros attempt st Hsum out n; subst out n.
  - rewrite page_attempts_step. cbn [retries]. rewrite Nat.add_0_r.
    destruct (world attempt) as [reason|r] eqn:W.
    + exists [Request url (cookie_header st)]. cbn.
      repeat split; eauto.
    + assert (E : (attempt <? maxRetries)%nat = false)
        by (apply Nat.ltb_ge; lia).
      rewrite E, andb_false_r. exists [Request url (cookie_header st)]. cbn.
      repeat split; eauto.
  - rewrite page_attempts_step. cbn [retries].
    destruct (world attempt) as [reason|r] eqn:W.
    + cbn [final]. rewrite Nat.add_0_r, W.
      exists [Request url (cookie_header st)]. cbn.
      repeat split; eauto; lia.
    + assert (E : (attempt <? maxRetries)%nat = true)
        by (apply Nat.ltb_lt; lia).
      rewrite E, andb_true_r.
      destruct (transient (resp_status r)) eqn:T; cbn [final]; rewrite T;
        cbn [negb].
      * specialize (IH (S attempt)
                       (emit (Backoff (backoff attempt))
                          (capture_cookies r (emit (Request url (cookie_header st)) st)))).
        destruct IH as (new & Htr & Hn & Hreq & Hrl & Hback & _ & Hres); [lia|].
        exists (Request url (cookie_header st) :: Backoff (backoff attempt) :: new).
        replace (attempt + S (retries world (S attempt) budget))
          with (S attempt + retries world (S attempt) budget) by lia.
        split; [|split; [|split; [|split; [|split; [|split]]]]].
        -- rewrite Htr. cbn [emit trace capture_cookies].
           rewrite <- !app_assoc. reflexivity.
        -- lia.
        -- cbn [request_count]. rewrite Hreq. reflexivity.
        -- cbn [rate_limits]. exact Hrl.
        -- cbn [backoffs seq map]. rewrite Hback. reflexivity.
        -- eauto.
        -- exact Hres.
      * rewrite Nat.add_0_r, W. exists [Request url (cookie_header st)]. cbn.
        repeat split; eauto; lia.
Qed.

(** [fetchPage] in one piece. *)
Lemma fetchPage_spec (url : string) (maxRetries : nat) (world : nat -> outcome)
      (st : session) :
  let out := fetchPage url maxRetries world st in
  let n := retries world 0 maxRetries in
  (exists rest,
     trace (snd out)
     = app (trace st) (RateLimit :: Request url (cookie_header st) :: rest)
     /\ request_count rest = n
     /\ rate_limits rest = 0
     /\ backoffs rest = map backoff (seq 0 n))
  /\ n <= maxRetries
  /\ fst out = page_of url (world n).
Proof.
  intros out n.
  destruct (page_attempts_spec url world maxRetries maxRetries 0
              (emit RateLimit st) eq_refl)
    as (new & Htr & Hn & Hreq & Hrl & Hback & (rest & Hnew) & Hres).
  fold n in Hn, Hreq, Hback, Hres. cbn [Nat.add] in Hres.
  change (page_attempts (S maxRetries) 0 maxRetries url world (emit RateLimit st))
    with out in Htr, Hres.
  subst new. cbn [request_count rate_limits backoffs] in Hreq, Hrl, Hback.
  split; [|split; [exact Hn | exact Hres]].
  exists rest. cbn [emit trace] in Htr. rewrite Htr, <- app_assoc.
  repeat split; auto.
Qed.

(** X17.  [fetchPage] of the census asks again only after a response with
    status 429 or at least 500, at most [maxRetries] times.  Of the last
    answer it returns the body when the status is 200; any other status,
    also one left when the retries are used up, is thrown as an HTTP error
    that names the status and the URL, and a rejected request is thrown as
    it is.  So the error after the loop is never the one thrown. *)
Theorem fetchPage_outcome (url : string) (maxRetries : nat)
        (world : nat -> outcome) (st : session) :
  let out := fetchPage url maxRetries world st in
  let n := retries world 0 maxRetries in
  (exists rest,
     trace (snd out)
     = app (trace st) (RateLimit :: Request url (cookie_header st) :: rest)
     /\ request_count rest = n
     /\ backoffs rest = map backoff (seq 0 n))
  /\ n <= maxRetries
  /\ (forall reason, world n = Rejected reason -> fst out = Throw reason)
  /\ (forall r, world n = Responded r -> resp_status r = 200 ->
        fst out = Ok (resp_text r))
  /\ (forall r, world n = Responded r -> resp_status r <> 200 ->
        fst out = Throw ("HTTP " ++ num (resp_status r) ++ " for " ++ url)).
Proof.
  intros out n.
  destruct (fetchPage_spec url maxRetries world st)
    as ((rest & Htr & Hreq & _ & Hback) & Hn & Hres).
  fold out in Htr, Hres. fold n in Hreq, Hback, Hn, Hres.
  split; [eauto|]. split; [exact Hn|].
  split; [|split].
  - intros reason W. rewrite Hres, W. reflexivity.
  - intros r W Hs. rewrite Hres, W. cbn [page_of]. rewrite Hs. reflexivity.
  - intros r W Hs. rewrite Hres, W. cbn [page_of].
    destruct (Nat.eqb_spec (resp_status r) 200); [contradiction | reflexivity].
Qed.

Lemma all_digits_string (v : string) :
  Js.forallb_string Js.is_digit v = true ->
  exists ds, v = digit_string ds /\ Forall (fun d => d < 10) ds.
Proof.
  induction v as [|x v IH]; intros Hv.
  - exists []. split; [reflexivity | constructor].
  - simpl in Hv. apply andb_prop in Hv. destruct Hv as [Hx Hv].
    destruct (IH Hv) as (ds & -> & Hds).
    apply is_digit_char in Hx. destruct Hx as (d & Hd & ->).
    exists (d :: ds). split; [reflexivity | constructor; assumption].
Qed.

Lemma remove_dots_digits (g : string) :
  Js.forallb_string digit_or_dot g = true ->
  Js.forallb_string Js.is_digit (remove_dots g) = true.
Proof.
  induction g as [|a g IH]; simpl; auto. intros H.
  apply andb_prop in H. destruct H as [Ha Hg]. unfold digit_or_dot in Ha.
  destruct (Ascii.eqb a ".") eqn:E; [auto|].
  rewrite orb_false_r in Ha. simpl. rewrite Ha. auto.
Qed.

(** [extractTotalCount] does not throw; its count is not negative, and it
    is 0 when the page does not state one. *)
Lemma extractTotalCount_total (html : string) :
  exists n, extractTotalCount html = Ok n
            /\ (forall z, n = Js.Num z -> (0 <= z)%Z)
            /\ (search TOTAL_COUNT html = None -> n = Js.Num 0).
Proof.
  unfold extractTotalCount.
  destruct (search TOTAL_COUNT html) as [[rest m]|] eqn:E.
  - destruct (search_sets _ _ _ _ 1 E eq_refl) as [g G].
    apply search_matches in E. destruct E as (pre & w & _ & _ & Hc).
    destruct (Hc 1 g G) as (b & r & Hb & Hm).
    assert (B : bodies 1 TOTAL_COUNT = [plus (Cls digit_or_dot)]) by reflexivity.
    rewrite B in Hb. destruct Hb as [<-|[]].
    apply matches_plus_cls in Hm. destruct Hm as (a & w' & -> & Ha & Hw).
    rewrite G. cbn [defined_or_throw bind].
    eexists. split; [reflexivity|]. split; [|discriminate].
    destruct (all_digits_string (remove_dots (String a w'))) as (ds & Eds & Hds).
    { apply remove_dots_digits. simpl. rewrite Ha, Hw. reflexivity. }
    rewrite Eds. intros z Hz. destruct ds as [|d ds]; [discriminate|].
    rewrite (parseInt_digit_string_double (d :: ds) Hds) in Hz by discriminate.
    inversion Hz. pose proof (decimal_bound (d :: ds) Hds).
    apply to_double_nonneg. lia.
  - eexists. split; [reflexivity|]. split; [|reflexivity].
    intros z Hz. inversion Hz. lia.
Qed.

Section PageFacts.
Variable RawActEntry : Type.
Variable parseYearPage : string -> list RawActEntry.

(** The further pages: what was read is kept, and no more pages are asked
    for than the count calls for. *)
Lemma more_pages_spec (world : string -> nat -> outcome) (totalPages : Z) :
  forall fuel pageIdx allEntries st,
    exists more new,
      more_pages RawActEntry parseYearPage fuel pageIdx totalPages world
                 allEntries st
      = (app allEntries more, snd (more_pages RawActEntry parseYearPage fuel
                                     pageIdx totalPages world allEntries st))
      /\ trace (snd (more_pages RawActEntry parseYearPage fuel pageIdx
                       totalPages world allEntries st))
         = app (trace st) new
      /\ (Z.of_nat (rate_limits new)
          <= Z.max 0 (totalPages - 1 - Z.of_nat pageIdx))%Z.
Proof.
  induction fuel as [|fuel IH]; intros pageIdx allEntries st.
  - exists [], []. cbn. rewrite !app_nil_r. repeat split. lia.
  - cbn [more_pages].
    destruct (Z.ltb_spec (Z.of_nat pageIdx) (totalPages - 1)) as [Hlt|Hge].
    + destruct (fetchPage_spec (page_url pageIdx) 3 (world (page_url pageIdx)) st)
        as ((rest & Htr & _ & Hrl & _) & _ & _).
      destruct (fetchPage (page_url pageIdx) 3 (world (page_url pageIdx)) st)
        as [[pageHtml|e] st'] eqn:F; cbn [snd] in Htr.
      * destruct (parseYearPage pageHtml) as [|x xs] eqn:P.
        -- exists [], (RateLimit :: Request (page_url pageIdx) (cookie_header st) :: rest).
           cbn [fst snd]. rewrite !app_nil_r. split; [reflexivity|].
           split; [exact Htr|]. cbn [rate_limits]. rewrite Hrl. lia.
        -- destruct (IH (S pageIdx) (app allEntries (x :: xs)) st')
             as (more & new & E & Htr' & Hb).
           exists (app (x :: xs) more),
             (app (RateLimit :: Request (page_url pageIdx) (cookie_header st) :: rest) new).
           split; [|split].
           ++ rewrite E at 1. rewrite <- app_assoc. reflexivity.
           ++ rewrite Htr', Htr, <- app_assoc. reflexivity.
           ++ rewrite rate_limits_app. cbn [rate_limits]. rewrite Hrl. lia.
      * exists [], (RateLimit :: Request (page_url pageIdx) (cookie_header st) :: rest).
        cbn [fst snd]. rewrite !app_nil_r. split; [reflexivity|].
        split; [exact Htr|]. cbn [rate_limits]. rewrite Hrl. lia.
    + exists [], []. cbn. rewrite !app_nil_r. repeat split. lia.
Qed.

(** X18.  [fetchYearActs] starts a year without cookies.  It throws exactly
    when the first page cannot be fetched; a later page that fails, or that
    holds no entry, ends the year with what was read so far.  The entries of
    the first page lead the result.  No further page is asked for when the
    first page states no count, a count that is not a number, or a count
    that its own entries reach; otherwise at most as many further pages are
    asked for as the count divided by the size of the first page (20 when
    it is empty), rounded up, less one. *)
Theorem fetchYearActs_pages (year : Z) (world : string -> nat -> outcome)
        (st : session) :
  let first_url := BASE_URL ++ "/ricerca/elencoPerData/anno/"
                   ++ Js.number_to_string (Js.Num year) in
  let first := fetchPage first_url 3 (world first_url)
                 {| sessionCookies := []; trace := trace st |} in
  let out := fetchYearActs RawActEntry parseYearPage year world st in
  (exists rest,
     trace (snd out)
     = app (trace st) (RateLimit :: Request first_url None :: rest))
  /\ (forall e, fst first = Throw e -> out = (Throw e, snd first))
  /\ (forall html, fst first = Ok html ->
        exists totalCount more new,
          extractTotalCount html = Ok totalCount
          /\ fst out = Ok (app (parseYearPage html) more)
          /\ trace (snd out) = app (trace (snd first)) new
          /\ (more_than totalCount (List.length (parseYearPage html)) = false ->
              more = [] /\ new = [])
          /\ (forall t, totalCount = Js.Num t ->
                (Z.of_nat (rate_limits new)
                 <= Z.max 0 (ceil_div t (per_page (List.length (parseYearPage html)))
                             - 1))%Z)).
Proof.
  intros first_url first out.
  destruct (fetchPage_spec first_url 3 (world first_url)
              {| sessionCookies := []; trace := trace st |})
    as ((rest & Htr & _ & _ & _) & _ & _).
  fold first in Htr. cbn [trace cookie_header sessionCookies] in Htr.
  unfold out, fetchYearActs. fold first_url. fold first.
  destruct first as [[html|e] st'] eqn:F; cbn [fst snd] in *.
  - destruct (extractTotalCount_total html) as (n & En & Hn & _). rewrite En.
    destruct (more_than n (List.length (parseYearPage html))) eqn:M.
    + set (totalPages := match n with
                         | Js.Num t => ceil_div t _
                         | Js.NaN => 0%Z
                         end).
      destruct (more_pages_spec world totalPages (Z.to_nat totalPages) 0
                  (parseYearPage html) st') as (more & new & E & Htr' & Hb).
      rewrite E. cbn [fst snd].
      split; [|split; [discriminate|]].
      * rewrite Htr', Htr, <- app_assoc. cbn [app]. eauto.
      * intros html' Hh. inversion Hh; subst html'.
        exists n, more, new. split; [exact En|]. split; [reflexivity|].
        split; [exact Htr'|]. split; [intros C; congruence|].
        intros t Ht. subst n. subst totalPages. cbv iota in Hb.
        fold (per_page (List.length (parseYearPage html))) in Hb. lia.
    + cbn [fst snd]. split; [|split; [discriminate|]].
      * rewrite Htr. eauto.
      * intros html' Hh. inversion Hh; subst html'.
        exists n, [], []. rewrite !app_nil_r.
        split; [exact En|]. split; [reflexivity|]. split; [reflexivity|].
        split; [auto|]. intros t _. cbn. lia.
  - split; [|split; [|discriminate]].
    + rewrite Htr. eauto.
    + intros e' He. inversion He. reflexivity.
Qed.

End PageFacts.

End CensusFetchFacts.
(** ** The provision lookup *)

Section LikeFacts.
Import Db.

Lemma LIKE_from_percent (p text : string) :
  LIKE_from (String "%" p) text
  = LIKE_from p text
    || match text with
       | EmptyString => false
       | String _ text' => LIKE_from (String "%" p) text'
       end.
Proof. destruct text; reflexivity. Qed.

Lemma LIKE_from_percent_all (text : string) : LIKE_from "%" text = true.
Proof.
  induction text as [|a text IH]; [reflexivity|].
  rewrite LIKE_from_percent, IH. apply orb_true_r.
Qed.

Lemma LIKE_from_char (c : ascii) (p text : string) :
  c <> "%"%char -> c <> "_"%char ->
  LIKE_from (String c p) text
  = match text with
    | String d text' => Js.eq_ci c d && LIKE_from p text'
    | EmptyString => false
    end.
Proof.
  intros H1 H2.
  destruct c as [[] [] [] [] [] [] [] []]; try reflexivity;
    exfalso; auto.
Qed.

Lemma eq_ci_refl (c : ascii) : Js.eq_ci c c = true.
Proof. unfold Js.eq_ci. apply Ascii.eqb_refl. Qed.

(** A text matches the pattern made of one of its prefixes and [%]; the
    characters [%] and [_] of the prefix match themselves. *)
Lemma LIKE_from_prefix (p post : string) :
  LIKE_from (p ++ "%") (p ++ post) = true.
Proof.
  induction p as [|c p IH]; cbn [append].
  - apply LIKE_from_percent_all.
  - destruct (Ascii.eqb_spec c "%") as [->|H1].
    { rewrite LIKE_from_percent. apply orb_true_iff. right.
      rewrite LIKE_from_percent, IH. reflexivity. }
    destruct (Ascii.eqb_spec c "_") as [->|H2].
    { exact IH. }
    rewrite (LIKE_from_char c _ _ H1 H2), eq_ci_refl, IH. reflexivity.
Qed.

Lemma LIKE_from_skip (p pre text : string) :
  LIKE_from (String "%" p) text = true ->
  LIKE_from (String "%" p) (pre ++ text) = true.
Proof.
  intros H. induction pre as [|a pre IH]; cbn [append]; [exact H|].
  rewrite LIKE_from_percent, IH. apply orb_true_r.
Qed.

(** A text that contains [ref] is [LIKE] the pattern [%ref%]. *)
Lemma LIKE_contains (pre ref post : string) :
  LIKE (pre ++ ref ++ post) ("%" ++ ref ++ "%") = true.
Proof.
  unfold LIKE. cbn [append]. apply LIKE_from_skip.
  rewrite LIKE_from_percent, LIKE_from_prefix. reflexivity.
Qed.

Lemma LIKE_from_percent_suffix (p text : string) :
  LIKE_from (String "%" p) text = true ->
  exists pre t, text = pre ++ t /\ LIKE_from p t = true.
Proof.
  induction text as [|a text IH]; rewrite LIKE_from_percent; intros H.
  - rewrite orb_false_r in H. exists EmptyString, EmptyString. auto.
  - apply orb_true_iff in H. destruct H as [H|H].
    + exists EmptyString, (String a text). auto.
    + destruct (IH H) as (pre & t & -> & Ht).
      exists (String a pre), t. auto.
Qed.

Lemma LIKE_from_literal (ref : string) :
  Props.free_of "%" ref = true -> Props.free_of "_" ref = true ->
  forall t, LIKE_from (ref ++ "%") t = true ->
    exists w post, t = w ++ post /\ Sem.eq_ci_string ref w = true.
Proof.
  unfold Props.free_of.
  induction ref as [|c ref IH]; intros F1 F2 t H.
  - exists EmptyString, t. auto.
  - cbn [Js.forallb_string] in F1, F2.
    apply andb_prop in F1. destruct F1 as [C1 F1].
    apply andb_prop in F2. destruct F2 as [C2 F2].
    apply negb_true_iff, Ascii.eqb_neq in C1.
    apply negb_true_iff, Ascii.eqb_neq in C2.
    cbn [append] in H. rewrite (LIKE_from_char c _ _ C1 C2) in H.
    destruct t as [|d t]; [discriminate|].
    apply andb_prop in H. destruct H as [Hc Ht].
    destruct (IH F1 F2 t Ht) as (w & post & -> & Hw).
    exists (String d w), post. split; [reflexivity|].
    cbn [Sem.eq_ci_string]. rewrite Hc, Hw. reflexivity.
Qed.

(** A text that is [LIKE] the pattern [%ref%] holds [ref], when [ref] has
    none of the wildcards. *)
Lemma LIKE_inside (ref text : string) :
  Props.free_of "%" ref = true -> Props.free_of "_" ref = true ->
  LIKE text ("%" ++ ref ++ "%") = true -> Props.contains_ci ref text.
Proof.
  intros F1 F2 H. unfold LIKE in H. cbn [append] in H.
  destruct (LIKE_from_percent_suffix _ _ H) as (pre & t & -> & Ht).
  destruct (LIKE_from_literal ref F1 F2 t Ht) as (w & post & -> & Hw).
  exists pre, w, post. auto.
Qed.

End LikeFacts.

Section GetProvisionFacts.
Import Db StatuteId GetProvision Props.

Lemma joined_in (db : Database) (docId : string)
      (cond : legal_provision -> bool) (lp : legal_provision)
      (ld : legal_document) :
  In (lp, ld) (joined db docId cond)
  <-> In lp (legal_provisions db) /\ document_id lp = docId
      /\ cond lp = true
      /\ find (by_id docId) (legal_documents db) = Some ld.
Proof.
  unfold joined. rewrite in_flat_map. split.
  - intros (p & Hp & Hin).
    destruct (String.eqb_spec (document_id p) docId) as [E|E];
      [|contradiction].
    destruct (cond p) eqn:C; [|contradiction]. cbn [andb] in Hin.
    rewrite E in Hin.
    destruct (find (by_id docId) (legal_documents db)) as [d|] eqn:F;
      [|contradiction].
    destruct Hin as [Hin|[]]. inversion Hin; subst. auto.
  - intros (Hp & E & C & F). exists lp. split; [exact Hp|].
    rewrite E, String.eqb_refl, C, F. left. reflexivity.
Qed.

Lemma find_by_id_in (docs : list legal_document) (docId : string)
      (ld : legal_document) :
  find (by_id docId) docs = Some ld -> In ld docs /\ id ld = docId.
Proof.
  intros F. apply find_some in F. destruct F as [H1 H2].
  split; [exact H1|]. apply String.eqb_eq, H2.
Qed.

Lemma find_by_id_some (docs : list legal_document) (ld : legal_document) :
  In ld docs -> exists ld', find (by_id (id ld)) docs = Some ld'.
Proof.
  intros H. destruct (find (by_id (id ld)) docs) as [ld'|] eqn:F; [eauto|].
  exfalso. apply (find_none _ _ F) in H. unfold by_id in H.
  rewrite String.eqb_refl in H. discriminate.
Qed.

Lemma joined_row_in (db : Database) (docId : string)
      (cond : legal_provision -> bool) (row : ProvisionRow) :
  In row (joined db docId cond) -> row_in db docId cond row.
Proof.
  destruct row as [lp ld]. intros H. apply joined_in in H.
  destruct H as (Hp & E & C & F). apply find_by_id_in in F.
  unfold row_in. cbn [fst snd]. tauto.
Qed.

Lemma joined_nil (db : Database) (docId : string)
      (cond : legal_provision -> bool) :
  joined db docId cond = [] -> forall row, ~ row_in db docId cond row.
Proof.
  intros H [lp ld] (Hp & E & C & Hd & Ei). cbn [fst snd] in *.
  destruct (find_by_id_some _ _ Hd) as [ld' F]. rewrite Ei in F.
  assert (Hin : In (lp, ld') (joined db docId cond)) by (apply joined_in; auto).
  rewrite H in Hin. contradiction.
Qed.

Lemma first_variant_some (db : Database) (docId : string) :
  forall vs row, first_variant db docId vs = Some row ->
    exists v, In v vs /\ In row (joined db docId (exactly v)).
Proof.
  induction vs as [|v vs IH]; intros row H; [discriminate|].
  cbn [first_variant] in H.
  destruct (joined db docId (exactly v)) as [|r rs] eqn:J.
  - destruct (IH row H) as (v' & Hv & Hin). exists v'. split; [right|]; auto.
  - inversion H; subst. exists v. split; [left; reflexivity|].
    rewrite J. left. reflexivity.
Qed.

Lemma first_variant_none (db : Database) (docId : string) :
  forall vs, first_variant db docId vs = None ->
    forall v, In v vs -> joined db docId (exactly v) = [].
Proof.
  induction vs as [|v vs IH]; intros H v' Hv; [contradiction|].
  cbn [first_variant] in H.
  destruct (joined db docId (exactly v)) as [|r rs] eqn:J; [|discriminate].
  destruct Hv as [<-|Hv]; auto.
Qed.

(** A provision found under one of the three forms contains the
    reference. *)
Lemma exactly_like (ref v : string) (lp : legal_provision) :
  In v (variants ref) -> exactly v lp = true ->
  like ("%" ++ ref ++ "%") lp = true.
Proof.
  intros Hv H. unfold exactly in H. unfold like.
  assert (G : LIKE v ("%" ++ ref ++ "%") = true).
  { cbn [variants In] in Hv.
    destruct Hv as [<-|[<-|[<-|[]]]].
    - rewrite <- (append_nil_r ref) at 1. apply (LIKE_contains "" ref "").
    - rewrite <- (append_nil_r ref) at 1. apply (LIKE_contains "art" ref "").
    - rewrite <- (append_nil_r ref) at 1. apply (LIKE_contains "Art. " ref ""). }
  apply orb_true_iff in H. apply orb_true_iff.
  destruct H as [H|H]; apply String.eqb_eq in H; [left | right];
    rewrite H; exact G.
Qed.

Lemma row_in_weaken (db : Database) (docId : string)
      (c1 c2 : legal_provision -> bool) (row : ProvisionRow) :
  (c1 (fst row) = true -> c2 (fst row) = true) ->
  row_in db docId c1 row -> row_in db docId c2 row.
Proof. unfold row_in. tauto. Qed.

(** What [getProvision] answers, in the terms of its queries. *)
Lemma getProvision_answer (db : Database) (input : GetProvisionInput)
        (d : string) :
  in_document_id input = Some d -> d <> EmptyString ->
  exists r a,
    resolveExistingStatuteId db d = Ok r
    /\ getProvision db input = Ok a
    /\ let docId := match r with Some x => x | None => d end in
       let provisionRef :=
         BuildDb.nullish (in_provision_ref input)
                         (BuildDb.nullish (in_article input) (in_section input)) in
       (forall ref, provisionRef = Some ref -> ref <> EmptyString ->
          (a = Null \/ exists row, a = One row)
          /\ (forall row, a = One row ->
                row_in db docId (like ("%" ++ ref ++ "%")) row)
          /\ (a = Null ->
              forall row, ~ row_in db docId (like ("%" ++ ref ++ "%")) row)
          /\ (forall row, a = One row ->
                (exists v row', In v (variants ref)
                                /\ row_in db docId (exactly v) row') ->
                exists v, In v (variants ref) /\ exactly v (fst row) = true))
       /\ (provisionRef = None \/ provisionRef = Some EmptyString ->
           exists rows total,
             total = List.length
                       (filter (fun lp => String.eqb (document_id lp) docId)
                               (legal_provisions db))
             /\ a = (if (200 <? total)%nat then Truncated rows total else All rows)
             /\ List.length rows <= 200
             /\ rows = firstn 200 (joined db docId (fun _ => true))
             /\ forall row, In row rows -> row_in db docId (fun _ => true) row).
Proof.
  intros Hd Hne.
  destruct (resolveExistingStatuteId_stored db d) as (r & Hr & _).
  exists r. unfold getProvision. rewrite Hd.
  destruct d as [|c d']; [contradiction|]. rewrite Hr. cbn [bind].
  set (docId := match r with Some x => x | None => String c d' end).
  set (provisionRef := BuildDb.nullish _ _).
  destruct provisionRef as [[|c1 ref1]|] eqn:P.
  - (* the empty reference *)
    exists (if (200 <? List.length
                         (filter (fun lp => String.eqb (document_id lp) docId)
                                 (legal_provisions db)))%nat
            then Truncated (firstn 200 (joined db docId (fun _ => true)))
                   (List.length
                      (filter (fun lp => String.eqb (document_id lp) docId)
                              (legal_provisions db)))
            else All (firstn 200 (joined db docId (fun _ => true)))).
    split; [reflexivity|].
    split; [unfold MAX_ALL_PROVISIONS; destruct (200 <? _)%nat; reflexivity|].
    cbv zeta. split.
    + intros ref E Href. inversion E; subst. contradiction.
    + intros _. eexists _, _. split; [reflexivity|].
      split; [reflexivity|]. split; [apply firstn_le_length|].
      split; [reflexivity|].
      intros row Hin. apply joined_row_in.
      apply (in_firstn _ _ _ Hin).
  - (* a reference *)
    set (ref := String c1 ref1).
    change [ref; "art" ++ ref; "Art. " ++ ref] with (variants ref).
    destruct (first_variant db docId (variants ref)) as [row|] eqn:F.
    + eexists. split; [reflexivity|]. split; [reflexivity|]. cbv zeta. split.
      * intros ref' E Href. inversion E; subst ref'. fold ref.
        destruct (first_variant_some _ _ _ _ F) as (v & Hv & Hin).
        apply joined_row_in in Hin.
        split; [right; eauto|]. split; [|split; [discriminate|]].
        -- intros row' Hrow. inversion Hrow; subst row'.
           revert Hin. apply row_in_weaken. apply exactly_like, Hv.
        -- intros row' Hrow _. inversion Hrow; subst row'.
           exists v. split; [exact Hv|]. apply Hin.
      * intros [E|E]; discriminate.
    + destruct (joined db docId (like ("%" ++ ref ++ "%"))) as [|row rows] eqn:J.
      * eexists. split; [reflexivity|]. split; [reflexivity|]. cbv zeta. split.
        -- intros ref' E Href. inversion E; subst ref'. fold ref.
           split; [left; reflexivity|]. split; [discriminate|].
           split; [intros _; apply joined_nil, J | discriminate].
        -- intros [E|E]; discriminate.
      * eexists. split; [reflexivity|]. split; [reflexivity|]. cbv zeta. split.
        -- intros ref' E Href. inversion E; subst ref'. fold ref.
           assert (Hin : row_in db docId (like ("%" ++ ref ++ "%")) row).
           { apply joined_row_in. rewrite J. left. reflexivity. }
           split; [right; eauto|]. split; [|split; [discriminate|]].
           ++ intros row' Hrow. inversion Hrow; subst row'. exact Hin.
           ++ intros row' Hrow (v & row2 & Hv & Hrow2). exfalso.
              apply (joined_nil _ _ _ (first_variant_none _ _ _ F v Hv) row2 Hrow2).
        -- intros [E|E]; discriminate.
  - (* no reference *)
    exists (if (200 <? List.length
                         (filter (fun lp => String.eqb (document_id lp) docId)
                                 (legal_provisions db)))%nat
            then Truncated (firstn 200 (joined db docId (fun _ => true)))
                   (List.length
                      (filter (fun lp => String.eqb (document_id lp) docId)
                              (legal_provisions db)))
            else All (firstn 200 (joined db docId (fun _ => true)))).
    split; [reflexivity|].
    split; [unfold MAX_ALL_PROVISIONS; destruct (200 <? _)%nat; reflexivity|].
    cbv zeta. split.
    + intros ref E. discriminate.
    + intros _. eexists _, _. split; [reflexivity|].
      split; [reflexivity|]. split; [apply firstn_le_length|].
      split; [reflexivity|].
      intros row Hin. apply joined_row_in.
      apply (in_firstn _ _ _ Hin).
Qed.

(** X19.  [getProvision] with a document identifier does not throw.  Asked
    for a reference, it answers with one provision or with null.  The
    provision belongs to the resolved document, and its [provision_ref] or
    its [section] matches the SQL pattern made of the reference between two
    percent signs, in which a percent sign or an underscore of the reference
    is a wildcard; when the reference has neither, the provision holds the
    reference, up to the case of letters.  The provision is one that equals
    the reference, or the reference after "art" or "Art. ", whenever the
    document has such a provision.  The answer is null only when no
    provision of the document matches the pattern, so that none holds the
    reference as it is written, provided the document is stored.  Asked for
    no reference, or for the empty one, whatever the article and the section
    say, it answers with the provisions of the document: at most 200 of
    them, marked as truncated exactly when the document has more. *)
Theorem getProvision_lookup (db : Database) (input : GetProvisionInput)
        (d : string) :
  in_document_id input = Some d -> d <> EmptyString ->
  exists r a,
    resolveExistingStatuteId db d = Ok r
    /\ getProvision db input = Ok a
    /\ let docId := match r with Some x => x | None => d end in
       let provisionRef :=
         BuildDb.nullish (in_provision_ref input)
                         (BuildDb.nullish (in_article input) (in_section input)) in
       (forall ref, provisionRef = Some ref -> ref <> EmptyString ->
          (a = Null \/ exists row, a = One row)
          /\ (forall row, a = One row ->
                row_in db docId (like ("%" ++ ref ++ "%")) row
                /\ (free_of "%" ref = true -> free_of "_" ref = true ->
                    contains_ci ref (provision_ref (fst row))
                    \/ contains_ci ref (section (fst row))))
          /\ (a = Null ->
              (forall row, ~ row_in db docId (like ("%" ++ ref ++ "%")) row)
              /\ forall lp doc pre post,
                   In lp (legal_provisions db) -> document_id lp = docId ->
                   In doc (legal_documents db) -> id doc = docId ->
                   provision_ref lp <> pre ++ ref ++ post
                   /\ section lp <> pre ++ ref ++ post)
          /\ (forall row, a = One row ->
                (exists v row', In v (variants ref)
                                /\ row_in db docId (exactly v) row') ->
                exists v, In v (variants ref) /\ exactly v (fst row) = true))
       /\ (provisionRef = None \/ provisionRef = Some EmptyString ->
           exists rows total,
             total = List.length
                       (filter (fun lp => String.eqb (document_id lp) docId)
                               (legal_provisions db))
             /\ a = (if (200 <? total)%nat then Truncated rows total else All rows)
             /\ List.length rows <= 200
             /\ rows = firstn 200 (joined db docId (fun _ => true))
             /\ forall row, In row rows -> row_in db docId (fun _ => true) row).
Proof.
  intros Hd Hne.
  destruct (getProvision_answer db input d Hd Hne) as (r & a & Hr & Ha & H1 & H2).
  exists r, a. split; [exact Hr|]. split; [exact Ha|]. cbv zeta in *.
  split; [|exact H2].
  intros ref Hp Href.
  destruct (H1 ref Hp Href) as (A1 & A2 & A3 & A4).
  split; [exact A1|]. split; [|split; [|exact A4]].
  - intros row Hrow. pose proof (A2 row Hrow) as Hin. split; [exact Hin|].
    intros F1 F2. destruct Hin as (_ & _ & Hl & _). unfold like in Hl.
    apply orb_true_iff in Hl.
    destruct Hl as [Hl|Hl]; [left | right]; apply LIKE_inside; assumption.
  - intros Hnull. split; [exact (A3 Hnull)|].
    intros lp doc pre post Hlp Hdoc Hin Hid.
    split; intros E; apply (A3 Hnull (lp, doc)); unfold row_in, like;
      cbn [fst snd]; repeat split; auto; rewrite E, LIKE_contains;
      [reflexivity | apply orb_true_r].
Qed.

(** The theorem at a decree whose article 10 is stored before its article 1
    and that is asked for article 1: the answer is article 1, not the first
    provision that holds the reference. *)
Lemma getProvision_lookup_witness :
  let doc := {| id := "dlgs-196-2003"; title := "Codice Privacy";
                short_name := None; status := "in_force" |} in
  let p10 := {| document_id := "dlgs-196-2003"; provision_ref := "art10";
                section := "10" |} in
  let p1 := {| document_id := "dlgs-196-2003"; provision_ref := "art1";
               section := "1" |} in
  let db := {| legal_documents := [doc]; legal_provisions := [p10; p1] |} in
  let input := {| in_document_id := Some "dlgs-196-2003";
                  in_article := Some "1"; in_section := None;
                  in_provision_ref := None |} in
  in_document_id input = Some "dlgs-196-2003"
  /\ like "%1%" p10 = true
  /\ getProvision db input = Ok (One (p1, doc))
  /\ (contains_ci "1" (provision_ref p1) \/ contains_ci "1" (section p1))
  /\ exists v, In v (variants "1") /\ exactly v p1 = true.
Proof.
  intros doc p10 p1 db input. split; [reflexivity|]. split; [reflexivity|].
  destruct (getProvision_lookup db input "dlgs-196-2003" eq_refl
              ltac:(discriminate)) as (r & a & Hr & Ha & H1 & _).
  assert (E : a = One (p1, doc)).
  { vm_compute in Ha. inversion Ha. reflexivity. }
  subst a. split; [reflexivity|].
  vm_compute in Hr. inversion Hr; subst r.
  destruct (H1 "1" eq_refl ltac:(discriminate)) as (_ & H2 & _ & H4).
  split.
  - destruct (H2 (p1, doc) eq_refl) as [_ H]. apply H; reflexivity.
  - apply (H4 (p1, doc) eq_refl). exists "1", (p1, doc).
    split; [left; reflexivity|].
    unfold row_in. cbn. repeat split; auto.
Defined.

(** A reference with a wildcard: asked for the percent sign, [getProvision]
    answers with the first provision of the document, which does not hold
    that character. *)
Example getProvision_wildcard :
  let doc := {| id := "dlgs-196-2003"; title := "Codice Privacy";
                short_name := None; status := "in_force" |} in
  let p10 := {| document_id := "dlgs-196-2003"; provision_ref := "art10";
                section := "10" |} in
  let db := {| legal_documents := [doc]; legal_provisions := [p10] |} in
  getProvision db {| in_document_id := Some "dlgs-196-2003";
                     in_article := Some "%"; in_section := None;
                     in_provision_ref := None |}
  = Ok (One (p10, doc))
  /\ Js.includes "%" (provision_ref p10) = false
  /\ Js.includes "%" (section p10) = false.
Proof. repeat split; vm_compute; reflexivity. Qed.

End GetProvisionFacts.
(** ** The full-text query *)

Section FtsFacts.
Import Sem Props Fts.

Lemma forallb_substring (P : ascii -> bool) :
  forall m s, Js.forallb_string P s = true ->
              Js.forallb_string P (substring 0 m s) = true.
Proof.
  induction m as [|m IH]; intros [|a s] H; simpl; auto.
  simpl in H. apply andb_prop in H. destruct H as [Ha Hs].
  rewrite Ha. apply IH, Hs.
Qed.

Lemma forallb_filter_string (P keep : ascii -> bool) (s : string) :
  (forall a, keep a = true -> P a = true) ->
  Js.forallb_string P (filter_string keep s) = true.
Proof.
  intros H. induction s as [|a s IH]; simpl; auto.
  destruct (keep a) eqn:K; simpl; auto. rewrite (H a K). exact IH.
Qed.

Lemma forallb_remove_double_hyphens (P : ascii -> bool) (s : string) :
  Js.forallb_string P s = true ->
  Js.forallb_string P (remove_double_hyphens s) = true.
Proof.
  assert (G : forall s,
             (Js.forallb_string P s = true ->
              Js.forallb_string P (remove_double_hyphens s) = true)
             /\ forall a, Js.forallb_string P (String a s) = true ->
                          Js.forallb_string P (remove_double_hyphens (String a s))
                          = true).
  { clear s. induction s as [|b s [IH1 IH2]].
    - split; [auto|]. intros a H.
      destruct a as [[] [] [] [] [] [] [] []]; exact H.
    - split; [apply IH2|]. intros a H.
      cbn [Js.forallb_string] in H. apply andb_prop in H. destruct H as [Ha H].
      assert (K : Js.forallb_string P
                    (String a (remove_double_hyphens (String b s))) = true).
      { cbn [Js.forallb_string]. rewrite Ha. apply IH2, H. }
      cbn [Js.forallb_string] in H. apply andb_prop in H. destruct H as [Hb Hs].
      destruct (Ascii.eqb_spec a "-") as [->|Na];
        [destruct (Ascii.eqb_spec b "-") as [->|Nb]|].
      + cbn [remove_double_hyphens]. apply IH1, Hs.
      + destruct b as [[] [] [] [] [] [] [] []]; try exact K.
        exfalso; apply Nb; reflexivity.
      + destruct a as [[] [] [] [] [] [] [] []]; try exact K.
        exfalso; apply Na; reflexivity. }
  apply G.
Qed.

Lemma count_quotes_app (a b : string) :
  count_quotes (a ++ b) = count_quotes a + count_quotes b.
Proof. induction a as [|x a IH]; simpl; [|rewrite IH]; lia. Qed.

Lemma free_of_app (c : ascii) (a b : string) :
  free_of c (a ++ b) = free_of c a && free_of c b.
Proof. apply forallb_string_app. Qed.

Lemma free_of_quote_count (s : string) :
  free_of Js.dquote s = true -> count_quotes s = 0.
Proof.
  induction s as [|a s IH]; simpl; auto. intros H.
  apply andb_prop in H. destruct H as [Ha Hs].
  apply negb_true_iff in Ha. rewrite Ha, (IH Hs). reflexivity.
Qed.

Lemma keep_table :
  forallb (fun a => implb (is_letter a || is_number a
                           || Ascii.eqb a "_" || Ascii.eqb a "-")
                          (negb (Ascii.eqb a Js.dquote)
                           && negb (Ascii.eqb a ";")
                           && negb (Js.is_space a)
                           && negb (Ascii.eqb a "*")))
          all_ascii = true.
Proof. vm_compute. reflexivity. Qed.

(** A sanitised token holds neither a quote, a semicolon, a star nor white
    space. *)
Lemma sanitiseToken_clean (t : string) :
  free_of Js.dquote (sanitiseToken t) = true
  /\ free_of ";" (sanitiseToken t) = true.
Proof.
  assert (K : forall a, is_letter a || is_number a || Ascii.eqb a "_"
                        || Ascii.eqb a "-" = true ->
                        negb (Ascii.eqb a Js.dquote) = true
                        /\ negb (Ascii.eqb a ";") = true).
  { intros a Ha. pose proof (for_all_ascii _ keep_table a) as T.
    cbv beta in T. rewrite Ha in T. cbn [implb] in T.
    apply andb_prop in T. destruct T as [T _].
    apply andb_prop in T. destruct T as [T _].
    apply andb_prop in T. exact T. }
  split; apply forallb_filter_string; intros a Ha; apply (K a Ha).
Qed.

Lemma tokens_clean (l : list string) (t : string) :
  In t (filter non_empty (map sanitiseToken l)) ->
  free_of Js.dquote t = true /\ free_of ";" t = true.
Proof.
  intros H. apply filter_In in H. destruct H as [H _].
  apply in_map_iff in H. destruct H as (x & <- & _). apply sanitiseToken_clean.
Qed.

(** The terms of a query joined by a separator. *)
Lemma join_quotes (sep : string) (l : list string) (k : nat) :
  count_quotes sep = 0 -> (forall x, In x l -> count_quotes x = k) ->
  count_quotes (Js.join sep l) = k * List.length l.
Proof.
  intros Hsep. induction l as [|x l IH]; intros H; [simpl; lia|].
  destruct l as [|y l].
  - simpl. rewrite (H x) by (left; reflexivity). lia.
  - change (Js.join sep (x :: y :: l)) with (x ++ sep ++ Js.join sep (y :: l)).
    rewrite !count_quotes_app, Hsep, IH, (H x)
      by (try (left; reflexivity); intros z Hz; apply H; right; exact Hz).
    cbn [List.length]. lia.
Qed.

Lemma join_free (c : ascii) (sep : string) (l : list string) :
  free_of c sep = true -> (forall x, In x l -> free_of c x = true) ->
  free_of c (Js.join sep l) = true.
Proof.
  intros Hsep. induction l as [|x l IH]; intros H; [reflexivity|].
  destruct l as [|y l].
  - apply H. left. reflexivity.
  - change (Js.join sep (x :: y :: l)) with (x ++ sep ++ Js.join sep (y :: l)).
    rewrite !free_of_app, Hsep, IH, (H x)
      by (try (left; reflexivity); intros z Hz; apply H; right; exact Hz).
    reflexivity.
Qed.

Lemma even_double (n : nat) : Nat.even (2 * n) = true.
Proof.
  rewrite Nat.even_mul. reflexivity.
Qed.

(** X20.  The primary query that [buildFtsQueryVariants] builds always
    holds an even number of double quotes and no semicolon, whatever the
    input; the fallback query, when there is one, holds neither. *)
Theorem buildFtsQueryVariants_balanced (query : string) :
  let v := buildFtsQueryVariants query in
  Nat.even (count_quotes (primary v)) = true
  /\ free_of ";" (primary v) = true
  /\ forall f, fallback v = Some f ->
       free_of Js.dquote f = true /\ free_of ";" f = true.
Proof.
  cbv zeta. unfold buildFtsQueryVariants.
  set (trimmed := substring 0 MAX_QUERY_LENGTH (Js.trim query)).
  destruct trimmed as [|c0 t0] eqn:Et.
  { cbn. repeat split; discriminate. }
  rewrite <- Et. clear Et.
  destruct (EXPLICIT_FTS_SYNTAX trimmed).
  - set (normalised := substring 0 MAX_QUERY_LENGTH _).
    cbn [primary fallback].
    assert (F : free_of ";" normalised = true).
    { apply forallb_substring, forallb_remove_double_hyphens.
      apply forallb_filter_string. auto. }
    split; [|split; [|discriminate]].
    + destruct (Nat.odd (count_quotes normalised)) eqn:O; [|
        rewrite <- Nat.negb_odd, O; reflexivity].
      rewrite count_quotes_app. cbn [count_quotes].
      rewrite Ascii.eqb_refl, Nat.add_0_r, Nat.add_1_r, Nat.even_succ. exact O.
    + destruct (Nat.odd (count_quotes normalised)); [|exact F].
      rewrite free_of_app, F. reflexivity.
  - set (pieces := filter non_empty (split_spaces trimmed)).
    destruct (filter non_empty (map sanitiseToken pieces)) as [|t ts] eqn:T.
    { cbn. repeat split; discriminate. }
    rewrite <- T. cbn [primary fallback].
    assert (C : forall x, In x (filter non_empty (map sanitiseToken pieces)) ->
                          free_of Js.dquote x = true /\ free_of ";" x = true)
      by (intros x Hx; apply (tokens_clean _ _ Hx)).
    split; [|split].
    + rewrite (join_quotes " " _ 2); [apply even_double | reflexivity |].
      intros x Hx. apply in_map_iff in Hx. destruct Hx as (y & <- & Hy).
      rewrite count_quotes_app. unfold Js.quoted. cbn [count_quotes].
      rewrite count_quotes_app, (free_of_quote_count y) by apply (C y Hy).
      cbn [count_quotes]. rewrite Ascii.eqb_refl. reflexivity.
    + apply join_free; [reflexivity|].
      intros x Hx. apply in_map_iff in Hx. destruct Hx as (y & <- & Hy).
      rewrite free_of_app. unfold Js.quoted.
      change (free_of ";" (String Js.dquote (y ++ String Js.dquote EmptyString)))
        with (free_of ";" (y ++ String Js.dquote EmptyString)).
      rewrite free_of_app, (proj2 (C y Hy)). reflexivity.
    + intros f Hf. inversion Hf; subst f. clear Hf.
      split; (apply join_free; [reflexivity|]);
        intros x Hx; apply in_map_iff in Hx; destruct Hx as (y & <- & Hy);
        rewrite free_of_app; [rewrite (proj1 (C y Hy)) | rewrite (proj2 (C y Hy))];
        reflexivity.
Qed.

End FtsFacts.
(** ** The update checker *)

Section CheckUpdatesFacts.
Import Props CheckUpdates.

Lemma check_all_spec (localDocs : list string) (world : string -> head_outcome) :
  forall localIndex acc,
    check_all localDocs world localIndex acc
    = {| newActs :=
           app (newActs acc) (map hit (filter (fun e => negb (stored localDocs e)) localIndex));
         reachableActs :=
           app (reachableActs acc)
               (map hit (filter (fun e => stored localDocs e
                                          && checkActAvailability (world (urn e)))
                                localIndex));
         requested := app (requested acc) (map urn (filter (stored localDocs) localIndex)) |}.
Proof.
  induction localIndex as [|e l IH]; intros acc.
  - cbn. rewrite !app_nil_r. destruct acc; reflexivity.
  - cbn [check_all filter]. fold (stored localDocs e).
    destruct (stored localDocs e) eqn:K; cbn [negb andb]; rewrite IH; cbn [newActs reachableActs requested].
    + destruct (checkActAvailability (world (urn e))); cbn [map];
        rewrite <- ?app_assoc; reflexivity.
    + cbn [map]. rewrite <- ?app_assoc. reflexivity.
Qed.

(** X21.  The update checker asks the network only about the indexed acts
    that are stored, in the order of the index.  Its exit status is 1 when
    some indexed act is not stored and 0 otherwise: it does not depend on
    what the network answers, so the checker never reports a change of a
    stored act. *)
Theorem check_updates_exit (localDocs : list string)
        (world : string -> head_outcome) (localIndex : list LocalIndexEntry) :
  let out := main localDocs world localIndex in
  (fst out = 1 <-> exists e, In e localIndex /\ stored localDocs e = false)
  /\ (fst out = 0 <-> forall e, In e localIndex -> stored localDocs e = true)
  /\ newActs (snd out) = map hit (filter (fun e => negb (stored localDocs e)) localIndex)
  /\ requested (snd out) = map urn (filter (stored localDocs) localIndex)
  /\ reachableActs (snd out)
     = map hit (filter (fun e => stored localDocs e && checkActAvailability (world (urn e)))
                       localIndex)
  /\ forall world', fst (main localDocs world' localIndex) = fst out.
Proof.
  intros out. subst out. unfold main.
  assert (N : forall w,
             newActs (check_all localDocs w localIndex
                        {| newActs := []; reachableActs := []; requested := [] |})
             = map hit (filter (fun e => negb (stored localDocs e)) localIndex))
    by (intros w; rewrite check_all_spec; reflexivity).
  rewrite check_all_spec. cbn [newActs reachableActs requested app].
  destruct (filter (fun e => negb (stored localDocs e)) localIndex) as [|x xs] eqn:F;
    cbn [map fst snd newActs reachableActs requested].
  - assert (A : forall e, In e localIndex -> stored localDocs e = true).
    { intros e He. destruct (stored localDocs e) eqn:K; [reflexivity|].
      assert (Hin : In e (filter (fun e => negb (stored localDocs e)) localIndex))
        by (apply filter_In; rewrite K; auto).
      rewrite F in Hin. contradiction. }
    split; [|split; [|repeat split]].
    + split; [discriminate|]. intros (e & He & K). rewrite (A e He) in K.
      discriminate.
    + split; auto.
    + intros w. rewrite N. reflexivity.
  - assert (Hx : In x localIndex /\ stored localDocs x = false).
    { assert (Hin : In x (filter (fun e => negb (stored localDocs e)) localIndex))
        by (rewrite F; left; reflexivity).
      apply filter_In in Hin. destruct Hin as [H1 H2].
      apply negb_true_iff in H2. auto. }
    split; [|split; [|repeat split]].
    + split; eauto.
    + split; [discriminate|]. intros A. destruct Hx as [H1 H2].
      rewrite (A x H1) in H2. discriminate.
    + intros w. rewrite N. reflexivity.
Qed.

End CheckUpdatesFacts.
